(* ===== verification/_CoqProject ===== *)
-Q . S2P
Prelude.v
Consts.v
Util.v
Api.v
StorageLog.v
Interleave.v
LogInv.v
StorageLogSpec.v
Storage.v
StorageSpec.v
Dispatch.v
Network.v
NetworkSpec.v
Manager.v
ManagerSpec.v
Order.v
OrderSpec.v
EpochSpec.v
RecoverySpec.v
SubscriberLog.v
SubscriberLogSpec.v
Subscriber.v
SubscriberSpec.v
Client.v
ClientSpec.v
ClientAckSpec.v
LockService.v
LockSpec.v
System.v
SystemSpec.v
Cluster.v
ControlSpec.v
ClusterInv.v
ClusterSpec.v
ClusterLive.v
ClusterSound.v
ClusterDrain.v
ClusterServe.v
Readers.v
ReadersSpec.v
ReadersOrder.v
Main.v
MainSpec.v
