(* ===== verification/Prelude.v ===== *)
(** * ZipLog: verification library (root file)

    ZipLog is a shared log over RDMA.  Clients insert entries into shards; a shard is a group of
    storage servers (its replicas), each of which holds the whole shard; subscribers read the log.
    The ordering server orders entries in advance: every five milliseconds it starts an epoch,
    gives every client a number of slots, and every storage server the same list of assignments and
    the base of the epoch's global sequence numbers (GSNs).  The storage servers interleave the
    slots of the clients by the same deterministic schedule, so an insert gets its GSN without
    another round of communication; the client pays for the time that passes by closing the slots
    it does not use.  When a client fails, the ordering server freezes it at all the replicas,
    compares how far each has got, and rolls the differences forward.

    ** How the development corresponds to the code

    Sources are under [src/].  Every file with definitions is the model of one component; the
    file with the same name and [Spec] (or named in brackets) has its properties.

    - [Prelude] (this file): machine words with their wrap-around, the error monad [result], its
      automation ([inv_result], [unwrap]), lists and ordered maps.
    - [Consts]: [util/consts.h].
    - [Util]: [util/util.h], [util/util.cpp], [util/concurrent.h]: rounding, the iterator that wraps
      around, addresses, the bag and the queue between threads.
    - [Api]: [api/api.h]: the messages, their lengths and their bytes.
    - [StorageLog] ([Interleave], [LogInv], [StorageLogSpec]): [storage/log.h], [storage/log.cpp].
      The schedule of an epoch, the list of the slots of each client, a client's position, and the
      iterators of the subscriber threads; memory is a map from addresses to entries.
    - [Storage] ([StorageSpec]): [storage/storage.h], [storage/storage.cpp]: the handlers of the
      control and client threads and the rounds of the subscriber threads.
    - [Dispatch]: [util/switch.h]: from the bytes of a message to its handler.
    - [Network] ([NetworkSpec]): [network/send_queue.*], [network/recv_queue.*], [network/buffer.*]:
      where messages are put in the receiver's circular buffer and how they are received.
    - [Manager] ([ManagerSpec]): [network/manager.*]: buffers, receive buffers and the handshake by
      which two managers connect.
    - [Order] ([OrderSpec], [EpochSpec], [RecoverySpec]): [order/order.*] and the accept loop of
      [order/main.cpp]: the public operations, the message handlers and the two timers.
    - [SubscriberLog] ([SubscriberLogSpec]): [subscriber/log.*]: the log that the polling threads
      fill, the application threads read, and whose blocks are recycled.
    - [Subscriber] ([SubscriberSpec]): [subscriber/subscriber.*]: the polling, processing and
      control threads.
    - [Client] ([ClientSpec], [ClientAckSpec]): [client/client.*]: the loop that paces inserts over
      the slots of an epoch, counts acknowledgements and estimates the rate (in IEEE doubles).
    - [LockService] ([LockSpec]): [lock_service/lock_service.*]: locks replicated over the log, and
      the system of the processes that use them.
    - [System] ([SystemSpec]): the composition of a client, the storage servers of its shard and a run
      of the ordering server, with queues between them.
    - [Cluster] ([ControlSpec], [ClusterInv], [ClusterSpec], [ClusterLive], [ClusterSound], [ClusterDrain],
      [ClusterServe]): that system with the ordering server as a party of its own, and the queues between
      it, the storage servers and the client.
    - [Readers] ([ReadersSpec], [ReadersOrder]): the composition of [System] together with the subscriber threads of its storage
      servers and the polling, control and application threads of the subscribers.
    - [Main] ([MainSpec]): what [storage/main.cpp], [client/main.cpp], [subscriber/main.cpp] and
      [lock_service/main.cpp] do with the libraries; the load generator with the client's loop.

    A class is a record of its members (and, for a thread, of the local variables of its loop); a
    method, lambda or handler is a function from the state to [result]: the new state and what was
    sent, or how it failed ([AssertFailed] for the [ZIP_ASSERT] macros, [Undefined] for behaviour
    the language leaves undefined, [Spins], [Waits], [Thrown]).  Integers are [Z] with [wrap64] and
    the like where the code's type wraps around.  [std::unordered_map] is [gmap], [std::map] a list
    sorted by key, pointers are addresses into an explicit memory.  Handlers that hold a lock for
    their whole body are single steps; the threads of a component interleave by sequences of
    steps, and components interact by the messages that the steps exchange.  The verbs library
    and the manager's connections are parameters of the definitions that use them, the former with
    its own state ([Network.Verbs], [Network.SharedRecv]) and its documented behaviour as laws
    ([NetworkSpec.HealthyVerbs], [HealthyRecv]).  Where the code reads what the language leaves
    open, the value is an argument: the uninitialized member of the subscriber's iterators (which
    has to be at most 2 for what is proved of the log) and the removed element of a lock's list (of
    which nothing is assumed).

    ** What the theorems show

    - End to end: whatever the interleaving of a client, the replicas of its shard and the ordering
      server, with other clients, failures, recovery and farewells, a response that the application
      reads is a GSN at which more than [failures] replicas hold the request
      ([ClusterSpec.cluster_durable]).  The proof has two parts.  [SystemSpec.responses_durable] says
      so of a client and the replicas, given the epochs that a run of the ordering server sends and
      that a replica patches and finalizes only clients it has disconnected: it composes the
      refinement of the client's counting ([ClientAckSpec.step_refines]), the effect of every handler
      of a storage server ([StorageSpec.handle_effect]) and the delivery of epochs
      ([EpochSpec.slots_sent_run]) by one invariant ([SystemSpec.sys_ok]).  The invariant of the
      cluster ([ClusterInv.cluster_ok]) discharges those guards from the handlers of the ordering server
      and the farewells of the client, and every run of the cluster contains a run of the system
      ([ClusterSpec.cluster_run_within]).  It also shows that the ordering server goes by final cuts
      ([ClusterSpec.recovery_final]), and that a recovery ends ([ClusterDrain.recovery_ends]): while a
      client is suspected the question to a replica or its answer is on the way ([ClusterLive.live]),
      a replica handles whatever the ordering server sends it except a FREEZE of a client it waits for
      or a patch ([ClusterSound.control_handled]), and every delivery, in whatever order they come,
      lowers the stages of the clients or, those being equal, the messages on the way, so that there
      is no infinite sequence of them.  And a replica that has taken the epochs on the way
      to it serves the client's requests ([ClusterServe.requests_served]): what the client is told of
      is accounted for, message by message, against the slots it owns in the log
      ([ClusterServe.accounted]).  What is left to the environment: the application leaves buffers
      alone that wait to be sent, the storage servers connect before the clients, their addresses
      lead to them, and integers are far from overflowing.
    - Readers: what the application threads of the subscribers read of the client is what it wrote, at
      the GSNs of its responses, and empty entries at the GSNs it left unused, and all subscribers agree
      ([ReadersSpec.reads_match_responses]).  There the client may fail at any time, but must end
      as the ordering server sees to it ([Readers.orderly]): a replica finalizes it after all
      replicas have disconnected it with the same number of acknowledgements.  Runs that patch its
      log are left out, because the handler that patches is wrong
      ([StorageSpec.patch_uses_gsn_as_count]).
      In the same system every application thread reads the GSNs that are its own, in order and
      without a gap, and each is an entry of the client that the epochs give it
      ([ReadersOrder.subscribers_deliver_in_order]): with the above, all subscribers deliver the
      same log.  The proof follows the place of a slot through the storage thread that posts it,
      the receive queue it is posted to and the position at which it is inserted
      ([ReadersOrder.routed], [placed]), and reduces the subscriber to the interleavings of
      [SubscriberLogSpec.act].
    - Order and agreement: an epoch partitions its GSNs among the clients and the shards
      ([EpochSpec.gsns_partitioned]), every connected server and client is told of every epoch
      ([epochs_delivered]), the interleaving is exact and balanced ([Interleave]), the log refines
      the list of the slots ([StorageLogSpec.add_entries_spec]), and the replicas of a shard give the
      same GSNs to the same inserts ([EpochSpec.shard_agrees]).
    - Durability: what was acknowledged stays in the log ([StorageSpec.acknowledged_durable]).
    - Clients: they keep to their slots and to the schedule, never fault with a fixed rate, answer
      requests by a quorum ([ClientAckSpec.acks_form_a_quorum]) and end after a farewell to everyone;
      the load generator reuses a buffer only when its request has been answered
      ([MainSpec.buffers_reused_after_answer]).
    - Subscribers: entries are delivered once, complete, by a quorum and in the order of their
      stream ([SubscriberSpec.poll_delivers], [SubscriberLogSpec.log_delivers]), the reader makes
      progress, and the control thread ends.
    - Failures: a frozen client is final ([StorageSpec.freeze_final]), recovery decides and rolls
      forward ([RecoverySpec]), suspected clients, and no others, get neither slots nor heartbeats,
      and finalizing a client sets the slots it left, empty ([StorageSpec.finalize_sets_all]).
    - Network: placements do not overlap, what is sent is received, buffers are handed out once, a
      handshake connects both sides; messages and handshakes survive encoding and decoding.
    - Locks: mutual exclusion of the whole system, in the order of the log, in every run without a
      fault; the faults are those of the dangling reference and pointer of a release ([LockSpec]).
    - Termination: the loops of the storage log end on every input
      ([StorageLogSpec.log_loops_terminate]).
    - Flaws of the code are theorems, too, about concrete states where it misbehaves:
      [patch_uses_gsn_as_count], [decision_misses_divergence], [sequential_threads_collide],
      [placements_overlap], [destroy_frees_live_buffer], [failed_handshake_leaks],
      [uninitialized_overruns], [clock_back_overruns], [release_stores_to_dead_flag],
      [small_payloads_fail], [throughput_divides_by_zero], [no_latencies], [late_subscriber_waits],
      [freeze_waits], [request_outruns_epoch].

    ** Bounds and fuel

    The loops of the storage log take as fuel the number of entries of the log plus one, which is
    more than any client has ([entries_fuel_enough]); [fill_free_list] and [chain] take the
    number of buffers and of receive requests.  Hypotheses bound what the code does not check: fewer
    than 2^48 slots per shard and epoch, GSNs below 2^62, fewer than 2^64 calls.

    ** Not modelled

    The destructors that only free memory; starting, pinning and joining of threads; the clock,
    signals, option parsing, histograms and log lines; the set-up of devices and sockets.  Memory
    orders are taken to be sequentially consistent for the counters that threads publish through.
    Memory from [allocate_huge_page] is taken to be zero, which the code relies on and does not
    establish.  The libraries under [src/deps] are third-party code. *)
From stdpp Require Export prelude gmap strings list fin_maps sorting.
From Stdlib Require Export ZArith Lia.

#[global] Open Scope Z_scope.

(** ** Machine words *)

(** [2^64] and the largest [uint64_t], which the code uses as "none". *)
Abbreviation W64 := 18446744073709551616.
Abbreviation I64 := 9223372036854775808.
Definition UINT64_MAX : Z := 18446744073709551615.

(** Wrap-around of [uint64_t]/[unsigned long], of [uint32_t] and of [long long]. *)
Definition wrap64 (z : Z) : Z := z `mod` W64.
Definition wrap32 (z : Z) : Z := z `mod` 4294967296.
Definition swrap64 (z : Z) : Z := (z + I64) `mod` W64 - I64.

#[global] Arguments wrap64 : simpl never.
#[global] Arguments wrap32 : simpl never.
#[global] Arguments swrap64 : simpl never.

(** [z] is the value of a [uint64_t]. *)
Definition is_u64 (z : Z) : Prop := 0 <= z < W64.

Lemma wrap64_small z : 0 <= z < W64 -> wrap64 z = z.
Proof. intros. unfold wrap64. by apply Z.mod_small. Qed.

Lemma wrap64_range z : 0 <= wrap64 z < W64.
Proof. unfold wrap64. by apply Z.mod_pos_bound. Qed.

(** Decrementing zero wraps around. *)
Lemma wrap64_pred_0 : wrap64 (0 - 1) = UINT64_MAX.
Proof. reflexivity. Qed.

Lemma wrap32_small z : 0 <= z < 4294967296 -> wrap32 z = z.
Proof. intros. unfold wrap32. by apply Z.mod_small. Qed.

Lemma swrap64_small z : - I64 <= z < I64 -> swrap64 z = z.
Proof. intros. unfold swrap64. rewrite Z.mod_small; lia. Qed.

Create Rewrite HintDb word.
#[export] Hint Rewrite wrap64_small wrap32_small swrap64_small using lia : word.

(** Removes the wrap-arounds that the context shows not to happen. *)
Ltac unwrap := autorewrite with word in *.

(** ** Results

    A call either returns, terminates the process through one of the [ZIP_ASSERT]
    macros (which call [std::exit]), spins without end, waits on a condition variable, or has
    undefined behaviour (a null or dangling pointer, an index out of range, a division by
    zero), or throws an exception that nothing catches. *)
Inductive fault :=
| AssertFailed
| Spins
| Waits
| Undefined
| Thrown.

Inductive result (A : Type) :=
| Ok (a : A)
| Err (f : fault).
Arguments Ok {A} a.
Arguments Err {A} f.

#[export] Instance fault_eq_dec : EqDecision fault.
Proof. solve_decision. Defined.

#[export] Instance result_ret : MRet result := fun A a => Ok a.
#[export] Instance result_bind : MBind result := fun A B f m =>
  match m with Ok a => f a | Err e => Err e end.

(** [ZIP_ASSERT(condition, ...)]. *)
Definition zip_assert (b : bool) : result unit := if b then Ok () else Err AssertFailed.

(** A pointer or an index the language requires to be valid. *)
Definition deref {A} (o : option A) : result A :=
  match o with Some a => Ok a | None => Err Undefined end.

(** [ZIP_ASSERT_NOT_NULL]. *)
Definition assert_not_null {A} (o : option A) : result A :=
  match o with Some a => Ok a | None => Err AssertFailed end.

Lemma bind_Ok {A B} (f : A -> result B) a : (Ok a ≫= f) = f a.
Proof. done. Qed.

Lemma bind_inv {A B} (m : result A) (f : A -> result B) b :
  (m ≫= f) = Ok b -> exists a, m = Ok a /\ f a = Ok b.
Proof. destruct m; simpl; [eauto | discriminate]. Qed.

Lemma zip_assert_inv b u : zip_assert b = Ok u -> b = true.
Proof. by destruct b. Qed.

Lemma deref_inv {A} (o : option A) a : deref o = Ok a -> o = Some a.
Proof. destruct o; simpl; congruence. Qed.

Lemma assert_not_null_inv {A} (o : option A) a : assert_not_null o = Ok a -> o = Some a.
Proof. destruct o; simpl; congruence. Qed.

(** Splits the hypothesis that a call returned into the results of the calls it made. *)
Ltac inv_result :=
  repeat match goal with
  | H : Ok _ = Ok _ |- _ => injection H as H; try subst
  | H : Err _ = Ok _ |- _ => discriminate H
  | H : (_ ≫= _) = Ok _ |- _ =>
    let a := fresh "r" in let E := fresh "E" in apply bind_inv in H as (a & E & H)
  | H : zip_assert _ = Ok _ |- _ => apply zip_assert_inv in H
  | H : deref _ = Ok _ |- _ => apply deref_inv in H
  | H : assert_not_null _ = Ok _ |- _ => apply assert_not_null_inv in H
  | p : (_ * _)%type |- _ => destruct p; cbn [fst snd] in *
  | H : context [match (_, _) with _ => _ end] |- _ => cbn beta iota in H
  end.

Lemma bind_assoc {A B C} (m : result A) (f : A -> result B) (g : B -> result C) :
  ((m ≫= f) ≫= g) = (m ≫= fun a => f a ≫= g).
Proof. by destruct m. Qed.

(** A fold that stops at the first fault. *)
Fixpoint mfold {A S} (f : A -> S -> result S) (l : list A) (s : S) : result S :=
  match l with
  | [] => Ok s
  | a :: l => s ← f a s; mfold f l s
  end.

Lemma mfold_app {A S} (f : A -> S -> result S) l1 l2 s :
  mfold f (l1 ++ l2) s = (mfold f l1 s ≫= mfold f l2).
Proof. revert s. induction l1 as [|a l1 IH]; intros s; simpl; [done|]. destruct (f a s); simpl; auto. Qed.

(** ** Lists *)

Lemma Forall_lookup_Z {A} (P : A -> Prop) l i x : Forall P l -> l !! i = Some x -> P x.
Proof. intros H. by apply Forall_lookup_1. Qed.

Lemma lookup_snoc {A} (l : list A) x i :
  (l ++ [x]) !! i = if decide (i = length l) then Some x else l !! i.
Proof.
  case_decide as Hi.
  - subst. by rewrite lookup_app_r, Nat.sub_diag by lia.
  - destruct (decide (i < length l)%nat).
    + by rewrite lookup_app_l by lia.
    + rewrite !lookup_ge_None_2; [done| |rewrite length_app; simpl]; lia.
Qed.

(** Sum of a list of integers. *)
Definition zsum (l : list Z) : Z := foldr Z.add 0 l.

Lemma zsum_app l1 l2 : zsum (l1 ++ l2) = zsum l1 + zsum l2.
Proof. induction l1 as [|x l1 IH]; simpl; lia. Qed.

Lemma zsum_fmap_cons {A} (f : A -> Z) a l : zsum (f <$> a :: l) = f a + zsum (f <$> l).
Proof. done. Qed.

Lemma zsum_nonneg l : Forall (fun x => 0 <= x) l -> 0 <= zsum l.
Proof. induction 1; simpl; lia. Qed.

Lemma filter_all {A} (P : A -> Prop) `{forall x, Decision (P x)} (l : list A) : Forall P l -> filter P l = l.
Proof. induction 1 as [|x l Hx Hl IH]; [done|]. by rewrite filter_cons, decide_True, IH by done. Qed.

(** ** Ordered maps

    [std::map] from [uint64_t], as the list of its elements in the order of their keys. *)
Fixpoint smap_find {A} (k : Z) (m : list (Z * A)) : option A :=
  match m with
  | [] => None
  | (k', a) :: m => if k =? k' then Some a else smap_find k m
  end.

(** [m.try_emplace(k, a)], and [m[k] = a] for a new key. *)
Fixpoint smap_insert {A} (k : Z) (a : A) (m : list (Z * A)) : list (Z * A) :=
  match m with
  | [] => [(k, a)]
  | (k', a') :: m' =>
    if k <? k' then (k, a) :: m
    else if k =? k' then m
    else (k', a') :: smap_insert k a m'
  end.

Lemma smap_insert_elem {A} k a (m : list (Z * A)) x :
  smap_find k m = None -> x ∈ smap_insert k a m <-> x = (k, a) \/ x ∈ m.
Proof.
  induction m as [|[k' a'] m IH]; simpl; [set_solver|].
  destruct (Z.eqb_spec k k') as [|Hne]; [done|]. intros Hf.
  destruct (k <? k'); [set_solver|]. rewrite !elem_of_cons, IH by done. tauto.
Qed.

Lemma length_smap_insert {A} k a (m : list (Z * A)) :
  smap_find k m = None -> length (smap_insert k a m) = S (length m).
Proof.
  induction m as [|[k' a'] m IH]; simpl; [done|].
  destruct (Z.eqb_spec k k') as [|Hne]; [done|]. intros Hf. destruct (k <? k'); simpl; [done|]. by rewrite IH.
Qed.

(** The keys are in strictly increasing order. *)
Definition smap_sorted {A} (m : list (Z * A)) : Prop := StronglySorted Z.lt m.*1.

Lemma smap_sorted_NoDup {A} (m : list (Z * A)) : smap_sorted m -> NoDup m.*1.
Proof.
  unfold smap_sorted. induction 1 as [|k l _ IH Hk]; constructor; [|done].
  intros Hin. rewrite Forall_forall in Hk. specialize (Hk k Hin). lia.
Qed.

Lemma smap_find_sorted {A} k a (m : list (Z * A)) : smap_sorted m -> smap_find k m = Some a <-> (k, a) ∈ m.
Proof.
  induction m as [|[k' a'] m IH]; simpl; [set_solver|]. intros Hs. apply StronglySorted_inv in Hs as [Hs Hlt].
  rewrite elem_of_cons. destruct (Z.eqb_spec k k') as [->|Hne].
  - split; [intros [= ->]; by left|]. intros [[= ->]|Hin]; [done|].
    rewrite Forall_forall in Hlt. specialize (Hlt k' (list_elem_of_fmap_2' fst m (k', a) k' Hin eq_refl)). simpl in Hlt. lia.
  - rewrite IH by done. naive_solver.
Qed.

Lemma smap_insert_sorted {A} k a (m : list (Z * A)) : smap_sorted m -> smap_sorted (smap_insert k a m).
Proof.
  unfold smap_sorted. induction m as [|[k' a'] m IH]; simpl; intros Hs; [by repeat constructor|].
  pose proof Hs as Hs0. apply StronglySorted_inv in Hs as [Hs Hlt].
  destruct (Z.ltb_spec k k'); [|destruct (Z.eqb_spec k k'); [done|]]; simpl.
  - constructor; [done|]. constructor; [done|]. eapply Forall_impl; [exact Hlt|]. intros; simpl in *; lia.
  - constructor; [by apply IH|].
    assert (forall x, x ∈ (smap_insert k a m).*1 -> x = k \/ x ∈ m.*1) as Hin.
    { clear. induction m as [|[k' a'] m IH]; simpl; [set_solver|].
      intros x. destruct (k <? k'); simpl; [set_solver|]. destruct (k =? k'); simpl; set_solver. }
    rewrite Forall_forall in Hlt |- *. intros x [->|Hx]%Hin; [lia|by apply Hlt].
Qed.
