(* ===== verification/Consts.v ===== *)
(** * Constants of the program ([src/util/consts.h])

    The compile-time constants the other components use, with the sizes of the packed
    messages they are computed from ([src/api/api.h]). *)
From S2P Require Import Prelude.

(** [HUGE_PAGE_SIZE], [SEND_BUFFER_SIZE] and [RECEIVE_BUFFER_SIZE], in bytes. *)
Definition HUGE_PAGE_SIZE : Z := Z.shiftl 1 21.
Definition SEND_BUFFER_SIZE : Z := Z.shiftl 1 11.
Definition RECEIVE_BUFFER_SIZE : Z := Z.shiftl 1 18.

(** The constants of [namespace rdma]. *)
Definition MAX_OUTSTANDING_REQUESTS : Z := RECEIVE_BUFFER_SIZE / SEND_BUFFER_SIZE.
Definition MAX_INLINE_DATA : Z := 192.
Definition MAX_RECEIVE_REQUESTS : Z := 64.
Definition RECEIVE_BATCH_SIZE : Z := 8.
Definition MESSAGE_ALIGNMENT : Z := 64.
Definition MAX_QUEUE_PAIRS : Z := 2048.

Definition NUM_SHARDS : Z := 1.
Definition MAX_REPLICAS : Z := 10.
Definition NUM_ENTRIES_PER_BLOCK : Z := 1024 * 256.

(** [sizeof] of the packed structs that bound a message: the message type is a
    [uint64_t], and a flexible array member takes no space. *)
Definition SIZEOF_MESSAGE : Z := 8.
Definition SIZEOF_STORAGE_SLOTS : Z := SIZEOF_MESSAGE + 2 * 8.
Definition SIZEOF_ASSIGNMENT : Z := 2 * 8.
Definition SIZEOF_SUBSCRIBER_LOG_ENTRY : Z := SIZEOF_MESSAGE + 6 * 8.

Definition MAX_PAYLOAD : Z := SEND_BUFFER_SIZE - SIZEOF_SUBSCRIBER_LOG_ENTRY.
Definition MAX_CLIENTS : Z := (SEND_BUFFER_SIZE - SIZEOF_STORAGE_SLOTS) / SIZEOF_ASSIGNMENT.

(** [EPOCH_DURATION] (5 ms) and [HEARTBEAT_INTERVAL] (300 us) in nanoseconds, the tick
    of [high_resolution_clock]. *)
Definition EPOCH_DURATION : Z := 5 * 1000000.
Definition HEARTBEAT_INTERVAL : Z := 300 * 1000.
Definition MIN_SLOTS : Z := 100.
Definition DEFAULT_PORT : Z := 6666.

(** The values the code's own [static_assert]s and comments rely on. *)
Lemma max_outstanding_requests_value : MAX_OUTSTANDING_REQUESTS = 128.
Proof. reflexivity. Qed.

Lemma max_clients_value : MAX_CLIENTS = 126.
Proof. reflexivity. Qed.

Lemma max_payload_value : MAX_PAYLOAD = 1992.
Proof. reflexivity. Qed.

Lemma num_entries_per_block_pos : 0 < NUM_ENTRIES_PER_BLOCK.
Proof. reflexivity. Qed.
