(* ===== verification/Util.v ===== *)
(** * Utilities ([src/util/util.h], [src/util/util.cpp], [src/util/concurrent.h])

    Rounding up, the iterator that wraps around a container, the parsing of an address, the
    bag that many threads read and the queue between two threads.  The atomic counters make an
    [add]/[enqueue] and a [get]/[dequeue] atomic with respect to each other, so the two
    containers are modelled as state machines with one step per call. *)
From Stdlib Require Import Ascii String.
From S2P Require Import Prelude Consts.

(** ** [align] *)

(** [~x] on [unsigned long]. *)
Definition lnot64 (x : Z) : Z := UINT64_MAX - x.

(** [align<N>] for a power of two. *)
Definition align_pow2 (N v : Z) : Z :=
  wrap64 (Z.land (wrap64 (v - 1)) (lnot64 (wrap64 (N - 1))) + N).

(** [align<N>] for any other [N]. *)
Definition align_any (N v : Z) : Z :=
  wrap64 (N * (wrap64 (wrap64 (v + N) - 1) / N)).

(** ** [wraparound_iterator]

    The iterator is the index of the element it points to, the size of the container being
    its end. *)
Record wraparound_iterator := WraparoundIterator { wi_size : nat; wi_iterator_ : nat }.

Definition wraparound_init (size : nat) : wraparound_iterator := WraparoundIterator size size.

(** [get_and_increment]: the index of the element that is returned. *)
Definition get_and_increment (w : wraparound_iterator) : result (nat * wraparound_iterator) :=
  let i := if decide (wi_iterator_ w = wi_size w) then 0%nat else wi_iterator_ w in
  if decide (i = wi_size w) then Err Undefined
  else Ok (i, WraparoundIterator (wi_size w) (S i)).

(** ** [split_address] *)

(** [std::stoi]: white space, a sign, then at least one digit; the rest is ignored. *)
Definition is_space (c : ascii) : bool :=
  let n := Z.of_nat (nat_of_ascii c) in (n =? 32) || ((9 <=? n) && (n <=? 13)).
Definition digit (c : ascii) : option Z :=
  let n := Z.of_nat (nat_of_ascii c) in if (48 <=? n) && (n <=? 57) then Some (n - 48) else None.

Fixpoint skip_spaces (s : string) : string :=
  match s with
  | String c s' => if is_space c then skip_spaces s' else s
  | EmptyString => EmptyString
  end.

Fixpoint digits (acc : option Z) (s : string) : option Z :=
  match s with
  | String c s' =>
    match digit c with
    | Some d => digits (Some (10 * default 0 acc + d)) s'
    | None => acc
    end
  | EmptyString => acc
  end.

Definition stoi (s : string) : result Z :=
  let s := skip_spaces s in
  let v := match s with
           | String "-" s' => Z.opp <$> digits None s'
           | String "+" s' => digits None s'
           | _ => digits None s
           end in
  match v with
  | None => Err Thrown (* std::invalid_argument *)
  | Some v => if (- 2147483648 <=? v) && (v <=? 2147483647) then Ok v else Err Thrown (* std::out_of_range *)
  end.

(** [address.find(':')]. *)
Fixpoint find_colon (s : string) : option nat :=
  match s with
  | EmptyString => None
  | String c s' => if Ascii.eqb c ":" then Some 0%nat else S <$> find_colon s'
  end.

(** [split_address]; the port is converted to [uint16_t]. *)
Definition split_address (address : string) : result (string * Z) :=
  match find_colon address with
  | Some index =>
    port ← stoi (String.substring (S index) (String.length address) address);
    Ok (String.substring 0 index address, port `mod` 65536)
  | None => Ok (address, DEFAULT_PORT)
  end.

(** ** The class [bag] and its readers *)

Section containers.
Context {T : Type}.

(** The list is only appended to, so an iterator is an index. *)
Record bag := Bag { bag_list_ : list T; bag_num_elements_ : Z }.
Record bag_reader := BagReader { br_num_polled_ : Z; br_iterator_ : nat }.

Definition bag_init : bag := Bag [] 0.
Definition bag_reader_init : bag_reader := BagReader 0 0.

Definition bag_add (e : T) (b : bag) : bag :=
  Bag (bag_list_ b ++ [e]) (wrap64 (bag_num_elements_ b + 1)).

Definition bag_get (r : bag_reader) (b : bag) : result (option T * bag_reader) :=
  if br_num_polled_ r <? bag_num_elements_ b then
    let it := if br_num_polled_ r =? 0 then 0%nat else S (br_iterator_ r) in
    e ← deref (bag_list_ b !! it);
    Ok (Some e, BagReader (wrap64 (br_num_polled_ r + 1)) it)
  else Ok (None, r).

(** ** The class [queue]

    The consumer's iterator stays on the element it returned last, which [erase] removes when
    the next one is taken; it is an index into the elements still in the list. *)
Record queue := Queue {
  queue_ : list T;
  num_enqueued_ : Z;
  q_num_polled_ : Z;
  q_iterator_ : nat }.

Definition queue_init : queue := Queue [] 0 0 0.

Definition enqueue (e : T) (q : queue) : queue :=
  Queue (queue_ q ++ [e]) (wrap64 (num_enqueued_ q + 1)) (q_num_polled_ q) (q_iterator_ q).

Definition dequeue (q : queue) : result (option T * queue) :=
  if q_num_polled_ q <? num_enqueued_ q then
    let polled := wrap64 (q_num_polled_ q + 1) in
    '(l, it) ← (if q_num_polled_ q =? 0 then Ok (queue_ q, 0%nat)
                else if decide (q_iterator_ q < List.length (queue_ q))%nat
                     then Ok (delete (q_iterator_ q) (queue_ q), q_iterator_ q) else Err Undefined);
    e ← deref (l !! it);
    Ok (Some e, Queue l (num_enqueued_ q) polled it)
  else Ok (None, q).
End containers.
Arguments bag : clear implicits.
Arguments queue : clear implicits.

(** ** Properties *)

(** The least multiple of [N] that is not below [v]. *)
Definition round_up (N v : Z) : Z := N * ((v + N - 1) / N).

Lemma round_up_bounds N v : 0 < N -> v <= round_up N v < v + N /\ round_up N v `mod` N = 0.
Proof.
  intros HN. unfold round_up. pose proof (Z.div_mod (v + N - 1) N ltac:(lia)).
  pose proof (Z.mod_pos_bound (v + N - 1) N HN). split; [lia|].
  rewrite Z.mul_comm. by apply Z.mod_mul; lia.
Qed.

Lemma lnot64_ones k : 0 <= k <= 64 -> lnot64 (2 ^ k - 1) = Z.shiftl (Z.ones (64 - k)) k.
Proof.
  intros Hk. unfold lnot64. rewrite Z.ones_equiv, Z.shiftl_mul_pow2, Z.mul_pred_l, <- Z.pow_add_r by lia.
  replace (64 - k + k) with 64 by lia. change (2 ^ 64) with W64. unfold UINT64_MAX. lia.
Qed.

Lemma land_lnot64 k x : 0 <= k <= 64 -> is_u64 x -> Z.land x (lnot64 (2 ^ k - 1)) = 2 ^ k * (x / 2 ^ k).
Proof.
  intros Hk [Hx0 Hx]. rewrite lnot64_ones by done.
  transitivity (Z.ldiff x (Z.ones k)).
  2:{ rewrite Z.ldiff_ones_r, Z.shiftl_mul_pow2, Z.shiftr_div_pow2 by lia. lia. }
  apply Z.bits_inj'. intros i Hi. rewrite Z.land_spec, Z.ldiff_spec, Z.shiftl_spec, !Z.testbit_ones by lia.
  assert (64 <= i -> Z.testbit x i = false) as Hbig.
  { intros. destruct (decide (x = 0)) as [->|]; [apply Z.testbit_0_l|].
    apply Z.bits_above_log2; [done|]. apply Z.lt_le_trans with 64; [|done].
    apply Z.log2_lt_pow2; [lia|]. exact Hx. }
  destruct (Z.testbit x i) eqn:E; [|done]. cbn [andb].
  assert (i < 64) by (destruct (decide (i < 64)); [done|]; specialize (Hbig ltac:(lia)); congruence).
  destruct (Z.leb_spec 0 (i - k)), (Z.ltb_spec (i - k) (64 - k)), (Z.leb_spec 0 i), (Z.ltb_spec i k); simpl; done || lia.
Qed.

Lemma align_pow2_round_up k v : 0 <= k < 64 -> 0 <= v -> v + 2 ^ k <= W64 -> align_pow2 (2 ^ k) v = wrap64 (round_up (2 ^ k) v).
Proof.
  intros Hk Hv Hb. unfold align_pow2, round_up. pose proof (Z.pow_pos_nonneg 2 k ltac:(lia) ltac:(lia)) as Hp.
  assert (2 ^ k < W64) by (change W64 with (2 ^ 64); apply Z.pow_lt_mono_r; lia).
  rewrite (wrap64_small (2 ^ k - 1)), land_lnot64 by (lia || apply wrap64_range).
  destruct (decide (v = 0)) as [->|].
  - rewrite wrap64_pred_0. replace ((0 + 2 ^ k - 1) / 2 ^ k) with 0 by (rewrite Z.div_small; lia).
    rewrite Z.mul_0_r.
    assert (2 ^ k * (UINT64_MAX / 2 ^ k) + 2 ^ k = W64) as ->; [|done].
    replace UINT64_MAX with ((2 ^ (64 - k) - 1) * 2 ^ k + (2 ^ k - 1)).
    + rewrite Z.div_add_l, (Z.div_small (2 ^ k - 1)) by lia.
      replace W64 with (2 ^ (64 - k) * 2 ^ k); [lia|]. rewrite <- Z.pow_add_r by lia. by replace (64 - k + k) with 64 by lia.
    + replace UINT64_MAX with (2 ^ (64 - k) * 2 ^ k - 1); [lia|]. rewrite <- Z.pow_add_r by lia.
      by replace (64 - k + k) with 64 by lia.
  - rewrite (wrap64_small (v - 1)) by lia. replace (v + 2 ^ k - 1) with (v - 1 + 1 * 2 ^ k) by lia.
    rewrite Z.div_add by lia. f_equal. lia.
Qed.

(** C37: rounding up.  Both overloads of [align] return the least multiple of their template
    argument that is not below the value, as long as that does not overflow. *)
Theorem align_least N v :
  0 < N -> 0 <= v -> v + N <= W64 - 1 ->
  (forall k, 0 <= k < 64 -> N = 2 ^ k -> align_pow2 N v = align_any N v) /\
  v <= align_any N v < v + N /\ align_any N v `mod` N = 0.
Proof.
  intros HN Hv Hb. assert (align_any N v = round_up N v) as E.
  { unfold align_any, round_up. pose proof (round_up_bounds N v HN) as [? _]. unfold round_up in *.
    rewrite (wrap64_small (v + N)), (wrap64_small (v + N - 1)), wrap64_small by lia. done. }
  rewrite E. split; [|by apply round_up_bounds].
  intros k Hk ->. rewrite align_pow2_round_up by lia.
  pose proof (round_up_bounds (2 ^ k) v HN) as [? _]. by rewrite wrap64_small by lia.
Qed.

Lemma align_least_witness :
  (forall k, 0 <= k < 64 -> 64 = 2 ^ k -> align_pow2 64 100 = align_any 64 100) /\
  100 <= align_any 64 100 < 100 + 64 /\ align_any 64 100 `mod` 64 = 0.
Proof. apply (align_least 64 100); [reflexivity|discriminate|discriminate]. Defined.

(** [n] calls of [get_and_increment]. *)
Fixpoint get_many (n : nat) (w : wraparound_iterator) : result (list nat * wraparound_iterator) :=
  match n with
  | O => Ok ([], w)
  | S n => '(i, w) ← get_and_increment w; '(ixs, w) ← get_many n w; Ok (i :: ixs, w)
  end.

(** The next element is number [i] in the cycle. *)
Definition at_cycle (w : wraparound_iterator) (size i : nat) : Prop :=
  wi_size w = size /\ (0 < size)%nat /\ (wi_iterator_ w <= size)%nat /\ (wi_iterator_ w `mod` size = i `mod` size)%nat.

Lemma get_and_increment_cycle w size i :
  at_cycle w size i -> exists w', get_and_increment w = Ok ((i `mod` size)%nat, w') /\ at_cycle w' size (S i).
Proof.
  intros (Hs & Hp & Hle & Hi). unfold get_and_increment. rewrite Hs.
  set (j := if decide (wi_iterator_ w = size) then 0%nat else wi_iterator_ w).
  assert (j < size)%nat by (unfold j; case_decide; lia).
  assert (j = i `mod` size)%nat as Hj.
  { unfold j. case_decide as He; rewrite <- Hi; [rewrite He; by rewrite Nat.Div0.mod_same|by rewrite Nat.mod_small by lia]. }
  rewrite decide_False by lia. eexists. rewrite <- Hj. split; [done|].
  split_and!; simpl; [done|done|lia|]. replace (S j) with (j + 1)%nat by lia.
  rewrite Hj. replace (S i) with (i + 1)%nat by lia. by rewrite Nat.Div0.add_mod_idemp_l.
Qed.

(** Buffers are reused as late as possible.  The wrap-around iterator over [size] > 0
    elements never fails, its k-th call returns element [k mod size], and so any [size]
    consecutive calls return different elements: a buffer filled for one message is not handed
    out again for the next [size - 1] messages. *)
Theorem wraparound_cycles size n :
  (0 < size)%nat ->
  exists w ixs, get_many n (wraparound_init size) = Ok (ixs, w) /\ length ixs = n /\
    (forall k, (k < n)%nat -> ixs !! k = Some (k `mod` size)%nat) /\
    (forall j k, (j < k < n)%nat -> (k < j + size)%nat -> ixs !! j <> ixs !! k).
Proof.
  intros Hs.
  assert (forall n w i, at_cycle w size i -> exists w' ixs, get_many n w = Ok (ixs, w') /\ length ixs = n /\
    (forall k, (k < n)%nat -> ixs !! k = Some ((i + k) `mod` size)%nat)) as Hgen.
  { clear n. induction n as [|n IH]; intros w i Hw; cbn [get_many].
    { exists w, []. split_and!; [done|done|lia]. }
    destruct (get_and_increment_cycle _ _ _ Hw) as (w1 & E & Hw1). rewrite E. cbn [mbind result_bind].
    destruct (IH _ _ Hw1) as (w' & ixs & E' & Hl & His). rewrite E'. cbn [mbind result_bind].
    eexists _, _. split; [done|]. split; [simpl; lia|]. intros [|k] Hk; simpl; [by rewrite Nat.add_0_r|].
    rewrite His by lia. f_equal. f_equal. lia. }
  destruct (Hgen n (wraparound_init size) 0%nat) as (w & ixs & E & Hl & His).
  { split_and!; simpl; [done|done|lia|by rewrite Nat.Div0.mod_same, Nat.Div0.mod_0_l]. }
  exists w, ixs. split_and!; [done..|]. intros j k Hjk Hk. rewrite !His by lia. cbn [Nat.add]. intros He%(inj Some).
  pose proof (Nat.div_mod j size ltac:(lia)). pose proof (Nat.div_mod k size ltac:(lia)).
  assert (j / size <= k / size)%nat by (apply Nat.Div0.div_le_mono; lia).
  destruct (decide (k / size = j / size)%nat) as [Hq|]; [rewrite Hq in *; lia|].
  assert (size * (j / size) + size <= size * (k / size))%nat by nia. lia.
Qed.

Lemma wraparound_cycles_witness :
  exists w ixs, get_many 7 (wraparound_init 3) = Ok (ixs, w) /\ length ixs = 7%nat /\
    (forall k, (k < 7)%nat -> ixs !! k = Some (k `mod` 3)%nat) /\
    (forall j k, (j < k < 7)%nat -> (k < j + 3)%nat -> ixs !! j <> ixs !! k).
Proof. apply (wraparound_cycles 3 7). lia. Defined.

(** Addresses. *)
Example split_address_ip : split_address "10.0.0.1:6667" = Ok ("10.0.0.1"%string, 6667).
Proof. reflexivity. Qed.
Example split_address_default : split_address "node0" = Ok ("node0"%string, 6666).
Proof. reflexivity. Qed.
Example split_address_wraps : split_address "node0: 65537x" = Ok ("node0"%string, 1).
Proof. reflexivity. Qed.
Example split_address_throws : split_address "node0:" = Err Thrown.
Proof. reflexivity. Qed.

Section container_properties.
Context {T : Type}.

(** Calls on a queue, by its producer and its consumer. *)
Inductive queue_op := Enqueue (e : T) | Dequeue.

Fixpoint run_queue (ops : list queue_op) (q : queue T) : result (list (option T)) :=
  match ops with
  | [] => Ok []
  | Enqueue e :: ops => run_queue ops (enqueue e q)
  | Dequeue :: ops => '(r, q) ← dequeue q; rs ← run_queue ops q; Ok (r :: rs)
  end.

(** What a first-in first-out queue with these contents answers. *)
Fixpoint run_fifo (ops : list queue_op) (l : list T) : list (option T) :=
  match ops with
  | [] => []
  | Enqueue e :: ops => run_fifo ops (l ++ [e])
  | Dequeue :: ops => head l :: run_fifo ops (tail l)
  end.

(** The queue holds [l], behind the element the consumer was given last, if any. *)
Record queue_rep (q : queue T) (l : list T) : Prop := {
  qr_list : if decide (q_num_polled_ q = 0) then queue_ q = l
            else q_iterator_ q = 0%nat /\ exists x, queue_ q = x :: l;
  qr_polled : 0 <= q_num_polled_ q;
  qr_enqueued : num_enqueued_ q = q_num_polled_ q + Z.of_nat (length l) }.

Lemma enqueue_rep q l e : queue_rep q l -> num_enqueued_ q + 1 < W64 -> queue_rep (enqueue e q) (l ++ [e]).
Proof.
  intros [H1 H2 H3] Hb. split; simpl; [|done|rewrite wrap64_small, length_app; simpl; lia].
  case_decide; [by rewrite H1|]. destruct H1 as (-> & x & ->). eauto.
Qed.

Lemma dequeue_rep q l :
  queue_rep q l -> num_enqueued_ q < W64 ->
  exists q', dequeue q = Ok (head l, q') /\ queue_rep q' (tail l) /\ num_enqueued_ q' = num_enqueued_ q.
Proof.
  intros [H1 H2 H3] Hb. unfold dequeue. destruct l as [|e l]; simpl in H3.
  { rewrite (proj2 (Z.ltb_ge _ _)) by lia. exists q. split; [done|]. split; [|done]. split; [done|done|simpl; lia]. }
  rewrite (proj2 (Z.ltb_lt _ _)) by lia.
  case_decide as Hp.
  - rewrite Hp. simpl. rewrite H1. simpl. eexists. split; [done|]. split; [|done].
    rewrite wrap64_small by lia. split; simpl; [|lia|lia]. split; [done|]. eauto.
  - rewrite (proj2 (Z.eqb_neq _ _) Hp). destruct H1 as (Hi & x & Hl). rewrite Hi, Hl. simpl.
    eexists. split; [done|]. split; [|done].
    rewrite wrap64_small by lia. split; simpl; [|lia|lia]. rewrite decide_False by lia. eauto.
Qed.

(** C36: the lock-free queue is a first-in first-out queue: for every sequence of fewer than
    2^64 calls of the producer and the consumer the answers are those of the list that is
    appended to and taken from the front, and no call touches an element that was erased. *)
Theorem queue_is_fifo ops :
  Z.of_nat (length ops) < W64 -> run_queue ops queue_init = Ok (run_fifo ops []).
Proof.
  intros Hlen.
  assert (forall q l, queue_rep q l -> num_enqueued_ q + Z.of_nat (length ops) < W64 ->
    run_queue ops q = Ok (run_fifo ops l)) as Hgen.
  2:{ apply Hgen; [by split|simpl; lia]. }
  clear Hlen. induction ops as [|[e|] ops IH]; intros q l Hq Hb; cbn [run_queue run_fifo length] in *; [done| |].
  - apply IH; [apply enqueue_rep; [done|lia]|]. simpl. rewrite wrap64_small; [lia|].
    pose proof (qr_polled _ _ Hq). pose proof (qr_enqueued _ _ Hq). lia.
  - destruct (dequeue_rep _ _ Hq) as (q' & -> & Hq' & Hn); [lia|]. cbn [mbind result_bind].
    rewrite (IH q' (tail l)) by (done || lia). done.
Qed.

(** The changes a reader has not seen yet. *)
Record reader_rep (r : bag_reader) (b : bag T) (n : nat) : Prop := {
  rr_polled : br_num_polled_ r = Z.of_nat n;
  rr_le : (n <= length (bag_list_ b))%nat;
  rr_num : bag_num_elements_ b = Z.of_nat (length (bag_list_ b));
  rr_bound : Z.of_nat (length (bag_list_ b)) < W64;
  rr_iterator : n = 0%nat \/ n = S (br_iterator_ r) }.

(** Every reader of a bag gets every element once, in the order they were added,
    whenever it asks: after [n] elements [get] returns element [n], or nothing when there are
    only [n]; elements added meanwhile do not disturb it. *)
Theorem bag_reader_in_order r (b : bag T) n :
  reader_rep r b n ->
  (exists r', bag_get r b = Ok (bag_list_ b !! n, r') /\
     reader_rep r' b (if decide (n < length (bag_list_ b))%nat then S n else n)) /\
  (forall e, Z.of_nat (length (bag_list_ b)) + 1 < W64 -> reader_rep r (bag_add e b) n).
Proof.
  intros [H1 H2 H3 H4 H5]. split.
  - unfold bag_get. rewrite H1, H3. case_decide as Hn.
    + rewrite (proj2 (Z.ltb_lt _ _)) by lia.
      assert ((if Z.of_nat n =? 0 then 0%nat else S (br_iterator_ r)) = n) as ->.
      { destruct (Z.eqb_spec (Z.of_nat n) 0); lia. }
      destruct (lookup_lt_is_Some_2 _ _ Hn) as [x Hx]. rewrite Hx. simpl.
      eexists. split; [done|]. rewrite wrap64_small by lia. split; simpl; [lia|lia|done|done|by right].
    + rewrite (proj2 (Z.ltb_ge _ _)) by lia. rewrite lookup_ge_None_2 by lia. exists r. by split.
  - intros e He. split; simpl; rewrite ?length_app; simpl; [done|lia| |lia|done].
    rewrite H3, wrap64_small by lia. lia.
Qed.
End container_properties.

Lemma queue_is_fifo_witness :
  run_queue [Dequeue; Enqueue 1; Enqueue 2; Dequeue; Dequeue; Dequeue; Enqueue 3; Dequeue] queue_init =
    Ok [None; Some 1; Some 2; None; Some 3].
Proof. apply (queue_is_fifo [Dequeue; Enqueue 1; Enqueue 2; Dequeue; Dequeue; Dequeue; Enqueue 3; Dequeue]). reflexivity. Defined.

Lemma bag_reader_in_order_witness :
  (exists r', bag_get bag_reader_init (Bag [5; 6] 2) = Ok (Some 5, r') /\ reader_rep r' (Bag [5; 6] 2) 1) /\
  (forall e, Z.of_nat 2 + 1 < W64 -> reader_rep bag_reader_init (bag_add e (Bag [5; 6] 2)) 0).
Proof.
  apply (bag_reader_in_order bag_reader_init (Bag [5; 6] 2) 0).
  split; [reflexivity|simpl; lia|reflexivity|reflexivity|by left].
Defined.
