(* ===== verification/Api.v ===== *)
(** * The messages of the program ([src/api/api.h])

    One record per packed struct, with its tag, its [length()] and its bytes on the wire
    (little-endian, no padding).  A flexible array member ([data], [assignments],
    [addresses]) is the list of its elements.  [sockaddr_in] is the 16-byte structure of
    [netinet/in.h]. *)
From coqutil Require Import Word.LittleEndianList.
From S2P Require Import Prelude Consts.

(** ** Message types: [enum message_types] *)
Definition ORDER_INTRO : Z := Z.shiftl 1 1.
Definition CLIENT_INTRO : Z := Z.shiftl 1 2.
Definition STORAGE_INTRO : Z := Z.shiftl 1 3.
Definition SUBSCRIBER_INTRO : Z := Z.shiftl 1 4.
Definition ORDER_FINISHED : Z := Z.shiftl 1 5.
Definition CLIENT_FINISHED : Z := Z.shiftl 1 6.
Definition STORAGE_FINISHED : Z := Z.shiftl 1 7.
Definition SUBSCRIBER_FINISHED : Z := Z.shiftl 1 8.
Definition CLIENT_STORAGE_INFO : Z := Z.shiftl 1 9.
Definition CLIENT_NEW_EPOCH : Z := Z.shiftl 1 10.
Definition CLIENT_INSERT_ACK : Z := Z.shiftl 1 11.
Definition CLIENT_HEARTBEAT : Z := Z.shiftl 1 30.
Definition ORDER_CLIENT_RATE : Z := Z.shiftl 1 12.
Definition ORDER_CLIENT_FREEZE : Z := Z.shiftl 1 13.
Definition ORDER_CLIENT_CUT : Z := Z.shiftl 1 14.
Definition ORDER_CLIENT_DATA : Z := Z.shiftl 1 15.
Definition STORAGE_INSERT : Z := Z.shiftl 1 16.
Definition STORAGE_SLOTS : Z := Z.shiftl 1 17.
Definition STORAGE_CLIENT_FREEZE : Z := Z.shiftl 1 18.
Definition STORAGE_CLIENT_CUT : Z := Z.shiftl 1 19.
Definition STORAGE_CLIENT_PATCH : Z := Z.shiftl 1 20.
Definition STORAGE_CLIENT_FINALIZE : Z := Z.shiftl 1 21.
Definition SUBSCRIBER_LOG_ENTRY : Z := Z.shiftl 1 22.
Definition SUBSCRIBER_STORAGE_INFO : Z := Z.shiftl 1 23.

(** ** The structs *)
Record client_intro := ClientIntro {
  ci_client_id : Z; ci_shard_id : Z; ci_num_slots : Z }.

Record storage_intro := StorageIntro {
  si_shard_id : Z; si_replica_id : Z; si_client_queues : Z; si_port : Z }.

Record subscriber_intro := SubscriberIntro {
  sbi_subscriber_id : Z; sbi_num_queues : Z }.

Record client_finished := ClientFinished { cf_client_id : Z }.

Record storage_finished := StorageFinished { sf_shard_id : Z; sf_replica_id : Z }.

Record subscriber_finished := SubscriberFinished { sbf_subscriber_id : Z }.

Record storage_insert := StorageInsert {
  ins_client_id : Z; ins_num_slots : Z; ins_data_length : Z; ins_data : list Byte.byte }.

Record client_insert_ack := ClientInsertAck { ack_replica_id : Z; ack_gsn : Z }.

Record order_client_rate := OrderClientRate { rate_client_id : Z; rate_num_slots : Z }.

Record order_client_cut := OrderClientCut {
  cut_client_id : Z; cut_shard_id : Z; cut_replica_id : Z; cut_latest_gsn : Z }.

Record order_client_data := OrderClientData {
  ocd_client_id : Z; ocd_shard_id : Z; ocd_replica_id : Z; ocd_gsn : Z;
  ocd_data_length : Z; ocd_data : list Byte.byte }.

Record order_client_freeze := OrderClientFreeze { ocf_client_id : Z }.

(** [storage_slots::assignment]. *)
Record assignment := Assignment { as_client_id : Z; as_num_slots : Z }.

Record storage_slots := StorageSlots {
  ss_start_gsn : Z; ss_num_clients : Z; ss_assignments : list assignment }.

Record storage_client_finalize := StorageClientFinalize { scfin_client_id : Z }.

Record storage_client_freeze := StorageClientFreeze { scf_client_id : Z }.

Record storage_client_cut := StorageClientCut { scc_client_id : Z; scc_begin_gsn : Z }.

Record storage_client_patch := StorageClientPatch {
  scp_client_id : Z; scp_gsn : Z; scp_data_length : Z; scp_data : list Byte.byte }.

(** The first field is the union of [replica_id] and [num_acks]. *)
Record subscriber_log_entry := SubscriberLogEntry {
  sle_replica_id_or_num_acks : Z; sle_shard_id : Z; sle_thread_id : Z; sle_client_id : Z;
  sle_gsn : Z; sle_data_length : Z; sle_data : list Byte.byte }.

Record sockaddr_in := SockaddrIn {
  sin_family : Z; sin_port : Z; sin_addr : Z; sin_zero : Z }.

Record client_storage_info := ClientStorageInfo {
  csi_num_servers : Z; csi_addresses : list sockaddr_in }.

Record subscriber_storage_info := SubscriberStorageInfo {
  ssi_num_servers : Z; ssi_addresses : list sockaddr_in }.

(** [begin] is a [time_point]: a signed 64-bit count of nanoseconds. *)
Record client_new_epoch := ClientNewEpoch { cne_begin : Z; cne_num_slots : Z }.

Record client_heartbeat := ClientHeartbeat { chb_id : Z }.

(** The subtypes of [message<T>]. *)
Inductive message :=
| MOrderIntro
| MClientIntro (m : client_intro)
| MStorageIntro (m : storage_intro)
| MSubscriberIntro (m : subscriber_intro)
| MOrderFinished
| MClientFinished (m : client_finished)
| MStorageFinished (m : storage_finished)
| MSubscriberFinished (m : subscriber_finished)
| MStorageInsert (m : storage_insert)
| MClientInsertAck (m : client_insert_ack)
| MOrderClientRate (m : order_client_rate)
| MOrderClientCut (m : order_client_cut)
| MOrderClientData (m : order_client_data)
| MOrderClientFreeze (m : order_client_freeze)
| MStorageSlots (m : storage_slots)
| MStorageClientFinalize (m : storage_client_finalize)
| MStorageClientFreeze (m : storage_client_freeze)
| MStorageClientCut (m : storage_client_cut)
| MStorageClientPatch (m : storage_client_patch)
| MSubscriberLogEntry (m : subscriber_log_entry)
| MClientStorageInfo (m : client_storage_info)
| MSubscriberStorageInfo (m : subscriber_storage_info)
| MClientNewEpoch (m : client_new_epoch)
| MClientHeartbeat (m : client_heartbeat).

(** [T::tag]. *)
Definition tag (m : message) : Z :=
  match m with
  | MOrderIntro => ORDER_INTRO
  | MClientIntro _ => CLIENT_INTRO
  | MStorageIntro _ => STORAGE_INTRO
  | MSubscriberIntro _ => SUBSCRIBER_INTRO
  | MOrderFinished => ORDER_FINISHED
  | MClientFinished _ => CLIENT_FINISHED
  | MStorageFinished _ => STORAGE_FINISHED
  | MSubscriberFinished _ => SUBSCRIBER_FINISHED
  | MStorageInsert _ => STORAGE_INSERT
  | MClientInsertAck _ => CLIENT_INSERT_ACK
  | MOrderClientRate _ => ORDER_CLIENT_RATE
  | MOrderClientCut _ => ORDER_CLIENT_CUT
  | MOrderClientData _ => ORDER_CLIENT_DATA
  | MOrderClientFreeze _ => ORDER_CLIENT_FREEZE
  | MStorageSlots _ => STORAGE_SLOTS
  | MStorageClientFinalize _ => STORAGE_CLIENT_FINALIZE
  | MStorageClientFreeze _ => STORAGE_CLIENT_FREEZE
  | MStorageClientCut _ => STORAGE_CLIENT_CUT
  | MStorageClientPatch _ => STORAGE_CLIENT_PATCH
  | MSubscriberLogEntry _ => SUBSCRIBER_LOG_ENTRY
  | MClientStorageInfo _ => CLIENT_STORAGE_INFO
  | MSubscriberStorageInfo _ => SUBSCRIBER_STORAGE_INFO
  | MClientNewEpoch _ => CLIENT_NEW_EPOCH
  | MClientHeartbeat _ => CLIENT_HEARTBEAT
  end.

(** The members after [message_type], in order: width in bytes and value. *)
Definition fields (m : message) : list (nat * Z) :=
  match m with
  | MOrderIntro => []
  | MClientIntro m => [(8%nat, ci_client_id m); (8%nat, ci_shard_id m); (8%nat, ci_num_slots m)]
  | MStorageIntro m => [(8%nat, si_shard_id m); (8%nat, si_replica_id m); (8%nat, si_client_queues m); (2%nat, si_port m)]
  | MSubscriberIntro m => [(8%nat, sbi_subscriber_id m); (8%nat, sbi_num_queues m)]
  | MOrderFinished => []
  | MClientFinished m => [(8%nat, cf_client_id m)]
  | MStorageFinished m => [(8%nat, sf_shard_id m); (8%nat, sf_replica_id m)]
  | MSubscriberFinished m => [(8%nat, sbf_subscriber_id m)]
  | MStorageInsert m => [(8%nat, ins_client_id m); (8%nat, ins_num_slots m); (8%nat, ins_data_length m)]
  | MClientInsertAck m => [(8%nat, ack_replica_id m); (8%nat, ack_gsn m)]
  | MOrderClientRate m => [(8%nat, rate_client_id m); (8%nat, rate_num_slots m)]
  | MOrderClientCut m => [(8%nat, cut_client_id m); (8%nat, cut_shard_id m); (8%nat, cut_replica_id m); (8%nat, cut_latest_gsn m)]
  | MOrderClientData m => [(8%nat, ocd_client_id m); (8%nat, ocd_shard_id m); (8%nat, ocd_replica_id m); (8%nat, ocd_gsn m); (8%nat, ocd_data_length m)]
  | MOrderClientFreeze m => [(8%nat, ocf_client_id m)]
  | MStorageSlots m => [(8%nat, ss_start_gsn m); (8%nat, ss_num_clients m)]
  | MStorageClientFinalize m => [(8%nat, scfin_client_id m)]
  | MStorageClientFreeze m => [(8%nat, scf_client_id m)]
  | MStorageClientCut m => [(8%nat, scc_client_id m); (8%nat, scc_begin_gsn m)]
  | MStorageClientPatch m => [(8%nat, scp_client_id m); (8%nat, scp_gsn m); (8%nat, scp_data_length m)]
  | MSubscriberLogEntry m => [(8%nat, sle_replica_id_or_num_acks m); (8%nat, sle_shard_id m); (8%nat, sle_thread_id m); (8%nat, sle_client_id m); (8%nat, sle_gsn m); (8%nat, sle_data_length m)]
  | MClientStorageInfo m => [(8%nat, csi_num_servers m)]
  | MSubscriberStorageInfo m => [(8%nat, ssi_num_servers m)]
  | MClientNewEpoch m => [(8%nat, wrap64 (cne_begin m)); (8%nat, cne_num_slots m)]
  | MClientHeartbeat m => [(8%nat, chb_id m)]
  end.

(** The bytes of a flexible array member. *)
Definition put (f : nat * Z) : list Byte.byte := le_split f.1 f.2.

Definition assignment_fields (a : assignment) : list (nat * Z) :=
  [(8%nat, as_client_id a); (8%nat, as_num_slots a)].

Definition sockaddr_fields (a : sockaddr_in) : list (nat * Z) :=
  [(2%nat, sin_family a); (2%nat, sin_port a); (4%nat, sin_addr a); (8%nat, sin_zero a)].

Definition put_all (fs : list (nat * Z)) : list Byte.byte := concat (put <$> fs).

Definition tail_bytes (m : message) : list Byte.byte :=
  match m with
  | MStorageInsert m => ins_data m
  | MOrderClientData m => ocd_data m
  | MStorageSlots m => concat ((fun a => put_all (assignment_fields a)) <$> ss_assignments m)
  | MStorageClientPatch m => scp_data m
  | MSubscriberLogEntry m => sle_data m
  | MClientStorageInfo m => concat ((fun a => put_all (sockaddr_fields a)) <$> csi_addresses m)
  | MSubscriberStorageInfo m => concat ((fun a => put_all (sockaddr_fields a)) <$> ssi_addresses m)
  | _ => []
  end.

(** The packed struct as it lies in a buffer. *)
Definition encode (m : message) : list Byte.byte :=
  put_all ((8%nat, tag m) :: fields m) ++ tail_bytes m.

(** [T::length()]: [sizeof] of the packed struct, plus its flexible array as counted by
    its length member. *)
Definition sizeof_fixed (m : message) : Z :=
  8 + zsum ((fun f => Z.of_nat f.1) <$> fields m).

Definition message_length (m : message) : Z :=
  match m with
  | MStorageInsert r => wrap64 (sizeof_fixed m + ins_data_length r)
  | MOrderClientData r => wrap64 (sizeof_fixed m + ocd_data_length r)
  | MStorageSlots r => wrap64 (sizeof_fixed m + ss_num_clients r * 16)
  | MStorageClientPatch r => wrap64 (sizeof_fixed m + scp_data_length r)
  | MSubscriberLogEntry r => wrap64 (sizeof_fixed m + sle_data_length r)
  | MClientStorageInfo r => wrap64 (sizeof_fixed m + 16 * csi_num_servers r)
  | MSubscriberStorageInfo r => wrap64 (sizeof_fixed m + 16 * ssi_num_servers r)
  | _ => sizeof_fixed m
  end.

(** ** Reading a buffer as a struct *)

(** Read [w] bytes as an unsigned little-endian integer. *)
Definition get (w : nat) (bs : list Byte.byte) : result (Z * list Byte.byte) :=
  if (w <=? length bs)%nat then Ok (le_combine (take w bs), drop w bs) else Err Undefined.

Definition get_assignment (bs : list Byte.byte) : result (assignment * list Byte.byte) :=
  '(c, bs) ← get 8 bs; '(n, bs) ← get 8 bs; Ok (Assignment c n, bs).

Definition get_sockaddr (bs : list Byte.byte) : result (sockaddr_in * list Byte.byte) :=
  '(f, bs) ← get 2 bs; '(p, bs) ← get 2 bs; '(a, bs) ← get 4 bs; '(z, bs) ← get 8 bs;
  Ok (SockaddrIn f p a z, bs).

Fixpoint get_array {A} (rd : list Byte.byte -> result (A * list Byte.byte)) (n : nat)
    (bs : list Byte.byte) : result (list A * list Byte.byte) :=
  match n with
  | O => Ok ([], bs)
  | S n => '(a, bs) ← rd bs; '(l, bs) ← get_array rd n bs; Ok (a :: l, bs)
  end.

(** The first [n] bytes of [data]. *)
Definition get_data (n : Z) (bs : list Byte.byte) : result (list Byte.byte * list Byte.byte) :=
  if n <=? Z.of_nat (length bs) then Ok (take (Z.to_nat n) bs, drop (Z.to_nat n) bs)
  else Err Undefined.

(** The message a buffer holds, as [static_cast<T*>] reads it for the tag [t]: [None] when no
    struct has that tag, and a fault when the bytes end before the struct does. *)
Definition view (t : Z) (bs : list Byte.byte) : result (option message) :=
  if t =? ORDER_INTRO then
    Ok (Some MOrderIntro)
  else if t =? CLIENT_INTRO then
    '(a, bs) ← get 8 bs; '(b, bs) ← get 8 bs; '(c, bs) ← get 8 bs; Ok (Some (MClientIntro (ClientIntro a b c)))
  else if t =? STORAGE_INTRO then
    '(a, bs) ← get 8 bs; '(b, bs) ← get 8 bs; '(c, bs) ← get 8 bs; '(d, bs) ← get 2 bs; Ok (Some (MStorageIntro (StorageIntro a b c d)))
  else if t =? SUBSCRIBER_INTRO then
    '(a, bs) ← get 8 bs; '(b, bs) ← get 8 bs; Ok (Some (MSubscriberIntro (SubscriberIntro a b)))
  else if t =? ORDER_FINISHED then
    Ok (Some MOrderFinished)
  else if t =? CLIENT_FINISHED then
    '(a, bs) ← get 8 bs; Ok (Some (MClientFinished (ClientFinished a)))
  else if t =? STORAGE_FINISHED then
    '(a, bs) ← get 8 bs; '(b, bs) ← get 8 bs; Ok (Some (MStorageFinished (StorageFinished a b)))
  else if t =? SUBSCRIBER_FINISHED then
    '(a, bs) ← get 8 bs; Ok (Some (MSubscriberFinished (SubscriberFinished a)))
  else if t =? STORAGE_INSERT then
    '(a, bs) ← get 8 bs; '(b, bs) ← get 8 bs; '(c, bs) ← get 8 bs; '(l, bs) ← get_data c bs; Ok (Some (MStorageInsert (StorageInsert a b c l)))
  else if t =? CLIENT_INSERT_ACK then
    '(a, bs) ← get 8 bs; '(b, bs) ← get 8 bs; Ok (Some (MClientInsertAck (ClientInsertAck a b)))
  else if t =? ORDER_CLIENT_RATE then
    '(a, bs) ← get 8 bs; '(b, bs) ← get 8 bs; Ok (Some (MOrderClientRate (OrderClientRate a b)))
  else if t =? ORDER_CLIENT_CUT then
    '(a, bs) ← get 8 bs; '(b, bs) ← get 8 bs; '(c, bs) ← get 8 bs; '(d, bs) ← get 8 bs; Ok (Some (MOrderClientCut (OrderClientCut a b c d)))
  else if t =? ORDER_CLIENT_DATA then
    '(a, bs) ← get 8 bs; '(b, bs) ← get 8 bs; '(c, bs) ← get 8 bs; '(d, bs) ← get 8 bs; '(e, bs) ← get 8 bs; '(l, bs) ← get_data e bs; Ok (Some (MOrderClientData (OrderClientData a b c d e l)))
  else if t =? ORDER_CLIENT_FREEZE then
    '(a, bs) ← get 8 bs; Ok (Some (MOrderClientFreeze (OrderClientFreeze a)))
  else if t =? STORAGE_SLOTS then
    '(a, bs) ← get 8 bs; '(b, bs) ← get 8 bs; '(l, bs) ← get_array get_assignment (Z.to_nat b) bs; Ok (Some (MStorageSlots (StorageSlots a b l)))
  else if t =? STORAGE_CLIENT_FINALIZE then
    '(a, bs) ← get 8 bs; Ok (Some (MStorageClientFinalize (StorageClientFinalize a)))
  else if t =? STORAGE_CLIENT_FREEZE then
    '(a, bs) ← get 8 bs; Ok (Some (MStorageClientFreeze (StorageClientFreeze a)))
  else if t =? STORAGE_CLIENT_CUT then
    '(a, bs) ← get 8 bs; '(b, bs) ← get 8 bs; Ok (Some (MStorageClientCut (StorageClientCut a b)))
  else if t =? STORAGE_CLIENT_PATCH then
    '(a, bs) ← get 8 bs; '(b, bs) ← get 8 bs; '(c, bs) ← get 8 bs; '(l, bs) ← get_data c bs; Ok (Some (MStorageClientPatch (StorageClientPatch a b c l)))
  else if t =? SUBSCRIBER_LOG_ENTRY then
    '(a, bs) ← get 8 bs; '(b, bs) ← get 8 bs; '(c, bs) ← get 8 bs; '(d, bs) ← get 8 bs; '(e, bs) ← get 8 bs; '(f, bs) ← get 8 bs; '(l, bs) ← get_data f bs; Ok (Some (MSubscriberLogEntry (SubscriberLogEntry a b c d e f l)))
  else if t =? CLIENT_STORAGE_INFO then
    '(a, bs) ← get 8 bs; '(l, bs) ← get_array get_sockaddr (Z.to_nat a) bs; Ok (Some (MClientStorageInfo (ClientStorageInfo a l)))
  else if t =? SUBSCRIBER_STORAGE_INFO then
    '(a, bs) ← get 8 bs; '(l, bs) ← get_array get_sockaddr (Z.to_nat a) bs; Ok (Some (MSubscriberStorageInfo (SubscriberStorageInfo a l)))
  else if t =? CLIENT_NEW_EPOCH then
    '(a, bs) ← get 8 bs; '(b, bs) ← get 8 bs; Ok (Some (MClientNewEpoch (ClientNewEpoch (swrap64 a) b)))
  else if t =? CLIENT_HEARTBEAT then
    '(a, bs) ← get 8 bs; Ok (Some (MClientHeartbeat (ClientHeartbeat a)))
  else Ok None.

(** [decode]: the tag, then the struct. *)
Definition decode (bs : list Byte.byte) : result (option message) :=
  '(t, rest) ← get 8 bs; view t rest.

(** ** Well-formed messages: members in range, length members that count the array *)
Definition fits (f : nat * Z) : Prop := 0 <= f.2 < 2 ^ (Z.of_nat f.1 * 8).

Definition tail_ok (m : message) : Prop :=
  match m with
  | MStorageInsert r => ins_data_length r = Z.of_nat (length (ins_data r))
  | MOrderClientData r => ocd_data_length r = Z.of_nat (length (ocd_data r))
  | MStorageSlots r => ss_num_clients r = Z.of_nat (length (ss_assignments r)) /\
      Forall (fun a => Forall fits (assignment_fields a)) (ss_assignments r)
  | MStorageClientPatch r => scp_data_length r = Z.of_nat (length (scp_data r))
  | MSubscriberLogEntry r => sle_data_length r = Z.of_nat (length (sle_data r))
  | MClientStorageInfo r => csi_num_servers r = Z.of_nat (length (csi_addresses r)) /\
      Forall (fun a => Forall fits (sockaddr_fields a)) (csi_addresses r)
  | MSubscriberStorageInfo r => ssi_num_servers r = Z.of_nat (length (ssi_addresses r)) /\
      Forall (fun a => Forall fits (sockaddr_fields a)) (ssi_addresses r)
  | MClientNewEpoch r => - I64 <= cne_begin r < I64
  | _ => True
  end.

Definition wf_message (m : message) : Prop :=
  Forall fits (fields m) /\ tail_ok m /\ Z.of_nat (length (encode m)) < W64.

(** ** Reading back what was written *)
Lemma length_put f : length (put f) = f.1.
Proof. apply length_le_split. Qed.

Lemma get_put w v rest : fits (w, v) -> get w (put (w, v) ++ rest) = Ok (v, rest).
Proof.
  intros Hf. unfold get, put, fits in *; simpl in *.
  rewrite (proj2 (Nat.leb_le _ _)) by (rewrite length_app, length_le_split; lia).
  rewrite take_app_length', drop_app_length' by (by rewrite length_le_split).
  by rewrite le_combine_split, Z.mod_small by lia.
Qed.

Lemma put_all_cons f fs : put_all (f :: fs) = put f ++ put_all fs.
Proof. reflexivity. Qed.

Lemma length_put_all fs : Z.of_nat (length (put_all fs)) = zsum ((fun f => Z.of_nat f.1) <$> fs).
Proof.
  induction fs as [|f fs IH]; [done|].
  rewrite put_all_cons, length_app, length_put, fmap_cons; simpl; lia.
Qed.

Lemma get_array_put {A} (rd : list Byte.byte -> result (A * list Byte.byte)) (w : A -> list Byte.byte) l rest :
  (forall a bs, a ∈ l -> rd (w a ++ bs) = Ok (a, bs)) ->
  get_array rd (length l) (concat (w <$> l) ++ rest) = Ok (l, rest).
Proof.
  intros Hrd. induction l as [|a l IH]; [done|].
  rewrite fmap_cons; cbn [concat get_array length].
  rewrite <- app_assoc, Hrd by set_solver; cbn [mbind result_bind].
  rewrite IH by set_solver; done.
Qed.

Lemma get_data_app d rest : get_data (Z.of_nat (length d)) (d ++ rest) = Ok (d, rest).
Proof.
  unfold get_data. rewrite (proj2 (Z.leb_le _ _)) by (rewrite length_app; lia).
  by rewrite Nat2Z.id, take_app_length, drop_app_length.
Qed.

#[local] Opaque put get get_data le_split.

(** Splits [Forall fits] over the members it lists. *)
Ltac split_fits :=
  repeat match goal with
  | H : Forall fits (_ :: _) |- _ => apply Forall_cons_1 in H as [? H]
  | H : Forall fits (assignment_fields _) |- _ => unfold assignment_fields in H; simpl in H
  | H : Forall fits (sockaddr_fields _) |- _ => unfold sockaddr_fields in H; simpl in H
  | H : Forall fits (fields _) |- _ => simpl in H
  end.

(** Reads the members of a struct one after the other. *)
Ltac read_fields :=
  repeat (rewrite ?put_all_cons, <- ?app_assoc; rewrite get_put by done; cbn [mbind result_bind]).

Lemma get_assignment_put a rest :
  Forall fits (assignment_fields a) ->
  get_assignment (put_all (assignment_fields a) ++ rest) = Ok (a, rest).
Proof.
  destruct a. intros ?. split_fits. unfold get_assignment, assignment_fields; simpl.
  by read_fields.
Qed.

Lemma get_sockaddr_put a rest :
  Forall fits (sockaddr_fields a) ->
  get_sockaddr (put_all (sockaddr_fields a) ++ rest) = Ok (a, rest).
Proof.
  destruct a. intros ?. split_fits. unfold get_sockaddr, sockaddr_fields; simpl.
  by read_fields.
Qed.

Lemma view_tail m rest :
  Forall fits (fields m) -> tail_ok m ->
  view (tag m) (put_all (fields m) ++ tail_bytes m ++ rest) = Ok (Some m).
Proof.
  intros Hf Ht. destruct m as [|[]|[]|[]| |[]|[]|[]|[]|[]|[]|[]|[]|[]|[]|[]|[]|[]|[]|[]|[]|[]|[]|[]];
    unfold view; simpl (tag _);
    repeat (lazymatch goal with |- context [if ?c then _ else _] =>
      let r := eval vm_compute in c in change c with r; cbv iota end); simpl in *;
    split_fits; try done; read_fields; try done.
  all: change (put_all []) with (@nil Byte.byte); rewrite ?app_nil_l.
  all: lazymatch goal with
  | |- context [get_data] => by subst; rewrite get_data_app
  | |- context [get_array] => destruct Ht as [-> Ht]; rewrite Forall_forall in Ht;
      rewrite Nat2Z.id, get_array_put; [done|]; intros a bs Ha; specialize (Ht a Ha);
      first [by apply get_assignment_put | by apply get_sockaddr_put]
  | |- _ => do 4 f_equal; unfold swrap64, wrap64; rewrite Zplus_mod_idemp_l, Z.mod_small; lia
  end.
Qed.

Lemma tag_fits m : fits (8%nat, tag m).
Proof. destruct m; vm_compute; split; congruence. Qed.

Lemma encode_app m rest :
  encode m ++ rest = put (8%nat, tag m) ++ put_all (fields m) ++ tail_bytes m ++ rest.
Proof. unfold encode. by rewrite put_all_cons, <- !app_assoc. Qed.

(** ** The size of a message *)
Lemma length_assignments l :
  Z.of_nat (length (concat ((fun a => put_all (assignment_fields a)) <$> l)))
  = Z.of_nat (length l) * 16.
Proof.
  induction l as [|a l IH]; [done|].
  rewrite fmap_cons; cbn [concat length]. rewrite length_app.
  pose proof (length_put_all (assignment_fields a)) as H. simpl in H. lia.
Qed.

Lemma length_addresses l :
  Z.of_nat (length (concat ((fun a => put_all (sockaddr_fields a)) <$> l)))
  = 16 * Z.of_nat (length l).
Proof.
  induction l as [|a l IH]; [done|].
  rewrite fmap_cons; cbn [concat length]. rewrite length_app.
  pose proof (length_put_all (sockaddr_fields a)) as H. simpl in H. lia.
Qed.

Lemma length_encode_split m :
  Z.of_nat (length (encode m)) = sizeof_fixed m + Z.of_nat (length (tail_bytes m)).
Proof.
  unfold encode, sizeof_fixed. rewrite put_all_cons, !length_app, length_put.
  pose proof (length_put_all (fields m)). simpl fst. lia.
Qed.

Lemma length_encode_wf m : wf_message m -> Z.of_nat (length (encode m)) = message_length m.
Proof.
  intros (_ & Ht & Hl). rewrite length_encode_split in *.
  destruct m; simpl message_length; simpl tail_bytes in *; simpl in Ht; try (simpl; lia).
  all: try match type of Ht with _ /\ _ => destruct Ht as [Ht _] end; rewrite Ht; rewrite ?length_assignments, ?length_addresses in *;
    rewrite wrap64_small; [done|]; unfold sizeof_fixed in *; simpl in *; lia.
Qed.

(** ** Properties *)

(** C34: a message read from a buffer is the message that was written there, for every
    message type: reading the tag and then the struct it names returns the members and the
    flexible array that [encode] laid out, whatever follows the message in the buffer. *)
Theorem decode_encode m rest : wf_message m -> decode (encode m ++ rest) = Ok (Some m).
Proof.
  intros (Hf & Ht & _). unfold decode. rewrite encode_app, get_put by apply tag_fits.
  by apply view_tail.
Qed.

(** [T::length()] is the number of bytes of the message, for every message type. *)
Theorem length_encode m : wf_message m -> message_length m = Z.of_nat (length (encode m)).
Proof. intros. by rewrite length_encode_wf. Qed.

Definition example_insert : message :=
  MStorageInsert (StorageInsert 5 2 3 [Byte.x41; Byte.x42; Byte.x43]).

Lemma decode_encode_witness :
  wf_message example_insert /\ decode (encode example_insert ++ [Byte.x00]) = Ok (Some example_insert).
Proof.
  assert (wf_message example_insert) as H.
  { split; [|split; reflexivity]. repeat constructor; by vm_compute. }
  split; [exact H|exact (decode_encode example_insert [Byte.x00] H)].
Defined.

Lemma length_encode_witness :
  wf_message example_insert /\ message_length example_insert = 35.
Proof.
  assert (wf_message example_insert) as H.
  { split; [|split; reflexivity]. repeat constructor; by vm_compute. }
  split; [exact H|exact (length_encode example_insert H)].
Defined.
