(* ===== verification/StorageLog.v ===== *)
(** * The log of a storage server ([src/storage/log.h], [src/storage/log.cpp])

    The log is a list of blocks of entries; every client's entries are threaded through the
    blocks by [next]/[prev] pointers.  [log_add_entries] interleaves the slots of an epoch,
    [position_*] are the operations of one client's cursor and [iterator_*] those of a
    subscriber thread.

    A pointer to an entry is the number of its block in [blocks_] and its index in the
    block; [mem_] holds the entries that have been written, every other entry of a block
    still is as the fresh (zero-filled) page left it.  [data] is the word itself when the
    payload fits in it and otherwise the private copy its pointer owns. *)
From coqutil Require Import Word.LittleEndianList.
From S2P Require Import Prelude Consts Api.

(** ** Data *)
Definition ptr : Type := Z * Z.

(** What [alloc_copy] returns: the word, or the block [malloc] returned with its bytes. *)
Inductive data_word :=
| Word (w : Z)
| Block (bytes : list Byte.byte).

(** [log::entry]. *)
Record entry := Entry {
  e_client_id : Z;
  e_gsn : Z;
  e_data_length : Z;
  e_data : data_word;
  e_set : bool;
  e_next : option ptr;
  e_prev : option ptr }.

(** An entry of a fresh block. *)
Definition zero_entry : entry := Entry 0 0 0 (Word 0) false None None.

(** The class [log]. *)
Record log := Log {
  blocks_ : Z;
  mem_ : gmap ptr entry;
  current_entries_ : Z;
  num_entries_ : Z;
  client_first_ : gmap Z ptr;
  client_last_ : gmap Z ptr;
  block_ : Z;
  entry_ : Z }.

Definition set_set (b : bool) (e : entry) : entry :=
  Entry (e_client_id e) (e_gsn e) (e_data_length e) (e_data e) b (e_next e) (e_prev e).
Definition set_next (p : option ptr) (e : entry) : entry :=
  Entry (e_client_id e) (e_gsn e) (e_data_length e) (e_data e) (e_set e) p (e_prev e).
Definition set_payload (d : data_word) (n : Z) (e : entry) : entry :=
  Entry (e_client_id e) (e_gsn e) n d true (e_next e) (e_prev e).

Definition get_entry (l : log) (p : ptr) : entry := default zero_entry (mem_ l !! p).
Definition set_mem (m : gmap ptr entry) (l : log) : log :=
  Log (blocks_ l) m (current_entries_ l) (num_entries_ l) (client_first_ l) (client_last_ l)
    (block_ l) (entry_ l).
Definition upd_entry (f : entry -> entry) (p : ptr) (l : log) : log :=
  set_mem (<[p := f (get_entry l p)]> (mem_ l)) l.

(** [log::log()]: one fresh block. *)
Definition log_init : log := Log 1 ∅ 0 0 ∅ ∅ 0 0.

(** ** [log::add_entries] *)

(** The body of the lambda [yield] for a client of this shard: take the next entry of the
    log, allocating a block at the end of the current one, and append it to the client's
    list. *)
Definition add_slot (client_id gsn : Z) (l : log) : result log :=
  let l := if entry_ l =? NUM_ENTRIES_PER_BLOCK
           then Log (blocks_ l + 1) (mem_ l) (current_entries_ l) (num_entries_ l)
                  (client_first_ l) (client_last_ l) (block_ l + 1) 0
           else l in
  let p := (block_ l, entry_ l) in
  let e := get_entry l p in
  if negb (client_id <? MAX_CLIENTS) then Err Undefined else
  let last := client_last_ l !! client_id in
  let e := Entry client_id gsn (e_data_length e) (e_data e) (e_set e) (e_next e)
             (match last with Some _ => last | None => e_prev e end) in
  let l := set_mem (<[p := e]> (mem_ l)) l in
  let l := match last with Some q => upd_entry (set_next (Some p)) q l | None => l end in
  Ok (Log (blocks_ l) (mem_ l) (wrap64 (current_entries_ l + 1)) (num_entries_ l)
        (match last with Some _ => client_first_ l | None => <[client_id := p]> (client_first_ l) end)
        (<[client_id := p]> (client_last_ l)) (block_ l) (entry_ l + 1)).

(** The lambda [yield]; its state is the log and [slots.start_gsn]. *)
Definition yield (slots : list assignment) (i : nat) (st : log * Z) : result (log * Z) :=
  a ← deref (slots !! i);
  l ← (if negb (as_client_id a =? UINT64_MAX) then add_slot (as_client_id a) st.2 st.1 else Ok st.1);
  Ok (l, wrap64 (st.2 + 1)).

(** The loops of [add_entries] that decide whose slot comes next, over any [yield]. *)
Section interleave.
Context {S : Type} (yield : nat -> S -> result S) (slots : list assignment).

(** The inner loop: charge every secondary client and yield for those that are due. *)
Fixpoint secondary (js : list nat) (errors : list Z) (s : S) : result (list Z * S) :=
  match js with
  | [] => Ok (errors, s)
  | j :: js =>
    a0 ← deref (slots !! 0%nat);
    aj ← deref (slots !! j);
    e ← deref (errors !! (j - 1)%nat);
    let e := swrap64 (e - as_num_slots aj) in
    if e <? 0 then
      s ← yield j s;
      secondary js (<[(j - 1)%nat := swrap64 (e + as_num_slots a0)]> errors) s
    else secondary js (<[(j - 1)%nat := e]> errors) s
  end.

(** The outer loop, one round per slot of the first client. *)
Fixpoint primary (num_clients : nat) (rounds : nat) (errors : list Z) (s : S) : result S :=
  match rounds with
  | O => Ok s
  | Datatypes.S rounds =>
    s ← yield 0%nat s;
    '(errors, s) ← secondary (seq 1 (num_clients - 1)) errors s;
    primary num_clients rounds errors s
  end.

Definition interleave (num_clients : Z) (s : S) : result S :=
  a0 ← deref (slots !! 0%nat);
  if num_clients =? 0 then Err Undefined else
  let error := as_num_slots a0 / num_clients in
  primary (Z.to_nat num_clients) (Z.to_nat (as_num_slots a0))
    (replicate (Z.to_nat num_clients - 1) (swrap64 error)) s.
End interleave.

(** [log::add_entries]: also returns the message, whose [start_gsn] it advances. *)
Definition log_add_entries (slots : storage_slots) (l : log) : result (log * storage_slots) :=
  '(l, gsn) ← interleave (yield (ss_assignments slots)) (ss_assignments slots)
                (ss_num_clients slots) (l, ss_start_gsn slots);
  Ok (Log (blocks_ l) (mem_ l) (current_entries_ l) (current_entries_ l) (client_first_ l)
        (client_last_ l) (block_ l) (entry_ l),
      StorageSlots gsn (ss_num_clients slots) (ss_assignments slots)).

(** The order in which the slots of an epoch go to its clients: the indices [yield] is
    called with. *)
Definition schedule (slots : list assignment) (num_clients : Z) : result (list nat) :=
  interleave (fun i s => Ok (s ++ [i])) slots num_clients [].

(** ** The class [position]: a client's cursor *)

(** [current_entry_]; [first_entry_] is the log's [client_first_] of the client. *)
Record position := Position { p_client_id : Z; current_entry_ : option ptr }.

Definition position_init (client_id : Z) : position := Position client_id None.

(** [detail::alloc_copy]; [data] is the memory that starts at the pointer. *)
Definition alloc_copy (data : list Byte.byte) (length : Z) : data_word :=
  if 8 <? length then Block (take (Z.to_nat length) data)
  else if 0 <? length then Word (le_combine (take 8 data))
  else Word 0.

(** Seek to the first entry of the client, or step to the next one. *)
Definition position_seek (p : position) (l : log) : option ptr :=
  match current_entry_ p with
  | None => client_first_ l !! p_client_id p
  | Some q => e_next (get_entry l q)
  end.

(** [while (--close) { ... }]: the loop leaves a client's list after at most as many rounds
    as the log has entries, so [fuel] is that number plus one. *)
Fixpoint close_slots (fuel : nat) (close : Z) (cur : ptr) (l : log) : result (ptr * log) :=
  let close := wrap64 (close - 1) in
  if close =? 0 then Ok (cur, l) else
  match fuel with
  | O => Err Spins
  | S fuel =>
    let l := upd_entry (set_set true) cur l in
    cur ← assert_not_null (e_next (get_entry l cur));
    close_slots fuel close cur l
  end.

Definition entries_fuel (l : log) : nat := S (size (mem_ l)).

(** [position::insert]. *)
Definition position_insert (data : list Byte.byte) (length close : Z) (p : position) (l : log)
    : result (Z * position * log) :=
  cur ← assert_not_null (position_seek p l);
  '(cur, l) ← close_slots (entries_fuel l) close cur l;
  let l := upd_entry (set_payload (alloc_copy data length) length) cur l in
  Ok (e_gsn (get_entry l cur), Position (p_client_id p) (Some cur), l).

(** [position::patch]. *)
Fixpoint patch_seek (fuel : nat) (gsn : Z) (cur : ptr) (l : log) : result (ptr * log) :=
  if e_gsn (get_entry l cur) <? gsn then
    match fuel with
    | O => Err Spins
    | S fuel =>
      let l := upd_entry (set_set true) cur l in
      cur ← assert_not_null (e_next (get_entry l cur));
      patch_seek fuel gsn cur l
    end
  else Ok (cur, l).

Definition position_patch (data : list Byte.byte) (length gsn : Z) (p : position) (l : log)
    : result (position * log) :=
  cur ← assert_not_null (position_seek p l);
  '(cur, l) ← patch_seek (entries_fuel l) gsn cur l;
  _ ← zip_assert (e_gsn (get_entry l cur) =? gsn);
  let l := upd_entry (set_payload (alloc_copy data length) length) cur l in
  Ok (Position (p_client_id p) (Some cur), l).

(** [position::suffix]. *)
Fixpoint suffix_loop (fuel : nat) (begin_gsn : Z) (cur : option ptr) (l : log) : result (list ptr) :=
  match cur with
  | None => Ok []
  | Some q =>
    if (begin_gsn =? UINT64_MAX) || (begin_gsn <? e_gsn (get_entry l q)) then
      match fuel with
      | O => Err Spins
      | S fuel => rest ← suffix_loop fuel begin_gsn (e_prev (get_entry l q)) l; Ok (q :: rest)
      end
    else Ok []
  end.

Definition position_suffix (begin_gsn : Z) (p : position) (l : log) : result (list ptr) :=
  match current_entry_ p with
  | None => Ok []
  | Some q => suffix_loop (entries_fuel l) begin_gsn (Some q) l
  end.

(** [position::close]. *)
Fixpoint close_loop (fuel : nat) (cur : ptr) (l : log) : result (ptr * log) :=
  match e_next (get_entry l cur) with
  | None => Ok (cur, l)
  | Some next =>
    match fuel with
    | O => Err Spins
    | S fuel => close_loop fuel next (upd_entry (set_set true) next l)
    end
  end.

Definition position_close (p : position) (l : log) : result (position * log) :=
  let '(cur, l) :=
    match current_entry_ p, client_first_ l !! p_client_id p with
    | None, Some first => (Some first, upd_entry (set_set true) first l)
    | cur, _ => (cur, l)
    end in
  match cur with
  | None => Ok (Position (p_client_id p) None, l)
  | Some q => '(q, l) ← close_loop (entries_fuel l) q l; Ok (Position (p_client_id p) (Some q), l)
  end.

(** ** The class [iterator]: a subscriber thread's place in the log *)
Record iterator := Iterator {
  it_entry_index_ : Z;
  it_stride_ : Z;
  it_current_entries_ : Z;
  it_block_index_ : Z;  (* also the block [iterator_] points to *)
  it_entry_ : option ptr }.

Definition iterator_init (index stride : Z) : iterator := Iterator index stride 0 0 None.

(** [iterator::next_entry], against the size the log has published. *)
Definition iterator_next_entry (it : iterator) (l : log) : result (option ptr * iterator) :=
  let check (it : iterator) : result (option ptr * iterator) :=
    q ← deref (it_entry_ it);
    if e_set (get_entry l q)
    then Ok (Some q, Iterator (it_entry_index_ it) (it_stride_ it) (it_current_entries_ it)
                       (it_block_index_ it) None)
    else Ok (None, it) in
  match it_entry_ it with
  | Some _ => check it
  | None =>
    let cached := it_current_entries_ it in
    let current := if cached <=? it_entry_index_ it then num_entries_ l else cached in
    if (cached <=? it_entry_index_ it) && (current <=? it_entry_index_ it) then
      Ok (None, Iterator (it_entry_index_ it) (it_stride_ it) current (it_block_index_ it) None)
    else
      let block := it_entry_index_ it / NUM_ENTRIES_PER_BLOCK in
      let block_index := Z.max (it_block_index_ it) block in
      if negb (block_index <? blocks_ l) then Err Undefined else
      let index := it_entry_index_ it `mod` NUM_ENTRIES_PER_BLOCK in
      check (Iterator (wrap64 (it_entry_index_ it + it_stride_ it)) (it_stride_ it) current
               block_index (Some (block_index, index)))
  end.
