(* ===== verification/Interleave.v ===== *)
(** * The deterministic interleaving of an epoch's slots

    [log::add_entries] spreads the slots of an epoch over its clients with an error
    accumulator per secondary client.  This file studies the order the accumulators give
    ([StorageLog.schedule]): the number of slots every client gets, that the order depends on
    the slot counts alone, and that [add_entries] calls [yield] in that order. *)
From S2P Require Import Prelude Consts Api StorageLog.

(** What the algorithm expects of the slots of an epoch: the first client has the most slots,
    and counts fit a [long long]. *)
Definition slots_ok (slots : list assignment) : Prop :=
  Forall (fun a => 0 <= as_num_slots a) slots /\
  match slots with
  | [] => False
  | a0 :: _ => Forall (fun a => as_num_slots a <= as_num_slots a0) slots /\ as_num_slots a0 < I64
  end.

(** The number of slots of the [j]-th client of the epoch, and of all of them. *)
Definition slots_of (slots : list assignment) (j : nat) : Z :=
  match slots !! j with Some a => as_num_slots a | None => 0 end.

Definition total_slots (slots : list assignment) : Z := zsum (as_num_slots <$> slots).

(** How often [j] occurs in a schedule. *)
Fixpoint occurrences (j : nat) (l : list nat) : Z :=
  match l with
  | [] => 0
  | i :: l => (if decide (i = j) then 1 else 0) + occurrences j l
  end.

Lemma occurrences_app j l1 l2 : occurrences j (l1 ++ l2) = occurrences j l1 + occurrences j l2.
Proof. induction l1 as [|i l1 IH]; simpl; lia. Qed.

Lemma occurrences_nonneg j l : 0 <= occurrences j l.
Proof. induction l as [|i l IH]; simpl; [lia|]. case_decide; lia. Qed.

Lemma slots_of_bounds slots j :
  slots_ok slots -> 0 <= slots_of slots j <= slots_of slots 0 /\ slots_of slots 0 < I64.
Proof.
  intros [H1 H2]. unfold slots_of at 1 2. destruct slots as [|a0 rest]; [done|].
  destruct H2 as [H2 H3]. cbn [slots_of lookup list_lookup].
  destruct ((a0 :: rest) !! j) as [a|] eqn:Hj.
  - rewrite Forall_lookup in H1, H2. pose proof (H1 _ _ Hj). pose proof (H2 _ _ Hj). simpl in *.
    unfold slots_of; simpl. lia.
  - apply Forall_cons_1 in H1 as [? _]. unfold slots_of; simpl. lia.
Qed.

(** ** The loops as folds over the schedule *)

(** The [yield] that only records its argument; [schedule] runs the loops with it. *)
Definition record (i : nat) (l : list nat) : result (list nat) := Ok (l ++ [i]).

Section fold.
Context {S : Type} (f : nat -> S -> result S) (slots : list assignment).

Lemma secondary_record js errors (l : list nat) :
  secondary record slots js errors l =
    ('(errors, m) ← secondary record slots js errors []; Ok (errors, l ++ m)).
Proof.
  revert errors l. induction js as [|j js IH]; intros errors l; simpl.
  { by rewrite app_nil_r. }
  destruct (slots !! 0%nat) as [a0|]; simpl; [|done].
  destruct (slots !! j) as [aj|]; simpl; [|done].
  destruct (errors !! (j - 1)%nat) as [e|]; simpl; [|done].
  destruct (swrap64 _ <? 0); [|apply IH]. 
  rewrite (IH _ (l ++ [j])), (IH _ [j]).
  destruct (secondary record slots js _ []) as [[errors' m]|]; simpl; [|done].
  by rewrite <- app_assoc.
Qed.

Lemma primary_record n k errors (l : list nat) :
  primary record slots n k errors l = (m ← primary record slots n k errors []; Ok (l ++ m)).
Proof.
  revert errors l. induction k as [|k IH]; intros errors l; simpl.
  { by rewrite app_nil_r. }
  rewrite (secondary_record _ _ (l ++ [0%nat])), (secondary_record _ _ [0%nat]).
  destruct (secondary record slots _ errors []) as [[errors' m]|]; simpl; [|done].
  rewrite (IH _ ((l ++ [0%nat]) ++ m)), (IH _ (0%nat :: m)).
  destruct (primary record slots n k _ []) as [m'|]; simpl; [|done].
  by rewrite <- !app_assoc.
Qed.

Lemma secondary_fold js errors errors' l (s : S) :
  secondary record slots js errors [] = Ok (errors', l) ->
  secondary f slots js errors s = (s ← mfold f l s; Ok (errors', s)).
Proof.
  revert errors errors' l s. induction js as [|j js IH]; intros errors errors' l s; simpl.
  { by intros [= <- <-]. }
  destruct (slots !! 0%nat) as [a0|]; simpl; [|done].
  destruct (slots !! j) as [aj|]; simpl; [|done].
  destruct (errors !! (j - 1)%nat) as [e|]; simpl; [|done].
  destruct (swrap64 _ <? 0); [|apply IH].
  rewrite secondary_record.
  destruct (secondary record slots js _ []) as [[er m]|] eqn:E; simpl; [|done].
  intros [= <- <-]. simpl. destruct (f j s) as [s'|]; simpl; [|done]. by apply IH.
Qed.

Lemma primary_fold n k errors l (s : S) :
  primary record slots n k errors [] = Ok l -> primary f slots n k errors s = mfold f l s.
Proof.
  revert errors l s. induction k as [|k IH]; intros errors l s; simpl; [by intros [= <-]|].
  rewrite secondary_record.
  destruct (secondary record slots _ errors []) as [[errors' m]|] eqn:E1; simpl; [|done].
  rewrite primary_record.
  destruct (primary record slots n k _ []) as [m'|] eqn:E2; simpl; [|done].
  intros [= <-]. simpl. destruct (f 0%nat s) as [s1|]; simpl; [|done].
  rewrite (secondary_fold _ _ _ _ s1 E1), mfold_app.
  destruct (mfold f m s1) as [s2|]; simpl; [|done]. by apply IH.
Qed.

Lemma interleave_fold n l (s : S) :
  schedule slots n = Ok l -> interleave f slots n s = mfold f l s.
Proof.
  unfold schedule, interleave. destruct (slots !! 0%nat); simpl; [|done].
  destruct (n =? 0); [done|]. apply primary_fold.
Qed.
End fold.

(** ** The accumulators *)

(** One round of the inner loop for a client with accumulator [e]: the new accumulator, and
    whether a slot is due. *)
Definition round_error (a0 aj e : Z) : Z := if e - aj <? 0 then e - aj + a0 else e - aj.
Definition round_due (aj e : Z) : Z := if e - aj <? 0 then 1 else 0.

(** Every accumulator is in [[0, a0)]. *)
Definition errors_ok (slots : list assignment) (errors : list Z) : Prop :=
  Forall (fun e => 0 <= e < slots_of slots 0) errors.

Lemma round_error_ok a0 aj e : 0 <= e < a0 -> 0 <= aj <= a0 -> 0 <= round_error a0 aj e < a0.
Proof. unfold round_error. intros. destruct (Z.ltb_spec (e - aj) 0); lia. Qed.

Lemma slots_of_lookup slots j a : slots !! j = Some a -> as_num_slots a = slots_of slots j.
Proof. unfold slots_of. by intros ->. Qed.

Lemma secondary_spec slots js errors :
  slots_ok slots -> errors_ok slots errors -> NoDup js ->
  Forall (fun j => (0 < j < length slots)%nat) js -> length errors = (length slots - 1)%nat ->
  exists errors' l,
    secondary record slots js errors [] = Ok (errors', l) /\
    length errors' = length errors /\ errors_ok slots errors' /\
    (forall j e, (0 < j)%nat -> errors !! (j - 1)%nat = Some e ->
       errors' !! (j - 1)%nat =
         Some (if decide (j ∈ js) then round_error (slots_of slots 0) (slots_of slots j) e else e) /\
       occurrences j l = if decide (j ∈ js) then round_due (slots_of slots j) e else 0) /\
    Forall (fun j => j ∈ js) l.
Proof.
  intros Hs. revert errors. induction js as [|j js IH]; intros errors He Hnd Hjs Hlen.
  { exists errors, []. simpl. repeat split; try done. }
  apply NoDup_cons in Hnd as [Hnj Hnd]. apply Forall_cons in Hjs as [Hj Hjs].
  simpl. destruct (lookup_lt_is_Some_2 slots 0) as [a0 Ha0]; [lia|].
  destruct (lookup_lt_is_Some_2 slots j) as [aj Haj]; [lia|].
  destruct (lookup_lt_is_Some_2 errors (j - 1)) as [e Hej]; [lia|].
  rewrite Ha0, Haj, Hej; cbn [deref mbind result_bind].
  rewrite (slots_of_lookup _ _ _ Ha0), (slots_of_lookup _ _ _ Haj).
  pose proof (slots_of_bounds slots j Hs) as Hb.
  assert (0 <= e < slots_of slots 0) as Hb' by (by eapply Forall_lookup_1 in He; [|exact Hej]).
  rewrite (swrap64_small (e - _)) by lia.
  set (errors1 := <[(j-1)%nat := round_error (slots_of slots 0) (slots_of slots j) e]> errors).
  assert (errors_ok slots errors1) as He1.
  { apply Forall_insert; [done|]. apply round_error_ok; lia. }
  destruct (IH errors1) as (errors' & l & E & Hl' & He' & Hspec & Hin);
    [done..|by unfold errors1; rewrite length_insert|].
  assert (forall i x, (0 < i)%nat -> errors !! (i - 1)%nat = Some x ->
    errors1 !! (i - 1)%nat =
      Some (if decide (i = j) then round_error (slots_of slots 0) (slots_of slots j) x else x)) as H1.
  { intros i x Hi Hx. unfold errors1. case_decide as Hij.
    - subst. rewrite list_lookup_insert_eq by (apply lookup_lt_Some in Hx; lia). congruence.
    - rewrite list_lookup_insert_ne; [done|lia]. }
  exists errors', (if e - slots_of slots j <? 0 then j :: l else l).
  split; [|split; [|split; [done|split]]].
  - unfold errors1, round_error in E. destruct (Z.ltb_spec (e - slots_of slots j) 0); [|done].
    rewrite swrap64_small by lia. by rewrite secondary_record, E.
  - rewrite Hl'. unfold errors1. by rewrite length_insert.
  - intros i x Hi Hx. destruct (Hspec i _ Hi (H1 i x Hi Hx)) as [Hs1 Hs2]. rewrite Hs1.
    assert (occurrences i (if e - slots_of slots j <? 0 then j :: l else l) =
      (if decide (i = j) then round_due (slots_of slots j) e else 0) + occurrences i l) as ->.
    { unfold round_due. destruct (_ <? 0); simpl; repeat case_decide; subst; try done; lia. }
    rewrite Hs2. destruct (decide (i = j)) as [->|Hij].
    + rewrite !(decide_False (P := j ∈ js)), !(decide_True (P := j ∈ j :: js)) by set_solver.
      assert (x = e) as -> by congruence. split; [done|lia].
    + split.
      * f_equal. repeat case_decide; set_solver.
      * destruct (decide (i ∈ js)), (decide (i ∈ j :: js)); set_solver.
  - destruct (_ <? 0); [constructor; [set_solver|]|];
      (eapply Forall_impl; [exact Hin|]; set_solver).
Qed.

(** After [k] rounds from accumulators [errors], the schedule has given client 0 [k] slots and
    every secondary client what its accumulator accounts for. *)
Lemma primary_spec slots k errors :
  slots_ok slots -> errors_ok slots errors -> length errors = (length slots - 1)%nat ->
  exists l,
    primary record slots (length slots) k errors [] = Ok l /\
    occurrences 0 l = Z.of_nat k /\
    (forall j e, (0 < j)%nat -> errors !! (j - 1)%nat = Some e ->
       exists e', 0 <= e' < slots_of slots 0 /\
         occurrences j l * slots_of slots 0 = Z.of_nat k * slots_of slots j + e' - e) /\
    Forall (fun j => (j < length slots)%nat) l.
Proof.
  intros Hs. revert errors. induction k as [|k IH]; intros errors He Hlen.
  { exists []. simpl. split_and!; try done. intros j e Hj Hx. exists e.
    split; [by eapply Forall_lookup_1 in He; [|exact Hx]|lia]. }
  assert (0 < length slots)%nat by (destruct slots; [by destruct Hs|simpl; lia]).
  destruct (secondary_spec slots (seq 1 (length slots - 1)) errors) as (errors' & m & E & Hl & He' & Hsp & Hin);
    [done|done|apply NoDup_seq|apply Forall_forall; intros j [? ?]%elem_of_seq; lia|done|].
  destruct (IH errors') as (l & E2 & H0 & Hspec & Hlt); [done|lia|].
  exists ((0 :: m) ++ l)%nat. split; [|split; [|split]].
  - simpl. rewrite secondary_record, E. cbn [mbind result_bind]. by rewrite primary_record, E2.
  - assert (occurrences 0 m = 0) as Hm.
    { clear -Hin. induction Hin as [|j m Hj _ IHm]; simpl; [done|].
      apply elem_of_seq in Hj. rewrite decide_False by lia. lia. }
    rewrite occurrences_app. simpl. lia.
  - intros j e Hj Hx. destruct (Hsp j e Hj Hx) as [Hx' Hm].
    assert (j ∈ seq 1 (length slots - 1)) as Hjin.
    { apply elem_of_seq. apply lookup_lt_Some in Hx. lia. }
    rewrite decide_True in Hx', Hm by done.
    destruct (Hspec j _ Hj Hx') as (e' & ? & Hocc). exists e'. split; [done|].
    rewrite occurrences_app. simpl. rewrite (decide_False (P := 0%nat = j)) by lia. rewrite Hm.
    unfold round_error, round_due in *. destruct (_ <? 0); nia.
  - apply Forall_app; split; [|done]. constructor; [lia|].
    eapply Forall_impl; [exact Hin|]. intros j [? ?]%elem_of_seq. lia.
Qed.

(** ** The whole schedule *)

Lemma initial_errors_ok slots :
  slots_ok slots -> slots_of slots 0 <> 0 ->
  errors_ok slots (replicate (length slots - 1) (swrap64 (slots_of slots 0 / Z.of_nat (length slots)))).
Proof.
  intros Hs H0.
  pose proof (slots_of_bounds slots 0 Hs) as Hb.
  destruct (decide (length slots <= 1)%nat) as [Hl|Hl].
  { replace (length slots - 1)%nat with 0%nat by lia. constructor. }
  assert (0 <= slots_of slots 0 / Z.of_nat (length slots) < slots_of slots 0).
  { split; [apply Z.div_pos; lia|apply Z.div_lt; lia]. }
  rewrite swrap64_small by lia. by apply Forall_replicate.
Qed.

Lemma schedule_unfold slots :
  slots_ok slots ->
  schedule slots (Z.of_nat (length slots)) =
    primary record slots (length slots) (Z.to_nat (slots_of slots 0))
      (replicate (length slots - 1) (swrap64 (slots_of slots 0 / Z.of_nat (length slots)))) [].
Proof.
  intros [_ Hs]. unfold schedule, interleave. destruct slots as [|a0 rest]; [done|].
  cbn [lookup list_lookup deref mbind result_bind].
  rewrite (proj2 (Z.eqb_neq _ _)) by (simpl; lia). by rewrite Nat2Z.id.
Qed.

Lemma schedule_occurrences slots :
  slots_ok slots ->
  exists l, schedule slots (Z.of_nat (length slots)) = Ok l /\
    (forall j, (j < length slots)%nat -> occurrences j l = slots_of slots j) /\
    Forall (fun j => (j < length slots)%nat) l.
Proof.
  intros Hs. rewrite schedule_unfold by done.
  destruct (decide (slots_of slots 0 = 0)) as [H0|H0].
  { rewrite H0. exists []. split_and!; [done| |done]. intros j Hj.
    pose proof (slots_of_bounds slots j Hs). simpl. lia. }
  pose proof (slots_of_bounds slots 0 Hs) as Hb0.
  destruct (primary_spec slots (Z.to_nat (slots_of slots 0))
    (replicate (length slots - 1) (swrap64 (slots_of slots 0 / Z.of_nat (length slots)))))
    as (l & El & Ho & Hsp & Hlt); [done|by apply initial_errors_ok|by rewrite length_replicate|].
  exists l. split_and!; [done| |done]. intros [|j] Hj; [rewrite Ho; lia|].
  pose proof (initial_errors_ok slots Hs H0) as He.
  destruct (lookup_lt_is_Some_2 (replicate (length slots - 1)
    (swrap64 (slots_of slots 0 / Z.of_nat (length slots)))) (S j - 1)) as [e Hx];
    [rewrite length_replicate; lia|].
  destruct (Hsp (S j) e) as (e' & ? & Hocc); [lia|done|].
  unfold errors_ok in He. pose proof (Forall_lookup_1 _ _ _ _ He Hx).
  rewrite Z2Nat.id in Hocc by lia. cbv beta in *.
  assert ((occurrences (S j) l - slots_of slots (S j)) * slots_of slots 0 = e' - e) by lia. nia.
Qed.

Lemma zsum_fmap_ext {A} (f g : A -> Z) l :
  (forall x, x ∈ l -> f x = g x) -> zsum (f <$> l) = zsum (g <$> l).
Proof. intros H. f_equal. by apply list_fmap_ext; intros i x Hx; apply H, list_elem_of_lookup; eauto. Qed.

Lemma zsum_fmap_add {A} (f g : A -> Z) l :
  zsum ((fun x => f x + g x) <$> l) = zsum (f <$> l) + zsum (g <$> l).
Proof. induction l as [|x l IH]; [done|]. rewrite !fmap_cons. simpl. lia. Qed.

Lemma zsum_indicator (i k n : nat) :
  zsum ((fun j => if decide (i = j) then 1 else 0) <$> seq k n) =
    if decide (k <= i < k + n)%nat then 1 else 0.
Proof.
  revert k. induction n as [|n IH]; intros k; simpl.
  - by rewrite decide_False by lia.
  - rewrite IH. repeat case_decide; lia.
Qed.

Lemma length_occurrences l n :
  Forall (fun j => (j < n)%nat) l ->
  Z.of_nat (length l) = zsum ((fun j => occurrences j l) <$> seq 0 n).
Proof.
  induction 1 as [|i l Hi _ IH].
  - simpl occurrences. generalize (seq 0 n). intros l.
    induction l as [|x l IH]; [done|]. rewrite fmap_cons. cbn [zsum foldr]. exact IH.
  - simpl occurrences. rewrite zsum_fmap_add, <- IH, zsum_indicator, decide_True by lia.
    simpl length. lia.
Qed.

Lemma total_slots_seq slots :
  total_slots slots = zsum (slots_of slots <$> seq 0 (length slots)).
Proof.
  unfold total_slots. f_equal. apply list_eq. intros i.
  rewrite !list_lookup_fmap. destruct (decide (i < length slots)%nat) as [Hi|Hi].
  - rewrite lookup_seq_lt by done. destruct (lookup_lt_is_Some_2 slots i Hi) as [a Ha].
    rewrite Ha. simpl. f_equal. by apply slots_of_lookup.
  - rewrite (lookup_ge_None_2 slots), (lookup_ge_None_2 (seq _ _)); [done|rewrite length_seq|]; lia.
Qed.

(** The loops read the slot counts only. *)
Lemma secondary_counts s1 s2 js errors l :
  as_num_slots <$> s1 = as_num_slots <$> s2 ->
  secondary record s1 js errors l = secondary record s2 js errors l.
Proof.
  intros Heq. revert errors l.
  assert (forall j, (as_num_slots <$> s1 !! j) = (as_num_slots <$> s2 !! j)) as Hj.
  { intros j. by rewrite <- !list_lookup_fmap, Heq. }
  induction js as [|j js IH]; intros errors l; simpl; [done|].
  pose proof (Hj 0%nat) as E0. pose proof (Hj j) as Ej.
  destruct (s1 !! 0%nat) as [a|], (s2 !! 0%nat) as [b|]; try done; simpl.
  destruct (s1 !! j) as [aj|], (s2 !! j) as [bj|]; try done; simpl.
  simpl in E0, Ej. injection E0 as ->. injection Ej as ->.
  destruct (errors !! _); simpl; [|done]. destruct (_ <? 0); simpl; apply IH.
Qed.

Lemma primary_counts s1 s2 n k errors l :
  as_num_slots <$> s1 = as_num_slots <$> s2 ->
  primary record s1 n k errors l = primary record s2 n k errors l.
Proof.
  intros Heq. revert errors l. induction k as [|k IH]; intros errors l; simpl; [done|].
  rewrite (secondary_counts _ _ _ _ _ Heq).
  destruct (secondary record s2 _ _ _) as [[errors' l']|]; simpl; [apply IH|done].
Qed.

Lemma schedule_counts s1 s2 n :
  as_num_slots <$> s1 = as_num_slots <$> s2 -> schedule s1 n = schedule s2 n.
Proof.
  intros Heq. unfold schedule, interleave.
  assert ((as_num_slots <$> s1 !! 0%nat) = (as_num_slots <$> s2 !! 0%nat)) as E0.
  { by rewrite <- !list_lookup_fmap, Heq. }
  destruct (s1 !! 0%nat) as [a|], (s2 !! 0%nat) as [b|]; try done; simpl.
  injection E0 as ->. destruct (n =? 0); [done|]. by apply (primary_counts s1 s2).
Qed.

(** ** Properties *)

Lemma schedule_length slots sched :
  slots_ok slots -> schedule slots (Z.of_nat (length slots)) = Ok sched ->
  Z.of_nat (length sched) = total_slots slots.
Proof.
  intros Hs Es. destruct (schedule_occurrences _ Hs) as (sched' & E & Hocc & Hlt).
  assert (sched' = sched) as -> by congruence.
  rewrite (length_occurrences _ _ Hlt), total_slots_seq.
  apply zsum_fmap_ext. intros j [_ ?]%elem_of_seq. apply Hocc. lia.
Qed.

(** C24: the interleaving gives every client of an epoch exactly the number of slots the
    ordering server assigned it, and no other slot: the schedule of [add_entries] exists, the
    [j]-th client occurs in it [num_slots] times, and its length is the total by which the
    ordering server advances [gsn_base_]. *)
Theorem schedule_exact slots :
  slots_ok slots ->
  exists l, schedule slots (Z.of_nat (length slots)) = Ok l /\
    (forall j, (j < length slots)%nat -> occurrences j l = slots_of slots j) /\
    Z.of_nat (length l) = total_slots slots.
Proof.
  intros Hs. destruct (schedule_occurrences slots Hs) as (l & E & Hocc & Hlt).
  exists l. split_and!; [done..|].
  rewrite (length_occurrences l (length slots) Hlt), total_slots_seq.
  apply zsum_fmap_ext. intros j [_ ?]%elem_of_seq. apply Hocc. lia.
Qed.

Definition example_slots : list assignment :=
  [Assignment 3 5; Assignment 0 3; Assignment UINT64_MAX 2].

Lemma example_slots_ok : slots_ok example_slots.
Proof. split; [|split; [|reflexivity]]; repeat constructor; by vm_compute. Qed.

Lemma schedule_exact_witness :
  slots_ok example_slots /\
  exists l, schedule example_slots 3 = Ok l /\
    (forall j, (j < 3)%nat -> occurrences j l = slots_of example_slots j) /\ Z.of_nat (length l) = 10.
Proof. split; [exact example_slots_ok|]. exact (schedule_exact example_slots example_slots_ok). Defined.

(** C32: the interleaving is even: after any number [k] of rounds, the number of slots a
    client has got differs by less than one slot from its share [k * num_slots / rounds]. *)
Theorem schedule_balanced slots k j :
  slots_ok slots -> (k <= Z.to_nat (slots_of slots 0))%nat -> (j < length slots)%nat ->
  exists l,
    primary (fun i s => Ok (s ++ [i])) slots (length slots) k
      (replicate (length slots - 1) (swrap64 (slots_of slots 0 / Z.of_nat (length slots)))) [] = Ok l /\
    Z.abs (occurrences j l * slots_of slots 0 - Z.of_nat k * slots_of slots j)
      <= Z.max 0 (slots_of slots 0 - 1).
Proof.
  intros Hs Hk Hj. destruct (decide (slots_of slots 0 = 0)) as [H0|H0].
  { rewrite H0 in *. replace k with 0%nat by lia. exists []. simpl. split; [done|lia]. }
  pose proof (initial_errors_ok slots Hs H0) as He.
  destruct (primary_spec slots k _ Hs He) as (l & El & Ho & Hsp & _); [by rewrite length_replicate|].
  pose proof (slots_of_bounds slots 0 Hs).
  exists l. split; [exact El|]. destruct j as [|j]; [rewrite Ho; lia|].
  destruct (lookup_lt_is_Some_2 (replicate (length slots - 1)
    (swrap64 (slots_of slots 0 / Z.of_nat (length slots)))) (S j - 1)) as [e Hx];
    [rewrite length_replicate; lia|].
  destruct (Hsp (S j) e) as (e' & ? & Hocc); [lia|done|].
  unfold errors_ok in He. pose proof (Forall_lookup_1 _ _ _ _ He Hx). simpl in *. lia.
Qed.

Lemma schedule_balanced_witness :
  exists l,
    primary (fun i s => Ok (s ++ [i])) example_slots 3 2
      (replicate 2 (swrap64 (slots_of example_slots 0 / 3))) [] = Ok l /\
    Z.abs (occurrences 1 l * 5 - 2 * 3) <= 4.
Proof.
  apply (schedule_balanced example_slots 2 1); [exact example_slots_ok|apply Nat.leb_le; reflexivity..].
Defined.
