(* ===== verification/LogInv.v ===== *)
(** * The representation invariant of the storage log

    [rep l sl] relates the blocks, pointers and counters of a [StorageLog.log] to the plain
    list [sl] of the (client, GSN) pairs of its entries in log order.  Every operation of the
    log is specified against it in [StorageLogSpec]. *)
From S2P Require Import Prelude Consts Api StorageLog.

(** The address of the [k]-th entry of the log. *)
Definition addr (k : nat) : ptr :=
  (Z.of_nat k / NUM_ENTRIES_PER_BLOCK, Z.of_nat k `mod` NUM_ENTRIES_PER_BLOCK).

#[local] Opaque NUM_ENTRIES_PER_BLOCK.

#[global] Arguments addr : simpl never.
#[global] Arguments entries_fuel : simpl never.
#[global] Arguments upd_entry : simpl never.
#[global] Arguments get_entry : simpl never.

Lemma addr_inj k1 k2 : addr k1 = addr k2 -> k1 = k2.
Proof.
  unfold addr. intros [= H1 H2].
  pose proof num_entries_per_block_pos.
  pose proof (Z.div_mod (Z.of_nat k1) NUM_ENTRIES_PER_BLOCK).
  pose proof (Z.div_mod (Z.of_nat k2) NUM_ENTRIES_PER_BLOCK). nia.
Qed.

Lemma addr_intro (b i : Z) (k : nat) :
  b * NUM_ENTRIES_PER_BLOCK + i = Z.of_nat k -> 0 <= i < NUM_ENTRIES_PER_BLOCK -> (b, i) = addr k.
Proof.
  intros Hk Hi. unfold addr. rewrite <- Hk, Z.add_comm.
  rewrite Z.div_add, Z.mod_add, Z.div_small, Z.mod_small by lia. by rewrite Z.add_0_l.
Qed.

(** ** The entries of one client *)

(** The places in the log of the entries of client [c], the first one being [k]. *)
Fixpoint positions_from (c : Z) (k : nat) (sl : list (Z * Z)) : list nat :=
  match sl with
  | [] => []
  | (c', _) :: sl => (if decide (c' = c) then [k] else []) ++ positions_from c (S k) sl
  end.

Definition positions (c : Z) (sl : list (Z * Z)) : list nat := positions_from c 0 sl.

Lemma positions_from_app c k s1 s2 :
  positions_from c k (s1 ++ s2) = positions_from c k s1 ++ positions_from c (k + length s1) s2.
Proof.
  revert k. induction s1 as [|[c' g] s1 IH]; intros k; simpl.
  - by rewrite Nat.add_0_r.
  - rewrite IH, <- app_assoc. do 3 f_equal. lia.
Qed.

Lemma positions_snoc c sl c' g :
  positions c (sl ++ [(c', g)]) = positions c sl ++ (if decide (c' = c) then [length sl] else []).
Proof. unfold positions. rewrite positions_from_app. simpl. by rewrite app_nil_r. Qed.

Lemma positions_from_lookup c k sl i p :
  positions_from c k sl !! i = Some p ->
  (k <= p)%nat /\ exists g, sl !! (p - k)%nat = Some (c, g).
Proof.
  revert k i. induction sl as [|[c' g] sl IH]; intros k i; simpl; [done|].
  case_decide as Hc; simpl.
  - destruct i as [|i]; simpl.
    + intros [= <-]. subst. rewrite Nat.sub_diag. eauto.
    + intros [? [g' ?]]%IH. split; [lia|]. exists g'. by replace (p - k)%nat with (S (p - S k)) by lia.
  - intros [? [g' ?]]%IH. split; [lia|]. exists g'. by replace (p - k)%nat with (S (p - S k)) by lia.
Qed.

Lemma positions_lookup c sl i p :
  positions c sl !! i = Some p -> exists g, sl !! p = Some (c, g).
Proof. intros [_ [g ?]]%positions_from_lookup. rewrite Nat.sub_0_r in *. eauto. Qed.

Lemma positions_lookup_lt c sl i p : positions c sl !! i = Some p -> (p < length sl)%nat.
Proof. intros [g ?]%positions_lookup. by eapply lookup_lt_Some. Qed.

Lemma positions_from_increasing c k sl i j p q :
  positions_from c k sl !! i = Some p -> positions_from c k sl !! j = Some q ->
  (i < j)%nat -> (p < q)%nat.
Proof.
  revert k i j. induction sl as [|[c' g] sl IH]; intros k i j; simpl; [done|].
  case_decide; simpl; [|by apply IH].
  destruct i as [|i], j as [|j]; simpl; try lia; [|intros; eapply IH; eauto; lia].
  intros [= <-] [? _]%positions_from_lookup. lia.
Qed.

Lemma positions_increasing c sl i j p q :
  positions c sl !! i = Some p -> positions c sl !! j = Some q -> (i < j)%nat -> (p < q)%nat.
Proof. apply positions_from_increasing. Qed.

Lemma positions_inj c sl i j p :
  positions c sl !! i = Some p -> positions c sl !! j = Some p -> i = j.
Proof.
  intros H1 H2. destruct (Nat.lt_trichotomy i j) as [H|[H|H]]; [|done|].
  - pose proof (positions_increasing _ _ _ _ _ _ H1 H2 H). lia.
  - pose proof (positions_increasing _ _ _ _ _ _ H2 H1 H). lia.
Qed.

Lemma positions_complete c sl k g : sl !! k = Some (c, g) -> exists j, positions c sl !! j = Some k.
Proof.
  intros Hk. apply list_elem_of_lookup_1. rewrite <- (take_drop_middle _ _ _ Hk).
  unfold positions. rewrite positions_from_app. apply elem_of_app. right.
  cbn [positions_from]. rewrite decide_True by done. apply elem_of_app. left.
  rewrite length_take, Nat.min_l by (apply lookup_lt_Some in Hk; lia). by apply list_elem_of_singleton.
Qed.

Lemma length_positions c sl : (length (positions c sl) <= length sl)%nat.
Proof.
  unfold positions. generalize 0%nat. induction sl as [|[c' g] sl IH]; intros k; simpl; [lia|].
  rewrite length_app. specialize (IH (S k)). case_decide; simpl; lia.
Qed.

(** The GSN of the [i]-th entry of client [c]. *)
Definition client_gsn (c : Z) (sl : list (Z * Z)) (i : nat) : option Z :=
  p ← positions c sl !! i; x ← sl !! p; Some x.2.

(** ** The invariant *)
Record rep (l : log) (sl : list (Z * Z)) : Prop := {
  rep_some k c g : sl !! k = Some (c, g) ->
    is_Some (mem_ l !! addr k) /\
    e_client_id (get_entry l (addr k)) = c /\ e_gsn (get_entry l (addr k)) = g;
  rep_none k : (length sl <= k)%nat -> mem_ l !! addr k = None;
  rep_size : size (mem_ l) = length sl;
  rep_first c : client_first_ l !! c = addr <$> positions c sl !! 0%nat;
  rep_last c : client_last_ l !! c = addr <$> last (positions c sl);
  rep_next c i k : positions c sl !! i = Some k ->
    e_next (get_entry l (addr k)) = addr <$> positions c sl !! S i;
  rep_prev c i k : positions c sl !! i = Some k ->
    e_prev (get_entry l (addr k)) =
      match i with O => None | S i => addr <$> positions c sl !! i end;
  rep_current : current_entries_ l = Z.of_nat (length sl);
  rep_cursor : block_ l * NUM_ENTRIES_PER_BLOCK + entry_ l = Z.of_nat (length sl);
  rep_entry : 0 <= entry_ l <= NUM_ENTRIES_PER_BLOCK;
  rep_block : 0 <= block_ l;
  rep_blocks : blocks_ l = block_ l + 1;
  rep_clients : Forall (fun x => x.1 < MAX_CLIENTS) sl }.

Lemma rep_init : rep log_init [].
Proof.
  split; done.
Qed.

(** ** Reading and updating entries *)
Lemma get_upd_eq f p l : get_entry (upd_entry f p l) p = f (get_entry l p).
Proof. unfold get_entry at 1, upd_entry; simpl. by rewrite lookup_insert_eq. Qed.

Lemma get_upd_ne f p q l : p <> q -> get_entry (upd_entry f p l) q = get_entry l q.
Proof. intros. unfold get_entry, upd_entry; simpl. by rewrite lookup_insert_ne. Qed.

Lemma get_upd f p q l :
  get_entry (upd_entry f p l) q = if decide (p = q) then f (get_entry l q) else get_entry l q.
Proof. case_decide; subst; [apply get_upd_eq|by apply get_upd_ne]. Qed.

(** [f] changes the payload or the [set] flag of an entry only. *)
Definition payload_only (f : entry -> entry) : Prop :=
  forall e, e_client_id (f e) = e_client_id e /\ e_gsn (f e) = e_gsn e /\
    e_next (f e) = e_next e /\ e_prev (f e) = e_prev e.

Lemma payload_only_set b : payload_only (set_set b).
Proof. by intros []. Qed.

Lemma payload_only_payload d n : payload_only (set_payload d n).
Proof. by intros []. Qed.

Create HintDb zlog.
#[export] Hint Resolve payload_only_set payload_only_payload rep_init : zlog.

Lemma rep_upd f k l sl :
  rep l sl -> payload_only f -> (k < length sl)%nat -> rep (upd_entry f (addr k) l) sl.
Proof.
  intros H Hf Hk. destruct (lookup_lt_is_Some_2 _ _ Hk) as [[c0 g0] Hk0].
  destruct (rep_some _ _ H _ _ _ Hk0) as (He0 & Hc0 & Hg0).
  assert (forall q, e_next (get_entry (upd_entry f (addr k) l) q) = e_next (get_entry l q) /\
    e_prev (get_entry (upd_entry f (addr k) l) q) = e_prev (get_entry l q)) as Hfr.
  { intros q. rewrite get_upd. case_decide; [|done]. split; apply Hf. }
  split; try (unfold upd_entry; simpl; apply H).
  - intros k' c g Hk'. destruct (rep_some _ _ H _ _ _ Hk') as (? & <- & <-). split.
    + unfold upd_entry; simpl. rewrite lookup_insert_is_Some'. by right.
    + rewrite get_upd. case_decide; [|done]. split; apply Hf.
  - intros k' Hk'. unfold upd_entry; simpl.
    rewrite lookup_insert_ne by (intros ?%addr_inj; lia). by apply (rep_none _ _ H).
  - unfold upd_entry; simpl. rewrite map_size_insert_Some by done. apply (rep_size _ _ H).
  - intros c i k' Hp. rewrite (proj1 (Hfr _)). by apply (rep_next _ _ H).
  - intros c i k' Hp. rewrite (proj2 (Hfr _)). by apply (rep_prev _ _ H).
Qed.

(** ** Appending a slot *)

(** The payload and the [set] flag agree. *)
Definition same_payload (e1 e2 : entry) : Prop :=
  e_set e1 = e_set e2 /\ e_data_length e1 = e_data_length e2 /\ e_data e1 = e_data e2.

Lemma same_payload_refl e : same_payload e e.
Proof. done. Qed.

Lemma same_payload_trans e1 e2 e3 :
  same_payload e1 e2 -> same_payload e2 e3 -> same_payload e1 e3.
Proof. unfold same_payload. naive_solver congruence. Qed.

Lemma same_payload_set_next p e : same_payload (set_next p e) e.
Proof. by destruct e. Qed.

#[export] Hint Resolve same_payload_refl same_payload_set_next : zlog.

(** The start of [yield]: move to a fresh block when the current one is full. *)
Definition advance_block (l : log) : log :=
  if entry_ l =? NUM_ENTRIES_PER_BLOCK
  then Log (blocks_ l + 1) (mem_ l) (current_entries_ l) (num_entries_ l)
         (client_first_ l) (client_last_ l) (block_ l + 1) 0
  else l.

Lemma advance_block_rep l sl :
  rep l sl -> rep (advance_block l) sl /\ (block_ (advance_block l), entry_ (advance_block l)) = addr (length sl).
Proof.
  intros H. pose proof (rep_cursor _ _ H). pose proof (rep_entry _ _ H).
  pose proof (rep_block _ _ H). pose proof (rep_blocks _ _ H). pose proof num_entries_per_block_pos.
  unfold advance_block. destruct (Z.eqb_spec (entry_ l) NUM_ENTRIES_PER_BLOCK) as [He|He].
  - split; [|apply addr_intro; simpl; lia]. split; try (simpl; lia); apply H.
  - split; [done|apply addr_intro; lia].
Qed.

(** The state after the writes of [yield], for the entry [p] of client [c]. *)
Definition append_entry (c g : Z) (p : ptr) (l : log) : log :=
  let e := get_entry l p in
  let last := client_last_ l !! c in
  let l1 := set_mem (<[p := Entry c g (e_data_length e) (e_data e) (e_set e) (e_next e)
      (match last with Some _ => last | None => e_prev e end)]> (mem_ l)) l in
  let l2 := match last with Some q => upd_entry (set_next (Some p)) q l1 | None => l1 end in
  Log (blocks_ l2) (mem_ l2) (wrap64 (current_entries_ l2 + 1)) (num_entries_ l2)
    (match last with Some _ => client_first_ l2 | None => <[c := p]> (client_first_ l2) end)
    (<[c := p]> (client_last_ l2)) (block_ l2) (entry_ l2 + 1).

Lemma add_slot_unfold c g l :
  c < MAX_CLIENTS ->
  add_slot c g l = Ok (append_entry c g (block_ (advance_block l), entry_ (advance_block l)) (advance_block l)).
Proof.
  intros Hc. unfold add_slot. fold (advance_block l).
  rewrite (proj2 (Z.ltb_lt _ _) Hc); simpl.
  unfold append_entry. by destruct (client_last_ (advance_block l) !! c).
Qed.

(** The entries after an append: the new one, the predecessor's new [next], the others. *)
Lemma get_append c g l sl q :
  rep l sl ->
  get_entry (append_entry c g (addr (length sl)) l) q =
    if decide (q = addr (length sl)) then Entry c g 0 (Word 0) false None (client_last_ l !! c)
    else if decide (client_last_ l !! c = Some q) then set_next (Some (addr (length sl))) (get_entry l q)
    else get_entry l q.
Proof.
  intros H. assert (get_entry l (addr (length sl)) = zero_entry) as Hz.
  { unfold get_entry. by rewrite (rep_none _ _ H). }
  assert (forall r, client_last_ l !! c = Some r -> r <> addr (length sl)) as Hlast.
  { intros r. rewrite (rep_last _ _ H), last_lookup. intros Hr ->.
    apply fmap_Some in Hr as (k & Hk & Ha%addr_inj). apply positions_lookup_lt in Hk. lia. }
  unfold append_entry. rewrite Hz.
  destruct (client_last_ l !! c) as [r|] eqn:Er; unfold upd_entry, get_entry; simpl.
  - specialize (Hlast r eq_refl).
    rewrite (lookup_insert_ne (mem_ l) (addr (length sl)) r) by done.
    destruct (decide (q = addr (length sl))) as [->|Hq].
    + by rewrite lookup_insert_ne, lookup_insert_eq by done.
    + destruct (decide (Some r = Some q)) as [[= ->]|Hr].
      * by rewrite lookup_insert_eq.
      * by rewrite !lookup_insert_ne by congruence.
  - destruct (decide (q = addr (length sl))) as [->|Hq].
    + by rewrite lookup_insert_eq.
    + rewrite lookup_insert_ne by done. done.
Qed.

Lemma positions_snoc_lookup c sl c' g i k :
  positions c (sl ++ [(c', g)]) !! i = Some k ->
  positions c sl !! i = Some k /\ k <> length sl \/
  c' = c /\ i = length (positions c sl) /\ k = length sl.
Proof.
  rewrite positions_snoc. case_decide as Hc.
  - rewrite lookup_snoc. case_decide as Hi; [intros [= <-]; auto|].
    intros Hk. left. split; [done|]. apply positions_lookup_lt in Hk. lia.
  - rewrite app_nil_r. intros Hk. left. split; [done|]. apply positions_lookup_lt in Hk. lia.
Qed.

Lemma last_positions_lookup c sl k :
  last (positions c sl) = Some k ->
  positions c sl !! (length (positions c sl) - 1)%nat = Some k.
Proof. rewrite last_lookup. intros <-. f_equal. lia. Qed.

Lemma client_last_in c l sl r :
  rep l sl -> client_last_ l !! c = Some r ->
  exists k, last (positions c sl) = Some k /\ r = addr k /\ (k < length sl)%nat /\ is_Some (mem_ l !! r).
Proof.
  intros H. rewrite (rep_last _ _ H). intros (k & Hk & ->)%fmap_Some. exists k.
  pose proof (last_positions_lookup _ _ _ Hk) as Hp.
  destruct (positions_lookup _ _ _ _ Hp) as [g' Hg'].
  split_and!; [done|done|by eapply positions_lookup_lt|]. by apply (rep_some _ _ H _ _ _ Hg').
Qed.

Lemma mem_append c g l sl q :
  rep l sl ->
  is_Some (mem_ (append_entry c g (addr (length sl)) l) !! q) <->
  q = addr (length sl) \/ is_Some (mem_ l !! q).
Proof.
  intros H. unfold append_entry. destruct (client_last_ l !! c) as [r|] eqn:Er;
    unfold upd_entry; simpl; rewrite !lookup_insert_is_Some'; [|naive_solver].
  destruct (client_last_in _ _ _ _ H Er) as (k & _ & _ & _ & ?). naive_solver.
Qed.

Lemma size_append c g l sl :
  rep l sl -> size (mem_ (append_entry c g (addr (length sl)) l)) = S (length sl).
Proof.
  intros H. pose proof (rep_none _ _ H (length sl) ltac:(lia)) as Hn.
  unfold append_entry. destruct (client_last_ l !! c) as [r|] eqn:Er; unfold upd_entry; simpl.
  - destruct (client_last_in _ _ _ _ H Er) as (k & _ & _ & _ & ?).
    rewrite map_size_insert_Some by (rewrite lookup_insert_is_Some'; auto).
    by rewrite map_size_insert_None, (rep_size _ _ H).
  - by rewrite map_size_insert_None, (rep_size _ _ H).
Qed.

Lemma append_next c g l sl c' i k :
  rep l sl -> positions c' (sl ++ [(c, g)]) !! i = Some k ->
  e_next (get_entry (append_entry c g (addr (length sl)) l) (addr k)) =
    addr <$> positions c' (sl ++ [(c, g)]) !! S i.
Proof.
  intros H Hk. rewrite (get_append _ _ _ _ _ H).
  apply positions_snoc_lookup in Hk as [[Hk Hne]|(-> & -> & ->)].
  - rewrite decide_False by (intros ?%addr_inj; done).
    destruct (positions_lookup _ _ _ _ Hk) as [gk Hgk].
    pose proof (lookup_lt_Some _ _ _ Hk) as Hi.
    rewrite positions_snoc. case_decide as Hl.
    + simpl. destruct (client_last_in _ _ _ _ H Hl) as (k' & Hk' & Ha%addr_inj & _). subst k'.
      pose proof (last_positions_lookup _ _ _ Hk') as Hp.
      destruct (positions_lookup _ _ _ _ Hp) as [g2 Hg2]. assert (c' = c) as -> by congruence.
      pose proof (positions_inj _ _ _ _ _ Hk Hp) as ->.
      rewrite decide_True by done. rewrite lookup_snoc, decide_True by lia. done.
    + rewrite (rep_next _ _ H _ _ _ Hk). f_equal. case_decide as Hc; [|by rewrite app_nil_r].
      subst c'. rewrite lookup_snoc, decide_False; [done|]. intros Hi'.
      apply Hl. rewrite (rep_last _ _ H), last_lookup. rewrite <- Hi'. simpl. by rewrite Hk.
  - rewrite decide_True by done. simpl.
    rewrite lookup_ge_None_2; [done|]. rewrite positions_snoc, length_app.
    case_decide; simpl; lia.
Qed.

Lemma append_prev c g l sl c' i k :
  rep l sl -> positions c' (sl ++ [(c, g)]) !! i = Some k ->
  e_prev (get_entry (append_entry c g (addr (length sl)) l) (addr k)) =
    match i with O => None | S i => addr <$> positions c' (sl ++ [(c, g)]) !! i end.
Proof.
  intros H Hk. rewrite (get_append _ _ _ _ _ H).
  apply positions_snoc_lookup in Hk as [[Hk Hne]|(-> & -> & ->)].
  - rewrite decide_False by (intros ?%addr_inj; done).
    assert (e_prev (get_entry l (addr k)) =
      match i with O => None | S i => addr <$> positions c' (sl ++ [(c, g)]) !! i end) as Hp.
    { rewrite (rep_prev _ _ H _ _ _ Hk). destruct i as [|i]; [done|]. f_equal.
      rewrite positions_snoc, lookup_app_l; [done|]. apply lookup_lt_Some in Hk. lia. }
    by case_decide.
  - rewrite decide_True by done. simpl. rewrite (rep_last _ _ H), last_lookup.
    destruct (length (positions c' sl)) as [|n] eqn:Hn.
    + by apply length_zero_iff_nil in Hn as ->.
    + simpl. rewrite positions_snoc, lookup_app_l by lia. done.
Qed.

(** [yield] for a client of this shard appends its slot to the log. *)
Lemma append_rep c g l sl :
  rep l sl -> c < MAX_CLIENTS -> Z.of_nat (length sl) + 1 < W64 ->
  (block_ l, entry_ l) = addr (length sl) ->
  rep (append_entry c g (addr (length sl)) l) (sl ++ [(c, g)]).
Proof.
  intros H Hc Hlen Haddr.
  assert (entry_ l < NUM_ENTRIES_PER_BLOCK) as He.
  { unfold addr in Haddr. injection Haddr as _ ->.
    apply Z.mod_pos_bound, num_entries_per_block_pos. }
  pose proof (rep_cursor _ _ H). pose proof (rep_entry _ _ H).
  split.
  - intros k c' g' Hk. rewrite lookup_snoc in Hk. split.
    + apply (mem_append _ _ _ _ _ H). case_decide; [subst; auto|].
      right. apply (rep_some _ _ H _ _ _ Hk).
    + rewrite (get_append _ _ _ _ _ H). case_decide as Hkn.
      * injection Hk as <- <-. subst. by rewrite decide_True.
      * rewrite decide_False by (intros ?%addr_inj; done).
        destruct (rep_some _ _ H _ _ _ Hk) as (_ & <- & <-). by case_decide.
  - intros k. rewrite length_app; simpl. intros Hk.
    apply eq_None_not_Some. intros Hs. apply (mem_append _ _ _ _ _ H) in Hs.
    destruct Hs as [?%addr_inj|[e Hs]]; [lia|]. rewrite (rep_none _ _ H) in Hs by lia. done.
  - rewrite (size_append _ _ _ _ H), length_app. simpl. lia.
  - intros c'. rewrite positions_snoc. pose proof (rep_last _ _ H c) as Hl.
    rewrite last_lookup in Hl.
    unfold append_entry. case_decide as Hcc.
    + subst c'. destruct (positions c sl) as [|k ks] eqn:Hp.
      * simpl in Hl. rewrite Hl; simpl. by rewrite lookup_insert_eq.
      * destruct (client_last_ l !! c); simpl; [|by simpl in Hl; destruct (lookup_lt_is_Some_2 (k :: ks) (length ks)) as [? E]; [simpl; lia|rewrite E in Hl]].
        by rewrite (rep_first _ _ H), Hp.
    + rewrite app_nil_r. destruct (client_last_ l !! c); simpl; rewrite ?lookup_insert_ne by done; apply H.
  - intros c'. rewrite positions_snoc.
    replace (client_last_ (append_entry c g (addr (length sl)) l)) with
      (<[c := addr (length sl)]> (client_last_ l)) by (unfold append_entry; by destruct (client_last_ l !! c)).
    case_decide as Hcc.
    + subst. by rewrite lookup_insert_eq, last_snoc.
    + rewrite lookup_insert_ne, app_nil_r by done. apply H.
  - intros c' i k. by apply append_next.
  - intros c' i k. by apply append_prev.
  - rewrite length_app. unfold append_entry. pose proof (rep_current _ _ H) as Hcur.
    destruct (client_last_ l !! c); simpl; rewrite Hcur, wrap64_small; lia.
  - rewrite length_app. unfold append_entry. destruct (client_last_ l !! c); simpl; lia.
  - unfold append_entry. destruct (client_last_ l !! c); simpl; lia.
  - unfold append_entry. destruct (client_last_ l !! c); simpl; apply H.
  - unfold append_entry. destruct (client_last_ l !! c); simpl; apply H.
  - apply Forall_app; split; [apply H|]. by repeat constructor.
Qed.

Lemma add_slot_spec c g l sl :
  rep l sl -> c < MAX_CLIENTS -> Z.of_nat (length sl) + 1 < W64 ->
  exists l', add_slot c g l = Ok l' /\ rep l' (sl ++ [(c, g)]) /\ num_entries_ l' = num_entries_ l /\
    (forall q, same_payload (get_entry l' q) (get_entry l q)).
Proof.
  intros H Hc Hlen. destruct (advance_block_rep _ _ H) as [H1 Ha].
  rewrite add_slot_unfold, Ha by done. eexists; split; [done|].
  split; [by apply append_rep|].
  assert (num_entries_ (advance_block l) = num_entries_ l /\ mem_ (advance_block l) = mem_ l) as [Hn Hm].
  { unfold advance_block. by destruct (_ =? _). }
  split.
  - unfold append_entry. destruct (client_last_ (advance_block l) !! c); simpl; done.
  - intros q. rewrite (get_append _ _ _ _ _ H1).
    assert (get_entry (advance_block l) q = get_entry l q) as Hg by (unfold get_entry; by rewrite Hm).
    case_decide as Hq; [|rewrite Hg; case_decide; auto with zlog].
    subst q. unfold get_entry. by rewrite (rep_none _ _ H).
Qed.
