(* ===== verification/StorageLogSpec.v ===== *)
(** * What the operations of the storage log do

    Every operation of [StorageLog] against the representation [LogInv.rep]: the epochs'
    slots appended by [add_entries], the slots a client's cursor closes and fills, the suffix
    a recovery reads and the entries a subscriber thread delivers. *)
From S2P Require Import Prelude Consts Api StorageLog Interleave LogInv.

#[local] Opaque NUM_ENTRIES_PER_BLOCK.

(** ** [add_entries] *)

(** The (client, GSN) pairs a schedule appends to a shard's log from [start_gsn] on: every
    slot takes a GSN, and only the slots of this shard's clients take an entry. *)
Fixpoint assigned (slots : list assignment) (gsn : Z) (sched : list nat) : list (Z * Z) :=
  match sched with
  | [] => []
  | i :: sched =>
    match slots !! i with
    | Some a => if as_client_id a =? UINT64_MAX then [] else [(as_client_id a, gsn)]
    | None => []
    end ++ assigned slots (gsn + 1) sched
  end.

(** Client IDs are in the range of [client_entries_], or mark a slot of another shard. *)
Definition clients_ok (slots : list assignment) : Prop :=
  Forall (fun a => as_client_id a = UINT64_MAX \/ as_client_id a < MAX_CLIENTS) slots.

Lemma length_assigned slots g sched : (length (assigned slots g sched) <= length sched)%nat.
Proof.
  revert g. induction sched as [|i sched IH]; intros g; simpl; [lia|].
  rewrite length_app. specialize (IH (g + 1)).
  destruct (slots !! i) as [a|]; [destruct (_ =? _)|]; simpl; lia.
Qed.

(** GSNs grow along the log. *)
Definition gsns_increasing (sl : list (Z * Z)) : Prop :=
  forall i j x y, sl !! i = Some x -> sl !! j = Some y -> (i < j)%nat -> x.2 < y.2.

Lemma gsns_increasing_app s1 s2 :
  gsns_increasing s1 -> gsns_increasing s2 -> (forall x y, x ∈ s1 -> y ∈ s2 -> x.2 < y.2) ->
  gsns_increasing (s1 ++ s2).
Proof.
  intros H1 H2 H i j x y [Hx|[? Hx]]%lookup_app_Some [Hy|[? Hy]]%lookup_app_Some Hij.
  - by eapply H1.
  - apply H; apply list_elem_of_lookup; eauto.
  - apply lookup_lt_Some in Hx, Hy. lia.
  - eapply H2; eauto. lia.
Qed.

Lemma assigned_bounds slots g sched x :
  x ∈ assigned slots g sched -> g <= x.2 < g + Z.of_nat (length sched).
Proof.
  revert g. induction sched as [|i sched IH]; intros g; cbn [assigned length]; [set_solver|].
  rewrite elem_of_app. intros [Hx|Hx%IH]; [|lia].
  destruct (slots !! i) as [a|]; [destruct (_ =? _)|]; try set_solver.
  apply list_elem_of_singleton in Hx as ->. simpl. lia.
Qed.

Lemma assigned_increasing slots g sched : gsns_increasing (assigned slots g sched).
Proof.
  revert g. induction sched as [|i sched IH]; intros g; cbn [assigned]; [by intros ????|].
  apply gsns_increasing_app; [|done|].
  - destruct (slots !! i) as [a|]; [destruct (_ =? _)|]; intros [|?] [|?]; simpl; try done; lia.
  - intros x y Hx Hy%assigned_bounds.
    destruct (slots !! i) as [a|]; [destruct (_ =? _)|]; try set_solver.
    apply list_elem_of_singleton in Hx as ->. simpl. lia.
Qed.

Lemma yield_masked slots i a l g :
  slots !! i = Some a -> as_client_id a = UINT64_MAX -> 0 <= g -> g + 1 < W64 ->
  yield slots i (l, g) = Ok (l, g + 1).
Proof. intros Ha Hm ? ?. unfold yield. rewrite Ha; simpl. rewrite Hm; simpl. by rewrite wrap64_small by lia. Qed.

Lemma yield_own slots i a l l' g :
  slots !! i = Some a -> as_client_id a <> UINT64_MAX -> add_slot (as_client_id a) g l = Ok l' ->
  0 <= g -> g + 1 < W64 -> yield slots i (l, g) = Ok (l', g + 1).
Proof.
  intros Ha Hm%Z.eqb_neq E ? ?. unfold yield. rewrite Ha; simpl. rewrite Hm; simpl.
  rewrite E; simpl. by rewrite wrap64_small by lia.
Qed.

Lemma yield_fold slots sched g l sl :
  rep l sl -> clients_ok slots -> Forall (fun i => (i < length slots)%nat) sched ->
  Z.of_nat (length sl) + Z.of_nat (length sched) < W64 ->
  0 <= g -> g + Z.of_nat (length sched) < W64 ->
  exists l', mfold (yield slots) sched (l, g) = Ok (l', g + Z.of_nat (length sched)) /\
    rep l' (sl ++ assigned slots g sched) /\ num_entries_ l' = num_entries_ l /\
    (forall q, same_payload (get_entry l' q) (get_entry l q)).
Proof.
  revert g l sl. induction sched as [|i sched IH]; intros g l sl H Hc Hi Hl Hg0 Hg.
  { exists l. simpl. rewrite Z.add_0_r, app_nil_r. auto with zlog. }
  apply Forall_cons in Hi as [Hi His]. destruct (lookup_lt_is_Some_2 _ _ Hi) as [a Ha].
  simpl in Hl, Hg. cbn [mfold assigned length]. rewrite Ha.
  destruct (Z.eqb_spec (as_client_id a) UINT64_MAX) as [Hm|Hm].
  - rewrite (yield_masked _ _ _ _ _ Ha Hm) by lia. cbn [mbind result_bind app]. destruct (IH (g + 1) l sl) as (l' & E & ?); [done..|lia|lia|lia|].
    exists l'. rewrite E. split; [do 2 f_equal; lia|done].
  - assert (as_client_id a < MAX_CLIENTS).
    { eapply Forall_lookup_1 in Hc; [|exact Ha]. naive_solver. }
    destruct (add_slot_spec (as_client_id a) g l sl) as (l1 & E1 & H1 & Hn1 & Hp1); [done|done|lia|].
    rewrite (yield_own _ _ _ _ _ _ Ha Hm E1) by lia. cbn [mbind result_bind app].
    destruct (IH (g + 1) l1 (sl ++ [(as_client_id a, g)])) as (l' & E & H' & Hn' & Hp');
      [done|done|done|rewrite length_app; simpl; lia|lia|lia|].
    exists l'. rewrite E. split; [do 2 f_equal; lia|]. rewrite <- app_assoc in H'.
    split; [done|]. split; [congruence|]. intros q. by eapply same_payload_trans.
Qed.

Lemma add_entries_ok slots l sl :
  rep l sl -> slots_ok (ss_assignments slots) -> clients_ok (ss_assignments slots) ->
  ss_num_clients slots = Z.of_nat (length (ss_assignments slots)) ->
  0 <= ss_start_gsn slots -> ss_start_gsn slots + total_slots (ss_assignments slots) < W64 ->
  Z.of_nat (length sl) + total_slots (ss_assignments slots) < W64 ->
  exists l' sched,
    schedule (ss_assignments slots) (ss_num_clients slots) = Ok sched /\
    log_add_entries slots l =
      Ok (l', StorageSlots (ss_start_gsn slots + total_slots (ss_assignments slots))
                (ss_num_clients slots) (ss_assignments slots)) /\
    rep l' (sl ++ assigned (ss_assignments slots) (ss_start_gsn slots) sched) /\
    num_entries_ l' = Z.of_nat (length (sl ++ assigned (ss_assignments slots) (ss_start_gsn slots) sched)) /\
    (forall q, same_payload (get_entry l' q) (get_entry l q)).
Proof.
  intros H Hs Hc Hn Hg0 Hg Hl. rewrite Hn.
  destruct (schedule_occurrences _ Hs) as (sched & E & Hocc & Hlt).
  pose proof (schedule_length _ _ Hs E) as Hlen.
  destruct (yield_fold (ss_assignments slots) sched (ss_start_gsn slots) l sl)
    as (l1 & E1 & H1 & Hn1 & Hp1); [done..|lia|lia|lia|].
  eexists _, sched. split; [done|]. unfold log_add_entries. rewrite Hn.
  rewrite (interleave_fold _ _ _ _ _ E), E1. cbn [mbind result_bind]. rewrite Hlen.
  split; [done|]. split; [|split].
  - split; simpl; apply H1.
  - simpl. apply (rep_current _ _ H1).
  - intros q. apply Hp1.
Qed.

(** C25: a storage server that processes the slots of an epoch appends to its log, in the
    deterministic order of the schedule, one unset entry for every slot of its own clients,
    with consecutive GSNs from [start_gsn] on that skip the slots of other shards; it
    publishes the new size, leaves the earlier entries' payloads alone, and advances
    [start_gsn] by the total of the epoch. *)
Theorem add_entries_spec slots l sl :
  rep l sl -> slots_ok (ss_assignments slots) -> clients_ok (ss_assignments slots) ->
  ss_num_clients slots = Z.of_nat (length (ss_assignments slots)) ->
  0 <= ss_start_gsn slots -> ss_start_gsn slots + total_slots (ss_assignments slots) < W64 ->
  Z.of_nat (length sl) + total_slots (ss_assignments slots) < W64 ->
  exists l' sched,
    schedule (ss_assignments slots) (ss_num_clients slots) = Ok sched /\
    log_add_entries slots l =
      Ok (l', StorageSlots (ss_start_gsn slots + total_slots (ss_assignments slots))
                (ss_num_clients slots) (ss_assignments slots)) /\
    rep l' (sl ++ assigned (ss_assignments slots) (ss_start_gsn slots) sched) /\
    num_entries_ l' = Z.of_nat (length (sl ++ assigned (ss_assignments slots) (ss_start_gsn slots) sched)) /\
    (forall q, same_payload (get_entry l' q) (get_entry l q)).
Proof. apply add_entries_ok. Qed.

Definition example_epoch : storage_slots := StorageSlots 7 3 example_slots.

Lemma add_entries_spec_witness :
  exists l' sched,
    schedule example_slots 3 = Ok sched /\
    log_add_entries example_epoch log_init = Ok (l', StorageSlots 17 3 example_slots) /\
    rep l' ([] ++ assigned example_slots 7 sched) /\
    num_entries_ l' = Z.of_nat (length ([] ++ assigned example_slots 7 sched)) /\
    (forall q, same_payload (get_entry l' q) (get_entry log_init q)).
Proof.
  apply (add_entries_spec example_epoch log_init []);
    [apply rep_init|exact example_slots_ok| |reflexivity|discriminate|reflexivity|reflexivity].
  unfold clients_ok. simpl. repeat constructor; simpl; (by left) || (right; by vm_compute).
Defined.

(** The log of the example: GSNs 7 to 16; 9 and 15 belong to another shard. *)
Example example_epoch_log :
  (sched ← schedule example_slots 3; Ok (assigned example_slots 7 sched)) =
    Ok [(3, 7); (0, 8); (3, 10); (3, 11); (0, 12); (3, 13); (0, 14); (3, 16)].
Proof. reflexivity. Qed.

(** ** A client's cursor *)

(** The cursor of client [c] stands after its first [n] slots. *)
Definition cursor (p : position) (c : Z) (sl : list (Z * Z)) (n : nat) : Prop :=
  p_client_id p = c /\ (n <= length (positions c sl))%nat /\
  current_entry_ p = match n with O => None | S i => addr <$> positions c sl !! i end.

Lemma cursor_init c sl : cursor (position_init c) c sl 0.
Proof. split; [done|]. split; [lia|done]. Qed.

(** New slots do not move a cursor. *)
Lemma positions_app_lookup c sl sl' i :
  (i < length (positions c sl))%nat -> positions c (sl ++ sl') !! i = positions c sl !! i.
Proof. intros. unfold positions. rewrite positions_from_app. by rewrite lookup_app_l. Qed.

Lemma cursor_app p c sl sl' n : cursor p c sl n -> cursor p c (sl ++ sl') n.
Proof.
  intros (? & Hn & Hcur). split; [done|]. split.
  - unfold positions in *. rewrite positions_from_app, length_app. lia.
  - rewrite Hcur. destruct n as [|i]; [done|]. by rewrite positions_app_lookup by lia.
Qed.

Lemma position_seek_spec p c l sl n :
  rep l sl -> cursor p c sl n -> position_seek p l = addr <$> positions c sl !! n.
Proof.
  intros H (Hc & Hn & Hcur). unfold position_seek. rewrite Hcur. destruct n as [|i].
  - rewrite (rep_first _ _ H). by rewrite Hc.
  - destruct (lookup_lt_is_Some_2 (positions c sl) i) as [k Hk]; [lia|].
    rewrite Hk. simpl. by rewrite (rep_next _ _ H _ _ _ Hk).
Qed.

(** [l'] is [l] with the slots number [lo] to [hi - 1] of client [c] set. *)
Definition closed (c : Z) (sl : list (Z * Z)) (lo hi : nat) (l l' : log) : Prop :=
  forall q, get_entry l' q = get_entry l q /\ (forall j k, (lo <= j < hi)%nat -> positions c sl !! j = Some k -> q <> addr k)
    \/ (exists j k, (lo <= j < hi)%nat /\ positions c sl !! j = Some k /\ q = addr k) /\
       get_entry l' q = set_set true (get_entry l q).

Lemma closed_empty c sl n l : closed c sl n n l l.
Proof. intros q. left. split; [done|]. lia. Qed.

Lemma closed_one c sl n k l :
  positions c sl !! n = Some k -> closed c sl n (S n) l (upd_entry (set_set true) (addr k) l).
Proof.
  intros Hk q. rewrite get_upd. case_decide as Hq.
  - right. subst. split; [|done]. exists n, k. split_and!; [lia..|done|done].
  - left. split; [done|]. intros j k' Hj Hk'. assert (j = n) as -> by lia. congruence.
Qed.

Lemma set_set_idem e : set_set true (set_set true e) = set_set true e.
Proof. by destruct e. Qed.

Lemma closed_trans c sl n1 n2 n3 l1 l2 l3 :
  (n1 <= n2 <= n3)%nat -> closed c sl n1 n2 l1 l2 -> closed c sl n2 n3 l2 l3 -> closed c sl n1 n3 l1 l3.
Proof.
  intros Hn H1 H2 q.
  destruct (H1 q) as [[E1 N1]|[(j1 & k1 & ? & ? & ?) E1]], (H2 q) as [[E2 N2]|[(j2 & k2 & ? & ? & ?) E2]].
  - left. split; [congruence|]. intros j k Hj Hk.
    destruct (decide (j < n2)%nat); [eapply N1|eapply N2]; eauto; lia.
  - right. split; [exists j2, k2; split_and!; [lia..|done|done]|congruence].
  - right. split; [exists j1, k1; split_and!; [lia..|done|done]|congruence].
  - right. split; [exists j1, k1; split_and!; [lia..|done|done]|].
    rewrite E2, E1. apply set_set_idem.
Qed.

#[export] Hint Resolve closed_empty closed_one cursor_init : zlog.

Lemma entries_fuel_enough l sl c : rep l sl -> (length (positions c sl) < entries_fuel l)%nat.
Proof. intros H. unfold entries_fuel. rewrite (rep_size _ _ H). pose proof (length_positions c sl). lia. Qed.

Lemma close_slots_ok c sl n : forall fuel i k k' l,
  rep l sl -> positions c sl !! i = Some k -> positions c sl !! (i + n)%nat = Some k' ->
  Z.of_nat n + 1 < W64 -> (n <= fuel)%nat ->
  exists l', close_slots fuel (Z.of_nat n + 1) (addr k) l = Ok (addr k', l') /\
    rep l' sl /\ closed c sl i (i + n) l l'.
Proof.
  induction n as [|n IH]; intros fuel i k k' l H Hk Hk' Hn Hf.
  { exists l. rewrite Nat.add_0_r in *. replace k' with k by congruence. split; [|auto with zlog].
    by destruct fuel. }
  destruct fuel as [|fuel]; [lia|]. cbn [close_slots].
  replace (Z.of_nat (S n) + 1 - 1) with (Z.of_nat n + 1) by lia. rewrite wrap64_small by lia.
  rewrite (proj2 (Z.eqb_neq _ _)) by lia.
  set (l1 := upd_entry (set_set true) (addr k) l).
  assert (rep l1 sl) as H1 by (apply rep_upd; auto with zlog; by eapply positions_lookup_lt).
  rewrite (rep_next _ _ H1 _ _ _ Hk).
  pose proof (lookup_lt_Some _ _ _ Hk').
  destruct (lookup_lt_is_Some_2 (positions c sl) (S i)) as [k1 Hk1]; [lia|].
  rewrite Hk1; cbn [fmap option_fmap option_map assert_not_null mbind result_bind].
  destruct (IH fuel (S i) k1 k' l1) as (l' & E & H' & Hc); [done|done| |lia|lia|].
  { by replace (S i + n)%nat with (i + S n)%nat by lia. }
  exists l'. split; [done|]. split; [done|].
  replace (i + S n)%nat with (S i + n)%nat by lia.
  eapply (closed_trans _ _ i (S i)); [lia|by apply closed_one|done].
Qed.

(** When fewer slots are left than must be closed, the assertion on the next pointer fails;
    the loop never runs out of fuel. *)
Lemma close_slots_short c sl r : forall fuel i k l close,
  rep l sl -> positions c sl !! i = Some k -> (length (positions c sl) - i)%nat = r ->
  is_u64 close -> Z.of_nat r <= wrap64 (close - 1) -> (r <= fuel)%nat ->
  close_slots fuel close (addr k) l = Err AssertFailed.
Proof.
  induction r as [|r IH]; intros fuel i k l close H Hk Hr Hu Hc Hf.
  { apply lookup_lt_Some in Hk. lia. }
  destruct fuel as [|fuel]; [lia|]. cbn [close_slots].
  rewrite (proj2 (Z.eqb_neq _ _)) by lia.
  set (l1 := upd_entry (set_set true) (addr k) l).
  assert (rep l1 sl) as H1 by (apply rep_upd; auto with zlog; by eapply positions_lookup_lt).
  rewrite (rep_next _ _ H1 _ _ _ Hk).
  destruct (positions c sl !! S i) as [k1|] eqn:Hk1; [|done]. simpl.
  pose proof (lookup_lt_Some _ _ _ Hk1). pose proof (wrap64_range (close - 1)).
  apply (IH fuel (S i) k1 l1); [done|done|lia|done| |lia].
  rewrite (wrap64_small (wrap64 (close - 1) - 1)) by lia. lia.
Qed.

(** ** [position::insert] *)

Lemma insert_ok data len close p c l sl n k g :
  rep l sl -> cursor p c sl n -> 0 < close < W64 ->
  positions c sl !! (n + Z.to_nat close - 1)%nat = Some k -> sl !! k = Some (c, g) ->
  exists l1, position_insert data len close p l =
      Ok (g, Position c (Some (addr k)), upd_entry (set_payload (alloc_copy data len) len) (addr k) l1) /\
    rep l1 sl /\ closed c sl n (n + Z.to_nat close - 1) l l1 /\
    rep (upd_entry (set_payload (alloc_copy data len) len) (addr k) l1) sl.
Proof.
  intros H Hcur Hcl Hk Hg. unfold position_insert.
  rewrite (position_seek_spec _ _ _ _ _ H Hcur). destruct Hcur as (Hc & Hn & Hcur).
  pose proof (lookup_lt_Some _ _ _ Hk) as Hlt.
  destruct (lookup_lt_is_Some_2 (positions c sl) n) as [k0 Hk0]; [lia|].
  rewrite Hk0; cbn [fmap option_fmap option_map assert_not_null mbind result_bind].
  set (m := (Z.to_nat close - 1)%nat). replace close with (Z.of_nat m + 1) by lia.
  pose proof (entries_fuel_enough _ _ c H).
  destruct (close_slots_ok c sl m (entries_fuel l) n k0 k l) as (l1 & E & H1 & Hcd); [done|done| |lia|lia|].
  { rewrite <- Hk. f_equal. lia. }
  rewrite E; cbn [mbind result_bind]. exists l1.
  replace (n + Z.to_nat (Z.of_nat m + 1) - 1)%nat with (n + m)%nat by lia.
  assert (rep (upd_entry (set_payload (alloc_copy data len) len) (addr k) l1) sl) as H2.
  { apply rep_upd; auto with zlog. by eapply positions_lookup_lt. }
  split; [|done]. rewrite (proj2 (proj2 (rep_some _ _ H2 _ _ _ Hg))). by rewrite Hc.
Qed.

Lemma insert_frame data len close p c l sl n k g :
  rep l sl -> cursor p c sl n -> 0 < close < W64 ->
  positions c sl !! (n + Z.to_nat close - 1)%nat = Some k -> sl !! k = Some (c, g) ->
  exists p' l', position_insert data len close p l = Ok (g, p', l') /\
    rep l' sl /\ cursor p' c sl (n + Z.to_nat close) /\
    e_set (get_entry l' (addr k)) = true /\ e_data (get_entry l' (addr k)) = alloc_copy data len /\
    e_data_length (get_entry l' (addr k)) = len /\
    (forall j q, (n <= j < n + Z.to_nat close - 1)%nat -> positions c sl !! j = Some q ->
       get_entry l' (addr q) = set_set true (get_entry l (addr q))) /\
    (forall q, (forall j i, (n <= j < n + Z.to_nat close)%nat -> positions c sl !! j = Some i -> q <> addr i) ->
       get_entry l' q = get_entry l q).
Proof.
  intros H Hcur Hcl Hk Hg.
  destruct (insert_ok data len _ _ _ _ _ _ _ _ H Hcur Hcl Hk Hg) as (l1 & E & H1 & Hcd & H2).
  eexists _, _. split; [done|]. split; [done|].
  pose proof (lookup_lt_Some _ _ _ Hk) as Hlt.
  split; [split; [done|split; [lia|]]|].
  { replace (n + Z.to_nat close)%nat with (S (n + Z.to_nat close - 1)) by lia. simpl. by rewrite Hk. }
  rewrite get_upd_eq. do 3 (split; [done|]). split.
  - intros j q Hj Hq. rewrite get_upd_ne.
    + destruct (Hcd (addr q)) as [[_ Hne]|[_ E1]]; [by destruct (Hne j q Hj Hq)|done].
    + intros ?%addr_inj. subst. pose proof (positions_inj _ _ _ _ _ Hq Hk). lia.
  - intros q Hq. rewrite get_upd_ne by (apply not_eq_sym; eapply Hq; [|exact Hk]; lia).
    destruct (Hcd q) as [[E1 _]|[(j & i & Hj & Hi & ->) _]]; [done|].
    destruct (Hq j i ltac:(lia) Hi). done.
Qed.

Lemma position_insert_short_ok data len close p c l sl n :
  rep l sl -> cursor p c sl n -> is_u64 close -> Z.of_nat (length sl) < W64 - 1 ->
  (close = 0 \/ Z.of_nat (length (positions c sl)) < Z.of_nat n + close) ->
  position_insert data len close p l = Err AssertFailed.
Proof.
  intros H Hcur Hu Hlen Hshort. unfold position_insert.
  rewrite (position_seek_spec _ _ _ _ _ H Hcur). destruct Hcur as (Hc & Hn & _).
  destruct (positions c sl !! n) as [k|] eqn:Hk; [|done].
  cbn [fmap option_fmap option_map assert_not_null mbind result_bind].
  pose proof (lookup_lt_Some _ _ _ Hk). pose proof (length_positions c sl).
  pose proof (entries_fuel_enough _ _ c H). unfold is_u64 in Hu.
  rewrite (close_slots_short c sl (length (positions c sl) - n) _ n); [done|done|done|done|done| |lia].
  destruct (decide (close = 0)) as [->|]; [rewrite wrap64_pred_0; unfold UINT64_MAX; lia|].
  rewrite wrap64_small by lia. lia.
Qed.

(** C33: [position::insert] with [close] slots to close returns the GSN of the [close]-th
    next slot of the client and stores the payload there; the slots before it are closed
    (set, without payload), every other entry of the log is untouched, and the cursor stands
    after the slot that was filled. *)
Theorem position_insert_spec data len close p c l sl n k g :
  rep l sl -> cursor p c sl n -> 0 < close < W64 ->
  positions c sl !! (n + Z.to_nat close - 1)%nat = Some k -> sl !! k = Some (c, g) ->
  exists p' l', position_insert data len close p l = Ok (g, p', l') /\
    rep l' sl /\ cursor p' c sl (n + Z.to_nat close) /\
    e_set (get_entry l' (addr k)) = true /\ e_data (get_entry l' (addr k)) = alloc_copy data len /\
    e_data_length (get_entry l' (addr k)) = len /\
    (forall j q, (n <= j < n + Z.to_nat close - 1)%nat -> positions c sl !! j = Some q ->
       get_entry l' (addr q) = set_set true (get_entry l (addr q))) /\
    (forall q, (forall j i, (n <= j < n + Z.to_nat close)%nat -> positions c sl !! j = Some i -> q <> addr i) ->
       get_entry l' q = get_entry l q).
Proof. apply insert_frame. Qed.

(** [position::insert] fails the assertion that terminates the process exactly when the
    client has fewer than [close] slots left; [close = 0] wraps around and always fails. *)
Theorem position_insert_short data len close p c l sl n :
  rep l sl -> cursor p c sl n -> is_u64 close -> Z.of_nat (length sl) < W64 - 1 ->
  (close = 0 \/ Z.of_nat (length (positions c sl)) < Z.of_nat n + close) ->
  position_insert data len close p l = Err AssertFailed.
Proof. apply position_insert_short_ok. Qed.

(** The example epoch's log, with a cursor for client 3: its slots have GSNs 7, 10, 11, ... *)
Definition example_list : list (Z * Z) := assigned example_slots 7 [0; 1; 2; 0; 0; 1; 0; 1; 2; 0]%nat.

Definition example_log : log :=
  match log_add_entries example_epoch log_init with Ok (l, _) => l | Err _ => log_init end.

Lemma example_log_rep : rep example_log example_list.
Proof.
  destruct (add_entries_ok example_epoch log_init []) as (l' & sched & Es & El & H & _);
    [apply rep_init|exact example_slots_ok| |reflexivity|discriminate|reflexivity|reflexivity|].
  { unfold clients_ok. simpl. repeat constructor; simpl; (by left) || (right; by vm_compute). }
  unfold example_log. rewrite El. vm_compute in Es. injection Es as <-. exact H.
Qed.

Lemma position_insert_spec_witness :
  exists p' l', position_insert [] 0 3 (position_init 3) example_log = Ok (11, p', l') /\
    rep l' example_list /\ cursor p' 3 example_list 3 /\
    e_set (get_entry l' (addr 3)) = true /\ e_data (get_entry l' (addr 3)) = Word 0 /\
    e_data_length (get_entry l' (addr 3)) = 0 /\
    (forall j q, (0 <= j < 0 + 3 - 1)%nat -> positions 3 example_list !! j = Some q ->
       get_entry l' (addr q) = set_set true (get_entry example_log (addr q))) /\
    (forall q, (forall j i, (0 <= j < 0 + 3)%nat -> positions 3 example_list !! j = Some i -> q <> addr i) ->
       get_entry l' q = get_entry example_log q).
Proof.
  apply (position_insert_spec [] 0 3 (position_init 3) 3 example_log example_list 0 3 11);
    [exact example_log_rep|apply cursor_init|split; reflexivity|reflexivity|reflexivity].
Defined.

Lemma position_insert_short_witness :
  position_insert [] 0 0 (position_init 3) example_log = Err AssertFailed /\
  position_insert [] 0 6 (position_init 3) example_log = Err AssertFailed.
Proof.
  split; eapply (position_insert_short [] 0 _ (position_init 3) 3 example_log example_list 0);
    try exact example_log_rep; try apply cursor_init; try (split; [discriminate|reflexivity]);
    try reflexivity; [by left|right; reflexivity].
Defined.

(** ** [position::patch] *)

Lemma patch_seek_ok c sl m : forall fuel i k k' g l,
  rep l sl -> gsns_increasing sl -> positions c sl !! i = Some k ->
  positions c sl !! (i + m)%nat = Some k' -> sl !! k' = Some (c, g) -> (m <= fuel)%nat ->
  exists l', patch_seek fuel g (addr k) l = Ok (addr k', l') /\ rep l' sl /\ closed c sl i (i + m) l l'.
Proof.
  induction m as [|m IH]; intros fuel i k k' g l H Hinc Hk Hk' Hg Hf.
  { exists l. rewrite Nat.add_0_r in *. assert (k' = k) as -> by congruence.
    split; [|auto with zlog]. destruct (rep_some _ _ H _ _ _ Hg) as (_ & _ & Eg).
    destruct fuel; cbn [patch_seek]; rewrite Eg, Z.ltb_irrefl; done. }
  destruct fuel as [|fuel]; [lia|]. cbn [patch_seek].
  destruct (positions_lookup _ _ _ _ Hk) as [gk Hgk].
  destruct (rep_some _ _ H _ _ _ Hgk) as (_ & _ & Eg). rewrite Eg.
  pose proof (positions_increasing _ _ _ _ _ _ Hk Hk' ltac:(lia)) as Hkk.
  pose proof (Hinc _ _ _ _ Hgk Hg Hkk) as Hlt. simpl in Hlt.
  rewrite (proj2 (Z.ltb_lt _ _) Hlt).
  set (l1 := upd_entry (set_set true) (addr k) l).
  assert (rep l1 sl) as H1 by (apply rep_upd; auto with zlog; by eapply positions_lookup_lt).
  rewrite (rep_next _ _ H1 _ _ _ Hk).
  pose proof (lookup_lt_Some _ _ _ Hk').
  destruct (lookup_lt_is_Some_2 (positions c sl) (S i)) as [k1 Hk1]; [lia|].
  rewrite Hk1; cbn [fmap option_fmap option_map assert_not_null mbind result_bind].
  destruct (IH fuel (S i) k1 k' g l1) as (l' & E & H' & Hcd); [done|done|done| |done|lia|].
  { by replace (S i + m)%nat with (i + S m)%nat by lia. }
  exists l'. split; [done|]. split; [done|].
  replace (i + S m)%nat with (S i + m)%nat by lia.
  eapply (closed_trans _ _ i (S i)); [lia|by apply closed_one|done].
Qed.

(** [position::patch] stores the payload at the client's slot with the given GSN, when the
    cursor has not passed it, closing the client's slots before it. *)
Lemma patch_ok data len g p c l sl n m k :
  rep l sl -> gsns_increasing sl -> cursor p c sl n ->
  positions c sl !! (n + m)%nat = Some k -> sl !! k = Some (c, g) ->
  exists p' l', position_patch data len g p l = Ok (p', l') /\
    rep l' sl /\ cursor p' c sl (S (n + m)) /\
    e_set (get_entry l' (addr k)) = true /\ e_data (get_entry l' (addr k)) = alloc_copy data len /\
    e_data_length (get_entry l' (addr k)) = len /\
    (forall j q, (n <= j < n + m)%nat -> positions c sl !! j = Some q ->
       get_entry l' (addr q) = set_set true (get_entry l (addr q))).
Proof.
  intros H Hinc Hcur Hk Hg. unfold position_patch.
  rewrite (position_seek_spec _ _ _ _ _ H Hcur). destruct Hcur as (Hc & Hn & _).
  pose proof (lookup_lt_Some _ _ _ Hk) as Hlt.
  destruct (lookup_lt_is_Some_2 (positions c sl) n) as [k0 Hk0]; [lia|].
  rewrite Hk0; cbn [fmap option_fmap option_map assert_not_null mbind result_bind].
  pose proof (entries_fuel_enough _ _ c H).
  destruct (patch_seek_ok c sl m (entries_fuel l) n k0 k g l) as (l1 & E & H1 & Hcd); [done..|lia|].
  rewrite E; cbn [mbind result_bind].
  rewrite (proj2 (proj2 (rep_some _ _ H1 _ _ _ Hg))), Z.eqb_refl; cbn [zip_assert mbind result_bind].
  eexists _, _. split; [done|]. split; [apply rep_upd; auto with zlog; by eapply positions_lookup_lt|].
  split; [split; [done|split; [lia|simpl; by rewrite Hk]]|].
  rewrite get_upd_eq. do 3 (split; [done|]). intros j q Hj Hq. rewrite get_upd_ne.
  - destruct (Hcd (addr q)) as [[_ Hne]|[_ E1]]; [by destruct (Hne j q Hj Hq)|done].
  - intros ?%addr_inj. subst. pose proof (positions_inj _ _ _ _ _ Hq Hk). lia.
Qed.

Lemma example_list_increasing : gsns_increasing example_list.
Proof. apply assigned_increasing. Qed.

(** ** [position::suffix] *)

(** The first [n] slots of client [c], latest first. *)
Fixpoint consumed_rev (c : Z) (sl : list (Z * Z)) (n : nat) : list nat :=
  match n with
  | O => []
  | S i => match positions c sl !! i with Some k => k :: consumed_rev c sl i | None => consumed_rev c sl i end
  end.

(** The slot [k] is one a suffix from [begin_gsn] asks for. *)
Definition after_gsn (sl : list (Z * Z)) (begin_gsn : Z) (k : nat) : bool :=
  (begin_gsn =? UINT64_MAX) || match sl !! k with Some x => begin_gsn <? x.2 | None => false end.

(** The prefix of a list up to the first element that fails the test. *)
Fixpoint take_while {A} (f : A -> bool) (l : list A) : list A :=
  match l with
  | [] => []
  | x :: l => if f x then x :: take_while f l else []
  end.

Lemma suffix_loop_ok c sl b n : forall fuel l,
  rep l sl -> (n <= length (positions c sl))%nat -> (n <= fuel)%nat ->
  suffix_loop fuel b (match n with O => None | S i => addr <$> positions c sl !! i end) l =
    Ok (addr <$> take_while (after_gsn sl b) (consumed_rev c sl n)).
Proof.
  induction n as [|n IH]; intros fuel l H Hn Hf; [by destruct fuel|].
  destruct (lookup_lt_is_Some_2 (positions c sl) n) as [k Hk]; [lia|].
  cbn [consumed_rev]. rewrite Hk. destruct fuel as [|fuel]; [lia|].
  cbn [fmap option_fmap option_map suffix_loop take_while].
  destruct (positions_lookup _ _ _ _ Hk) as [g Hg].
  destruct (rep_some _ _ H _ _ _ Hg) as (_ & _ & ->).
  unfold after_gsn at 1. rewrite Hg; simpl.
  destruct ((b =? UINT64_MAX) || (b <? g)); [|done].
  rewrite (rep_prev _ _ H _ _ _ Hk), IH by (done || lia). done.
Qed.

Lemma consumed_rev_elem c sl n k :
  k ∈ consumed_rev c sl n <-> exists j, (j < n)%nat /\ positions c sl !! j = Some k.
Proof.
  induction n as [|n IH]; simpl; [set_solver by lia|].
  destruct (positions c sl !! n) as [k'|] eqn:Hn.
  - rewrite elem_of_cons, IH. split.
    + intros [->|(j & ? & ?)]; [by exists n; split; [lia|]|exists j; split; [lia|done]].
    + intros (j & ? & Hj). destruct (decide (j = n)) as [->|]; [left; congruence|].
      right. exists j. split; [lia|done].
  - rewrite IH. split; intros (j & ? & Hj); exists j; (split; [|done]); [lia|].
    destruct (decide (j = n)) as [->|]; [congruence|lia].
Qed.

Lemma take_while_consumed c sl b n k :
  gsns_increasing sl -> (n <= length (positions c sl))%nat ->
  k ∈ take_while (after_gsn sl b) (consumed_rev c sl n) <->
  k ∈ consumed_rev c sl n /\ after_gsn sl b k = true.
Proof.
  intros Hinc. induction n as [|n IH]; intros Hn; cbn [consumed_rev take_while]; [set_solver|].
  destruct (lookup_lt_is_Some_2 (positions c sl) n) as [k' Hk']; [lia|]. rewrite Hk'.
  cbn [take_while]. destruct (after_gsn sl b k') eqn:Ha.
  - rewrite !elem_of_cons, IH by lia. naive_solver.
  - rewrite elem_of_nil, elem_of_cons, consumed_rev_elem. split; [done|].
    intros [[->|(j & Hj & Hk)] Hak]; [congruence|].
    destruct (positions_lookup _ _ _ _ Hk) as [g Hg]. destruct (positions_lookup _ _ _ _ Hk') as [g' Hg'].
    pose proof (Hinc _ _ _ _ Hg Hg' (positions_increasing _ _ _ _ _ _ Hk Hk' Hj)) as Hlt. simpl in Hlt.
    unfold after_gsn in Ha, Hak. rewrite Hg' in Ha. rewrite Hg in Hak. simpl in *.
    apply orb_false_iff in Ha as [Ha1 Ha2]. rewrite Ha1 in Hak; simpl in Hak. lia.
Qed.

(** [position::suffix] returns, latest first, exactly the entries of the slots the client
    has consumed whose GSN is above [begin_gsn]; all of them when [begin_gsn] is -1. *)
Lemma suffix_ok b p c l sl n :
  rep l sl -> gsns_increasing sl -> cursor p c sl n ->
  exists ks, position_suffix b p l = Ok (addr <$> ks) /\
    (forall k, k ∈ ks <-> exists j g, (j < n)%nat /\ positions c sl !! j = Some k /\
       sl !! k = Some (c, g) /\ (b = UINT64_MAX \/ b < g)) /\
    (forall i j k1 k2, ks !! i = Some k1 -> ks !! j = Some k2 -> (i < j)%nat -> (k2 < k1)%nat).
Proof.
  intros H Hinc (Hc & Hn & Hcur). pose proof (entries_fuel_enough _ _ c H).
  exists (take_while (after_gsn sl b) (consumed_rev c sl n)). split; [|split].
  - unfold position_suffix. rewrite Hcur. destruct n as [|i]; [done|].
    rewrite <- (suffix_loop_ok c sl b (S i) (entries_fuel l) l H Hn) by lia.
    destruct (lookup_lt_is_Some_2 (positions c sl) i) as [k Hk]; [lia|]. by rewrite Hk.
  - intros k. rewrite take_while_consumed, consumed_rev_elem by done. split.
    + intros [(j & Hj & Hk) Ha]. destruct (positions_lookup _ _ _ _ Hk) as [g Hg].
      exists j, g. split_and!; [done..|]. unfold after_gsn in Ha. rewrite Hg in Ha. simpl in Ha.
      apply orb_true_iff in Ha as [?%Z.eqb_eq|?%Z.ltb_lt]; auto.
    + intros (j & g & Hj & Hk & Hg & Hb). split; [eauto|]. unfold after_gsn. rewrite Hg. simpl.
      destruct Hb as [->|?%Z.ltb_lt]; [done|by apply orb_true_iff; right].
  - clear H Hcur. induction n as [|n IH]; cbn [consumed_rev take_while]; [done|].
    destruct (lookup_lt_is_Some_2 (positions c sl) n) as [k Hk]; [lia|]. rewrite Hk.
    cbn [take_while]. destruct (after_gsn sl b k); [|done].
    intros [|i] [|j] k1 k2; simpl; try lia; [|intros; eapply IH; eauto; lia].
    intros [= <-] Hk2%list_elem_of_lookup_2 _. apply take_while_consumed in Hk2; [|done|lia].
    destruct Hk2 as [(j' & ? & Hj')%consumed_rev_elem _]. by eapply positions_increasing.
Qed.

(** ** [position::close] *)

Lemma close_loop_ok c sl m : forall fuel i k l,
  rep l sl -> positions c sl !! i = Some k -> (length (positions c sl) - S i)%nat = m -> (m <= fuel)%nat ->
  exists l' k', close_loop fuel (addr k) l = Ok (addr k', l') /\
    positions c sl !! (length (positions c sl) - 1)%nat = Some k' /\
    rep l' sl /\ closed c sl (S i) (length (positions c sl)) l l'.
Proof.
  induction m as [|m IH]; intros fuel i k l H Hk Hm Hf; pose proof (lookup_lt_Some _ _ _ Hk).
  - exists l, k. replace (length (positions c sl)) with (S i) by lia.
    replace (S i - 1)%nat with i by lia. split; [|auto with zlog].
    assert (e_next (get_entry l (addr k)) = None) as E.
    { rewrite (rep_next _ _ H _ _ _ Hk), lookup_ge_None_2; [done|lia]. }
    destruct fuel; cbn [close_loop]; by rewrite E.
  - destruct fuel as [|fuel]; [lia|]. cbn [close_loop]. rewrite (rep_next _ _ H _ _ _ Hk).
    destruct (lookup_lt_is_Some_2 (positions c sl) (S i)) as [k1 Hk1]; [lia|].
    rewrite Hk1; cbn [fmap option_fmap option_map].
    set (l1 := upd_entry (set_set true) (addr k1) l).
    assert (rep l1 sl) as H1 by (apply rep_upd; auto with zlog; by eapply positions_lookup_lt).
    destruct (IH fuel (S i) k1 l1) as (l' & k' & E & Hk' & H' & Hcd); [done|done|lia|lia|].
    exists l', k'. split_and!; [done..|].
    eapply (closed_trans _ _ (S i) (S (S i))); [lia|by apply closed_one|done].
Qed.

(** [position::close], which finalizes a client, always returns, sets every slot the
    client has not consumed, leaves every other entry alone and moves the cursor past the
    client's last slot. *)
Lemma close_ok p c l sl n :
  rep l sl -> cursor p c sl n ->
  exists p' l', position_close p l = Ok (p', l') /\ rep l' sl /\
    cursor p' c sl (length (positions c sl)) /\ closed c sl n (length (positions c sl)) l l'.
Proof.
  intros H (Hc & Hn & Hcur). unfold position_close. rewrite Hcur, Hc.
  pose proof (entries_fuel_enough _ _ c H).
  assert (forall k, positions c sl !! (length (positions c sl) - 1)%nat = Some k ->
    cursor (Position c (Some (addr k))) c sl (length (positions c sl))) as Hfin.
  { intros k Hk. pose proof (lookup_lt_Some _ _ _ Hk). split; [done|]. split; [lia|]. simpl.
    destruct (length (positions c sl)) as [|m]; [lia|]. simpl in Hk. by rewrite Nat.sub_0_r in Hk; rewrite Hk. }
  destruct n as [|i]; [rewrite (rep_first _ _ H); destruct (positions c sl !! 0%nat) as [k|] eqn:Hk
                      |destruct (positions c sl !! i) as [k|] eqn:Hk]; cbn [fmap option_fmap option_map].
  - set (l1 := upd_entry (set_set true) (addr k) l).
    assert (rep l1 sl) as H1 by (apply rep_upd; auto with zlog; by eapply positions_lookup_lt).
    pose proof (lookup_lt_Some _ _ _ Hk).
    destruct (close_loop_ok c sl (length (positions c sl) - 1) (entries_fuel l1) 0 k l1)
      as (l' & k' & E & Hk' & H' & Hcd); [done..|pose proof (entries_fuel_enough _ _ c H1); lia|].
    rewrite E; cbn [mbind result_bind]. eexists _, _. split_and!; [done|done|by apply Hfin|].
    eapply (closed_trans _ _ 0 1); [lia|by apply closed_one|done].
  - apply lookup_ge_None_1 in Hk. exists (Position c None), l. split_and!; [done|done| |].
    + split; [done|]. split; [lia|]. by replace (length (positions c sl)) with 0%nat by lia.
    + replace (length (positions c sl)) with 0%nat by lia. apply closed_empty.
  - replace (match client_first_ l !! c with _ => _ end) with (Some (addr k), l) by (by destruct (client_first_ l !! c)).
    pose proof (lookup_lt_Some _ _ _ Hk).
    destruct (close_loop_ok c sl (length (positions c sl) - S i) (entries_fuel l) i k l)
      as (l' & k' & E & Hk' & H' & Hcd); [done..|lia|].
    rewrite E; cbn [mbind result_bind]. eexists _, _. split_and!; [done|done|by apply Hfin|done].
  - apply lookup_ge_None_1 in Hk. lia.
Qed.

(** ** Termination *)

(** Seeking a GSN ends within the client's slots, or fails an assertion after the last. *)
Lemma patch_seek_total c sl r : forall fuel i k g l,
  rep l sl -> positions c sl !! i = Some k -> (length (positions c sl) - i)%nat = r -> (r <= fuel)%nat ->
  patch_seek fuel g (addr k) l = Err AssertFailed \/
  exists k' l', patch_seek fuel g (addr k) l = Ok (addr k', l').
Proof.
  induction r as [|r IH]; intros fuel i k g l H Hk Hr Hf; [apply lookup_lt_Some in Hk; lia|].
  destruct fuel as [|fuel]; [lia|]. cbn [patch_seek]. destruct (_ <? g); [|by right; exists k, l].
  set (l1 := upd_entry (set_set true) (addr k) l).
  assert (rep l1 sl) as H1 by (apply rep_upd; auto with zlog; by eapply positions_lookup_lt).
  rewrite (rep_next _ _ H1 _ _ _ Hk). destruct (positions c sl !! S i) as [k1|] eqn:Hk1; [|by left]. simpl.
  apply (IH fuel (S i) k1); [done|done|lia|lia].
Qed.

(** A call returns, or terminates the process by an assertion. *)
Definition terminates {A} (r : result A) : Prop := r = Err AssertFailed \/ exists a, r = Ok a.

(** C23: the loops of the log terminate.  On every log that the operations build, for every client
    and every argument (a number of slots that is zero or too large, a GSN that is passed, belongs
    to another client or does not exist), [position::insert] and [position::patch] return or fail
    an assertion, and [position::suffix] and [position::close] return; none of them loops. *)
Theorem log_loops_terminate data len close g b p c l sl n :
  rep l sl -> gsns_increasing sl -> cursor p c sl n -> is_u64 close -> Z.of_nat (length sl) < W64 - 1 ->
  terminates (position_insert data len close p l) /\ terminates (position_patch data len g p l) /\
  (exists r, position_suffix b p l = Ok r) /\ (exists r, position_close p l = Ok r).
Proof.
  intros H Hinc Hcur Hu Hlen. split; [|split; [|split]].
  - destruct (decide (close = 0 \/ Z.of_nat (length (positions c sl)) < Z.of_nat n + close)) as [Hs|Hs].
    + left. by apply (position_insert_short_ok data len close p c l sl n).
    + right. unfold is_u64 in Hu. assert (n + Z.to_nat close - 1 < length (positions c sl))%nat as Hlt by lia.
      destruct (lookup_lt_is_Some_2 _ _ Hlt) as [k Hk]. destruct (positions_lookup _ _ _ _ Hk) as [gk Hgk].
      destruct (insert_ok data len close p c l sl n k gk) as (l1 & E & _); [done|done|lia|done|done|]. by eexists.
  - unfold position_patch. rewrite (position_seek_spec _ _ _ _ _ H Hcur). destruct Hcur as (_ & Hn & _).
    destruct (positions c sl !! n) as [k|] eqn:Hk; [|by left].
    cbn [fmap option_fmap option_map assert_not_null mbind result_bind]. pose proof (entries_fuel_enough _ _ c H).
    destruct (patch_seek_total c sl _ (entries_fuel l) n k g l H Hk eq_refl ltac:(lia)) as [->|(k' & l' & ->)]; [by left|].
    cbn [mbind result_bind]. destruct (_ =? g); [|by left]. right. by eexists.
  - destruct (suffix_ok b p c l sl n H Hinc Hcur) as (ks & E & _). by eexists.
  - destruct (close_ok p c l sl n H Hcur) as (p' & l' & E & _). by eexists.
Qed.

Lemma log_loops_terminate_witness :
  terminates (position_insert [] 0 UINT64_MAX (position_init 3) example_log) /\
  terminates (position_patch [] 0 12345 (position_init 3) example_log) /\
  (exists r, position_suffix UINT64_MAX (position_init 3) example_log = Ok r) /\
  (exists r, position_close (position_init 3) example_log = Ok r).
Proof.
  apply (log_loops_terminate [] 0 UINT64_MAX 12345 UINT64_MAX (position_init 3) 3 example_log example_list 0).
  - exact example_log_rep.
  - exact example_list_increasing.
  - apply cursor_init.
  - split; [discriminate|reflexivity].
  - reflexivity.
Defined.

(** ** [iterator::next_entry] *)

(** The iterator has returned [n] entries of a log of [total] entries and stride [s] from
    index [i0]; [current_entries_] is a size the log has had. *)
Record iterating (it : iterator) (sl : list (Z * Z)) (i0 s : Z) (n : nat) : Prop := {
  itr_stride : it_stride_ it = s;
  itr_current : 0 <= it_current_entries_ it <= Z.of_nat (length sl);
  itr_block : 0 <= it_block_index_ it;
  itr_at : match it_entry_ it with
    | None => it_entry_index_ it = i0 + Z.of_nat n * s /\
        (it_block_index_ it * NUM_ENTRIES_PER_BLOCK <= i0 + Z.of_nat n * s)
    | Some q => it_entry_index_ it = i0 + Z.of_nat (S n) * s /\
        q = addr (Z.to_nat (i0 + Z.of_nat n * s)) /\ i0 + Z.of_nat n * s < Z.of_nat (length sl) /\
        (it_block_index_ it * NUM_ENTRIES_PER_BLOCK <= i0 + Z.of_nat n * s)
    end }.

Lemma iterating_init sl i0 s : 0 <= i0 -> iterating (iterator_init i0 s) sl i0 s 0.
Proof. intros. split; simpl; lia. Qed.

(** Appending to the log does not disturb an iterator. *)
Lemma iterating_app it sl sl' i0 s n : iterating it sl i0 s n -> iterating it (sl ++ sl') i0 s n.
Proof.
  intros [H1 H2 H3 H4]. split; [done|rewrite length_app; lia|done|].
  destruct (it_entry_ it); rewrite ?length_app; intuition lia.
Qed.

Lemma blocks_cover l sl k :
  rep l sl -> 0 <= k < Z.of_nat (length sl) -> k / NUM_ENTRIES_PER_BLOCK < blocks_ l.
Proof.
  intros H Hk. pose proof num_entries_per_block_pos. rewrite (rep_blocks _ _ H).
  pose proof (rep_cursor _ _ H). pose proof (rep_entry _ _ H).
  apply Z.div_lt_upper_bound; [done|]. nia.
Qed.

(** A subscriber thread delivers the entries [index], [index + stride],
    [index + 2 stride], ... of the log one after the other, each of them once it is set, and
    returns nothing while the next one of them is missing or unset: a call after [n] delivered
    entries returns entry [index + n stride] or leaves the iterator at it. *)
Lemma next_entry_ok it l sl i0 s n :
  rep l sl -> num_entries_ l = Z.of_nat (length sl) -> 0 <= i0 -> 0 < s ->
  iterating it sl i0 s n -> Z.of_nat (length sl) + s < W64 ->
  let k := i0 + Z.of_nat n * s in
  exists r it', iterator_next_entry it l = Ok (r, it') /\
    if decide (k < Z.of_nat (length sl)) then
      if e_set (get_entry l (addr (Z.to_nat k))) then r = Some (addr (Z.to_nat k)) /\ iterating it' sl i0 s (S n)
      else r = None /\ iterating it' sl i0 s n
    else r = None /\ iterating it' sl i0 s n.
Proof.
  intros H Hnum Hi0 Hs [H1 H2 H3 H4] Hb k. unfold iterator_next_entry.
  pose proof num_entries_per_block_pos as HN.
  destruct (it_entry_ it) as [q|] eqn:Eq.
  - destruct H4 as (Ha & -> & Hlt & Hbl). cbn [deref mbind result_bind]. fold k in Ha, Hlt |- *.
    destruct (decide (k < Z.of_nat (length sl))); [|lia]. destruct (e_set _) eqn:Es.
    + eexists _, _. split; [done|]. split; [done|].
      split; simpl; [done|done|done|]. split; [done|]. nia.
    + eexists _, _. split; [done|]. split; [done|].
      split; [done|done|done|]. rewrite Eq. split_and!; done.
  - destruct H4 as [Ha Hbl]. fold k in Ha, Hbl. rewrite Ha, Hnum.
    destruct (decide (k < Z.of_nat (length sl))) as [Hlt|Hge].
    + replace ((it_current_entries_ it <=? k) &&
        ((if it_current_entries_ it <=? k then Z.of_nat (length sl) else it_current_entries_ it) <=? k)) with false.
      2:{ destruct (Z.leb_spec (it_current_entries_ it) k); simpl; [|done]. symmetry. apply Z.leb_gt. lia. }
      assert (0 <= k) as Hk0 by (unfold k; nia).
      assert (it_block_index_ it <= k / NUM_ENTRIES_PER_BLOCK) as Hbi by (apply Z.div_le_lower_bound; lia).
      rewrite Z.max_r by done.
      rewrite (proj2 (Z.ltb_lt _ _) (blocks_cover _ _ _ H (conj Hk0 Hlt))).
      cbn [negb deref it_entry_ mbind result_bind it_entry_index_ it_stride_ it_current_entries_ it_block_index_].
      assert ((k / NUM_ENTRIES_PER_BLOCK, k `mod` NUM_ENTRIES_PER_BLOCK) = addr (Z.to_nat k)) as ->.
      { unfold addr. by rewrite Z2Nat.id by lia. }
      pose proof (Z.mul_div_le k NUM_ENTRIES_PER_BLOCK HN).
      rewrite H1, wrap64_small by lia.
      set (cur := if it_current_entries_ it <=? k then Z.of_nat (length sl) else it_current_entries_ it).
      assert (0 <= cur <= Z.of_nat (length sl)) by (unfold cur; destruct (_ <=? k); lia).
      assert (0 <= k / NUM_ENTRIES_PER_BLOCK) by lia.
      destruct (e_set _) eqn:Es; (eexists _, _; split; [done|]; split; [done|]; split; simpl; [done|done|done|]).
      * split; [lia|]. lia.
      * split_and!; [lia|done|done|lia].
    + replace ((it_current_entries_ it <=? k) && _) with true.
      2:{ rewrite (proj2 (Z.leb_le (it_current_entries_ it) k)) by lia. simpl. symmetry. apply Z.leb_le. lia. }
      eexists _, _. split; [done|]. split; [done|].
      rewrite (proj2 (Z.leb_le (it_current_entries_ it) k)) by lia.
      split; simpl; [done|lia|done|]. split; lia.
Qed.

Definition example_closed_log : log :=
  match position_close (position_init 3) example_log with Ok (_, l) => l | Err _ => example_log end.

Lemma example_closed_log_rep : rep example_closed_log example_list.
Proof.
  destruct (close_ok (position_init 3) 3 example_log example_list 0) as (p' & l' & E & H & _);
    [exact example_log_rep|apply cursor_init|].
  unfold example_closed_log. by rewrite E.
Qed.
