(* ===== verification/Storage.v ===== *)
(** * The storage server ([src/storage/storage.h], [src/storage/storage.cpp])

    The state of the class [storage], its public operations, and one definition per message
    handler of its control, client and subscriber threads.  Every handler holds the lock of
    the client (or of the subscribers) it works on, so a handler is one atomic step; it returns
    the new state and the messages it sent, in order.

    A [send_queue] is represented by its owner; [s_send_queue] says whether the client's queue
    is in place (it is destroyed when the client is disconnected). *)
From coqutil Require Import Word.LittleEndianList.
From S2P Require Import Prelude Consts Util Api StorageLog.

(** ** State *)

(** [storage::client_state]; the mutex and the condition variable are implicit. *)
Record client_state := ClientState {
  s_connected : bool;
  s_disconnected : bool;
  s_send_queue : bool;
  s_position : position;
  s_latest_gsn : Z }.

(** [client_state::client_state]. *)
Definition client_state_init (client_id : Z) : client_state :=
  ClientState false false false (position_init client_id) UINT64_MAX.

(** [storage::change_t]: a subscriber added, with its number of receive queues, or removed. *)
Inductive change :=
| Added (subscriber_id num_queues : Z)
| Removed (subscriber_id : Z).

(** The class [storage]. *)
Record storage := Storage {
  st_shard_id_ : Z;
  st_replica_id_ : Z;
  st_log_ : log;
  st_clients_ : gmap Z client_state;
  st_subscriber_threads_ : Z;
  st_subscriber_depth_ : Z;
  st_subscribers_ : gset Z;
  st_subscriber_changes_ : bag change }.

(** Whom a message is sent to; the queue index is the [destination] argument of [send]. *)
Inductive destination :=
| ToOrder
| ToClient (client_id : Z)
| ToSubscriber (subscriber_id queue : Z).

Definition outputs : Type := list (destination * message).

Definition with_log (l : log) (s : storage) : storage :=
  Storage (st_shard_id_ s) (st_replica_id_ s) l (st_clients_ s) (st_subscriber_threads_ s)
    (st_subscriber_depth_ s) (st_subscribers_ s) (st_subscriber_changes_ s).
Definition with_client (c : Z) (cs : client_state) (s : storage) : storage :=
  Storage (st_shard_id_ s) (st_replica_id_ s) (st_log_ s) (<[c := cs]> (st_clients_ s))
    (st_subscriber_threads_ s) (st_subscriber_depth_ s) (st_subscribers_ s) (st_subscriber_changes_ s).
Definition with_subscribers (subs : gset Z) (ch : bag change) (s : storage) : storage :=
  Storage (st_shard_id_ s) (st_replica_id_ s) (st_log_ s) (st_clients_ s)
    (st_subscriber_threads_ s) (st_subscriber_depth_ s) subs ch.

(** [storage::storage], after its assertions: an empty log and no clients. *)
Definition storage_init (shard_id replica_id client_threads subscriber_threads subscriber_depth : Z)
    : result storage :=
  _ ← zip_assert (shard_id <? NUM_SHARDS);
  _ ← zip_assert (replica_id <? MAX_REPLICAS);
  _ ← zip_assert (0 <? client_threads);
  _ ← zip_assert (0 <? subscriber_depth);
  Ok (Storage shard_id replica_id log_init ∅ subscriber_threads subscriber_depth ∅ bag_init).

(** ** [storage::get_client_state] *)

(** How [compare_exchange_weak] can end when the location was read as null: it stores the
    pointer, it loses to another thread that stored [other], or it fails spuriously. *)
Inductive cas :=
| CasStored
| CasLost (other : client_state)
| CasSpurious.

Definition get_client_state_cas (c : cas) (client_id : Z) (s : storage) : result (client_state * storage) :=
  if negb (client_id <? MAX_CLIENTS) then Err Undefined else
  match st_clients_ s !! client_id with
  | Some cs => Ok (cs, s)
  | None =>
    match c with
    | CasStored =>
      let cs := client_state_init client_id in Ok (cs, with_client client_id cs s)
    | CasLost other => Ok (other, with_client client_id other s)
    | CasSpurious => Err Undefined
    end
  end.

(** Without contention and spurious failures. *)
Definition get_client_state (client_id : Z) (s : storage) : result (client_state * storage) :=
  get_client_state_cas CasStored client_id s.

(** [state.cv.wait(lock, [&] () { return state.connected; })]. *)
Definition wait_connected (cs : client_state) : result unit :=
  if s_connected cs then Ok () else Err Waits.

(** Mark the client as disconnected, if it is not already. *)
Definition disconnect (cs : client_state) : client_state :=
  if s_disconnected cs then cs
  else ClientState (s_connected cs) true false (s_position cs) (s_latest_gsn cs).

Definition with_position (p : position) (cs : client_state) : client_state :=
  ClientState (s_connected cs) (s_disconnected cs) (s_send_queue cs) p (s_latest_gsn cs).

(** ** Public operations *)

(** [storage::add_client]. *)
Definition add_client (client_id : Z) (s : storage) : result storage :=
  if MAX_CLIENTS <=? client_id then Ok s else
  '(cs, s) ← get_client_state client_id s;
  if s_connected cs then Ok s
  else Ok (with_client client_id
             (ClientState true (s_disconnected cs) true (s_position cs) (s_latest_gsn cs)) s).

(** [storage::add_subscriber]. *)
Definition add_subscriber (subscriber_id num_queues : Z) (s : storage) : result storage :=
  if decide (subscriber_id ∈ st_subscribers_ s) then Ok s else
  if st_subscriber_threads_ s =? 0 then Err Undefined (* [std::lcm(..) / subscriber_threads_] *) else
  _ ← zip_assert (st_subscriber_depth_ s <=? MAX_OUTSTANDING_REQUESTS);
  Ok (with_subscribers ({[subscriber_id]} ∪ st_subscribers_ s)
        (bag_add (Added subscriber_id num_queues) (st_subscriber_changes_ s)) s).

(** ** The control thread: [storage::control] *)

(** The failure of a client's connection. *)
Definition on_client_failure (intro : client_intro) (s : storage) : result (storage * outputs) :=
  '(cs, s) ← get_client_state (ci_client_id intro) s;
  _ ← wait_connected cs;
  Ok (with_client (ci_client_id intro) (disconnect cs) s,
      [(ToOrder, MOrderClientFreeze (OrderClientFreeze (ci_client_id intro)))]).

Definition on_storage_slots (slots : storage_slots) (s : storage) : result (storage * outputs) :=
  if 0 <? ss_num_clients slots then
    '(l, _) ← log_add_entries slots (st_log_ s); Ok (with_log l s, [])
  else Ok (s, []).

Definition on_storage_client_freeze (freeze : storage_client_freeze) (s : storage) : result (storage * outputs) :=
  let c := scf_client_id freeze in
  '(cs, s) ← get_client_state c s;
  _ ← wait_connected cs;
  Ok (with_client c (disconnect cs) s,
      [(ToOrder, MOrderClientCut (OrderClientCut c (st_shard_id_ s) (st_replica_id_ s)
                                    (s_latest_gsn (disconnect cs))))]).

(** The payload of an entry as it is copied into a message: from the block the entry points
    to, or the eight bytes of the word, of which the message carries [data_length]. *)
Definition entry_payload (e : entry) : result (list Byte.byte) :=
  if 8 <? e_data_length e then
    match e_data e with
    | Block b => Ok (take (Z.to_nat (e_data_length e)) b)
    | Word _ => Err Undefined
    end
  else
    match e_data e with
    | Word w => Ok (take (Z.to_nat (e_data_length e)) (le_split 8 w))
    | Block _ => Err Undefined
    end.

(** One entry of the suffix sent to the ordering server. *)
Definition client_data (s : storage) (q : ptr) : result outputs :=
  let e := get_entry (st_log_ s) q in
  if 0 <? e_data_length e then
    data ← entry_payload e;
    Ok [(ToOrder, MOrderClientData (OrderClientData (e_client_id e) (st_shard_id_ s)
                     (st_replica_id_ s) (e_gsn e) (e_data_length e) data))]
  else Ok [].

Definition on_storage_client_cut (req : storage_client_cut) (s : storage) : result (storage * outputs) :=
  let c := scc_client_id req in
  '(cs, s) ← get_client_state c s;
  let flush := (ToOrder, MOrderClientData (OrderClientData c (st_shard_id_ s) (st_replica_id_ s)
                           UINT64_MAX 0 [])) in
  entries ← (if s_latest_gsn cs =? UINT64_MAX then Ok []
             else position_suffix (scc_begin_gsn req) (s_position cs) (st_log_ s));
  out ← mfold (fun q out => d ← client_data s q; Ok (out ++ d)) entries [];
  Ok (s, out ++ [flush]).

Section stale.
(** What the receive buffer holds behind the message: a payload of fewer than eight bytes is
    read as a whole word. *)
Variable stale : list Byte.byte.

Definition on_storage_client_patch (data : storage_client_patch) (s : storage) : result (storage * outputs) :=
  let c := scp_client_id data in
  '(cs, s) ← get_client_state c s;
  if s_latest_gsn cs <? scp_gsn data then
    '(_, p, l) ← position_insert (scp_data data ++ stale) (scp_data_length data) (scp_gsn data)
                   (s_position cs) (st_log_ s);
    Ok (with_log l (with_client c (with_position p cs) s), [])
  else Ok (s, []).

Definition on_storage_client_finalize (req : storage_client_finalize) (s : storage) : result (storage * outputs) :=
  let c := scfin_client_id req in
  '(cs, s) ← get_client_state c s;
  '(p, l) ← position_close (s_position cs) (st_log_ s);
  Ok (with_log l (with_client c (with_position p cs) s), []).

Definition on_subscriber_finished (bye : subscriber_finished) (s : storage) : result (storage * outputs) :=
  let sid := sbf_subscriber_id bye in
  if decide (sid ∈ st_subscribers_ s) then
    Ok (with_subscribers (st_subscribers_ s ∖ {[sid]}) (bag_add (Removed sid) (st_subscriber_changes_ s)) s, [])
  else Ok (s, []).

(** ** The client threads: [storage::client] *)
Definition on_storage_insert (req : storage_insert) (s : storage) : result (storage * outputs) :=
  let c := ins_client_id req in
  '(cs, s) ← get_client_state c s;
  _ ← wait_connected cs;
  if s_disconnected cs then Ok (s, []) else
  '(gsn, p, l) ← position_insert (ins_data req ++ stale) (ins_data_length req) (ins_num_slots req)
                   (s_position cs) (st_log_ s);
  Ok (with_log l (with_client c (ClientState true false (s_send_queue cs) p gsn) s),
      [(ToClient c, MClientInsertAck (ClientInsertAck (st_replica_id_ s) gsn))]).

Definition on_client_finished (bye : client_finished) (s : storage) : result (storage * outputs) :=
  let c := cf_client_id bye in
  '(cs, s) ← get_client_state c s;
  _ ← wait_connected cs;
  if s_disconnected cs then Ok (s, []) else
  Ok (with_client c (disconnect cs) s,
      [(ToClient c, MStorageFinished (StorageFinished (st_shard_id_ s) (st_replica_id_ s)))]).
End stale.

(** The handlers of the two [recv_apply] calls; other types are only logged. *)
Definition control_recv (stale : list Byte.byte) (m : message) (s : storage) : result (storage * outputs) :=
  match m with
  | MStorageSlots slots => on_storage_slots slots s
  | MStorageClientFreeze freeze => on_storage_client_freeze freeze s
  | MStorageClientCut req => on_storage_client_cut req s
  | MStorageClientPatch data => on_storage_client_patch stale data s
  | MStorageClientFinalize req => on_storage_client_finalize req s
  | MSubscriberFinished bye => on_subscriber_finished bye s
  | _ => Ok (s, [])
  end.

Definition client_recv (stale : list Byte.byte) (m : message) (s : storage) : result (storage * outputs) :=
  match m with
  | MStorageInsert req => on_storage_insert stale req s
  | MClientFinished bye => on_client_finished bye s
  | _ => Ok (s, [])
  end.

(** ** The subscriber threads: [storage::subscriber] *)

(** The local state of a thread: the subscribers it serves with their number of queues, its
    reader of the bag of changes, and its place in the log. *)
Record subscriber_thread := SubscriberThread {
  t_index : Z;
  t_subscribers : gmap Z Z;
  t_changes : bag_reader;
  t_num_sent : Z;
  t_log : iterator }.

Definition subscriber_thread_init (index : Z) (s : storage) : subscriber_thread :=
  SubscriberThread index ∅ bag_reader_init index (iterator_init index (st_subscriber_threads_ s)).

(** One change of the subscriber list. *)
Definition apply_change (c : change) (s : storage) (t : subscriber_thread) : result (subscriber_thread * outputs) :=
  match c with
  | Added sid n =>
    let subs := match t_subscribers t !! sid with
                | Some _ => t_subscribers t | None => <[sid := n]> (t_subscribers t) end in
    Ok (SubscriberThread (t_index t) subs (t_changes t) (t_num_sent t) (t_log t), [])
  | Removed sid =>
    _ ← deref (t_subscribers t !! sid);
    Ok (SubscriberThread (t_index t) (delete sid (t_subscribers t)) (t_changes t) (t_num_sent t) (t_log t),
        [(ToSubscriber sid 0, MStorageFinished (StorageFinished (st_shard_id_ s) (st_replica_id_ s)))])
  end.

(** Post an entry to every subscriber of the thread. *)
Definition post_entry (e : entry) (s : storage) (t : subscriber_thread) : result outputs :=
  data ← (if 0 <? e_data_length e then entry_payload e else Ok []);
  let req := MSubscriberLogEntry (SubscriberLogEntry (st_replica_id_ s) (st_shard_id_ s) (t_index t)
               (e_client_id e) (e_gsn e) (e_data_length e) data) in
  mfold (fun '(sid, n) out =>
           if n =? 0 then Err Undefined
           else Ok (out ++ [(ToSubscriber sid (wrap64 (1 + t_num_sent t `mod` n)), req)]))
        (map_to_list (t_subscribers t)) [].

(** One round of the thread's loop. *)
Definition subscriber_round (s : storage) (t : subscriber_thread) : result (subscriber_thread * outputs) :=
  '(c, changes) ← bag_get (t_changes t) (st_subscriber_changes_ s);
  let t := SubscriberThread (t_index t) (t_subscribers t) changes (t_num_sent t) (t_log t) in
  '(t, out1) ← match c with Some c => apply_change c s t | None => Ok (t, []) end;
  '(q, it) ← iterator_next_entry (t_log t) (st_log_ s);
  match q with
  | None => Ok (SubscriberThread (t_index t) (t_subscribers t) (t_changes t) (t_num_sent t) it, out1)
  | Some q =>
    out2 ← post_entry (get_entry (st_log_ s) q) s t;
    Ok (SubscriberThread (t_index t) (t_subscribers t) (t_changes t)
          (wrap64 (t_num_sent t + st_subscriber_threads_ s)) it, out1 ++ out2)
  end.

(** ** The steps of a server

    Whatever the control thread, the client threads and the accept loop do, as one event. *)
Inductive event :=
| EControl (stale : list Byte.byte) (m : message)
| EClient (stale : list Byte.byte) (m : message)
| EFailure (intro : client_intro)
| EAddClient (client_id : Z)
| EAddSubscriber (subscriber_id num_queues : Z).

Definition handle (e : event) (s : storage) : result (storage * outputs) :=
  match e with
  | EControl stale m => control_recv stale m s
  | EClient stale m => client_recv stale m s
  | EFailure intro => on_client_failure intro s
  | EAddClient c => s ← add_client c s; Ok (s, [])
  | EAddSubscriber sid n => s ← add_subscriber sid n s; Ok (s, [])
  end.
