(* ===== verification/StorageSpec.v ===== *)
(** * Correctness of a storage server

    The invariant that ties a server's log and its clients' cursors to the list of the
    (client, GSN) slots it has been given, and what follows from it for every sequence of
    events: the GSN an insert is acknowledged with, the agreement of the replicas of a shard,
    the durability of acknowledged entries and the messages of the recovery handlers. *)
From coqutil Require Import Word.LittleEndianList Byte.
From S2P Require Import Prelude Consts Util Api StorageLog Interleave LogInv StorageLogSpec Storage.

#[local] Opaque NUM_ENTRIES_PER_BLOCK.

(** ** Clients *)

(** The state of client [c], which [get_client_state] creates on demand. *)
Definition client_of (s : storage) (c : Z) : client_state :=
  default (client_state_init c) (st_clients_ s !! c).

Lemma client_of_with_client s c cs c' :
  client_of (with_client c cs s) c' = if decide (c = c') then cs else client_of s c'.
Proof.
  unfold client_of; simpl. case_decide as Hc; [subst; by rewrite lookup_insert_eq|].
  by rewrite lookup_insert_ne.
Qed.

Lemma client_of_with_log s l c : client_of (with_log l s) c = client_of s c.
Proof. done. Qed.

(** Two servers that differ only in which client states have been allocated. *)
Definition same_server (s s' : storage) : Prop :=
  st_log_ s' = st_log_ s /\ (forall c, client_of s' c = client_of s c) /\
  st_shard_id_ s' = st_shard_id_ s /\ st_replica_id_ s' = st_replica_id_ s /\
  st_subscribers_ s' = st_subscribers_ s /\ st_subscriber_threads_ s' = st_subscriber_threads_ s /\
  st_subscriber_changes_ s' = st_subscriber_changes_ s.

Lemma get_client_state_inv c s cs s1 :
  get_client_state c s = Ok (cs, s1) -> c < MAX_CLIENTS /\ cs = client_of s c /\ same_server s s1.
Proof.
  unfold get_client_state, get_client_state_cas.
  destruct (Z.ltb_spec c MAX_CLIENTS) as [Hc|]; simpl; [|done].
  destruct (st_clients_ s !! c) as [cs0|] eqn:Hcs; intros [= <- <-]; (split; [done|]).
  - split; [by unfold client_of; rewrite Hcs|done].
  - split; [by unfold client_of; rewrite Hcs|]. split_and!; try done.
    intros c'. rewrite client_of_with_client. case_decide; [subst; by unfold client_of; rewrite Hcs|done].
Qed.

Ltac use_client Hs :=
  match goal with
  | H : get_client_state _ _ = Ok _ |- _ => apply get_client_state_inv in H as (_ & -> & Hs)
  end.

(** ** Moving a client's cursor *)

(** A payload that does not fit the word is behind a pointer. *)
Definition wf_payload (e : entry) : Prop :=
  if 8 <? e_data_length e then exists b, e_data e = Block b else exists w, e_data e = Word w.

Lemma wf_payload_copy e data len :
  e_data e = alloc_copy data len -> e_data_length e = len -> wf_payload e.
Proof.
  intros Hd Hl. unfold wf_payload. rewrite Hl, Hd. unfold alloc_copy.
  destruct (8 <? len); [eauto|]. destruct (0 <? len); eauto.
Qed.

Lemma wf_payload_same e e' : same_payload e e' -> wf_payload e' -> wf_payload e.
Proof. unfold wf_payload. by intros (_ & -> & ->). Qed.

Lemma wf_payload_entry e : wf_payload e -> exists data, entry_payload e = Ok data.
Proof. unfold wf_payload, entry_payload. destruct (8 <? _); intros [x ->]; eauto. Qed.

(** [l'] is [l] after client [c] has consumed its slots [n] to [n' - 1]. *)
Record moved (c : Z) (sl : list (Z * Z)) (n n' : nat) (l l' : log) : Prop := {
  mv_rep : rep l' sl;
  mv_le : (n <= n')%nat;
  mv_num : num_entries_ l' = num_entries_ l;
  mv_payload q : wf_payload (get_entry l q) -> wf_payload (get_entry l' q);
  mv_set j k : (n <= j < n')%nat -> positions c sl !! j = Some k -> e_set (get_entry l' (addr k)) = true;
  mv_frame q : (forall j k, (n <= j < n')%nat -> positions c sl !! j = Some k -> q <> addr k) ->
    get_entry l' q = get_entry l q }.

Lemma moved_refl c sl n l : rep l sl -> moved c sl n n l l.
Proof. split; try done. lia. Qed.

Lemma cursor_fun p c sl n n' : cursor p c sl n -> cursor p c sl n' -> n = n'.
Proof.
  intros (_ & Hn & H1) (_ & Hn' & H2). rewrite H1 in H2.
  destruct n as [|i], n' as [|i']; [done| | |].
  - destruct (lookup_lt_is_Some_2 (positions c sl) i') as [k Hk]; [lia|]. by rewrite Hk in H2.
  - destruct (lookup_lt_is_Some_2 (positions c sl) i) as [k Hk]; [lia|]. by rewrite Hk in H2.
  - destruct (lookup_lt_is_Some_2 (positions c sl) i) as [k Hk]; [lia|].
    destruct (lookup_lt_is_Some_2 (positions c sl) i') as [k' Hk']; [lia|].
    rewrite Hk, Hk' in H2. apply (inj Some), addr_inj in H2. subst k'.
    f_equal. by eapply positions_inj.
Qed.

Lemma client_gsn_lookup c sl i g :
  client_gsn c sl i = Some g <-> exists k, positions c sl !! i = Some k /\ sl !! k = Some (c, g).
Proof.
  unfold client_gsn. split.
  - destruct (positions c sl !! i) as [k|] eqn:Hk; [|done]. simpl.
    destruct (positions_lookup _ _ _ _ Hk) as [g' Hg]. rewrite Hg. simpl. intros [= <-]. eauto.
  - intros (k & -> & Hk). simpl. by rewrite Hk.
Qed.

Lemma client_gsn_app c sl sl' i g : client_gsn c sl i = Some g -> client_gsn c (sl ++ sl') i = Some g.
Proof.
  rewrite !client_gsn_lookup. intros (k & Hk & Hg). exists k.
  rewrite positions_app_lookup by (by eapply lookup_lt_Some). split; [done|].
  by rewrite lookup_app_l by (by eapply lookup_lt_Some).
Qed.

Lemma client_gsn_lt c sl i g : client_gsn c sl i = Some g -> (i < length (positions c sl))%nat.
Proof. rewrite client_gsn_lookup. intros (k & Hk & _). by eapply lookup_lt_Some. Qed.

(** [num_entries_] is only written by [add_entries]. *)
Lemma close_slots_num fuel close cur l r : close_slots fuel close cur l = Ok r -> num_entries_ r.2 = num_entries_ l.
Proof.
  revert close cur l. induction fuel as [|fuel IH]; intros close cur l; cbn [close_slots];
    destruct (_ =? _); try done; try (by intros [= <-]).
  intros (k & _ & E)%bind_inv. by rewrite (IH _ _ _ E).
Qed.

Lemma close_loop_num fuel cur l r : close_loop fuel cur l = Ok r -> num_entries_ r.2 = num_entries_ l.
Proof.
  revert cur l. induction fuel as [|fuel IH]; intros cur l; cbn [close_loop];
    destruct (e_next _); try done; try (by intros [= <-]).
  intros E. by rewrite (IH _ _ E).
Qed.

Lemma insert_num data len close p l r : position_insert data len close p l = Ok r -> num_entries_ r.2 = num_entries_ l.
Proof.
  unfold position_insert. intros (k & _ & ([k' l'] & E & [= <-])%bind_inv)%bind_inv.
  apply (close_slots_num _ _ _ _ _ E).
Qed.

Lemma close_num p l r : position_close p l = Ok r -> num_entries_ r.2 = num_entries_ l.
Proof.
  unfold position_close.
  destruct (current_entry_ p), (client_first_ l !! p_client_id p); try (intros [= <-]; done);
    intros ([k' l'] & E & [= <-])%bind_inv; apply (close_loop_num _ _ _ _ E).
Qed.

(** A successful [insert], whatever its arguments. *)
Lemma insert_inv data len close p c l sl n g p' l' :
  rep l sl -> cursor p c sl n -> is_u64 close -> Z.of_nat (length sl) < W64 - 1 ->
  position_insert data len close p l = Ok (g, p', l') ->
  0 < close /\ cursor p' c sl (n + Z.to_nat close) /\ moved c sl n (n + Z.to_nat close) l l' /\
  client_gsn c sl (n + Z.to_nat close - 1) = Some g /\
  (forall k, positions c sl !! (n + Z.to_nat close - 1)%nat = Some k ->
     e_set (get_entry l' (addr k)) = true /\ e_data (get_entry l' (addr k)) = alloc_copy data len /\
     e_data_length (get_entry l' (addr k)) = len).
Proof.
  intros H Hcur Hu Hlen E.
  destruct (decide (close = 0 \/ Z.of_nat (length (positions c sl)) < Z.of_nat n + close)) as [Hs|Hs].
  { rewrite (position_insert_short_ok data len close p c l sl n) in E; done. }
  unfold is_u64 in Hu. destruct (lookup_lt_is_Some_2 (positions c sl) (n + Z.to_nat close - 1)) as [k Hk]; [lia|].
  destruct (positions_lookup _ _ _ _ Hk) as [g' Hg'].
  destruct (insert_frame data len close p c l sl n k g') as (p1 & l1 & E1 & H1 & Hc1 & Hs1 & Hd1 & Hl1 & Hcl1 & Hf1); [done|done|lia|done|done|].
  rewrite E1 in E. injection E as <- <- <-. split; [lia|]. split; [done|].
  split; [split; [done|lia|apply (insert_num _ _ _ _ _ _ E1)| | |done]|].
  2:{ intros j q Hj Hq. destruct (decide (j = (n + Z.to_nat close - 1)%nat)) as [->|]; [by simplify_eq|]. by rewrite (Hcl1 j q) by (done || lia). }
  { destruct (insert_ok data len close p c l sl n k g') as (l2 & E2 & _ & Hcd & _); [done|done|lia|done|done|].
    rewrite E1 in E2. injection E2 as _ ->. intros q. rewrite get_upd. case_decide.
    - intros _. by eapply wf_payload_copy.
    - destruct (Hcd q) as [[-> _]|[_ ->]]; [done|]. by destruct (get_entry l q). }
  split; [apply client_gsn_lookup; eauto|].
  intros k' Hk'. replace k' with k by congruence. done.
Qed.

Lemma close_inv p c l sl n p' l' :
  rep l sl -> cursor p c sl n -> position_close p l = Ok (p', l') ->
  cursor p' c sl (length (positions c sl)) /\ moved c sl n (length (positions c sl)) l l'.
Proof.
  intros H Hcur E. destruct (close_ok p c l sl n H Hcur) as (p1 & l1 & E1 & H1 & Hc1 & Hcd).
  pose proof (close_num _ _ _ E1) as Hnum. rewrite E1 in E. injection E as <- <-. split; [done|].
  split; [done|apply Hcur|done| | |].
  { intros q. destruct (Hcd q) as [[-> _]|[_ ->]]; [done|]. by destruct (get_entry l q). }
  { intros j k Hj Hk. destruct (Hcd (addr k)) as [[_ Hne]|[_ ->]]; [by destruct (Hne j k Hj Hk)|done]. }
  intros q Hq. destruct (Hcd q) as [[? _]|[(j & k & Hj & Hk & ->) _]]; [done|]. by destruct (Hq j k Hj Hk).
Qed.

(** ** The invariant *)

(** [latest_gsn]: none yet, or the GSN of a slot the client has consumed. *)
Definition latest_ok (sl : list (Z * Z)) (c : Z) (n : nat) (g : Z) : Prop :=
  g = UINT64_MAX \/ exists i, (i < n)%nat /\ client_gsn c sl i = Some g.

(** The server's log holds the slots [sl], and every client's cursor is somewhere in its
    slots. *)
Record server_ok (s : storage) (sl : list (Z * Z)) : Prop := {
  so_rep : rep (st_log_ s) sl;
  so_increasing : gsns_increasing sl;
  so_length : Z.of_nat (length sl) < W64 - 1;
  so_num : num_entries_ (st_log_ s) = Z.of_nat (length sl);
  so_payload q : wf_payload (get_entry (st_log_ s) q);
  so_client c : exists n, cursor (s_position (client_of s c)) c sl n /\
    latest_ok sl c n (s_latest_gsn (client_of s c)) }.

(** What the ordering server promises of the slots of an epoch. *)
Record epoch_ok (sl : list (Z * Z)) (slots : storage_slots) : Prop := {
  ep_slots : slots_ok (ss_assignments slots);
  ep_clients : clients_ok (ss_assignments slots);
  ep_num : ss_num_clients slots = Z.of_nat (length (ss_assignments slots));
  ep_start : 0 <= ss_start_gsn slots;
  ep_above : Forall (fun x => x.2 < ss_start_gsn slots) sl;
  ep_gsns : ss_start_gsn slots + total_slots (ss_assignments slots) < W64;
  ep_total : Z.of_nat (length sl) + total_slots (ss_assignments slots) < W64 - 1 }.

(** The slots an event adds to the log of the shard. *)
Definition new_slots (e : event) : list (Z * Z) :=
  match e with
  | EControl _ (MStorageSlots slots) =>
    if 0 <? ss_num_clients slots then
      match schedule (ss_assignments slots) (ss_num_clients slots) with
      | Ok sched => assigned (ss_assignments slots) (ss_start_gsn slots) sched
      | Err _ => []
      end
    else []
  | _ => []
  end.

(** The events the environment may produce: what the ordering server sends is well formed,
    and the integers of the messages are words. *)
Definition event_ok (sl : list (Z * Z)) (e : event) : Prop :=
  match e with
  | EControl _ (MStorageSlots slots) => 0 < ss_num_clients slots -> epoch_ok sl slots
  | EControl _ (MStorageClientPatch data) => is_u64 (scp_gsn data)
  | EClient _ (MStorageInsert req) => is_u64 (ins_num_slots req)
  | _ => True
  end.

(** The two ways a handler changes a server. *)
Inductive effect (s : storage) (sl : list (Z * Z)) (s' : storage) : list (Z * Z) -> Prop :=
| effect_client c n n' :
    cursor (s_position (client_of s c)) c sl n -> cursor (s_position (client_of s' c)) c sl n' ->
    moved c sl n n' (st_log_ s) (st_log_ s') ->
    (forall c', c' <> c -> client_of s' c' = client_of s c') ->
    (s_latest_gsn (client_of s' c) = s_latest_gsn (client_of s c) \/
     latest_ok sl c n' (s_latest_gsn (client_of s' c))) ->
    effect s sl s' []
| effect_epoch new :
    rep (st_log_ s') (sl ++ new) -> gsns_increasing (sl ++ new) ->
    Z.of_nat (length (sl ++ new)) < W64 - 1 ->
    num_entries_ (st_log_ s') = Z.of_nat (length (sl ++ new)) ->
    (forall c, client_of s' c = client_of s c) ->
    (forall q, same_payload (get_entry (st_log_ s') q) (get_entry (st_log_ s) q)) ->
    effect s sl s' new.

Lemma latest_ok_mono sl sl' c n n' g : latest_ok sl c n g -> (n <= n')%nat -> latest_ok (sl ++ sl') c n' g.
Proof.
  intros [->|(i & ? & Hi)] Hn; [by left|]. right. exists i. split; [lia|]. by apply client_gsn_app.
Qed.

Lemma effect_ok s sl s' new : server_ok s sl -> effect s sl s' new -> server_ok s' (sl ++ new).
Proof.
  intros H [c n n' Hn Hn' Hmv Ho Hl|new' Hr Hi Hlen Hnum Hc Hp].
  - rewrite app_nil_r. split; [apply Hmv|apply H|apply H|rewrite (mv_num _ _ _ _ _ _ Hmv); apply H|intros q; apply Hmv, H|].
    intros c'. destruct (decide (c' = c)) as [->|Hne]; [|rewrite Ho by done; apply H].
    exists n'. split; [done|]. destruct Hl as [->|?]; [|done].
    destruct (so_client _ _ H c) as (n0 & Hn0 & Hl0). rewrite (cursor_fun _ _ _ _ _ Hn0 Hn) in Hl0.
    rewrite <- (app_nil_r sl). eapply latest_ok_mono; [done|apply Hmv].
  - split; [done..|intros q; eapply wf_payload_same; [apply Hp|apply H]|]. intros c. rewrite Hc. destruct (so_client _ _ H c) as (n & Hn & Hl).
    exists n. split; [by apply cursor_app|by eapply latest_ok_mono].
Qed.

(** A handler that leaves the log and the cursors alone. *)
Lemma effect_quiet s sl s' :
  server_ok s sl -> st_log_ s' = st_log_ s ->
  (forall c, s_position (client_of s' c) = s_position (client_of s c) /\
     s_latest_gsn (client_of s' c) = s_latest_gsn (client_of s c)) ->
  forall c, (forall c', c' <> c -> client_of s' c' = client_of s c') -> effect s sl s' [].
Proof.
  intros H Hl Hc c Ho. destruct (so_client _ _ H c) as (n & Hn & _). destruct (Hc c) as [Hp Hg].
  apply (effect_client s sl s' c n n); [done|by rewrite Hp|rewrite Hl; apply moved_refl, H|done|by left].
Qed.

(** ** The effect of every handler *)

Lemma disconnect_position cs : s_position (disconnect cs) = s_position cs.
Proof. unfold disconnect. by destruct (s_disconnected cs). Qed.

Lemma disconnect_gsn cs : s_latest_gsn (disconnect cs) = s_latest_gsn cs.
Proof. unfold disconnect. by destruct (s_disconnected cs). Qed.

(** Only client [c]'s state is replaced, and only its connection changes. *)
Lemma effect_connection s sl s1 c cs :
  server_ok s sl -> same_server s s1 -> s_position cs = s_position (client_of s c) ->
  s_latest_gsn cs = s_latest_gsn (client_of s c) -> effect s sl (with_client c cs s1) [].
Proof.
  intros H (Hl & Hc & _) Hp Hg. apply (effect_quiet _ _ _ H) with c; [done| |].
  - intros c'. rewrite client_of_with_client. case_decide; [by subst|by rewrite Hc].
  - intros c' Hne. rewrite client_of_with_client, decide_False by done. apply Hc.
Qed.

Lemma effect_same s sl s' : server_ok s sl -> same_server s s' -> effect s sl s' [].
Proof. intros H (Hl & Hc & _). apply (effect_quiet _ _ _ H) with 0; [done|..]; intros; by rewrite Hc. Qed.

Lemma same_server_refl s : same_server s s.
Proof. by repeat split. Qed.

(** Client [c] consumes some slots. *)
Lemma effect_move s sl s1 c n n' cs l' :
  same_server s s1 -> cursor (s_position (client_of s c)) c sl n -> cursor (s_position cs) c sl n' ->
  moved c sl n n' (st_log_ s) l' ->
  (s_latest_gsn cs = s_latest_gsn (client_of s c) \/ latest_ok sl c n' (s_latest_gsn cs)) ->
  effect s sl (with_log l' (with_client c cs s1)) [].
Proof.
  intros (Hl & Hc & _) Hn Hn' Hmv Hg.
  apply effect_client with c n n'; rewrite ?client_of_with_log, ?client_of_with_client, ?decide_True by done; try done.
  intros c' Hne. rewrite client_of_with_log, client_of_with_client, decide_False by done. apply Hc.
Qed.

Lemma add_client_effect c s sl s' : server_ok s sl -> add_client c s = Ok s' -> effect s sl s' [].
Proof.
  intros H E. unfold add_client in E. destruct (MAX_CLIENTS <=? c); [inv_result; by apply effect_same|].
  inv_result. apply get_client_state_inv in E0 as (_ & -> & Hs). cbn [fst snd] in *.
  destruct (s_connected _); inv_result; [by apply effect_same|by apply effect_connection].
Qed.

Lemma add_subscriber_effect sid n s sl s' : server_ok s sl -> add_subscriber sid n s = Ok s' -> effect s sl s' [].
Proof.
  intros H E. unfold add_subscriber in E. case_decide; [inv_result; by apply effect_same|].
  destruct (_ =? 0); inv_result. by apply (effect_quiet _ _ _ H) with 0.
Qed.

Lemma on_client_failure_effect i s sl s' out :
  server_ok s sl -> on_client_failure i s = Ok (s', out) -> effect s sl s' [].
Proof.
  intros H E. unfold on_client_failure in E. inv_result.
  apply get_client_state_inv in E0 as (_ & -> & Hs).
  apply effect_connection; [done..|apply disconnect_position|apply disconnect_gsn].
Qed.

Lemma on_storage_client_freeze_effect m s sl s' out :
  server_ok s sl -> on_storage_client_freeze m s = Ok (s', out) -> effect s sl s' [].
Proof.
  intros H E. unfold on_storage_client_freeze in E. inv_result.
  apply get_client_state_inv in E0 as (_ & -> & Hs).
  apply effect_connection; [done..|apply disconnect_position|apply disconnect_gsn].
Qed.

Lemma on_client_finished_effect m s sl s' out :
  server_ok s sl -> on_client_finished m s = Ok (s', out) -> effect s sl s' [].
Proof.
  intros H E. unfold on_client_finished in E. inv_result.
  apply get_client_state_inv in E0 as (_ & -> & Hs). cbn [fst snd] in *.
  destruct (s_disconnected _); inv_result; [by apply effect_same|].
  apply effect_connection; [done..|apply disconnect_position|apply disconnect_gsn].
Qed.

Lemma on_storage_client_cut_effect m s sl s' out :
  server_ok s sl -> on_storage_client_cut m s = Ok (s', out) -> effect s sl s' [].
Proof.
  intros H E. unfold on_storage_client_cut in E. inv_result.
  apply get_client_state_inv in E0 as (_ & -> & Hs). by apply effect_same.
Qed.

Lemma on_storage_slots_effect slots s sl s' out :
  server_ok s sl -> (0 < ss_num_clients slots -> epoch_ok sl slots) ->
  on_storage_slots slots s = Ok (s', out) -> effect s sl s' (new_slots (EControl [] (MStorageSlots slots))).
Proof.
  intros H Hok E. unfold on_storage_slots in E. unfold new_slots.
  destruct (Z.ltb_spec 0 (ss_num_clients slots)) as [Hn|]; [|inv_result; by apply effect_same].
  destruct (Hok Hn) as [H1 H2 H3 H4 H5 H6 H7].
  destruct (add_entries_ok slots (st_log_ s) sl) as (l' & sched & Es & El & Hr & Hnum & Hp);
    [apply H|done..|lia|].
  rewrite El in E. cbn [mbind result_bind] in E. inv_result. rewrite Es.
  destruct (schedule_occurrences _ H1) as (sched' & Es' & Hocc & Hlt). rewrite H3 in Es.
  assert (sched' = sched) as -> by congruence.
  apply effect_epoch; simpl; [done| | |done|done|done].
  - apply gsns_increasing_app; [apply H|apply assigned_increasing|].
    intros x y Hx Hy%assigned_bounds. rewrite Forall_forall in H5. specialize (H5 _ Hx). simpl in *. lia.
  - rewrite length_app. pose proof (length_assigned (ss_assignments slots) (ss_start_gsn slots) sched).
    rewrite <- (schedule_length _ _ H1 Es') in H7. lia.
Qed.

Lemma on_storage_client_patch_effect stale m s sl s' out :
  server_ok s sl -> is_u64 (scp_gsn m) -> on_storage_client_patch stale m s = Ok (s', out) -> effect s sl s' [].
Proof.
  intros H Hu E. unfold on_storage_client_patch in E. inv_result.
  apply get_client_state_inv in E0 as (_ & -> & Hs). cbn [fst snd] in *.
  destruct (_ <? _); inv_result; [|by apply effect_same].
  pose proof (proj1 Hs) as Hl. rewrite Hl in E0.
  destruct (so_client _ _ H (scp_client_id m)) as (n & Hn & _).
  destruct (insert_inv _ _ _ _ _ _ _ _ _ _ _ (so_rep _ _ H) Hn Hu (so_length _ _ H) E0) as (_ & Hc & Hmv & _).
  eapply effect_move; eauto.
Qed.

Lemma on_storage_client_finalize_effect m s sl s' out :
  server_ok s sl -> on_storage_client_finalize m s = Ok (s', out) -> effect s sl s' [].
Proof.
  intros H E. unfold on_storage_client_finalize in E. inv_result.
  apply get_client_state_inv in E0 as (_ & -> & Hs). cbn [fst snd] in *.
  rewrite (proj1 Hs) in E1. destruct (so_client _ _ H (scfin_client_id m)) as (n & Hn & _).
  destruct (close_inv _ _ _ _ _ _ _ (so_rep _ _ H) Hn E1) as [Hc Hmv].
  eapply effect_move; eauto.
Qed.

(** ** Inserts *)

(** What a client thread's insert does when it returns: nothing for a client that is
    disconnected, and otherwise it consumes [num_slots] slots, stores the payload in the last
    one and acknowledges with its GSN. *)
Lemma on_storage_insert_inv stale req s sl s' out :
  server_ok s sl -> is_u64 (ins_num_slots req) -> on_storage_insert stale req s = Ok (s', out) ->
  let c := ins_client_id req in
  s_connected (client_of s c) = true /\
  ((s_disconnected (client_of s c) = true /\ out = [] /\ same_server s s') \/
   exists n g k, s_disconnected (client_of s c) = false /\
     let n' := (n + Z.to_nat (ins_num_slots req))%nat in
     cursor (s_position (client_of s c)) c sl n /\ cursor (s_position (client_of s' c)) c sl n' /\
     0 < ins_num_slots req /\ moved c sl n n' (st_log_ s) (st_log_ s') /\
     (forall c', c' <> c -> client_of s' c' = client_of s c') /\
     s_connected (client_of s' c) = true /\ s_disconnected (client_of s' c) = false /\
     s_latest_gsn (client_of s' c) = g /\ st_replica_id_ s' = st_replica_id_ s /\
     positions c sl !! (n' - 1)%nat = Some k /\ sl !! k = Some (c, g) /\
     e_set (get_entry (st_log_ s') (addr k)) = true /\
     e_data (get_entry (st_log_ s') (addr k)) = alloc_copy (ins_data req ++ stale) (ins_data_length req) /\
     e_data_length (get_entry (st_log_ s') (addr k)) = ins_data_length req /\
     out = [(ToClient c, MClientInsertAck (ClientInsertAck (st_replica_id_ s) g))]).
Proof.
  intros H Hu E c. unfold on_storage_insert in E. fold c in E. inv_result.
  apply get_client_state_inv in E0 as (_ & -> & Hs). unfold wait_connected in E1.
  destruct (s_connected (client_of s c)) eqn:Hcon; [|done]. split; [done|].
  destruct (s_disconnected (client_of s c)) eqn:Hdis; inv_result; [by left|right].
  rewrite (proj1 Hs) in E0. destruct (so_client _ _ H c) as (n & Hn & _).
  destruct (insert_inv _ _ _ _ _ _ _ _ _ _ _ (so_rep _ _ H) Hn Hu (so_length _ _ H) E0)
    as (Hpos & Hc & Hmv & Hg & Hk).
  apply client_gsn_lookup in Hg as (k & Hk1 & Hk2). destruct (Hk _ Hk1) as (? & ? & ?).
  eexists n, _, k. split; [done|]. cbv zeta.
  rewrite !client_of_with_log, !client_of_with_client, !decide_True by done.
  pose proof (proj1 (proj2 (proj2 (proj2 Hs)))) as Hrep. simpl in Hrep.
  split_and!; try done; [|by rewrite Hrep].
  intros c' Hne. rewrite client_of_with_log, client_of_with_client, decide_False by done. apply Hs.
Qed.

Lemma on_storage_insert_effect stale req s sl s' out :
  server_ok s sl -> is_u64 (ins_num_slots req) -> on_storage_insert stale req s = Ok (s', out) ->
  effect s sl s' [].
Proof.
  intros H Hu E. destruct (on_storage_insert_inv _ _ _ _ _ _ H Hu E)
    as (_ & [(_ & _ & ?)|(n & g & k & _ & Hn & Hn' & Hpos & Hmv & Ho & _ & _ & Hg & _ & Hk & Hkg & _)]);
    [by apply effect_same|].
  apply (effect_client _ _ _ _ _ _ Hn Hn' Hmv Ho). right. right.
  exists (n + Z.to_nat (ins_num_slots req) - 1)%nat. split; [lia|].
  rewrite Hg. apply client_gsn_lookup. eauto.
Qed.

Lemma on_subscriber_finished_effect bye s sl s' out :
  server_ok s sl -> on_subscriber_finished bye s = Ok (s', out) -> effect s sl s' [].
Proof.
  intros H E. unfold on_subscriber_finished in E. case_decide; inv_result; [|by apply effect_same].
  by apply (effect_quiet _ _ _ H) with 0.
Qed.

Create HintDb zserver.
#[export] Hint Resolve on_storage_insert_effect on_subscriber_finished_effect on_storage_client_patch_effect
  on_storage_client_finalize_effect on_storage_slots_effect on_storage_client_cut_effect
  on_client_finished_effect on_storage_client_freeze_effect on_client_failure_effect
  add_client_effect add_subscriber_effect effect_same same_server_refl : zserver.

Lemma handle_effect e s sl s' out :
  server_ok s sl -> event_ok sl e -> handle e s = Ok (s', out) -> effect s sl s' (new_slots e).
Proof.
  intros H Hok E. destruct e as [stale m|stale m|i|c|sid n]; unfold handle in E.
  - destruct m; cbn [control_recv] in E; cbn [event_ok] in Hok; try (cbn [new_slots]; eauto with zserver; fail);
      inv_result; cbn [new_slots]; eauto with zserver.
  - destruct m; cbn [client_recv] in E; cbn [event_ok] in Hok; cbn [new_slots]; eauto with zserver;
      inv_result; eauto with zserver.
  - cbn [new_slots]. eauto with zserver.
  - inv_result. cbn [new_slots]. eauto with zserver.
  - inv_result. cbn [new_slots]. eauto with zserver.
Qed.

(** ** Runs *)

(** A run of a server: the events it handles, from a state whose log holds [sl]. *)
Inductive run : list (Z * Z) -> storage -> list event -> list (Z * Z) -> storage -> outputs -> Prop :=
| run_nil sl s : run sl s [] sl s []
| run_cons sl s e s1 out es sl' s' out' :
    event_ok sl e -> handle e s = Ok (s1, out) -> run (sl ++ new_slots e) s1 es sl' s' out' ->
    run sl s (e :: es) sl' s' (out ++ out').

Lemma run_ok sl s es sl' s' out : run sl s es sl' s' out -> server_ok s sl -> server_ok s' sl'.
Proof.
  induction 1 as [|sl s e s1 out es sl' s' out' Hok E Hr IH]; [done|]. intros H. apply IH.
  eapply effect_ok; [done|]. by eapply handle_effect.
Qed.

Lemma run_log sl s es sl' s' out : run sl s es sl' s' out -> sl' = sl ++ (es ≫= new_slots).
Proof.
  induction 1 as [|sl s e s1 out es sl' s' out' Hok E Hr IH]; simpl; [by rewrite app_nil_r|].
  by rewrite IH, <- app_assoc.
Qed.

Lemma server_ok_init shard replica ct st sd s : storage_init shard replica ct st sd = Ok s -> server_ok s [].
Proof.
  unfold storage_init. intros E. inv_result. split; try (apply rep_init || done).
  { intros q. exists 0. done. }
  intros c. exists 0%nat. split; [apply cursor_init|by left].
Qed.

(** ** Acknowledged entries are durable *)

(** The entry at place [k] of the log is set, with this payload. *)
Definition stored (s : storage) (k : nat) (data : data_word) (length : Z) : Prop :=
  let e := get_entry (st_log_ s) (addr k) in e_set e = true /\ e_data e = data /\ e_data_length e = length.

(** The place [k] belongs to a slot its client has consumed. *)
Definition consumed (s : storage) (sl : list (Z * Z)) (k : nat) : Prop :=
  exists c n i, cursor (s_position (client_of s c)) c sl n /\ positions c sl !! i = Some k /\ (i < n)%nat.

Lemma effect_consumed s sl s' new k d len :
  server_ok s sl -> effect s sl s' new -> consumed s sl k -> stored s k d len ->
  consumed s' (sl ++ new) k /\ stored s' k d len.
Proof.
  intros H He (c & n & i & Hn & Hk & Hi) Hst. pose proof (positions_lookup_lt _ _ _ _ Hk) as Hlt.
  destruct He as [c0 n0 n0' Hn0 Hn0' Hmv Ho _|new _ _ _ _ Hc Hp].
  - rewrite app_nil_r. split.
    + exists c. destruct (decide (c = c0)) as [->|Hne].
      * exists n0', i. pose proof (cursor_fun _ _ _ _ _ Hn Hn0). subst. split_and!; [done..|].
        pose proof (mv_le _ _ _ _ _ _ Hmv). lia.
      * exists n, i. rewrite Ho by done. done.
    + unfold stored. replace (get_entry (st_log_ s') (addr k)) with (get_entry (st_log_ s) (addr k)); [done|].
      symmetry. apply (mv_frame _ _ _ _ _ _ Hmv). intros j k' Hj Hk' Hkk%addr_inj. subst k'.
      destruct (positions_lookup _ _ _ _ Hk) as [g Hg]. destruct (positions_lookup _ _ _ _ Hk') as [g' Hg'].
      assert (c0 = c) as -> by congruence.
      pose proof (positions_inj _ _ _ _ _ Hk Hk'). pose proof (cursor_fun _ _ _ _ _ Hn Hn0). lia.
  - split.
    + exists c, n, i. rewrite Hc. split; [by apply cursor_app|]. split; [|done].
      by rewrite positions_app_lookup by (by eapply lookup_lt_Some).
    + destruct Hst as (H1 & H2 & H3). destruct (Hp (addr k)) as (E1 & E2 & E3).
      unfold stored. by rewrite E1, E2, E3, H1, H2, H3.
Qed.

Lemma run_consumed sl s es sl' s' out k d len :
  run sl s es sl' s' out -> server_ok s sl -> consumed s sl k -> stored s k d len -> stored s' k d len.
Proof.
  induction 1 as [|sl s e s1 out es sl' s' out' Hok E Hr IH]; [done|]. intros H Hc Hst.
  pose proof (handle_effect _ _ _ _ _ H Hok E) as He.
  destruct (effect_consumed _ _ _ _ _ _ _ H He Hc Hst). apply IH; [by eapply effect_ok|done..].
Qed.

(** ** The slots a client has not consumed *)

(** The state of a slot as a reader sees it. *)
Definition slot_state (s : storage) (k : nat) : bool * data_word * Z :=
  let e := get_entry (st_log_ s) (addr k) in (e_set e, e_data e, e_data_length e).

(** A slot that was added is as the fresh page left it. *)
Lemma slot_fresh s sl k : server_ok s sl -> (length sl <= k)%nat -> slot_state s k = (false, Word 0, 0).
Proof. intros H Hk. unfold slot_state, get_entry. by rewrite (rep_none _ _ (so_rep _ _ H)). Qed.

(** The slots a client has consumed are set, and the others are fresh. *)
Definition slots_filled (s : storage) (sl : list (Z * Z)) : Prop :=
  forall c n j k, cursor (s_position (client_of s c)) c sl n -> positions c sl !! j = Some k ->
    if decide (j < n)%nat then e_set (get_entry (st_log_ s) (addr k)) = true else slot_state s k = (false, Word 0, 0).

Lemma slots_filled_init shard replica ct st sd s : storage_init shard replica ct st sd = Ok s -> slots_filled s [].
Proof. intros _ c n j k _ Hk. destruct (positions_lookup _ _ _ _ Hk) as [g Hg]. by rewrite lookup_nil in Hg. Qed.

Lemma effect_filled s sl s' new : server_ok s sl -> effect s sl s' new -> slots_filled s sl -> slots_filled s' (sl ++ new).
Proof.
  intros H [c0 n0 n0' Hn0 Hn0' Hmv Ho _|new' Hr Hi Hlen Hnum Hcl Hp] Hf c n j k Hn Hj.
  - rewrite app_nil_r in *.
    assert ((forall j', (n0 <= j' < n0')%nat -> c = c0 -> j' <> j) -> get_entry (st_log_ s') (addr k) = get_entry (st_log_ s) (addr k)) as Hsame.
    { intros Hne. apply (mv_frame _ _ _ _ _ _ Hmv). intros j' k' Hj' Hk' <-%addr_inj.
      destruct (positions_lookup _ _ _ _ Hj) as [g Hg]. destruct (positions_lookup _ _ _ _ Hk') as [g' Hg'].
      assert (c = c0) as -> by congruence. apply (Hne j'); [done|done|]. by eapply positions_inj. }
    destruct (decide (c = c0)) as [->|Hne].
    + assert (n = n0') as -> by by eapply cursor_fun. pose proof (Hf _ _ j k Hn0 Hj) as Hold. pose proof (mv_le _ _ _ _ _ _ Hmv).
      destruct (decide (n0 <= j < n0')%nat) as [Hin|Hout]; [rewrite decide_True by lia; by eapply mv_set|].
      unfold slot_state in *. rewrite Hsame by (intros; lia).
      destruct (decide (j < n0)%nat); [by rewrite decide_True by lia|by rewrite decide_False by lia].
    + rewrite Ho in Hn by done. unfold slot_state in *. rewrite Hsame by done. exact (Hf _ _ _ _ Hn Hj).
  - rewrite Hcl in Hn. destruct (so_client _ _ H c) as (n1 & Hn1 & _).
    assert (n = n1) as -> by (eapply cursor_fun; [exact Hn|by apply cursor_app]).
    unfold slot_state. destruct (Hp (addr k)) as (-> & -> & ->). destruct (decide (k < length sl)%nat) as [Hk|Hk].
    + destruct (positions_lookup _ _ _ _ Hj) as [g Hg]. rewrite lookup_app_l in Hg by done.
      destruct (positions_complete _ _ _ _ Hg) as [j' Hj'].
      assert (positions c (sl ++ new') !! j' = Some k) as Hj2 by (rewrite positions_app_lookup; [done|by eapply lookup_lt_Some]).
      rewrite (positions_inj _ _ _ _ _ Hj Hj2).
      exact (Hf _ _ _ _ Hn1 Hj').
    + rewrite decide_False; [apply (slot_fresh s sl); [done|lia]|]. intros Hj1. destruct Hn1 as (_ & Hle & _).
      destruct (lookup_lt_is_Some_2 (positions c sl) j) as [k' Hk']; [lia|].
      rewrite positions_app_lookup in Hj by (by eapply lookup_lt_Some). apply Hk. simplify_eq. by eapply positions_lookup_lt.
Qed.

Lemma run_filled sl s es sl' s' out : run sl s es sl' s' out -> server_ok s sl -> slots_filled s sl -> slots_filled s' sl'.
Proof.
  induction 1 as [|sl s e s1 out es sl' s' out' Hok E Hr IH]; [done|]. intros H Hf.
  pose proof (handle_effect _ _ _ _ _ H Hok E) as He. apply IH; [by eapply effect_ok|by eapply effect_filled].
Qed.

(** What was copied in is what is sent out, whatever followed it in the receive buffer. *)
Lemma entry_payload_copy e data stale :
  e_data e = alloc_copy (data ++ stale) (e_data_length e) -> e_data_length e = Z.of_nat (length data) ->
  entry_payload e = Ok data.
Proof.
  intros Hd Hl. unfold entry_payload. rewrite Hd, Hl. unfold alloc_copy.
  rewrite Nat2Z.id. destruct (Z.ltb_spec 8 (Z.of_nat (length data))).
  { by rewrite take_take, Nat.min_id, take_app_length. }
  destruct (Z.ltb_spec 0 (Z.of_nat (length data))) as [|H0]; [|destruct data; simpl in *; [done|lia]].
  set (w := take 8 (data ++ stale)). assert (length w <= 8)%nat by (unfold w; rewrite length_take; lia).
  rewrite <- (le_combine_app_0 w (8 - length w)), split_le_combine'.
  2:{ rewrite length_app, repeat_length. lia. }
  rewrite take_app_le.
  - unfold w. by rewrite take_take, Nat.min_l, take_app_length by lia.
  - unfold w. rewrite length_take, length_app. lia.
Qed.

(** ** The replicas of a shard agree *)

(** The acknowledgements sent to client [c], and the inserts of [c] that were handled. *)
Definition ack_of (c : Z) (o : destination * message) : option Z :=
  match o with
  | (ToClient c', MClientInsertAck a) => if c' =? c then Some (ack_gsn a) else None
  | _ => None
  end.
Definition acks (c : Z) (out : outputs) : list Z := omap (ack_of c) out.

Definition insert_of (c : Z) (e : event) : option storage_insert :=
  match e with
  | EClient _ (MStorageInsert req) => if ins_client_id req =? c then Some req else None
  | _ => None
  end.
Definition inserts (c : Z) (es : list event) : list storage_insert := omap (insert_of c) es.

(** The event does not end or recover client [c]. *)
Definition undisturbed (c : Z) (e : event) : Prop :=
  match e with
  | EControl _ (MStorageClientFreeze m) => scf_client_id m <> c
  | EControl _ (MStorageClientPatch m) => scp_client_id m <> c
  | EControl _ (MStorageClientFinalize m) => scfin_client_id m <> c
  | EClient _ (MClientFinished m) => cf_client_id m <> c
  | EFailure i => ci_client_id i <> c
  | _ => True
  end.

(** The GSNs that inserts with these numbers of slots get: each of them that of the last slot
    it takes, when [n] slots of [c] have been used before. *)
Fixpoint ack_gsns (c : Z) (sl : list (Z * Z)) (n : nat) (num_slots : list Z) : list (option Z) :=
  match num_slots with
  | [] => []
  | k :: ks => client_gsn c sl (n + Z.to_nat k - 1) :: ack_gsns c sl (n + Z.to_nat k) ks
  end.

Lemma acks_app c o1 o2 : acks c (o1 ++ o2) = acks c o1 ++ acks c o2.
Proof. apply omap_app. Qed.

(** The handlers of client [c'] leave the other clients alone. *)
Definition untouched (c : Z) (s s' : storage) : Prop :=
  s_position (client_of s' c) = s_position (client_of s c) /\
  s_disconnected (client_of s' c) = s_disconnected (client_of s c).

Lemma untouched_same c s s' : same_server s s' -> untouched c s s'.
Proof. intros (_ & H & _). by split; rewrite H. Qed.

Lemma untouched_other c c' cs s s1 : same_server s s1 -> c' <> c -> untouched c s (with_client c' cs s1).
Proof. intros (_ & H & _) Hne. by split; rewrite client_of_with_client, decide_False, H by done. Qed.

Lemma acks_client_data c s ks out out' :
  acks c out = [] -> mfold (fun q out => d ← client_data s q; Ok (out ++ d)) ks out = Ok out' -> acks c out' = [].
Proof.
  revert out. induction ks as [|q ks IH]; intros out Ho; cbn [mfold]; [by intros [= <-]|].
  intros E. inv_result. apply IH in E; [done|]. rewrite acks_app, Ho. simpl.
  unfold client_data in E1. destruct (_ <? _); inv_result; done.
Qed.

Lemma handle_untouched c e s s' out :
  handle e s = Ok (s', out) -> undisturbed c e -> insert_of c e = None ->
  untouched c s s' /\ acks c out = [].
Proof.
  intros E Hu Hi. destruct e as [stale m|stale m|i|c'|sid n]; unfold handle in E.
  - destruct m; cbn [control_recv] in E; cbn [undisturbed] in Hu; try (inv_result; split; [by apply untouched_same|done]).
    + unfold on_subscriber_finished in E. case_decide; inv_result; (split; [by split|done]).
    + unfold on_storage_slots in E. destruct (_ <? _); inv_result; (split; [by split|done]).
    + unfold on_storage_client_finalize in E. inv_result. use_client Hs.
      split; [by apply untouched_other|done].
    + unfold on_storage_client_freeze in E. inv_result. use_client Hs.
      split; [by apply untouched_other|done].
    + unfold on_storage_client_cut in E. inv_result. use_client Hs.
      split; [by apply untouched_same|]. rewrite acks_app. by rewrite (acks_client_data _ _ _ [] _ eq_refl E2).
    + unfold on_storage_client_patch in E. inv_result. use_client Hs.
      destruct (_ <? _); inv_result; (split; [|done]); [by apply untouched_other|by apply untouched_same].
  - destruct m; cbn [client_recv] in E; cbn [undisturbed insert_of] in Hu, Hi; try (inv_result; split; [by apply untouched_same|done]).
    + unfold on_client_finished in E. inv_result. use_client Hs.
      destruct (s_disconnected _); inv_result; (split; [|done]); [by apply untouched_same|by apply untouched_other].
    + destruct (Z.eqb_spec (ins_client_id m) c) as [|Hne]; [done|].
      unfold on_storage_insert in E. inv_result. use_client Hs.
      destruct (s_disconnected _); inv_result; [split; [by apply untouched_same|done]|].
      split; [by apply untouched_other|]. simpl. by rewrite (proj2 (Z.eqb_neq _ _) Hne).
  - unfold on_client_failure in E. inv_result. use_client Hs.
    split; [by apply untouched_other|done].
  - inv_result. split; [|done]. unfold add_client in E0. destruct (_ <=? _); [inv_result; by apply untouched_same|].
    inv_result. use_client Hs. destruct (s_connected _); inv_result; [by apply untouched_same|].
    split; rewrite client_of_with_client; (case_decide; [by subst|]); by rewrite (proj1 (proj2 Hs)).
  - inv_result. split; [|done]. unfold add_subscriber in E0. case_decide; [inv_result; by apply untouched_same|].
    destruct (_ =? 0); inv_result. by split.
Qed.

Lemma ack_gsns_prefix c sl sl' n ks gs :
  Some <$> gs = ack_gsns c sl n ks -> ack_gsns c (sl ++ sl') n ks = ack_gsns c sl n ks.
Proof.
  revert n gs. induction ks as [|k ks IH]; intros n gs; simpl; [done|].
  destruct gs as [|g gs]; simpl; [done|]. intros E. injection E as Hg Hgs.
  rewrite (IH _ _ Hgs). f_equal. rewrite <- Hg. symmetry in Hg. by apply client_gsn_app.
Qed.

Lemma ack_gsns_app c sl n k1 k2 :
  exists n', ack_gsns c sl n (k1 ++ k2) = ack_gsns c sl n k1 ++ ack_gsns c sl n' k2.
Proof.
  revert n. induction k1 as [|k k1 IH]; intros n; simpl; [by exists n|].
  destruct (IH (n + Z.to_nat k)%nat) as [n' ->]. by exists n'.
Qed.

(** The acknowledgements of a run are determined by the slots of the shard and the slot counts
    of the inserts. *)
Lemma run_acks sl s es sl' s' out c n :
  run sl s es sl' s' out -> server_ok s sl -> Forall (undisturbed c) es ->
  s_disconnected (client_of s c) = false -> cursor (s_position (client_of s c)) c sl n ->
  Some <$> acks c out = ack_gsns c sl' n (ins_num_slots <$> inserts c es).
Proof.
  intros Hr. revert n. induction Hr as [|sl s e s1 o es sl' s' o' Hok E Hr IH]; intros n H Hu Hd Hn; [done|].
  apply Forall_cons in Hu as [Hu Hus].
  pose proof (effect_ok _ _ _ _ H (handle_effect _ _ _ _ _ H Hok E)) as H1.
  rewrite acks_app, fmap_app. unfold inserts. cbn [omap list_omap]. fold (inserts c es).
  destruct (insert_of c e) as [req|] eqn:Hi.
  - destruct e as [|stale m| | |]; try done. destruct m; try done. cbn [insert_of] in Hi.
    destruct (Z.eqb_spec (ins_client_id m) c) as [Hc|]; [|done]. injection Hi as ->.
    cbn [handle client_recv event_ok new_slots] in *.
    destruct (on_storage_insert_inv _ _ _ _ _ _ H Hok E)
      as (_ & [(Hdis & _)|(n0 & g & k & _ & Hn0 & Hn0' & Hpos & _ & _ & _ & Hd' & _ & _ & Hk & Hkg & _ & _ & _ & ->)]);
      rewrite Hc in *; [congruence|].
    pose proof (cursor_fun _ _ _ _ _ Hn Hn0) as <-. rewrite app_nil_r in *.
    rewrite (IH _ H1 Hus Hd' Hn0'). cbn. rewrite Z.eqb_refl. cbn. f_equal.
    assert (client_gsn c sl (n + Z.to_nat (ins_num_slots req) - 1) = Some g) as Hg.
    { apply client_gsn_lookup. eauto. }
    rewrite (run_log _ _ _ _ _ _ Hr). symmetry. by apply client_gsn_app.
  - destruct (handle_untouched _ _ _ _ _ E Hu Hi) as [[Hp Hdd] ->]. cbn.
    apply IH; [done|done|by rewrite Hdd|rewrite Hp; by apply cursor_app].
Qed.

(** The inserts of a client were handled by both replicas in the same order, as far as each of
    them has got, and the same goes for the epochs. *)
Definition comparable {A} (l1 l2 : list A) : Prop := l1 `prefix_of` l2 \/ l2 `prefix_of` l1.

Lemma fmap_Some_inj (l1 l2 : list Z) : (Some <$> l1) = (Some <$> l2) -> l1 = l2.
Proof. intros E. by apply list_fmap_eq_inj in E; [|apply _]. Qed.

Lemma fmap_Some_app (l1 l2 : list Z) (x : list (option Z)) :
  Some <$> l1 = (Some <$> l2) ++ x -> l2 `prefix_of` l1.
Proof. intros (a & b & E%fmap_Some_inj & _ & ->)%fmap_app_inv. exists b. by rewrite E. Qed.

Lemma acks_comparable sl1 s1 es1 sl1' s1' out1 sl2 s2 es2 sl2' s2' out2 c :
  server_ok s1 sl1 -> server_ok s2 sl2 ->
  s_position (client_of s1 c) = position_init c -> s_position (client_of s2 c) = position_init c ->
  s_disconnected (client_of s1 c) = false -> s_disconnected (client_of s2 c) = false ->
  run sl1 s1 es1 sl1' s1' out1 -> run sl2 s2 es2 sl2' s2' out2 ->
  Forall (undisturbed c) es1 -> Forall (undisturbed c) es2 -> comparable sl1' sl2' ->
  (ins_num_slots <$> inserts c es1) `prefix_of` (ins_num_slots <$> inserts c es2) ->
  acks c out1 `prefix_of` acks c out2.
Proof.
  intros H1 H2 Hp1 Hp2 Hd1 Hd2 R1 R2 U1 U2 Hsl [ks Hks].
  assert (forall s sl, s_position (client_of s c) = position_init c -> cursor (s_position (client_of s c)) c sl 0) as Hc.
  { intros s sl ->. apply cursor_init. }
  pose proof (run_acks _ _ _ _ _ _ c 0 R1 H1 U1 Hd1 (Hc _ _ Hp1)) as A1.
  pose proof (run_acks _ _ _ _ _ _ c 0 R2 H2 U2 Hd2 (Hc _ _ Hp2)) as A2.
  rewrite Hks in A2. set (k1 := ins_num_slots <$> inserts c es1) in *.
  destruct (ack_gsns_app c sl2' 0 k1 ks) as [n' E]. rewrite E in A2.
  assert (ack_gsns c sl2' 0 k1 = ack_gsns c sl1' 0 k1) as Es.
  { destruct Hsl as [[x Hx]|[x Hx]].
    - rewrite Hx. by eapply ack_gsns_prefix.
    - rewrite Hx. symmetry. apply fmap_app_inv in A2 as (g1 & g2 & A2 & _ & _). by eapply ack_gsns_prefix. }
  rewrite Es, <- A1 in A2. by eapply fmap_Some_app.
Qed.

(** The replicas of a shard agree on the GSNs of a client's entries without talking to
    each other.  Two servers started afresh that receive the slots of the same epochs in the
    same order (one may be behind) and the inserts of client [c] with the same slot counts in
    the same order (one may be behind), in any interleaving with each other, with the traffic
    of other clients and with the subscribers', acknowledge the inserts of [c] with the same
    GSNs: the acknowledgements of the one behind are a prefix of those of the other. *)
Theorem replicas_agree shard1 replica1 ct1 st1 sd1 shard2 replica2 ct2 st2 sd2 s1 s2
    es1 es2 sl1 sl2 s1' s2' out1 out2 c :
  storage_init shard1 replica1 ct1 st1 sd1 = Ok s1 -> storage_init shard2 replica2 ct2 st2 sd2 = Ok s2 ->
  run [] s1 es1 sl1 s1' out1 -> run [] s2 es2 sl2 s2' out2 ->
  Forall (undisturbed c) es1 -> Forall (undisturbed c) es2 ->
  comparable (es1 ≫= new_slots) (es2 ≫= new_slots) ->
  (ins_num_slots <$> inserts c es1) `prefix_of` (ins_num_slots <$> inserts c es2) ->
  acks c out1 `prefix_of` acks c out2.
Proof.
  intros I1 I2 R1 R2 U1 U2 Hsl Hi.
  apply (acks_comparable [] s1 es1 sl1 s1' out1 [] s2 es2 sl2 s2' out2);
    try done; try by eapply server_ok_init.
  all: try (unfold storage_init in I1, I2; inv_result; done).
  by rewrite (run_log _ _ _ _ _ _ R1), (run_log _ _ _ _ _ _ R2).
Qed.

(** Running a list of events. *)
Fixpoint exec (es : list event) (s : storage) : result (storage * outputs) :=
  match es with
  | [] => Ok (s, [])
  | e :: es => '(s, o) ← handle e s; '(s, out) ← exec es s; Ok (s, o ++ out)
  end.

Fixpoint events_ok (sl : list (Z * Z)) (es : list event) : Prop :=
  match es with
  | [] => True
  | e :: es => event_ok sl e /\ events_ok (sl ++ new_slots e) es
  end.

Lemma exec_run es s sl r :
  exec es s = Ok r -> events_ok sl es -> run sl s es (sl ++ (es ≫= new_slots)) r.1 r.2.
Proof.
  revert s sl r. induction es as [|e es IH]; intros s sl [s' out] E Hok; cbn [exec] in E.
  - injection E as <- <-. simpl. rewrite app_nil_r. constructor.
  - destruct Hok as [Hok Hoks]. destruct (handle e s) as [[s1 o]|] eqn:Eh; [|done]. cbn [mbind result_bind] in E.
    destruct (exec es s1) as [[s2 o2]|] eqn:Ee; [|done]. cbn [mbind result_bind] in E. injection E as <- <-.
    simpl. rewrite app_assoc. eapply run_cons; [done..|]. by apply (IH _ _ (s2, o2)).
Qed.

(** Two replicas of shard 0 in the epoch of the example, in which client 3 inserts: one
    connects the client before the slots arrive, the other after, and has got further. *)
Definition example_insert (n : Z) : event :=
  EClient [] (MStorageInsert (StorageInsert 3 n 3 (Byte.x61 :: Byte.x62 :: Byte.x63 :: nil))).
Definition example_events1 : list event :=
  [EAddClient 3; EControl [] (MStorageSlots example_epoch); example_insert 2].
Definition example_events2 : list event :=
  [EControl [] (MStorageSlots example_epoch); EAddClient 0; EAddClient 3; example_insert 2;
   EClient [] (MClientFinished (ClientFinished 0)); example_insert 1].

Definition example_server (replica : Z) : storage := Storage 0 replica log_init ∅ 1 64 ∅ bag_init.
Definition example_exec (replica : Z) (es : list event) : storage * outputs :=
  match exec es (example_server replica) with Ok r => r | Err _ => (example_server replica, []) end.

Example example_acks :
  acks 3 (example_exec 0 example_events1).2 = [10] /\ acks 3 (example_exec 1 example_events2).2 = [10; 11].
Proof. split; vm_compute; reflexivity. Qed.

Lemma example_epoch_ok : epoch_ok [] example_epoch.
Proof.
  split; [apply example_slots_ok| |reflexivity|done|constructor|reflexivity|reflexivity].
  unfold clients_ok. simpl. repeat constructor; simpl; (by left) || (right; by vm_compute).
Qed.

Ltac events_ok :=
  cbn [events_ok event_ok example_events1 example_events2];
  repeat apply conj; try exact I; try (intros _; exact example_epoch_ok); first [discriminate|reflexivity|idtac].

Lemma replicas_agree_witness :
  acks 3 (example_exec 0 example_events1).2 `prefix_of` acks 3 (example_exec 1 example_events2).2.
Proof.
  eapply (replicas_agree 0 0 1 1 64 0 1 1 1 64 (example_server 0) (example_server 1)
            example_events1 example_events2).
  - reflexivity.
  - reflexivity.
  - apply exec_run; [vm_compute; reflexivity|]. events_ok.
  - apply exec_run; [vm_compute; reflexivity|]. events_ok.
  - repeat constructor.
  - repeat constructor; discriminate.
  - left. exists []. rewrite app_nil_r. vm_compute. reflexivity.
  - exists [1]. reflexivity.
Defined.

(** An acknowledged entry is durable.  Once a server has acknowledged an insert with a GSN,
    every later state of the server, whatever it handles (other clients, new epochs, failure
    recovery of this or any client, subscribers), has the entry with that GSN set in its log,
    and reading it gives the bytes of the insert back. *)
Theorem acknowledged_durable stale req s sl s1 g es sl' s2 out :
  server_ok s sl -> is_u64 (ins_num_slots req) ->
  ins_data_length req = Z.of_nat (length (ins_data req)) ->
  client_recv stale (MStorageInsert req) s =
    Ok (s1, [(ToClient (ins_client_id req), MClientInsertAck (ClientInsertAck (st_replica_id_ s) g))]) ->
  run sl s1 es sl' s2 out ->
  exists k, sl' !! k = Some (ins_client_id req, g) /\
    e_gsn (get_entry (st_log_ s2) (addr k)) = g /\ e_set (get_entry (st_log_ s2) (addr k)) = true /\
    entry_payload (get_entry (st_log_ s2) (addr k)) = Ok (ins_data req).
Proof.
  intros H Hu Hlen E R. cbn [client_recv] in E.
  pose proof (effect_ok _ _ _ _ H (on_storage_insert_effect _ _ _ _ _ _ H Hu E)) as H1. rewrite app_nil_r in H1.
  destruct (on_storage_insert_inv _ _ _ _ _ _ H Hu E)
    as (_ & [(_ & [=] & _)|(n & g' & k & _ & Hn & Hn' & Hpos & _ & _ & _ & _ & _ & _ & Hk & Hkg & Hs & Hd & Hl & [= <-])]).
  destruct (run_consumed _ _ _ _ _ _ k (alloc_copy (ins_data req ++ stale) (ins_data_length req))
    (ins_data_length req) R H1) as (Hs' & Hd' & Hl').
  { exists (ins_client_id req), (n + Z.to_nat (ins_num_slots req))%nat, (n + Z.to_nat (ins_num_slots req) - 1)%nat.
    split; [done|]. split; [done|lia]. }
  { done. }
  assert (sl' !! k = Some (ins_client_id req, g)) as Hk'.
  { rewrite (run_log _ _ _ _ _ _ R), lookup_app_l; [done|]. by eapply lookup_lt_Some. }
  exists k. split; [done|].
  split; [apply (rep_some _ _ (so_rep _ _ (run_ok _ _ _ _ _ _ R H1)) _ _ _ Hk')|]. split; [done|].
  eapply entry_payload_copy; [|by rewrite Hl', Hlen]. by rewrite Hd', Hl'.
Qed.

Definition example_server1 : storage :=
  (match exec [EAddClient 3; EControl [] (MStorageSlots example_epoch)] (example_server 0) with
   | Ok r => r.1 | Err _ => example_server 0 end).
Definition example_server2 : storage :=
  (match handle (example_insert 2) example_server1 with Ok r => r.1 | Err _ => example_server1 end).

Lemma example_server1_ok : server_ok example_server1 example_list.
Proof.
  assert (run [] (example_server 0) [EAddClient 3; EControl [] (MStorageSlots example_epoch)]
    ([] ++ ([EAddClient 3; EControl [] (MStorageSlots example_epoch)] ≫= new_slots)) example_server1 []) as R.
  { apply (exec_run _ _ _ (example_server1, [])); [vm_compute; reflexivity|].
    events_ok. }
  apply run_ok in R; [|by apply (server_ok_init 0 0 1 1 64)].
  replace example_list with ([] ++ ([EAddClient 3; EControl [] (MStorageSlots example_epoch)] ≫= new_slots)); [done|].
  vm_compute. reflexivity.
Qed.

(** After the insert another epoch's traffic and the recovery of the client follow. *)
Definition example_recovery : list event :=
  [EAddClient 0; EFailure (ClientIntro 3 0 0); EControl [] (MStorageClientFreeze (StorageClientFreeze 3));
   EControl [] (MStorageClientFinalize (StorageClientFinalize 3))].

Lemma acknowledged_durable_witness :
  exists s2 k, example_list !! k = Some (3, 10) /\
    e_gsn (get_entry (st_log_ s2) (addr k)) = 10 /\ e_set (get_entry (st_log_ s2) (addr k)) = true /\
    entry_payload (get_entry (st_log_ s2) (addr k)) = Ok (Byte.x61 :: Byte.x62 :: Byte.x63 :: nil).
Proof.
  eexists. eapply (acknowledged_durable [] (StorageInsert 3 2 3 (Byte.x61 :: Byte.x62 :: Byte.x63 :: nil))
    example_server1 example_list example_server2 10 example_recovery);
    [exact example_server1_ok|done|reflexivity|vm_compute; reflexivity|].
  rewrite <- (app_nil_r example_list) at 2.
  apply (exec_run example_recovery); [vm_compute; reflexivity|done].
Defined.

(** ** Failure recovery *)

Lemma get_client_state_ok c s : c < MAX_CLIENTS -> exists s1, get_client_state c s = Ok (client_of s c, s1) /\ same_server s s1.
Proof.
  intros Hc. destruct (get_client_state c s) as [[cs s1]|] eqn:E.
  - destruct (get_client_state_inv _ _ _ _ E) as (_ & -> & Hs). eauto.
  - unfold get_client_state, get_client_state_cas in E. rewrite (proj2 (Z.ltb_lt _ _) Hc) in E.
    simpl in E. by destruct (st_clients_ s !! c).
Qed.

(** Client [c] has been disconnected, and its latest GSN is [g]. *)
Definition frozen (c g : Z) (s : storage) : Prop :=
  s_disconnected (client_of s c) = true /\ s_latest_gsn (client_of s c) = g.

Lemma frozen_same c g s s' : same_server s s' -> frozen c g s -> frozen c g s'.
Proof. intros (_ & H & _). unfold frozen. by rewrite H. Qed.

Lemma frozen_with_client c g c' cs s s1 :
  same_server s s1 -> frozen c g s ->
  (c' = c -> s_disconnected (client_of s c) = true -> s_disconnected cs = true /\ s_latest_gsn cs = s_latest_gsn (client_of s c)) ->
  frozen c g (with_client c' cs s1).
Proof.
  intros (_ & H & _) [Hd Hg] Hc. unfold frozen. rewrite client_of_with_client. case_decide as Hcc.
  - destruct (Hc Hcc Hd) as [-> ->]. done.
  - by rewrite H.
Qed.

Lemma disconnect_frozen cs : s_disconnected cs = true -> disconnect cs = cs.
Proof. unfold disconnect. by intros ->. Qed.

Lemma disconnect_disconnected cs : s_disconnected (disconnect cs) = true.
Proof. unfold disconnect. destruct (s_disconnected cs) eqn:E; [done|reflexivity]. Qed.

Ltac frozen := first
  [ done
  | by eapply frozen_same
  | eapply frozen_with_client; [done|done|intros -> Hdis; rewrite ?disconnect_frozen by done; done] ].

Lemma handle_frozen c g e s s' out :
  handle e s = Ok (s', out) -> frozen c g s -> frozen c g s' /\ acks c out = [].
Proof.
  intros E Hf. destruct e as [stale m|stale m|i|c'|sid n]; unfold handle in E.
  - destruct m; cbn [control_recv] in E; try (inv_result; split; [by frozen|done]).
    + unfold on_subscriber_finished in E. case_decide; inv_result; (split; [by frozen|done]).
    + unfold on_storage_slots in E. destruct (_ <? _); inv_result; (split; [by frozen|done]).
    + unfold on_storage_client_finalize in E. inv_result. use_client Hs. split; [|done].
      apply (frozen_with_client c g (scfin_client_id m) _ s s0 Hs Hf). by intros ->.
    + unfold on_storage_client_freeze in E. inv_result. use_client Hs. split; [by frozen|done].
    + unfold on_storage_client_cut in E. inv_result. use_client Hs.
      split; [by frozen|]. rewrite acks_app. by rewrite (acks_client_data _ _ _ [] _ eq_refl E2).
    + unfold on_storage_client_patch in E. inv_result. use_client Hs.
      destruct (_ <? _); inv_result; (split; [|done]); [|by frozen].
      apply (frozen_with_client c g (scp_client_id m) _ s s0 Hs Hf). by intros ->.
  - destruct m; cbn [client_recv] in E; try (inv_result; split; [by frozen|done]).
    + unfold on_client_finished in E. inv_result. use_client Hs.
      destruct (s_disconnected (client_of s (cf_client_id m))) eqn:Hd; inv_result; [split; [by frozen|done]|].
      split; [|done]. apply (frozen_with_client _ _ _ _ _ _ Hs Hf). intros Hc ?. rewrite Hc in Hd. congruence.
    + unfold on_storage_insert in E. inv_result. use_client Hs.
      destruct (s_disconnected (client_of s (ins_client_id m))) eqn:Hd; inv_result; [split; [by frozen|done]|].
      assert (ins_client_id m <> c) as Hne. { intros Hc. rewrite Hc in Hd. destruct Hf as [Hf _]. congruence. }
      split; [apply (frozen_with_client _ _ _ _ _ _ Hs Hf); done|].
      simpl. by rewrite (proj2 (Z.eqb_neq _ _) Hne).
  - unfold on_client_failure in E. inv_result. use_client Hs. split; [by frozen|done].
  - inv_result. split; [|done]. unfold add_client in E0. destruct (_ <=? _); [inv_result; by frozen|].
    inv_result. use_client Hs. destruct (s_connected _); inv_result; [by frozen|].
    apply (frozen_with_client _ _ _ _ _ _ Hs Hf). by intros ->.
  - inv_result. split; [|done]. unfold add_subscriber in E0. case_decide; [inv_result; by frozen|].
    destruct (_ =? 0); inv_result. by frozen.
Qed.

Lemma run_frozen c g sl s es sl' s' out :
  run sl s es sl' s' out -> frozen c g s -> frozen c g s' /\ acks c out = [].
Proof.
  induction 1 as [|sl s e s1 o es sl' s' o' Hok E Hr IH]; [done|]. intros Hf.
  destruct (handle_frozen _ _ _ _ _ _ E Hf) as [Hf1 Ho]. destruct (IH Hf1) as [? Ho'].
  split; [done|]. by rewrite acks_app, Ho, Ho'.
Qed.


Definition example_frozen : storage * outputs :=
  match control_recv [] (MStorageClientFreeze (StorageClientFreeze 3)) example_server2 with
  | Ok r => r | Err _ => (example_server2, []) end.
Definition example_late : list event := [example_insert 1; EAddClient 3].
Definition example_after : storage * outputs :=
  match exec example_late example_frozen.1 with Ok r => r | Err _ => (example_server2, []) end.


(** The messages of the suffix, one for each slot with data. *)
Lemma client_data_fold c s s1 sl ks out :
  server_ok s sl -> same_server s s1 -> (forall k, k ∈ ks -> exists g, sl !! k = Some (c, g)) ->
  exists msgs, mfold (fun q out => d ← client_data s1 q; Ok (out ++ d)) (addr <$> ks) out = Ok (out ++ msgs) /\
    Forall2 (fun k o => exists g data, sl !! k = Some (c, g) /\
        entry_payload (get_entry (st_log_ s) (addr k)) = Ok data /\
        o = (ToOrder, MOrderClientData (OrderClientData c (st_shard_id_ s) (st_replica_id_ s) g
              (e_data_length (get_entry (st_log_ s) (addr k))) data)))
      (filter (fun k => 0 < e_data_length (get_entry (st_log_ s) (addr k))) ks) msgs.
Proof.
  intros H Hs. destruct Hs as (Hl & Hcl & Hsh & Hrep & Hsub). revert out.
  induction ks as [|k ks IH]; intros out Hks; cbn [fmap list_fmap mfold].
  { exists []. rewrite app_nil_r. split; [done|constructor]. }
  destruct (Hks k (list_elem_of_here _ _)) as [g Hg].
  destruct (rep_some _ _ (so_rep _ _ H) _ _ _ Hg) as (_ & Ec & Eg).
  destruct (wf_payload_entry _ (so_payload _ _ H (addr k))) as [data Ed].
  rewrite filter_cons.
  replace (client_data s1 (addr k)) with
    (Ok (if decide (0 < e_data_length (get_entry (st_log_ s) (addr k))) then
      [(ToOrder, MOrderClientData (OrderClientData c (st_shard_id_ s) (st_replica_id_ s) g
              (e_data_length (get_entry (st_log_ s) (addr k))) data))] else [])).
  2:{ unfold client_data. rewrite Hl, Hsh, Hrep, Ed, Ec, Eg.
      case_decide; [by rewrite (proj2 (Z.ltb_lt _ _))|by rewrite (proj2 (Z.ltb_ge _ _)) by lia]. }
  cbn [mbind result_bind]. case_decide as Hd.
  - match goal with |- context [mfold _ _ (out ++ [?m])] => destruct (IH (out ++ [m])) as (msgs & E & HF) end.
    { intros k' ?. apply Hks. by apply list_elem_of_further. }
    rewrite E. eexists. rewrite <- app_assoc. split; [done|].
    constructor; [eauto|done].
  - rewrite app_nil_r. apply IH.
    intros k' ?. apply Hks. by apply list_elem_of_further.
Qed.

(** The suffix a server sends for recovery.  For a client with an acknowledged insert the
    handler of STORAGE_CLIENT_CUT never fails and sends the ordering server the payloads of
    exactly those slots the client has consumed whose GSN is above [begin_gsn] (all of them for
    -1) and that hold data, latest first, each with its own GSN, and the flush message last; the
    server does not change. *)
Theorem client_cut_sends req s sl :
  server_ok s sl -> scc_client_id req < MAX_CLIENTS ->
  s_latest_gsn (client_of s (scc_client_id req)) <> UINT64_MAX ->
  exists s' n ks msgs,
    on_storage_client_cut req s =
      Ok (s', msgs ++ [(ToOrder, MOrderClientData (OrderClientData (scc_client_id req) (st_shard_id_ s)
                          (st_replica_id_ s) UINT64_MAX 0 []))]) /\
    same_server s s' /\ cursor (s_position (client_of s (scc_client_id req))) (scc_client_id req) sl n /\
    (forall k, k ∈ ks <-> exists j g, (j < n)%nat /\ positions (scc_client_id req) sl !! j = Some k /\
       sl !! k = Some (scc_client_id req, g) /\ (scc_begin_gsn req = UINT64_MAX \/ scc_begin_gsn req < g)) /\
    (forall i j k1 k2, ks !! i = Some k1 -> ks !! j = Some k2 -> (i < j)%nat -> (k2 < k1)%nat) /\
    Forall2 (fun k o => exists g data, sl !! k = Some (scc_client_id req, g) /\
        entry_payload (get_entry (st_log_ s) (addr k)) = Ok data /\
        o = (ToOrder, MOrderClientData (OrderClientData (scc_client_id req) (st_shard_id_ s) (st_replica_id_ s) g
              (e_data_length (get_entry (st_log_ s) (addr k))) data)))
      (filter (fun k => 0 < e_data_length (get_entry (st_log_ s) (addr k))) ks) msgs.
Proof.
  intros H Hc Hg. set (c := scc_client_id req) in *. unfold on_storage_client_cut. fold c.
  destruct (get_client_state_ok c s Hc) as (s1 & Eg & Hs). rewrite Eg. cbn [mbind result_bind].
  rewrite (proj2 (Z.eqb_neq _ _) Hg), (proj1 Hs).
  destruct (so_client _ _ H c) as (n & Hn & _).
  destruct (suffix_ok (scc_begin_gsn req) _ _ _ _ _ (so_rep _ _ H) (so_increasing _ _ H) Hn) as (ks & -> & Hks & Hord).
  cbn [mbind result_bind].
  destruct (client_data_fold c s s1 sl ks []) as (msgs & E & HF); [done|done| |].
  { intros k (j & g & _ & _ & ? & _)%Hks. eauto. }
  rewrite E. cbn [mbind result_bind]. destruct Hs as (Hl & Hcl & Hsh & Hrep & Hsub).
  exists s1, n, ks, msgs. rewrite Hsh, Hrep. by split_and!.
Qed.

Lemma example_server2_ok : server_ok example_server2 example_list.
Proof.
  assert (exists out, handle (example_insert 2) example_server1 = Ok (example_server2, out)) as [out E].
  { eexists. vm_compute. reflexivity. }
  rewrite <- (app_nil_r example_list).
  apply (effect_ok example_server1); [exact example_server1_ok|].
  apply (handle_effect (example_insert 2) _ _ _ out); [exact example_server1_ok| |exact E].
  split; [discriminate|reflexivity].
Qed.

Lemma client_cut_sends_witness :
  exists s' n ks msgs,
    on_storage_client_cut (StorageClientCut 3 UINT64_MAX) example_server2 =
      Ok (s', msgs ++ [(ToOrder, MOrderClientData (OrderClientData 3 0 0 UINT64_MAX 0 []))]) /\
    same_server example_server2 s' /\ cursor (s_position (client_of example_server2 3)) 3 example_list n /\
    (forall k, k ∈ ks <-> exists j g, (j < n)%nat /\ positions 3 example_list !! j = Some k /\
       example_list !! k = Some (3, g) /\ (UINT64_MAX = UINT64_MAX \/ UINT64_MAX < g)) /\
    (forall i j k1 k2, ks !! i = Some k1 -> ks !! j = Some k2 -> (i < j)%nat -> (k2 < k1)%nat) /\
    Forall2 (fun k o => exists g data, example_list !! k = Some (3, g) /\
        entry_payload (get_entry (st_log_ example_server2) (addr k)) = Ok data /\
        o = (ToOrder, MOrderClientData (OrderClientData 3 0 0 g
              (e_data_length (get_entry (st_log_ example_server2) (addr k))) data)))
      (filter (fun k => 0 < e_data_length (get_entry (st_log_ example_server2) (addr k))) ks) msgs.
Proof.
  apply (client_cut_sends (StorageClientCut 3 UINT64_MAX) example_server2 example_list);
    [exact example_server2_ok|vm_compute; reflexivity|vm_compute; discriminate].
Defined.

(** C27: finalizing a client releases its readers.  In every state a storage server can reach
    (any order of epochs, inserts, failures and subscribers, the epochs being those of an ordering
    server), the handler of STORAGE_CLIENT_FINALIZE does not fail.  Before it the client has
    consumed some number [n] of its slots; afterwards all its slots are set, so that no subscriber
    thread waits on them: the first [n] are as they were, and the others are set without any
    payload (blocks being zero when they are allocated); and the entries of the other clients are
    untouched. *)
Theorem finalize_sets_all shard replica ct st sd s0 es sl s out req :
  storage_init shard replica ct st sd = Ok s0 -> run [] s0 es sl s out -> scfin_client_id req < MAX_CLIENTS ->
  let c := scfin_client_id req in
  exists s' n, on_storage_client_finalize req s = Ok (s', []) /\ cursor (s_position (client_of s c)) c sl n /\
    (forall k g, sl !! k = Some (c, g) -> exists j, positions c sl !! j = Some k) /\
    (forall j k, positions c sl !! j = Some k ->
       e_set (get_entry (st_log_ s') (addr k)) = true /\
       slot_state s' k = if decide (j < n)%nat then slot_state s k else (true, Word 0, 0)) /\
    (forall k c' g, sl !! k = Some (c', g) -> c' <> c ->
       get_entry (st_log_ s') (addr k) = get_entry (st_log_ s) (addr k)).
Proof.
  intros Hi Hrun Hc c. pose proof (run_ok _ _ _ _ _ _ Hrun (server_ok_init _ _ _ _ _ _ Hi)) as H.
  pose proof (run_filled _ _ _ _ _ _ Hrun (server_ok_init _ _ _ _ _ _ Hi) (slots_filled_init _ _ _ _ _ _ Hi)) as Hf.
  destruct (so_client _ _ H c) as (n & Hn & _). destruct (get_client_state_ok c s Hc) as (s1 & Eg & Hs).
  destruct (close_ok _ _ _ _ _ (so_rep _ _ H) Hn) as (p' & l' & Ec & _ & _ & Hcd).
  unfold on_storage_client_finalize. fold c. rewrite Eg. cbn [mbind result_bind]. rewrite (proj1 Hs), Ec. cbn [mbind result_bind].
  eexists _, n. split; [done|]. split; [done|]. split; [intros k g; by apply positions_complete|].
  unfold slot_state. cbn [st_log_ with_log]. split.
  - intros j k Hj. pose proof (Hf c n j k Hn Hj) as Hold. unfold slot_state in Hold.
    destruct (decide (j < n)%nat) as [Hlt|Hge].
    + destruct (Hcd (addr k)) as [[-> _]|[(j' & k' & Hj' & Hk' & <-%addr_inj) _]]; [done|].
      pose proof (positions_inj _ _ _ _ _ Hj Hk'). lia.
    + destruct (Hcd (addr k)) as [[_ Hne]|[_ ->]].
      * destruct (Hne j k); [|done|done]. split; [lia|by eapply lookup_lt_Some].
      * injection Hold as _ <- <-. by destruct (get_entry _ _).
  - intros k c' g Hk Hne. destruct (Hcd (addr k)) as [[-> _]|[(j & k' & _ & Hj & <-%addr_inj) _]]; [done|].
    destruct (positions_lookup _ _ _ _ Hj) as [g' Hg']. congruence.
Qed.

(** Client 3 has inserted once when it is finalized. *)
Definition example_inserted : storage := (example_exec 0 example_events1).1.

Lemma example_inserts_once : exec example_events1 (example_server 0) = Ok (example_exec 0 example_events1).
Proof. vm_compute. reflexivity. Qed.

Lemma finalize_sets_all_witness :
  exists s' n, on_storage_client_finalize (StorageClientFinalize 3) example_inserted = Ok (s', []) /\
    cursor (s_position (client_of example_inserted 3)) 3 example_list n /\
    (forall k g, example_list !! k = Some (3, g) -> exists j, positions 3 example_list !! j = Some k) /\
    (forall j k, positions 3 example_list !! j = Some k ->
       e_set (get_entry (st_log_ s') (addr k)) = true /\
       slot_state s' k = if decide (j < n)%nat then slot_state example_inserted k else (true, Word 0, 0)) /\
    (forall k c' g, example_list !! k = Some (c', g) -> c' <> 3 ->
       get_entry (st_log_ s') (addr k) = get_entry (st_log_ example_inserted) (addr k)).
Proof.
  apply (finalize_sets_all 0 0 1 1 64 (example_server 0) example_events1 example_list example_inserted
           (example_exec 0 example_events1).2 (StorageClientFinalize 3)); [reflexivity| |reflexivity].
  exact (exec_run example_events1 (example_server 0) [] (example_exec 0 example_events1) example_inserts_once
           ltac:(events_ok)).
Defined.

(** C39: what STORAGE_CLIENT_PATCH does: the GSN of the message is used as a number of slots to
    close.  A server whose client has no acknowledged insert ignores every patch.  And if the GSN
    of a patch exceeds the latest one that the server has acknowledged, and the client has fewer
    slots left than this GSN, the server fails the assertion that terminates it, although the slot
    with that GSN may be among them. *)
Theorem patch_uses_gsn_as_count stale data s sl n :
  server_ok s sl -> scp_client_id data < MAX_CLIENTS -> is_u64 (scp_gsn data) ->
  cursor (s_position (client_of s (scp_client_id data))) (scp_client_id data) sl n ->
  let latest := s_latest_gsn (client_of s (scp_client_id data)) in
  (latest = UINT64_MAX ->
     exists s', on_storage_client_patch stale data s = Ok (s', []) /\ same_server s s') /\
  (latest < scp_gsn data ->
   Z.of_nat (length (positions (scp_client_id data) sl)) < Z.of_nat n + scp_gsn data ->
     on_storage_client_patch stale data s = Err AssertFailed).
Proof.
  intros H Hc Hu Hn latest. unfold on_storage_client_patch.
  destruct (get_client_state_ok _ s Hc) as (s1 & Eg & Hs). rewrite Eg. cbn [mbind result_bind]. fold latest.
  split.
  - intros ->. rewrite (proj2 (Z.ltb_ge _ _)); [eauto|]. unfold is_u64 in Hu. unfold UINT64_MAX. lia.
  - intros Hl Hshort. rewrite (proj2 (Z.ltb_lt _ _)), (proj1 Hs) by done.
    rewrite (position_insert_short_ok _ _ _ _ (scp_client_id data) _ sl n); [done|apply H|done|done|apply H|by right].
Qed.

(** Client 3 of the example has acknowledged GSN 10 and has slots 11, 13 and 16 left; the patch
    for its next slot, GSN 11, terminates the server. *)
Lemma patch_uses_gsn_as_count_witness :
  (s_latest_gsn (client_of example_server2 3) = UINT64_MAX ->
     exists s', on_storage_client_patch [] (StorageClientPatch 3 11 1 (Byte.x61 :: nil)) example_server2 = Ok (s', []) /\
       same_server example_server2 s') /\
  (s_latest_gsn (client_of example_server2 3) < 11 ->
   Z.of_nat (length (positions 3 example_list)) < Z.of_nat 2 + 11 ->
     on_storage_client_patch [] (StorageClientPatch 3 11 1 (Byte.x61 :: nil)) example_server2 = Err AssertFailed).
Proof.
  apply (patch_uses_gsn_as_count [] (StorageClientPatch 3 11 1 (Byte.x61 :: nil)) example_server2 example_list 2);
    [exact example_server2_ok|reflexivity|split; [discriminate|reflexivity]|].
  split; [reflexivity|split; [vm_compute; lia|vm_compute; reflexivity]].
Defined.
