(* ===== verification/Dispatch.v ===== *)
(** * Dispatching a message to its handler ([src/util/switch.h])

    [apply] takes the list of the lambdas that a call of [recv_apply] or [failure_apply]
    names; the lambda for a message type is a handler with that type's tag.  The storage
    server's two calls of [recv_apply] are given as such lists at the end. *)
From S2P Require Import Prelude Consts Util Api StorageLog Storage.

Section dispatch.
Context {S : Type}.

(** A lambda for the messages of the type with tag [h_tag]; it may also read the memory
    behind the message. *)
Record handler := Handler { h_tag : Z; h_run : list Byte.byte -> message -> S -> result S }.

(** [apply]: the first lambda whose tag matches the first word of the buffer is called, after
    the length has been checked; without a match the message is only logged.  [buffer] is the
    memory from the start of the message on, of which [length] bytes were received. *)
Fixpoint apply (fs : list handler) (buffer : list Byte.byte) (length : Z) (s : S) : result S :=
  '(t, rest) ← get 8 buffer;
  match fs with
  | [] => Ok s
  | f :: fs =>
    if t =? h_tag f then
      m ← view (h_tag f) rest;
      m ← deref m;
      _ ← zip_assert (length =? message_length m);
      h_run f (drop (Z.to_nat length) buffer) m s
    else apply fs buffer length s
  end.

(** [recv_apply]: the lambdas are applied to every message of the batch that was received, in
    order. *)
Definition recv_apply (fs : list handler) (batch : list (list Byte.byte * Z)) (s : S) : result S :=
  mfold (fun '(buffer, length) s => apply fs buffer length s) batch s.

(** [failure_apply]: at most one failed connection, with the message of its handshake. *)
Definition failure_apply (fs : list handler) (context : option (list Byte.byte * Z)) (s : S) : result S :=
  match context with
  | Some (buffer, length) => apply fs buffer length s
  | None => Ok s
  end.

(** The first lambda for a tag. *)
Fixpoint find_handler (t : Z) (fs : list handler) : option handler :=
  match fs with
  | [] => None
  | f :: fs => if t =? h_tag f then Some f else find_handler t fs
  end.

Lemma apply_find fs m rest length s :
  wf_message m ->
  apply fs (encode m ++ rest) length s =
    match find_handler (tag m) fs with
    | Some f => if length =? message_length m
                then h_run f (drop (Z.to_nat length) (encode m ++ rest)) m s else Err AssertFailed
    | None => Ok s
    end.
Proof.
  intros Hm. induction fs as [|f fs IH]; cbn [apply find_handler];
    rewrite encode_app, get_put by apply tag_fits; cbn [mbind result_bind]; [done|].
  destruct (Z.eqb_spec (tag m) (h_tag f)) as [<-|Hne]; [|by rewrite <- encode_app].
  rewrite view_tail by apply Hm. cbn [deref mbind result_bind]. by destruct (_ =? _).
Qed.
End dispatch.
Arguments handler : clear implicits.

(** ** The storage server's lambdas *)

(** A lambda that returns the new state and what it sends. *)
Definition server_handler (t : Z) (f : list Byte.byte -> message -> storage -> result (storage * outputs)) :
    handler (storage * outputs) :=
  Handler t (fun stale m '(s, out) => '(s, o) ← f stale m s; Ok (s, out ++ o)).

Definition control_handlers : list (handler (storage * outputs)) := [
  server_handler STORAGE_SLOTS (fun _ m s => match m with MStorageSlots r => on_storage_slots r s | _ => Err Undefined end);
  server_handler STORAGE_CLIENT_FREEZE (fun _ m s => match m with MStorageClientFreeze r => on_storage_client_freeze r s | _ => Err Undefined end);
  server_handler STORAGE_CLIENT_CUT (fun _ m s => match m with MStorageClientCut r => on_storage_client_cut r s | _ => Err Undefined end);
  server_handler STORAGE_CLIENT_PATCH (fun stale m s => match m with MStorageClientPatch r => on_storage_client_patch stale r s | _ => Err Undefined end);
  server_handler STORAGE_CLIENT_FINALIZE (fun _ m s => match m with MStorageClientFinalize r => on_storage_client_finalize r s | _ => Err Undefined end);
  server_handler SUBSCRIBER_FINISHED (fun _ m s => match m with MSubscriberFinished r => on_subscriber_finished r s | _ => Err Undefined end)].

Definition client_handlers : list (handler (storage * outputs)) := [
  server_handler STORAGE_INSERT (fun stale m s => match m with MStorageInsert r => on_storage_insert stale r s | _ => Err Undefined end);
  server_handler CLIENT_FINISHED (fun _ m s => match m with MClientFinished r => on_client_finished r s | _ => Err Undefined end)].

Lemma drop_encode m rest : wf_message m -> drop (Z.to_nat (message_length m)) (encode m ++ rest) = rest.
Proof. intros Hm. by rewrite <- (length_encode_wf m Hm), Nat2Z.id, drop_app_length. Qed.

(** What arrives on the wire reaches the right handler.  A well-formed message of any type
    that lies in the receive buffer (followed by anything) and was received with its length is
    handed to the one lambda of its type with exactly the members that were encoded, by the
    control thread and by the client threads alike; a message of any other type changes
    nothing, and a wrong length terminates the server. *)
Theorem dispatch_storage m rest s out :
  wf_message m ->
  apply control_handlers (encode m ++ rest) (message_length m) (s, out) =
    ('(s', o) ← control_recv rest m s; Ok (s', out ++ o)) /\
  apply client_handlers (encode m ++ rest) (message_length m) (s, out) =
    ('(s', o) ← client_recv rest m s; Ok (s', out ++ o)) /\
  (forall n, n <> message_length m -> find_handler (tag m) control_handlers <> None ->
     apply control_handlers (encode m ++ rest) n (s, out) = Err AssertFailed).
Proof.
  intros Hm. split; [|split].
  - rewrite apply_find, Z.eqb_refl, drop_encode by done.
    destruct m; cbn -[control_handlers] ; try reflexivity; by rewrite app_nil_r.
  - rewrite apply_find, Z.eqb_refl, drop_encode by done.
    destruct m; cbn -[client_handlers]; try reflexivity; by rewrite app_nil_r.
  - intros n Hn Hf. rewrite apply_find by done. destruct (find_handler _ _); [|done].
    by rewrite (proj2 (Z.eqb_neq _ _) Hn).
Qed.

Definition example_message : message := MStorageClientFreeze (StorageClientFreeze 3).
Definition example_state : storage := Storage 0 1 log_init ∅ 1 64 ∅ bag_init.

Lemma dispatch_storage_witness :
  apply control_handlers (encode example_message ++ [Byte.x00]) 16 (example_state, []) =
    ('(s', o) ← control_recv [Byte.x00] example_message example_state; Ok (s', [] ++ o)) /\
  apply client_handlers (encode example_message ++ [Byte.x00]) 16 (example_state, []) =
    ('(s', o) ← client_recv [Byte.x00] example_message example_state; Ok (s', [] ++ o)) /\
  (forall n, n <> 16 -> find_handler (tag example_message) control_handlers <> None ->
     apply control_handlers (encode example_message ++ [Byte.x00]) n (example_state, []) = Err AssertFailed).
Proof.
  apply (dispatch_storage example_message [Byte.x00] example_state []).
  split; [|split; [exact I|reflexivity]]. repeat constructor; discriminate || reflexivity.
Defined.
