(* ===== verification/Network.v ===== *)
(** * Send queues, receive queues and buffers ([src/network/send_queue.*],
      [src/network/recv_queue.*], [src/network/buffer.*])

    A send queue writes messages one after the other into a receive buffer of the other side
    and tells it, in the immediate value, which buffer and where.  The verbs library is a
    parameter ([Verbs], [SharedRecv]): what it does with the work requests is its own state [N]. *)
From S2P Require Import Prelude Consts Util.

(** ** Work requests and the verbs library *)

(** The part of [ibv_send_wr] that a send queue fills in. *)
Record send_wr := SendWr {
  wr_signaled : bool;
  wr_inline : bool;
  wr_length : Z;
  wr_imm_data : Z;
  wr_remote_addr : Z;
  wr_rkey : Z;
  wr_remote_srqn : Z }.

(** [ibv_poll_cq] in a loop until it returns a completion: its status, or [None] when no
    completion ever comes; and [ibv_post_send]: 0 or an error code. *)
Class Verbs (N : Type) := {
  wait_cq : N -> option (Z * N);
  ibv_post_send : send_wr -> N -> Z * N }.

(** ** The class [send_queue] *)

(** [sq_valid] says whether the pointers (queue pairs, completion queue and manager) are set;
    the default constructor leaves them null. *)
Record send_queue := SendQueue {
  sq_valid : bool;
  index_ : Z;
  address_ : Z;
  remote_key_ : Z;
  xrc_queue_nums_ : list Z;
  offset_ : Z;
  sent_messages_ : Z;
  max_outstanding_ : Z;
  assert_on_failure_ : bool }.

(** [send_queue() = default]. *)
Definition send_queue_default : send_queue :=
  SendQueue false 0 0 0 [] 0 0 MAX_OUTSTANDING_REQUESTS true.

Definition send_queue_init (index address remote_key : Z) (xrc_queue_nums : list Z) : send_queue :=
  SendQueue true index address remote_key xrc_queue_nums 0 0 MAX_OUTSTANDING_REQUESTS true.

(** The move constructor and the move assignment swap every member: the new [this] and the
    moved-from object. *)
Definition send_queue_move (other : send_queue) : send_queue * send_queue := (other, send_queue_default).
Definition send_queue_assign (this other : send_queue) : send_queue * send_queue := (other, this).

Definition with_sent (n : Z) (q : send_queue) : send_queue :=
  SendQueue (sq_valid q) (index_ q) (address_ q) (remote_key_ q) (xrc_queue_nums_ q) (offset_ q) n
    (max_outstanding_ q) (assert_on_failure_ q).
Definition with_offset (o : Z) (q : send_queue) : send_queue :=
  SendQueue (sq_valid q) (index_ q) (address_ q) (remote_key_ q) (xrc_queue_nums_ q) o (sent_messages_ q)
    (max_outstanding_ q) (assert_on_failure_ q).

Definition set_max_outstanding (max_outstanding : Z) (q : send_queue) : result send_queue :=
  _ ← zip_assert (max_outstanding <=? MAX_OUTSTANDING_REQUESTS);
  Ok (SendQueue (sq_valid q) (index_ q) (address_ q) (remote_key_ q) (xrc_queue_nums_ q) (offset_ q)
        (sent_messages_ q) max_outstanding (assert_on_failure_ q)).

Definition set_assert_on_failure (b : bool) (q : send_queue) : send_queue :=
  SendQueue (sq_valid q) (index_ q) (address_ q) (remote_key_ q) (xrc_queue_nums_ q) (offset_ q)
    (sent_messages_ q) (max_outstanding_ q) b.

(** Where in the receive buffer the next message goes, and where the one after it starts. *)
Definition place (offset length : Z) : Z :=
  if wrap64 (offset + length) <=? RECEIVE_BUFFER_SIZE then offset else 0.
Definition next_offset (offset length : Z) : Z := align_pow2 MESSAGE_ALIGNMENT (wrap64 (offset + length)).

(** The immediate value: the index of the receive buffer and the offset. *)
Definition make_imm (index offset : Z) : Z := wrap32 (Z.lor index (wrap64 (offset * MAX_QUEUE_PAIRS))).

Section send.
Context {N : Type} `{Verbs N}.

(** [HANDLE_ERROR(err, ..)]: [None] to go on, [Some err] to return it. *)
Definition handle_error (q : send_queue) (err : Z) : result (option Z) :=
  if assert_on_failure_ q then _ ← zip_assert (err =? 0); Ok None
  else Ok (if err =? 0 then None else Some err).

(** [HANDLE_ERROR(detail::poll(completion_queue_), ..); sent_messages_ = 0;] *)
Definition synchronize_queue (q : send_queue) (n : N) : result (option Z * send_queue * N) :=
  match wait_cq n with
  | None => Err Spins
  | Some (status, n) =>
    e ← handle_error q status;
    match e with
    | Some err => Ok (Some err, q, n)
    | None => Ok (None, with_sent 0 q, n)
    end
  end.

(** The common part of the two [send] functions: the first one sends inline and the second one
    from a registered buffer. *)
Definition send_with (limit : Z) (inline : bool) (length destination : Z) (synchronize : bool)
    (q : send_queue) (n : N) : result (Z * send_queue * N) :=
  _ ← zip_assert (length <=? limit);
  if negb (sq_valid q) then Err Undefined else
  '(e, q, n) ← (if max_outstanding_ q <=? sent_messages_ q then synchronize_queue q n else Ok (None, q, n));
  match e with
  | Some err => Ok (err, q, n)
  | None =>
    let q := if synchronize then q else with_sent (wrap64 (sent_messages_ q + 1)) q in
    let signaled := synchronize || (max_outstanding_ q <=? sent_messages_ q) in
    let offset := place (offset_ q) length in
    let addr := wrap64 (address_ q + offset) in
    let imm := make_imm (index_ q) offset in
    let q := with_offset (next_offset offset length) q in
    if (Z.of_nat (List.length (xrc_queue_nums_ q)) =? 0) then Err Undefined else
    srqn ← deref (xrc_queue_nums_ q !! Z.to_nat (destination `mod` Z.of_nat (List.length (xrc_queue_nums_ q))));
    let '(err, n) := ibv_post_send (SendWr signaled inline (wrap32 length) imm addr (remote_key_ q) srqn) n in
    e ← handle_error q err;
    match e with
    | Some err => Ok (err, q, n)
    | None =>
      if synchronize then
        '(e, q, n) ← synchronize_queue q n; Ok (default 0 e, q, n)
      else Ok (0, q, n)
    end
  end.

(** [send(void*, ..)]. *)
Definition send_inline : Z -> Z -> bool -> send_queue -> N -> result (Z * send_queue * N) :=
  send_with MAX_INLINE_DATA true.

(** [send(buffer&, ..)]. *)
Definition send_buffer (length : Z) : Z -> bool -> send_queue -> N -> result (Z * send_queue * N) :=
  send_with SEND_BUFFER_SIZE (length <=? MAX_INLINE_DATA) length.
End send.

(** ** The class [recv_queue] *)

(** A completion as [ibv_poll_cq] reports it. *)
Record completion := Completion {
  wc_success : bool;
  wc_recv_with_imm : bool;  (* the opcode is IBV_WC_RECV_RDMA_WITH_IMM *)
  wc_flags : Z;
  wc_imm_data : Z;
  wc_byte_len : Z }.

(** The shared receive queue and its completion queue: [ibv_poll_cq] takes at most so many
    completions ([None] when it fails), and [ibv_post_srq_recv] posts so many linked requests and
    returns 0 or an error code. *)
Class SharedRecv (N : Type) := {
  ibv_poll_cq : Z -> N -> option (list completion) * N;
  ibv_post_srq_recv : nat -> N -> Z * N }.

(** [recv_requests_] is a linked list in a vector: the index of the [next] request, if any.
    [recv_buffers_] points to the manager's array, which the operations take as it is then. *)
Record recv_queue := RecvQueue {
  num_posted_ : Z;
  recv_requests_ : list (option nat) }.

(** How many requests are linked: the length of the chain from [i] on. *)
Fixpoint chain (fuel : nat) (next : list (option nat)) (i : nat) : result nat :=
  match next !! i with
  | None => Err Undefined
  | Some None => Ok 1%nat
  | Some (Some j) => match fuel with O => Err Spins | S fuel => n ← chain fuel next j; Ok (S n) end
  end.

Section recv.
Context {N : Type} `{SharedRecv N}.
(** A flag of the verbs library. *)
Variable IBV_WC_WITH_IMM : Z.

(** [arm] posts the requests that are linked from the first on, with the list cut after
    [num_requests] of them. *)
Definition arm (num_requests : Z) (q : recv_queue) (n : N) : result (recv_queue * N) :=
  if negb ((1 <=? num_requests) && (num_requests <=? Z.of_nat (List.length (recv_requests_ q)))) then Err Undefined else
  let i := Z.to_nat (num_requests - 1) in
  old ← deref (recv_requests_ q !! i);
  let next := <[i := None]> (recv_requests_ q) in
  linked ← chain (List.length next) next 0;
  let '(err, n) := ibv_post_srq_recv linked n in
  _ ← zip_assert (err =? 0);
  Ok (RecvQueue (wrap64 (num_posted_ q + num_requests)) (<[i := old]> next), n).

(** The constructor: link the requests and post them all. *)
Definition recv_queue_init (n : N) : result (recv_queue * N) :=
  let size := Z.to_nat MAX_RECEIVE_REQUESTS in
  let next := (fun i => if decide (S i < size)%nat then Some (S i) else None) <$> seq 0 size in
  arm MAX_RECEIVE_REQUESTS (RecvQueue 0 next) n.

(** What the immediate value says: the receive buffer and the offset in it. *)
Definition imm_index (imm : Z) : Z := Z.land imm (MAX_QUEUE_PAIRS - 1).
Definition imm_offset (imm : Z) : Z := imm / MAX_QUEUE_PAIRS.

Definition recv_one (recv_buffers : list (option Z)) (wc : completion) : result (Z * Z) :=
  _ ← zip_assert (wc_success wc);
  _ ← zip_assert (wc_recv_with_imm wc);
  _ ← zip_assert (negb (Z.lor (wc_flags wc) IBV_WC_WITH_IMM =? 0));
  base ← deref (recv_buffers !! Z.to_nat (imm_index (wc_imm_data wc)));
  base ← deref base;
  Ok (base + imm_offset (wc_imm_data wc), wc_byte_len wc).

(** [recv(result, max_poll)].  When polling fails the negative number of completions becomes a
    huge one, with which the caller runs over the end of [result]. *)
Definition recv_poll (recv_buffers : list (option Z)) (max_poll : Z) (q : recv_queue) (n : N) :
    result (list (Z * Z) * recv_queue * N) :=
  let '(polled, n) := ibv_poll_cq max_poll n in
  polled ← deref polled;
  let q := RecvQueue (wrap64 (num_posted_ q - Z.of_nat (List.length polled))) (recv_requests_ q) in
  r ← mfold (fun wc acc => x ← recv_one recv_buffers wc; Ok (acc ++ [x])) polled [];
  Ok (r, q, n).

(** [recv<N>(function)]: the callback runs on every message, then requests are posted again
    when fewer than half are left. *)
Definition recv {S : Type} (function : Z -> Z -> S -> result S) (recv_buffers : list (option Z)) (max_poll : Z)
    (q : recv_queue) (n : N) (s : S) : result (recv_queue * N * S) :=
  '(r, q, n) ← recv_poll recv_buffers max_poll q n;
  s ← mfold (fun '(addr, length) s => function addr length s) r s;
  '(q, n) ← (if num_posted_ q <? MAX_RECEIVE_REQUESTS / 2
             then arm (wrap64 (MAX_RECEIVE_REQUESTS - num_posted_ q)) q n else Ok (q, n));
  Ok (q, n, s).
End recv.

(** ** The class [buffer] *)

(** [bf_manager] says whether [manager_] is set. *)
Record buffer := Buffer { bf_buffer_ : Z; bf_local_key_ : Z; bf_manager_ : bool }.

Definition buffer_default : buffer := Buffer 0 0 false.
Definition buffer_init (addr local_key : Z) : buffer := Buffer addr local_key true.
Definition buffer_move (other : buffer) : buffer * buffer := (other, buffer_default).
Definition buffer_assign (this other : buffer) : buffer * buffer := (other, this).
