(* ===== verification/NetworkSpec.v ===== *)
(** * Correctness of the network queues

    Messages land inside the receive buffer, on aligned addresses, where the receiver looks for
    them; messages that are close enough to each other never overlap; a send queue waits for a
    completion only when one is due; a receive queue never runs dry. *)
From S2P Require Import Prelude Consts Util Network.

(** ** Placing messages *)

(** A message may be this long. *)
Definition length_ok (len : Z) : Prop := 0 < len <= SEND_BUFFER_SIZE.

(** The start of the free part of the circular buffer: aligned, and at most its end. *)
Definition offset_ok (o : Z) : Prop := 0 <= o <= RECEIVE_BUFFER_SIZE /\ o `mod` MESSAGE_ALIGNMENT = 0.

Lemma next_offset_round_up o len : 0 <= o <= RECEIVE_BUFFER_SIZE -> length_ok len ->
  next_offset o len = round_up MESSAGE_ALIGNMENT (o + len).
Proof.
  unfold length_ok, next_offset. change RECEIVE_BUFFER_SIZE with 262144. change SEND_BUFFER_SIZE with 2048.
  intros. rewrite (wrap64_small (o + len)) by lia. change MESSAGE_ALIGNMENT with (2 ^ 6).
  rewrite align_pow2_round_up by lia. pose proof (round_up_bounds (2 ^ 6) (o + len) ltac:(lia)).
  rewrite wrap64_small by lia. done.
Qed.

Lemma place_fits o len : offset_ok o -> length_ok len ->
  offset_ok (place o len) /\ place o len + len <= RECEIVE_BUFFER_SIZE /\
  offset_ok (next_offset (place o len) len).
Proof.
  unfold offset_ok, length_ok. intros [Ho Ha] Hl.
  assert (0 <= place o len /\ place o len + len <= RECEIVE_BUFFER_SIZE /\ place o len `mod` MESSAGE_ALIGNMENT = 0) as (H1 & H2 & H3).
  { unfold place. change RECEIVE_BUFFER_SIZE with 262144 in *. change SEND_BUFFER_SIZE with 2048 in *.
    rewrite wrap64_small by lia. destruct (Z.leb_spec (o + len) 262144); split_and!; done || lia. }
  split_and!; try done; [lia|..]; rewrite next_offset_round_up by (done || lia);
    pose proof (round_up_bounds MESSAGE_ALIGNMENT (place o len + len) ltac:(done)) as [? Hm]; [lia| |done].
  change RECEIVE_BUFFER_SIZE with (4096 * 64) in *. change MESSAGE_ALIGNMENT with 64 in *.
  pose proof (Z.div_mod (round_up 64 (place o len + len)) 64 ltac:(lia)). lia.
Qed.

(** A message never takes more than a send buffer's worth of the circular buffer. *)
Lemma next_offset_bounds o len : offset_ok o -> length_ok len -> o + len <= next_offset o len <= o + SEND_BUFFER_SIZE.
Proof.
  intros [Ho Ha] Hl. rewrite next_offset_round_up by done. unfold length_ok in Hl.
  pose proof (round_up_bounds MESSAGE_ALIGNMENT (o + len) ltac:(done)) as [? Hm].
  change MESSAGE_ALIGNMENT with 64 in *. change SEND_BUFFER_SIZE with (32 * 64) in *.
  pose proof (Z.div_mod (round_up 64 (o + len)) 64 ltac:(lia)). pose proof (Z.div_mod o 64 ltac:(lia)). lia.
Qed.

(** The places of messages of these lengths, sent one after the other. *)
Fixpoint placements (o : Z) (lens : list Z) : list (Z * Z) :=
  match lens with
  | [] => []
  | len :: lens => (place o len, len) :: placements (next_offset (place o len) len) lens
  end.

Definition disjoint_places (a b : Z * Z) : Prop := a.1 + a.2 <= b.1 \/ b.1 + b.2 <= a.1.

(** After [d] messages behind one at [s] that ended at [e]: the free part has not wrapped
    around yet, or it wrapped around [m] messages ago. *)
Definition behind (e : Z) (d : Z) (o : Z) : Prop :=
  e <= o <= e + d * SEND_BUFFER_SIZE \/
  exists m, 1 <= m <= d /\ o <= m * SEND_BUFFER_SIZE /\
    RECEIVE_BUFFER_SIZE - SEND_BUFFER_SIZE < e + (d - m) * SEND_BUFFER_SIZE.

Lemma behind_step s slen e d o len :
  0 <= d <= 125 -> e <= s + SEND_BUFFER_SIZE -> s + slen <= e -> 0 <= s -> e <= RECEIVE_BUFFER_SIZE ->
  behind e d o -> offset_ok o -> length_ok len ->
  disjoint_places (s, slen) (place o len, len) /\ behind e (d + 1) (next_offset (place o len) len).
Proof.
  intros Hd He1 He2 Hs He3 Hb Ho Hl.
  pose proof (place_fits o len Ho Hl) as (Hp1 & Hp2 & Hp3).
  pose proof (next_offset_bounds (place o len) len Hp1 Hl) as Hn. destruct Ho as [Ho _].
  unfold behind, disjoint_places, length_ok, place in *. simpl.
  change RECEIVE_BUFFER_SIZE with 262144 in *. change SEND_BUFFER_SIZE with 2048 in *.
  rewrite wrap64_small in * by lia.
  destruct (Z.leb_spec (o + len) 262144) as [Hfit|Hfit].
  - destruct Hb as [Hb|(m & Hm & Hom & Hem)].
    + split; [lia|left; lia].
    + split; [lia|right; exists (m + 1); lia].
  - destruct Hb as [Hb|(m & Hm & Hom & Hem)]; [|lia].
    split; [lia|]. right. exists 1. lia.
Qed.

Lemma placements_behind s slen e d o lens k b :
  0 <= d -> e <= s + SEND_BUFFER_SIZE -> s + slen <= e -> 0 <= s -> e <= RECEIVE_BUFFER_SIZE ->
  behind e d o -> offset_ok o -> Forall length_ok lens ->
  placements o lens !! k = Some b -> d + Z.of_nat k <= 125 -> disjoint_places (s, slen) b.
Proof.
  intros Hd He1 He2 Hs He3. revert d o k Hd. induction lens as [|len lens IH]; intros d o k Hd Hb Ho Hl Hk Hdk; [done|].
  apply Forall_cons in Hl as [Hl Hls]. cbn [placements] in Hk.
  destruct (behind_step s slen e d o len) as [Hdis Hb']; try done; [lia|].
  destruct k as [|k]; [by injection Hk as <-|].
  destruct (place_fits o len Ho Hl) as (_ & _ & Ho').
  apply (IH (d + 1) (next_offset (place o len) len) k); try done; lia.
Qed.

Lemma placements_bounds o lens :
  offset_ok o -> Forall length_ok lens ->
  Forall (fun a => 0 <= a.1 /\ a.1 + a.2 <= RECEIVE_BUFFER_SIZE /\ a.1 `mod` MESSAGE_ALIGNMENT = 0) (placements o lens).
Proof.
  intros Ho Hl. revert o Ho. induction Hl as [|len lens Hl Hls IH]; intros o Ho; cbn [placements]; constructor.
  - destruct (place_fits o len Ho Hl) as ([[? _] ?] & ? & _). done.
  - apply IH. apply (place_fits o len Ho Hl).
Qed.

(** C29: the circular receive buffer.  However long the messages of a send queue are (up to a
    send buffer), every one of them lies within the receive buffer of the other side at an
    aligned offset, and any 127 consecutive messages occupy disjoint parts of it: a message is
    not overwritten before 126 more have been sent. *)
Theorem placements_disjoint o lens i j a b :
  offset_ok o -> Forall length_ok lens ->
  placements o lens !! i = Some a -> placements o lens !! j = Some b -> (i < j <= i + 126)%nat ->
  disjoint_places a b /\ 0 <= a.1 /\ a.1 + a.2 <= RECEIVE_BUFFER_SIZE /\ a.1 `mod` MESSAGE_ALIGNMENT = 0.
Proof.
  intros Ho Hl Hi Hj Hij. split; [|by eapply (Forall_lookup_1 _ _ _ _ (placements_bounds o lens Ho Hl))].
  revert o i j Ho Hi Hj Hij. induction Hl as [|len lens Hl Hls IH]; intros o i j Ho Hi Hj Hij; [done|].
  destruct (place_fits o len Ho Hl) as (Hp & Hfit & Ho'). destruct j as [|j]; [lia|].
  destruct i as [|i]; [|eapply (IH _ i j); eauto; lia].
  injection Hi as <-. cbn [placements] in Hj.
  pose proof (next_offset_bounds (place o len) len Hp Hl).
  apply (placements_behind (place o len) len (next_offset (place o len) len) 0
           (next_offset (place o len) len) lens j b); try done; try lia.
  - apply Hp.
  - apply Ho'.
  - left. lia.
Qed.

(** The bound is tight: a short message followed by 128 long ones puts the last of these over
    the first of them, so 128 consecutive messages, the number of requests that may be
    outstanding, do not always fit. *)
Definition example_lengths : list Z := 64 :: replicate 128 2048.

Lemma placements_disjoint_witness :
  disjoint_places (64, 2048) (64 + 126 * 2048, 2048) /\ 0 <= 64 /\ 64 + 2048 <= 262144 /\ 64 `mod` 64 = 0.
Proof.
  apply (placements_disjoint 0 example_lengths 1 127 (64, 2048) (64 + 126 * 2048, 2048)).
  - split; [split; discriminate|reflexivity].
  - constructor; [split; [reflexivity|discriminate]|]. apply Forall_replicate. split; [reflexivity|discriminate].
  - reflexivity.
  - vm_compute. reflexivity.
  - lia.
Defined.

(** 128 outstanding messages do not always fit: there are 128 consecutive messages of
    admissible lengths of which the last one overwrites the first. *)
Theorem placements_overlap :
  exists lens a b, Forall length_ok lens /\ placements 0 lens !! 1%nat = Some a /\
    placements 0 lens !! 128%nat = Some b /\ ~ disjoint_places a b /\
    Z.of_nat (128 - 1 + 1) = MAX_OUTSTANDING_REQUESTS.
Proof.
  exists example_lengths, (64, 2048), (0, 2048). split_and!.
  - constructor; [split; [reflexivity|discriminate]|]. apply Forall_replicate. split; [reflexivity|discriminate].
  - reflexivity.
  - vm_compute. reflexivity.
  - unfold disjoint_places. simpl. lia.
  - reflexivity.
Qed.

(** ** The immediate value *)

Lemma lor_bound a b k : 0 <= k -> 0 <= a < 2 ^ k -> 0 <= b < 2 ^ k -> 0 <= Z.lor a b < 2 ^ k.
Proof.
  intros Hk Ha Hb. assert (0 <= Z.lor a b) as H0 by (apply Z.lor_nonneg; lia). split; [done|].
  destruct (decide (Z.lor a b = 0)) as [->|]; [lia|]. apply Z.log2_lt_pow2; [lia|].
  rewrite Z.log2_lor by lia. apply Z.max_lub_lt.
  - destruct (decide (a = 0)) as [->|]; [|apply Z.log2_lt_pow2; lia].
    destruct (decide (k = 0)) as [->|]; [|simpl; lia]. simpl in *. assert (b = 0) as -> by lia. done.
  - destruct (decide (b = 0)) as [->|]; [|apply Z.log2_lt_pow2; lia].
    destruct (decide (k = 0)) as [->|]; [|simpl; lia]. simpl in *. assert (a = 0) as -> by lia. done.
Qed.

Lemma imm_roundtrip index offset :
  0 <= index < MAX_QUEUE_PAIRS -> 0 <= offset < RECEIVE_BUFFER_SIZE ->
  imm_index (make_imm index offset) = index /\ imm_offset (make_imm index offset) = offset.
Proof.
  change MAX_QUEUE_PAIRS with (2 ^ 11). change RECEIVE_BUFFER_SIZE with (2 ^ 18). intros Hi Ho.
  unfold make_imm, imm_index, imm_offset. change MAX_QUEUE_PAIRS with (2 ^ 11).
  rewrite (wrap64_small (offset * 2 ^ 11)) by lia.
  pose proof (lor_bound index (offset * 2 ^ 11) 32 ltac:(done) ltac:(lia) ltac:(lia)).
  rewrite wrap32_small by lia. split.
  - replace (2 ^ 11 - 1) with (Z.ones 11) by done. rewrite Z.land_lor_distr_l, !Z.land_ones by lia.
    rewrite Z.mod_mul, Z.lor_0_r, Z.mod_small by lia. done.
  - rewrite <- Z.shiftr_div_pow2, Z.shiftr_lor, !Z.shiftr_div_pow2 by lia.
    rewrite Z.div_mul, Z.div_small, Z.lor_0_l by lia. done.
Qed.

(** ** Sending *)

(** A connection that works: posting succeeds, and a completion comes when a signaled request
    has been posted and not been waited for. *)
Class HealthyVerbs (N : Type) `{Verbs N} := {
  posted : N -> list send_wr;
  signaled : N -> nat;
  post_ok wr n : exists n', ibv_post_send wr n = (0, n') /\ posted n' = posted n ++ [wr] /\
    signaled n' = (signaled n + if wr_signaled wr then 1 else 0)%nat;
  wait_ok n : (0 < signaled n)%nat -> exists n', wait_cq n = Some (0, n') /\ posted n' = posted n /\
    signaled n' = (signaled n - 1)%nat }.

Section sending.
Context {N : Type} `{HealthyVerbs N}.

(** A completion is due exactly when the maximum number of messages has been sent. *)
Record sq_ok (q : send_queue) (n : N) : Prop := {
  sq_is_valid : sq_valid q = true;
  sq_max : 0 < max_outstanding_ q <= MAX_OUTSTANDING_REQUESTS;
  sq_sent : 0 <= sent_messages_ q <= max_outstanding_ q;
  sq_queues : xrc_queue_nums_ q <> [];
  sq_offset : offset_ok (offset_ q);
  sq_index : 0 <= index_ q < MAX_QUEUE_PAIRS;
  sq_due : signaled n = if decide (sent_messages_ q = max_outstanding_ q) then 1%nat else 0%nat }.

Lemma handle_error_0 q : handle_error q 0 = Ok None.
Proof. unfold handle_error. by destruct (assert_on_failure_ q). Qed.

Lemma synchronize_queue_ok q n : (0 < signaled n)%nat ->
  exists n', synchronize_queue q n = Ok (None, with_sent 0 q, n') /\ posted n' = posted n /\ signaled n' = (signaled n - 1)%nat.
Proof.
  intros Hn. unfold synchronize_queue. destruct (wait_ok n Hn) as (n' & -> & Hp & Hs).
  rewrite handle_error_0. cbn [mbind result_bind]. eauto.
Qed.

(** The start of [send]: after it no completion is due and there is room for one more. *)
Lemma send_room q n : sq_ok q n -> exists q' n',
  (if max_outstanding_ q <=? sent_messages_ q then synchronize_queue q n else Ok (None, q, n)) = Ok (None, q', n') /\
  q' = with_sent (sent_messages_ q') q /\ 0 <= sent_messages_ q' < max_outstanding_ q /\
  posted n' = posted n /\ signaled n' = 0%nat.
Proof.
  intros [_ Hm Hs _ _ _ Hd]. destruct (Z.leb_spec (max_outstanding_ q) (sent_messages_ q)).
  - rewrite decide_True in Hd by lia. destruct (synchronize_queue_ok q n) as (n' & E & Hp & Hs'); [lia|].
    exists (with_sent 0 q), n'. split; [done|]. split_and!; simpl; done || lia.
  - exists q, n. split; [done|]. rewrite decide_False in Hd by lia.
    split_and!; [by destruct q|lia|lia|done|done].
Qed.

(** The request a message becomes. *)
Definition wr_of (q : send_queue) (len : Z) (wr : send_wr) : Prop :=
  wr_length wr = len /\ wr_rkey wr = remote_key_ q /\ wr_remote_srqn wr ∈ xrc_queue_nums_ q /\
  wr_remote_addr wr = wrap64 (address_ q + place (offset_ q) len) /\
  imm_index (wr_imm_data wr) = index_ q /\ imm_offset (wr_imm_data wr) = place (offset_ q) len.

Lemma send_with_ok limit inline len destination synchronize q n :
  sq_ok q n -> length_ok len -> len <= limit ->
  exists q' n' wr, send_with limit inline len destination synchronize q n = Ok (0, q', n') /\ sq_ok q' n' /\
    posted n' = posted n ++ [wr] /\ wr_of q len wr /\ wr_inline wr = inline /\
    q' = with_sent (sent_messages_ q') (with_offset (next_offset (place (offset_ q) len) len) q).
Proof.
  intros Hq Hl Hlim. unfold send_with. rewrite (proj2 (Z.leb_le _ _) Hlim); cbn [zip_assert mbind result_bind].
  rewrite (sq_is_valid _ _ Hq). destruct (send_room q n Hq) as (q1 & n1 & E & Hq1 & Hs1 & Hp1 & Hd1).
  simpl negb. cbv iota. rewrite E. cbn [mbind result_bind]. clear E.
  set (sent := sent_messages_ q1) in *. clearbody sent. subst q1.
  destruct (place_fits _ len (sq_offset _ _ Hq) Hl) as ([Hpl _] & Hfit & Hoff).
  pose proof (sq_queues _ _ Hq) as Hxrc. pose proof (sq_max _ _ Hq) as Hmax.
  change MAX_OUTSTANDING_REQUESTS with 128 in Hmax. unfold length_ok in Hl.
  change SEND_BUFFER_SIZE with 2048 in Hl.
  set (q2 := if synchronize then with_sent sent q else _).
  assert (exists sent', q2 = with_sent sent' q /\ 0 <= sent' <= max_outstanding_ q /\
    (if synchronize then sent' = sent else sent' = sent + 1)) as (sent' & Hq2 & Hs2 & Hs2').
  { unfold q2. destruct synchronize; [exists sent; split_and!; done || lia|].
    exists (sent + 1). simpl. rewrite wrap64_small by lia. split_and!; done || lia. }
  clearbody q2. subst q2. simpl.
  assert (List.length (xrc_queue_nums_ q) <> 0)%nat by (by destruct (xrc_queue_nums_ q)).
  rewrite (proj2 (Z.eqb_neq _ _)) by lia.
  destruct (lookup_lt_is_Some_2 (xrc_queue_nums_ q) (Z.to_nat (destination `mod` Z.of_nat (List.length (xrc_queue_nums_ q))))) as [srqn Hsrqn].
  { pose proof (Z.mod_pos_bound destination (Z.of_nat (List.length (xrc_queue_nums_ q)))). lia. }
  rewrite Hsrqn; cbn [deref mbind result_bind]. rewrite (wrap32_small len) by lia.
  match goal with |- context [ibv_post_send ?w n1] => set (wr := w) end.
  destruct (post_ok wr n1) as (n2 & -> & Hp2 & Hd2).
  rewrite handle_error_0; cbn [mbind result_bind].
  assert (wr_of q len wr) as Hwr.
  { destruct (imm_roundtrip (index_ q) (place (offset_ q) len)) as [Hi Ho]; [apply Hq|lia|].
    split_and!; try done. apply list_elem_of_lookup. eauto. }
  rewrite Hp1 in Hp2. rewrite Hd1 in Hd2. unfold wr at 1 in Hd2. cbn [wr_signaled Nat.add] in Hd2. destruct synchronize; cbn [orb] in Hd2.
  - destruct (synchronize_queue_ok (with_offset (next_offset (place (offset_ q) len) len) (with_sent sent' q)) n2)
      as (n3 & -> & Hp3 & Hd3); [lia|]. cbn [mbind result_bind].
    eexists _, n3, wr. split; [done|]. split; [|split_and!; [congruence|done..]].
    destruct Hq. split; simpl; try done; try lia. rewrite decide_False by lia. lia.
  - eexists _, n2, wr. split; [done|]. split; [|split_and!; try done; congruence].
    destruct Hq. split; simpl; try done. rewrite Hd2.
    destruct (Z.leb_spec (max_outstanding_ q) sent'), (decide (sent' = max_outstanding_ q)); done || lia.
Qed.

(** Messages sent one after the other from registered buffers. *)
Fixpoint send_many (msgs : list (Z * Z * bool)) (q : send_queue) (n : N) : result (send_queue * N) :=
  match msgs with
  | [] => Ok (q, n)
  | (len, destination, synchronize) :: msgs =>
    '(err, q, n) ← send_buffer len destination synchronize q n;
    if err =? 0 then send_many msgs q n else Err AssertFailed
  end.

Lemma send_many_ok msgs q n :
  sq_ok q n -> Forall (fun m => length_ok m.1.1) msgs ->
  exists q' n' wrs, send_many msgs q n = Ok (q', n') /\ sq_ok q' n' /\ posted n' = posted n ++ wrs /\
    Forall2 (fun wr a => wr_length wr = a.2 /\ wr_remote_addr wr = wrap64 (address_ q + a.1) /\
        wr_rkey wr = remote_key_ q /\ imm_index (wr_imm_data wr) = index_ q /\ imm_offset (wr_imm_data wr) = a.1)
      wrs (placements (offset_ q) ((fun m => m.1.1) <$> msgs)).
Proof.
  intros Hq Hl. revert q n Hq. induction Hl as [|[[len dst] sync] msgs Hl Hls IH]; intros q n Hq.
  { exists q, n, []. rewrite app_nil_r. split_and!; done. }
  cbn [send_many]. destruct (send_with_ok SEND_BUFFER_SIZE (len <=? MAX_INLINE_DATA) len dst sync q n)
    as (q1 & n1 & wr & E & Hq1 & Hp1 & Hwr & _ & Hq1'); [done|done|apply Hl|].
  unfold send_buffer. rewrite E. cbn [mbind result_bind].
  destruct (IH q1 n1 Hq1) as (q2 & n2 & wrs & E2 & Hq2 & Hp2 & HF). rewrite E2.
  exists q2, n2, (wr :: wrs). split; [done|]. split; [done|]. split; [by rewrite Hp2, Hp1, <- app_assoc|].
  cbn [fmap list_fmap placements]. constructor.
  - destruct Hwr as (? & ? & _ & ? & ? & ?). done.
  - rewrite Hq1' in HF. exact HF.
Qed.

End sending.

(** A network that delivers everything: the requests, and the signaled ones not waited for. *)
#[export] Instance perfect_verbs : Verbs (list send_wr * nat) := {|
  wait_cq n := match n.2 with O => None | S k => Some (0, (n.1, k)) end;
  ibv_post_send wr n := (0, (n.1 ++ [wr], if wr_signaled wr then S n.2 else n.2)) |}.

#[export] Instance perfect_healthy : HealthyVerbs (list send_wr * nat).
Proof.
  refine {| posted := fst; signaled := snd |}.
  - intros wr n. eexists. split; [reflexivity|]. split; [done|]. simpl. destruct (wr_signaled wr); lia.
  - intros [l [|k]] Hn; simpl in *; [lia|]. eexists. split; [reflexivity|]. split; [done|]. simpl. lia.
Defined.

Definition example_net : list send_wr * nat := ([], 0%nat).


(** ** Receiving *)

(** A shared receive queue that works: it holds as many requests as it was created for, polling
    takes at most as many completions as it is asked for, and every completion has used up a
    request that was posted. *)
Class HealthyRecv (N : Type) `{SharedRecv N} := {
  outstanding : N -> nat;
  post_recv_ok k n : Z.of_nat (outstanding n + k) <= MAX_RECEIVE_REQUESTS ->
    exists n', ibv_post_srq_recv k n = (0, n') /\ outstanding n' = (outstanding n + k)%nat;
  poll_cq_ok max polled n n' : ibv_poll_cq max n = (Some polled, n') ->
    Z.of_nat (length polled) <= Z.max 0 max /\ outstanding n = (outstanding n' + length polled)%nat }.

(** The requests are linked in their order. *)
Definition linked (next : list (option nat)) : Prop :=
  length next = Z.to_nat MAX_RECEIVE_REQUESTS /\
  forall i, (i < length next)%nat -> next !! i = Some (if decide (S i < length next)%nat then Some (S i) else None).

(** The chain that [arm] cuts off after [k] requests. *)
Lemma chain_cut next k i fuel :
  linked next -> (i < k <= length next)%nat -> (k - i <= S fuel)%nat ->
  chain fuel (<[(k - 1)%nat := None]> next) i = Ok (k - i)%nat.
Proof.
  intros [_ Hn] Hi Hf. revert i Hi Hf. induction fuel as [|fuel IH]; intros i Hi Hf.
  - assert (i = (k - 1)%nat) as -> by lia. cbn [chain]. rewrite list_lookup_insert_eq by lia. f_equal. lia.
  - cbn [chain]. destruct (decide (i = (k - 1)%nat)) as [->|Hne].
    + rewrite list_lookup_insert_eq by lia. f_equal. lia.
    + rewrite list_lookup_insert_ne by lia. rewrite Hn, decide_True by lia.
      rewrite IH by lia. cbn [mbind result_bind]. f_equal. lia.
Qed.

Section receiving.
Context {N : Type} `{HealthyRecv N} (IBV_WC_WITH_IMM : Z).

(** Between half and all of the requests are outstanding, and [num_posted_] is their number. *)
Record rq_ok (q : recv_queue) (n : N) : Prop := {
  rq_num : num_posted_ q = Z.of_nat (outstanding n);
  rq_posted : MAX_RECEIVE_REQUESTS / 2 <= Z.of_nat (outstanding n) <= MAX_RECEIVE_REQUESTS;
  rq_linked : linked (recv_requests_ q) }.

(** [arm] posts as many requests as it is asked for. *)
Lemma arm_ok k q n :
  1 <= k -> linked (recv_requests_ q) -> num_posted_ q = Z.of_nat (outstanding n) ->
  num_posted_ q + k <= MAX_RECEIVE_REQUESTS ->
  exists n', arm k q n = Ok (RecvQueue (num_posted_ q + k) (recv_requests_ q), n') /\ num_posted_ q + k = Z.of_nat (outstanding n').
Proof.
  intros Hk Hl Hnum Hb. pose proof Hl as [Hlen Hn]. change MAX_RECEIVE_REQUESTS with 64 in *. unfold arm.
  rewrite Hlen. change (Z.of_nat (Z.to_nat 64)) with 64.
  rewrite (proj2 (Z.leb_le 1 k)), (proj2 (Z.leb_le k 64)) by lia. cbn [andb negb].
  assert (Z.to_nat (k - 1) < length (recv_requests_ q))%nat as Hlt by lia.
  rewrite (Hn _ Hlt). cbn [deref mbind result_bind].
  replace (Z.to_nat (k - 1)) with (Z.to_nat k - 1)%nat by lia.
  rewrite length_insert, (chain_cut _ (Z.to_nat k) 0 _ Hl) by lia. cbn [mbind result_bind]. rewrite Nat.sub_0_r.
  destruct (post_recv_ok (Z.to_nat k) n) as (n' & -> & Hn'); [change MAX_RECEIVE_REQUESTS with 64; lia|].
  cbn [zip_assert Z.eqb mbind result_bind]. exists n'. split; [|lia].
  rewrite wrap64_small by lia. do 3 f_equal. rewrite list_insert_insert_eq, list_insert_id; [done|]. rewrite Hn by lia. done.
Qed.

(** A new queue has all its requests posted. *)
Lemma recv_queue_init_ok n :
  outstanding n = 0%nat -> exists q n', recv_queue_init n = Ok (q, n') /\ rq_ok q n' /\ Z.of_nat (outstanding n') = MAX_RECEIVE_REQUESTS.
Proof.
  intros Hn. unfold recv_queue_init. set (next := _ <$> seq 0 _).
  assert (linked next) as Hl.
  { split; [unfold next; by rewrite length_fmap, length_seq|]. unfold next. intros i. rewrite length_fmap, length_seq. intros Hi.
    by rewrite list_lookup_fmap, lookup_seq_lt. }
  destruct (arm_ok MAX_RECEIVE_REQUESTS (RecvQueue 0 next) n) as (n' & E & Hn'); [done|done|simpl; lia|done|].
  eexists _, n'. split; [exact E|]. cbn [num_posted_] in Hn'. split; [|lia].
  split; cbn [num_posted_ recv_requests_]; [done| |done]. change MAX_RECEIVE_REQUESTS with 64 in *. change (64 / 2) with 32. lia.
Qed.

(** Completions of messages of working connections to this server's receive buffers. *)
Definition completion_ok (recv_buffers : list (option Z)) (wc : completion) : Prop :=
  wc_success wc = true /\ wc_recv_with_imm wc = true /\ Z.lor (wc_flags wc) IBV_WC_WITH_IMM <> 0 /\
  exists base, recv_buffers !! Z.to_nat (imm_index (wc_imm_data wc)) = Some (Some base).

(** What the callback is called with. *)
Definition delivery (recv_buffers : list (option Z)) (wc : completion) : Z * Z :=
  (default 0 (mjoin (recv_buffers !! Z.to_nat (imm_index (wc_imm_data wc)))) + imm_offset (wc_imm_data wc), wc_byte_len wc).

Lemma recv_one_ok bufs wc : completion_ok bufs wc -> recv_one IBV_WC_WITH_IMM bufs wc = Ok (delivery bufs wc).
Proof.
  intros (H1 & H2 & H3 & [b H4]). unfold recv_one, delivery. rewrite H1, H2, (proj2 (Z.eqb_neq _ _) H3).
  cbn [zip_assert negb mbind result_bind]. by rewrite H4.
Qed.

Lemma recv_poll_ok polled bufs acc :
  Forall (completion_ok bufs) polled ->
  mfold (fun wc acc => x ← recv_one IBV_WC_WITH_IMM bufs wc; Ok (acc ++ [x])) polled acc = Ok (acc ++ (delivery bufs <$> polled)).
Proof.
  intros Hp. revert acc. induction Hp as [|wc polled Hwc Hp IH]; intros acc; cbn [mfold fmap list_fmap].
  { by rewrite app_nil_r. }
  rewrite (recv_one_ok _ _ Hwc). cbn [mbind result_bind]. by rewrite IH, <- app_assoc.
Qed.

(** C31: receiving.  For every batch of completions of working connections the callback runs
    once per message, in order, on the address [recv_buffers[index] + offset] the sender wrote
    to, and afterwards the shared receive queue has again at least half of the requests
    outstanding that were posted to it, never more than it was created for, and [num_posted_] is
    their number, however the batches fall. *)
Theorem recv_delivers {S : Type} (f : Z -> Z -> S -> result S) bufs max polled q n n1 s s' :
  rq_ok q n -> max <= RECEIVE_BATCH_SIZE -> ibv_poll_cq max n = (Some polled, n1) -> Forall (completion_ok bufs) polled ->
  mfold (fun '(addr, len) s => f addr len s) (delivery bufs <$> polled) s = Ok s' ->
  exists q' n', recv IBV_WC_WITH_IMM f bufs max q n s = Ok (q', n', s') /\ rq_ok q' n'.
Proof.
  intros [Hq1 Hq2 Hq3] Hmax Ep Hp Hf. destruct (poll_cq_ok _ _ _ _ Ep) as [Hlen Hout].
  change MAX_RECEIVE_REQUESTS with 64 in *. change RECEIVE_BATCH_SIZE with 8 in *.
  change (64 / 2) with 32 in *. unfold recv, recv_poll. rewrite Ep. cbn [deref mbind result_bind]. rewrite wrap64_small by lia.
  rewrite (recv_poll_ok polled _ []) by exact Hp. cbn [app mbind result_bind].
  rewrite Hf. cbn [mbind result_bind num_posted_ recv_requests_].
  change (MAX_RECEIVE_REQUESTS / 2) with 32. change MAX_RECEIVE_REQUESTS with 64.
  destruct (Z.ltb_spec (num_posted_ q - Z.of_nat (length polled)) 32) as [Hlt|Hge].
  - rewrite wrap64_small by lia.
    destruct (arm_ok (64 - (num_posted_ q - Z.of_nat (length polled))) (RecvQueue (num_posted_ q - Z.of_nat (length polled)) (recv_requests_ q)) n1)
      as (n' & -> & Hn'); cbn [num_posted_ recv_requests_] in *; [lia|done|lia|change MAX_RECEIVE_REQUESTS with 64; lia|].
    cbn [mbind result_bind]. eexists _, n'. split; [done|].
    split; cbn [num_posted_ recv_requests_]; [done| |done]. change (MAX_RECEIVE_REQUESTS / 2) with 32. change MAX_RECEIVE_REQUESTS with 64. lia.
  - eexists _, n1. split; [done|].
    split; cbn [num_posted_ recv_requests_]; [lia| |done]. change (MAX_RECEIVE_REQUESTS / 2) with 32. change MAX_RECEIVE_REQUESTS with 64. lia.
Qed.
End receiving.

(** A queue that takes requests up to its size, with the completions that have come; and a fresh
    one, on which a message at offset 64 of buffer 1 has arrived. *)
#[export] Instance plain_recv : SharedRecv (nat * list completion) := {|
  ibv_poll_cq max n := let k := Nat.min (Z.to_nat max) n.1 in (Some (take k n.2), ((n.1 - length (take k n.2))%nat, drop k n.2));
  ibv_post_srq_recv k n := if decide (Z.of_nat (n.1 + k) <= MAX_RECEIVE_REQUESTS) then (0, ((n.1 + k)%nat, n.2)) else (12, n) |}.

#[export] Instance plain_recv_healthy : HealthyRecv (nat * list completion).
Proof.
  refine {| outstanding := fst |}.
  - intros k n Hk. eexists. cbn [ibv_post_srq_recv plain_recv]. by rewrite decide_True.
  - intros max polled n n' [= <- <-]. cbn [fst]. rewrite length_take. lia.
Defined.

Definition example_arrived : completion := Completion true true 2 (make_imm 1 64) 100.
Definition example_srq : nat * list completion := (64%nat, [example_arrived]).
Definition example_recv_queue : recv_queue :=
  RecvQueue 64 ((fun i => if decide (S i < 64)%nat then Some (S i) else None) <$> seq 0 64).

Example recv_queue_init_armed : recv_queue_init (0%nat, [example_arrived]) = Ok (example_recv_queue, example_srq).
Proof. vm_compute. reflexivity. Qed.

Lemma example_rq_ok : rq_ok example_recv_queue example_srq.
Proof.
  split; [reflexivity|split; discriminate|]. split; [reflexivity|]. intros i Hi.
  unfold example_recv_queue; cbn [recv_requests_] in *. rewrite length_fmap, length_seq in *.
  rewrite list_lookup_fmap, lookup_seq_lt by done. done.
Qed.

Lemma recv_delivers_witness :
  exists q' n', recv 2 (fun a l s => Ok (s ++ [(a, l)])) [Some 1000; Some 2000] 8 example_recv_queue example_srq [] =
      Ok (q', n', [(2064, 100)]) /\ rq_ok q' n'.
Proof.
  apply (recv_delivers 2 (fun a l s => Ok (s ++ [(a, l)])) [Some 1000; Some 2000] 8 [example_arrived] example_recv_queue example_srq
    (63%nat, []) [] [(2064, 100)]);
    [exact example_rq_ok|discriminate|reflexivity| |vm_compute; reflexivity].
  constructor; [|constructor]. split_and!; try reflexivity; [discriminate|]. eexists. vm_compute. reflexivity.
Defined.
