(* ===== verification/Manager.v ===== *)
(** * The network manager ([src/network/manager.h], [src/network/manager.cpp])

    The free list of send buffers, the receive buffers and the bitmap of the free ones, the
    numbers of the shared receive queues, the handshake that turns a socket into send queues on
    both sides, and the queue of failure events.  Allocating and registering a page, creating a
    queue pair, a shared receive queue and the socket calls are parameters. *)
From coqutil Require Import Word.LittleEndianList.
From S2P Require Import Prelude Consts Util Network.

(** ** State *)

(** The events of [ibv_async_event] with a queue pair, and all others; the context of a queue
    pair is the handshake message of its connection. *)
Inductive event_type := QpFatal | QpReqErr | QpAccessErr | PathMigErr | OtherEvent.
Record async_event := AsyncEvent { ev_type : event_type; ev_context : option (list Byte.byte) }.

(** [manager]; a page of [page_list_] is only remembered to be freed. *)
Record manager := Manager {
  server_ : bool;
  page_list_ : list Z;
  free_list_ : list (Z * Z);
  receive_buffers_ : list (option Z);
  receive_keys_ : list Z;
  free_receive_buffers_ : list bool;
  m_xrc_queue_nums_ : list Z;
  handshakes_ : list (list Byte.byte);
  local_id_ : Z;
  local_gid_ : list Byte.byte;
  device_port_ : Z;
  gid_ : Z;
  events_ : queue async_event }.

(** After the constructor has set up the device: no page, and every receive buffer free. *)
Definition manager_init (port gid local_id : Z) (local_gid : list Byte.byte) : manager :=
  let n := Z.to_nat MAX_QUEUE_PAIRS in
  Manager false [] [] (replicate n None) (replicate n 0) (replicate n true) [] [] local_id local_gid
    port gid queue_init.

Definition with_memory (pages : list Z) (free : list (Z * Z)) (m : manager) : manager :=
  Manager (server_ m) pages free (receive_buffers_ m) (receive_keys_ m) (free_receive_buffers_ m)
    (m_xrc_queue_nums_ m) (handshakes_ m) (local_id_ m) (local_gid_ m) (device_port_ m) (gid_ m) (events_ m).
Definition with_receive (pages : list Z) (bufs : list (option Z)) (keys : list Z) (free : list bool) (m : manager) : manager :=
  Manager (server_ m) pages (free_list_ m) bufs keys free (m_xrc_queue_nums_ m) (handshakes_ m)
    (local_id_ m) (local_gid_ m) (device_port_ m) (gid_ m) (events_ m).
Definition with_xrc (nums : list Z) (m : manager) : manager :=
  Manager (server_ m) (page_list_ m) (free_list_ m) (receive_buffers_ m) (receive_keys_ m)
    (free_receive_buffers_ m) nums (handshakes_ m) (local_id_ m) (local_gid_ m) (device_port_ m) (gid_ m) (events_ m).
Definition with_handshakes (h : list (list Byte.byte)) (m : manager) : manager :=
  Manager (server_ m) (page_list_ m) (free_list_ m) (receive_buffers_ m) (receive_keys_ m)
    (free_receive_buffers_ m) (m_xrc_queue_nums_ m) h (local_id_ m) (local_gid_ m) (device_port_ m) (gid_ m) (events_ m).
Definition with_events (q : queue async_event) (m : manager) : manager :=
  Manager (server_ m) (page_list_ m) (free_list_ m) (receive_buffers_ m) (receive_keys_ m)
    (free_receive_buffers_ m) (m_xrc_queue_nums_ m) (handshakes_ m) (local_id_ m) (local_gid_ m)
    (device_port_ m) (gid_ m) q.

(** [bind_server]; the socket calls that can fail are asserted. *)
Definition bind_server (socket_calls_ok : bool) (m : manager) : result manager :=
  _ ← zip_assert socket_calls_ok;
  Ok (Manager true (page_list_ m) (free_list_ m) (receive_buffers_ m) (receive_keys_ m)
    (free_receive_buffers_ m) (m_xrc_queue_nums_ m) (handshakes_ m) (local_id_ m) (local_gid_ m)
    (device_port_ m) (gid_ m) (events_ m)).

(** ** Memory *)

(** The offsets [0, step, 2 * step, ..] below the size of a page. *)
Definition page_offsets (step : Z) : list Z :=
  (fun i => Z.of_nat i * step) <$> seq 0 (Z.to_nat (HUGE_PAGE_SIZE / step)).

Section memory.
(** [allocate_huge_page] and [ibv_reg_mr] for the n-th page: its address and its local and
    remote keys; [None] when one of them fails. *)
Variable new_page : nat -> option (Z * Z * Z).

(** The loop of [get_buffers]; every round adds the buffers of a page. *)
Fixpoint fill_free_list (fuel : nat) (num_buffers : Z) (m : manager) : result manager :=
  if Z.of_nat (List.length (free_list_ m)) <? num_buffers then
    match fuel with
    | O => Err Spins
    | S fuel =>
      '(page, lkey, _) ← assert_not_null (new_page (List.length (page_list_ m)));
      fill_free_list fuel num_buffers
        (with_memory (page_list_ m ++ [page])
           (free_list_ m ++ ((fun j => (page + j, lkey)) <$> page_offsets SEND_BUFFER_SIZE)) m)
    end
  else Ok m.

Definition get_buffers (num_buffers : Z) (m : manager) : result (list buffer * manager) :=
  m ← fill_free_list (Z.to_nat num_buffers) num_buffers m;
  let n := Z.to_nat num_buffers in
  Ok ((fun '(addr, key) => buffer_init addr key) <$> take n (free_list_ m),
      with_memory (page_list_ m) (drop n (free_list_ m)) m).

Definition put_buffer (addr local_key : Z) (m : manager) : manager :=
  with_memory (page_list_ m) (free_list_ m ++ [(addr, local_key)]) m.

(** [~buffer]. *)
Definition buffer_destroy (b : buffer) (m : manager) : manager :=
  if bf_manager_ b then put_buffer (bf_buffer_ b) (bf_local_key_ b) m else m.

(** [bitset::_Find_first]: the first bit that is set, or the size. *)
Fixpoint find_first (l : list bool) : nat :=
  match l with
  | [] => O
  | true :: _ => O
  | false :: l => S (find_first l)
  end.

(** Store the buffers of a page and their key from [index] on. *)
Fixpoint store_page (index : nat) (page rkey : Z) (offsets : list Z) (bufs : list (option Z)) (keys : list Z) :
    result (list (option Z) * list Z) :=
  match offsets with
  | [] => Ok (bufs, keys)
  | j :: offsets =>
    if decide (index < List.length bufs)%nat
    then store_page (S index) page rkey offsets (<[index := Some (page + j)]> bufs) (<[index := rkey]> keys)
    else Err Undefined
  end.

Definition create_receive_buffer (m : manager) : result (Z * Z * Z * manager) :=
  let index := find_first (free_receive_buffers_ m) in
  _ ← zip_assert (negb (Z.of_nat index =? MAX_QUEUE_PAIRS));
  b ← deref (receive_buffers_ m !! index);
  '(pages, bufs, keys) ←
    match b with
    | None =>
      '(page, _, rkey) ← assert_not_null (new_page (List.length (page_list_ m)));
      '(bufs, keys) ← store_page index page rkey (page_offsets RECEIVE_BUFFER_SIZE) (receive_buffers_ m) (receive_keys_ m);
      Ok (page_list_ m ++ [page], bufs, keys)
    | Some _ => Ok (page_list_ m, receive_buffers_ m, receive_keys_ m)
    end;
  addr ← deref (bufs !! index);
  addr ← deref addr;
  key ← deref (keys !! index);
  Ok (Z.of_nat index, addr, key,
      with_receive pages bufs keys (<[index := false]> (free_receive_buffers_ m)) m).

(** [free_recv_buffer]; [bitset::set] throws for an index out of range. *)
Definition free_recv_buffer (index : Z) (m : manager) : result manager :=
  if index <? MAX_QUEUE_PAIRS
  then Ok (with_receive (page_list_ m) (receive_buffers_ m) (receive_keys_ m)
             (<[Z.to_nat index := true]> (free_receive_buffers_ m)) m)
  else Err Thrown.

(** [~send_queue]: the index it frees is the member [index_]. *)
Definition send_queue_destroy (q : send_queue) (m : manager) : result manager :=
  if sq_valid q then free_recv_buffer (index_ q) m else Ok m.
End memory.

(** ** Shared receive queues *)

(** [create_recv_queues]; [new_srq n] is the number of the n-th queue, and its state in the verbs
    library.  The queues point to [receive_buffers_], which they read when they receive. *)
Fixpoint create_recv_queues {N : Type} `{SharedRecv N} (new_srq : nat -> option (Z * N)) (num_queues : nat) (m : manager) :
    result (list (recv_queue * N) * manager) :=
  match num_queues with
  | O => Ok ([], m)
  | S k =>
    '(num, n) ← assert_not_null (new_srq (List.length (m_xrc_queue_nums_ m)));
    let m := with_xrc (m_xrc_queue_nums_ m ++ [num]) m in
    q ← recv_queue_init n;
    '(qs, m) ← create_recv_queues new_srq k m;
    Ok (q :: qs, m)
  end.

(** ** Connection information *)

(** [detail::queue_info]. *)
Record queue_info := QueueInfo {
  qi_index : Z; qi_address : Z; qi_remote_key : Z; qi_send_queue_num : Z; qi_recv_queue_num : Z }.

(** What is serialized: [detail::destination_info]. *)
Record destination_info := DestinationInfo {
  di_local_id : Z;
  di_local_gid : list Byte.byte;
  di_queue_infos : list queue_info;
  di_xrc_queue_nums : list Z;
  di_message : list Byte.byte }.

Definition SIZEOF_QUEUE_INFO : Z := 32.
Definition SIZEOF_DESTINATION_INFO : Z := 48.

Section serialize.
(** The bytes that pad the two structs; their values are unspecified. *)
Variables (pad_queue : list Byte.byte) (pad_dest : list Byte.byte).

Definition serialize_queue_info (q : queue_info) : list Byte.byte :=
  le_split 8 (qi_index q) ++ le_split 8 (qi_address q) ++ le_split 4 (qi_remote_key q) ++
  le_split 4 (qi_send_queue_num q) ++ le_split 4 (qi_recv_queue_num q) ++ pad_queue.

(** [serialize_connection]: the buffer and its size. *)
Definition serialize_connection (d : destination_info) : list Byte.byte * Z :=
  (le_split 2 (di_local_id d) ++ pad_dest ++ di_local_gid d ++
   le_split 8 (Z.of_nat (List.length (di_queue_infos d))) ++
   le_split 8 (Z.of_nat (List.length (di_xrc_queue_nums d))) ++
   le_split 8 (Z.of_nat (List.length (di_message d))) ++
   concat (serialize_queue_info <$> di_queue_infos d) ++
   concat (le_split 4 <$> di_xrc_queue_nums d) ++ di_message d,
   SIZEOF_DESTINATION_INFO + Z.of_nat (List.length (di_queue_infos d)) * SIZEOF_QUEUE_INFO +
   Z.of_nat (List.length (di_xrc_queue_nums d)) * 4 + Z.of_nat (List.length (di_message d))).
End serialize.

(** The integer of [w] bytes at byte [o] of a buffer. *)
Definition word_at (w : nat) (o : nat) (bs : list Byte.byte) : Z := le_combine (take w (drop o bs)).

Definition read_queue_info (bs : list Byte.byte) : queue_info :=
  QueueInfo (word_at 8 0 bs) (word_at 8 8 bs) (word_at 4 16 bs) (word_at 4 20 bs) (word_at 4 24 bs).

(** [n] elements of [size] bytes, the first one at the start of [bs]. *)
Fixpoint read_array {A} (rd : list Byte.byte -> A) (size n : nat) (bs : list Byte.byte) : list A :=
  match n with
  | O => []
  | S n => rd bs :: read_array rd size n (drop size bs)
  end.

(** [deserialize_connection]; [length] is the size that was received before the buffer. *)
Definition deserialize_connection (bs : list Byte.byte) (length : Z) : result destination_info :=
  if Z.of_nat (List.length bs) <? SIZEOF_DESTINATION_INFO then Err Undefined else
  let nq := word_at 8 24 bs in
  let nx := word_at 8 32 bs in
  let ml := word_at 8 40 bs in
  _ ← zip_assert (length =? wrap64 (SIZEOF_DESTINATION_INFO + nq * SIZEOF_QUEUE_INFO + nx * 4 + ml));
  let rest := drop 48 bs in
  let xrc := drop (Z.to_nat (nq * SIZEOF_QUEUE_INFO)) rest in
  let msg := drop (Z.to_nat (nx * 4)) xrc in
  Ok (DestinationInfo (word_at 2 0 bs) (take 16 (drop 8 bs))
        (read_array read_queue_info 32 (Z.to_nat nq) rest)
        (read_array (fun b => word_at 4 0 b) 4 (Z.to_nat nx) xrc)
        (take (Z.to_nat ml) msg)).

(** ** Sockets *)

(** [detail::send] and [detail::recv]: the values the system call returns, one per round; the
    offset reached is the number of bytes transferred. *)
Fixpoint transfer (returns : list Z) (errno length offset : Z) : result Z :=
  if offset <? length then
    match returns with
    | [] => Err Spins
    | r :: returns => if r =? -1 then Ok errno else transfer returns errno length (wrap64 (offset + r))
    end
  else Ok 0.

(** The number of queues both sides create. *)
Definition negotiate (mine other : Z) : Z :=
  if (mine =? 0) && (other =? 0) then 1
  else if mine =? 0 then other
  else if other =? 0 then mine
  else Z.min mine other.

(** ** Queue pairs *)

(** The attributes that [activate_queues] passes to [ibv_modify_qp], for the receive queue and
    for the send queue. *)
Inductive qp_state := RTR | RTS.
Record qp_attr := QpAttr {
  qa_recv_queue : bool;
  qa_state : qp_state;
  qa_dest_qp_num : Z;
  qa_dlid : Z;
  qa_global : option (list Byte.byte * Z);
  qa_port : Z }.

Definition activate_queues (local_port local_gid remote_id : Z) (remote_gid : list Byte.byte) (info : queue_info) : list qp_attr :=
  let grh := if 0 <=? local_gid then Some (remote_gid, local_gid `mod` 256) else None in
  [QpAttr true RTR (qi_send_queue_num info) remote_id grh local_port;
   QpAttr true RTS 0 0 None 0;
   QpAttr false RTR (qi_recv_queue_num info) remote_id grh local_port;
   QpAttr false RTS 0 0 None 0].

(** ** Connections *)

Section connection.
Variable new_page : nat -> option (Z * Z * Z).
Variables (pad_queue pad_dest : list Byte.byte).

(** The loop of [accept] and of [connect] that creates the queue pairs and receive buffers;
    [qps] are the numbers of the queue pairs [create_queues] makes. *)
Fixpoint create_connection_queues (n : nat) (qps : list (option (Z * Z))) (m : manager) :
    result (list queue_info * manager) :=
  match n with
  | O => Ok ([], m)
  | S n =>
    '(send_num, recv_num) ← assert_not_null (head qps ≫= id);
    '(index, addr, key, m) ← create_receive_buffer new_page m;
    '(infos, m) ← create_connection_queues n (tail qps) m;
    Ok (QueueInfo index addr key send_num recv_num :: infos, m)
  end.

(** What this side sends to the other one. *)
Definition connection_info (infos : list queue_info) (message : list Byte.byte) (m : manager) : destination_info :=
  DestinationInfo (local_id_ m) (local_gid_ m) infos (m_xrc_queue_nums_ m) message.

(** The send queues for the information that was received. *)
Fixpoint make_queues (n i : nat) (d : destination_info) (m : manager) : result (list send_queue * list (list qp_attr)) :=
  match n with
  | O => Ok ([], [])
  | S n =>
    info ← deref (di_queue_infos d !! i);
    '(qs, attrs) ← make_queues n (S i) d m;
    Ok (send_queue_init (qi_index info) (qi_address info) (qi_remote_key info) (di_xrc_queue_nums d) :: qs,
        activate_queues (device_port_ m) (gid_ m) (di_local_id d) (di_local_gid d) info :: attrs)
  end.

(** What the socket delivers: the number of queues of the other side, the size of its
    information and the information itself, [None] where a transfer in either direction fails. *)
Record peer := Peer {
  pr_num_queues : option Z;
  pr_size : option Z;
  pr_bytes : option (list Byte.byte) }.

(** The part [accept] and [connect] share, from the exchange of the numbers on: the send queues
    and the message received, with the attributes given to the queue pairs. *)
Definition establish (p : peer) (qps : list (option (Z * Z))) (message : list Byte.byte) (num_queues : Z) (m : manager) :
    result (option (list send_queue * list Byte.byte * list (list qp_attr)) * manager) :=
  match pr_num_queues p with
  | None => Ok (None, m)
  | Some other =>
    let n := Z.to_nat (negotiate num_queues other) in
    '(infos, m) ← create_connection_queues n qps m;
    match pr_size p, pr_bytes p with
    | Some size, Some bytes =>
      d ← deserialize_connection bytes size;
      '(qs, attrs) ← make_queues n 0 d m;
      Ok (Some (qs, di_message d, attrs), with_handshakes (handshakes_ m ++ [di_message d]) m)
    | _, _ => Ok (None, m) (* [free_queues] and return *)
    end
  end.

(** [accept]: [ret] and [eintr] are the result of [ppoll] and whether [errno] is [EINTR],
    [socket] what [::accept] returns. *)
Definition accept (ret : Z) (eintr : bool) (socket : Z) (p : peer) (qps : list (option (Z * Z)))
    (message : list Byte.byte) (num_queues : Z) (m : manager) :
    result (option (list send_queue * list Byte.byte * list (list qp_attr)) * manager) :=
  _ ← zip_assert (server_ m);
  _ ← zip_assert ((0 <=? ret) || eintr);
  if (ret =? 0) || eintr then Ok (None, m) else
  if socket <? 0 then Ok (None, m) else
  establish p qps message num_queues m.

(** [connect]; [connected] says whether [::connect] succeeds. *)
Definition connect (connected : bool) (p : peer) (qps : list (option (Z * Z)))
    (message : list Byte.byte) (num_queues : Z) (m : manager) :
    result (option (list send_queue * list Byte.byte * list (list qp_attr)) * manager) :=
  if negb connected then Ok (None, m) else establish p qps message num_queues m.

(** The overloads for one queue. *)
Definition front (r : result (option (list send_queue * list Byte.byte * list (list qp_attr)) * manager)) :
    result (option (send_queue * list Byte.byte) * manager) :=
  '(o, m) ← r;
  match o with
  | None => Ok (None, m)
  | Some (qs, message, _) => q ← deref (head qs); Ok (Some (q, message), m)
  end.

Definition accept_one ret eintr socket p qps message m := front (accept ret eintr socket p qps message 1 m).
Definition connect_one connected p qps message m := front (connect connected p qps message 1 m).
End connection.

(** ** Failures *)

(** One round of [poll_events]; [event] is what [ibv_get_async_event] returns. *)
Definition poll_events (ret : Z) (eintr : bool) (event : option async_event) (m : manager) : result manager :=
  _ ← zip_assert ((0 <=? ret) || eintr);
  if (ret =? 0) || eintr then Ok m else
  match event with
  | Some e => Ok (with_events (enqueue e (events_ m)) m)
  | None => Ok m
  end.

(** [process_failure]. *)
Definition process_failure {S : Type} (callback : list Byte.byte -> Z -> S -> result S) (m : manager) (s : S) :
    result (manager * S) :=
  '(e, q) ← dequeue (events_ m);
  let m := with_events q m in
  match e with
  | None => Ok (m, s)
  | Some e =>
    let context := match ev_type e with
                   | QpFatal | QpReqErr | QpAccessErr | PathMigErr => ev_context e
                   | OtherEvent => None
                   end in
    match context with
    | Some c => s ← callback c (Z.of_nat (List.length c)) s; Ok (m, s)
    | None => Ok (m, s)
    end
  end.
