(* ===== verification/ManagerSpec.v ===== *)
(** * Correctness of the network manager

    No two send buffers and no two receive buffers that are in use share memory, what one side
    of a handshake serializes is what the other side reads, and the two sides of a connection
    end up with send queues that point at each other's receive buffers. *)
From coqutil Require Import Word.LittleEndianList.
From S2P Require Import Prelude Consts Util Network NetworkSpec Manager.

#[global] Arguments page_offsets : simpl never.

(** ** Pages *)

(** A source of pages: aligned, and different from each other. *)
Record pages_ok (new_page : nat -> option (Z * Z * Z)) : Prop := {
  pg_aligned n p l r : new_page n = Some (p, l, r) -> 0 <= p /\ p `mod` HUGE_PAGE_SIZE = 0;
  pg_distinct n k p l r p' l' r' :
    new_page n = Some (p, l, r) -> new_page k = Some (p', l', r') -> n <> k -> p <> p' }.

(** [a] is buffer number [j] of size [step] of page [p]. *)
Lemma page_offsets_elem step j :
  0 < step -> j ∈ page_offsets step <-> exists i, j = i * step /\ 0 <= i < HUGE_PAGE_SIZE / step.
Proof.
  intros Hs. unfold page_offsets. rewrite list_elem_of_fmap. setoid_rewrite elem_of_seq. split.
  - intros (i & -> & Hi). exists (Z.of_nat i). split; [done|]. assert (0 <= HUGE_PAGE_SIZE / step) by (apply Z.div_pos; done). lia.
  - intros (i & -> & Hi). exists (Z.to_nat i). rewrite Z2Nat.id by lia. split; [done|]. lia.
Qed.

Lemma page_offsets_nodup step : 0 < step -> NoDup (page_offsets step).
Proof.
  intros Hs. unfold page_offsets. apply NoDup_fmap_2_strong; [|apply NoDup_seq].
  intros i j _ _ Hij. nia.
Qed.

(** An address lies in one page only. *)
Lemma page_unique p q i j step :
  0 < step -> p `mod` HUGE_PAGE_SIZE = 0 -> q `mod` HUGE_PAGE_SIZE = 0 ->
  0 <= i < HUGE_PAGE_SIZE / step -> 0 <= j < HUGE_PAGE_SIZE / step ->
  p + i * step = q + j * step -> p = q /\ i = j.
Proof.
  intros Hs Hp Hq Hi Hj E.
  assert (forall i, 0 <= i < HUGE_PAGE_SIZE / step -> 0 <= i * step < HUGE_PAGE_SIZE) as Hb.
  { intros k Hk. pose proof (Z.mul_div_le HUGE_PAGE_SIZE step Hs). nia. }
  pose proof (Hb i Hi). pose proof (Hb j Hj).
  pose proof (Z.div_mod p HUGE_PAGE_SIZE ltac:(done)). pose proof (Z.div_mod q HUGE_PAGE_SIZE ltac:(done)).
  assert (p / HUGE_PAGE_SIZE = q / HUGE_PAGE_SIZE) by nia. assert (p = q) by lia. subst. split; [done|]. nia.
Qed.

Lemma filter_remove_perm {A B} `{EqDecision B} (f : A -> B) (l : list A) (x : A) :
  NoDup (f <$> l) -> x ∈ l -> (f <$> filter (fun y => f y <> f x) l) ++ [f x] ≡ₚ f <$> l.
Proof.
  induction l as [|y l IH]; [by intros _ ?%elem_of_nil|]. rewrite fmap_cons, NoDup_cons. intros [Hy Hl] Hx.
  rewrite filter_cons. apply elem_of_cons in Hx as [->|Hx].
  - rewrite decide_False by auto. rewrite filter_all; [by rewrite Permutation_app_comm|].
    rewrite Forall_forall. intros z Hz E. apply Hy. rewrite <- E. by apply list_elem_of_fmap_2.
  - rewrite decide_True by (intros E; apply Hy; rewrite E; by apply list_elem_of_fmap_2).
    rewrite fmap_cons. cbn [app]. by rewrite IH.
Qed.

(** ** Send buffers *)

Section buffers.
Context (new_page : nat -> option (Z * Z * Z)) (Hpages : pages_ok new_page).

(** The pages of the manager are those of the source. *)
Definition from_source (m : manager) : Prop :=
  forall n p, page_list_ m !! n = Some p -> exists l r, new_page n = Some (p, l, r).

(** [out] are the addresses of the send buffers in use: together with the free ones they are
    different, and each of them is a send buffer of one of the pages. *)
Record buffers_ok (m : manager) (out : list Z) : Prop := {
  bo_pages : from_source m;
  bo_nodup : NoDup (out ++ (free_list_ m).*1);
  bo_addr a : a ∈ out ++ (free_list_ m).*1 ->
    exists p j, p ∈ page_list_ m /\ 0 <= j < HUGE_PAGE_SIZE / SEND_BUFFER_SIZE /\ a = p + j * SEND_BUFFER_SIZE }.

Lemma page_list_aligned m p : from_source m -> p ∈ page_list_ m -> p `mod` HUGE_PAGE_SIZE = 0.
Proof. intros H [n Hn]%list_elem_of_lookup. destruct (H _ _ Hn) as (l & r & E). by apply (pg_aligned _ Hpages _ _ _ _ E). Qed.

Lemma add_page_ok m out p l r :
  buffers_ok m out -> new_page (length (page_list_ m)) = Some (p, l, r) ->
  buffers_ok (with_memory (page_list_ m ++ [p])
    (free_list_ m ++ ((fun j => (p + j, l)) <$> page_offsets SEND_BUFFER_SIZE)) m) out.
Proof.
  intros [H1 H2 H3] E. set (m' := with_memory _ _ _).
  assert (forall a, a ∈ ((fun j => (p + j, l)) <$> page_offsets SEND_BUFFER_SIZE).*1 <->
    exists j, 0 <= j < HUGE_PAGE_SIZE / SEND_BUFFER_SIZE /\ a = p + j * SEND_BUFFER_SIZE) as Hnew.
  { intros a. rewrite <- list_fmap_compose, list_elem_of_fmap. split.
    - intros (j & -> & (i & -> & Hi)%page_offsets_elem); [|done]. eauto.
    - intros (j & Hj & ->). exists (j * SEND_BUFFER_SIZE). split; [done|]. apply page_offsets_elem; [done|]. eauto. }
  split; unfold from_source, m'; cbn [page_list_ free_list_ with_memory].
  - intros n q. rewrite lookup_snoc. case_decide as Hn; [|apply H1]. intros [= <-]. subst. eauto.
  - rewrite fmap_app, app_assoc. apply NoDup_app. split; [done|]. split.
    + intros a Ha (j & Hj & ->)%Hnew. destruct (H3 _ Ha) as (q & i & Hq & Hi & Ea).
      destruct (pg_aligned _ Hpages _ _ _ _ E) as [_ Hpa].
      destruct (page_unique p q j i SEND_BUFFER_SIZE) as [Hpq _]; [done|done|by eapply page_list_aligned|done..|].
      apply list_elem_of_lookup in Hq as [n Hn]. destruct (H1 _ _ Hn) as (l' & r' & E').
      apply (pg_distinct _ Hpages _ _ _ _ _ _ _ _ E E'); [|done]. apply lookup_lt_Some in Hn. lia.
    + rewrite <- list_fmap_compose. apply NoDup_fmap_2_strong; [|by apply page_offsets_nodup].
      intros i j _ _. simpl. lia.
  - intros a. rewrite fmap_app, app_assoc, elem_of_app. intros [Ha|(j & Hj & ->)%Hnew].
    + destruct (H3 _ Ha) as (q & i & ? & ? & ?). exists q, i. rewrite elem_of_app. auto.
    + exists p, j. rewrite elem_of_app, list_elem_of_singleton. auto.
Qed.

Lemma fill_free_list_ok fuel num m out :
  (forall n, is_Some (new_page n)) -> buffers_ok m out -> num - Z.of_nat (length (free_list_ m)) <= Z.of_nat fuel ->
  exists m', fill_free_list new_page fuel num m = Ok m' /\ buffers_ok m' out /\ num <= Z.of_nat (length (free_list_ m')).
Proof.
  intros Hsome. revert m. induction fuel as [|fuel IH]; intros m H Hf; cbn [fill_free_list].
  - rewrite (proj2 (Z.ltb_ge _ _)) by lia. exists m. split_and!; [done..|lia].
  - destruct (Z.ltb_spec (Z.of_nat (length (free_list_ m))) num); [|exists m; split_and!; done || lia].
    destruct (Hsome (length (page_list_ m))) as [[[p l] r] E]. rewrite E. cbn [assert_not_null mbind result_bind].
    apply IH; [by eapply add_page_ok|]. cbn [free_list_ with_memory]. rewrite length_app, length_fmap.
    assert (length (page_offsets SEND_BUFFER_SIZE) = 1024%nat) as -> by (vm_compute; reflexivity). lia.
Qed.

(** Send buffers.  While memory lasts, [get_buffers] always returns as many buffers as it
    was asked for, all of them different from each other and from every buffer in use, each a
    send buffer of its own within one of the manager's pages; a buffer that is destroyed goes
    back to the free list. *)
Theorem get_buffers_fresh num m out :
  (forall n, is_Some (new_page n)) -> 0 <= num -> buffers_ok m out ->
  exists bs m', get_buffers new_page num m = Ok (bs, m') /\ Z.of_nat (length bs) = num /\
    buffers_ok m' (out ++ (bf_buffer_ <$> bs)) /\
    (forall b, b ∈ bs -> buffers_ok (buffer_destroy b m') (out ++ (bf_buffer_ <$> filter (fun b' => bf_buffer_ b' <> bf_buffer_ b) bs))).
Proof.
  intros Hsome Hn H. unfold get_buffers.
  destruct (fill_free_list_ok (Z.to_nat num) num m out Hsome H) as (m1 & -> & H1 & Hlen); [lia|].
  cbn [mbind result_bind]. set (n := Z.to_nat num).
  set (bs := (fun '(addr, key) => buffer_init addr key) <$> take n (free_list_ m1)).
  eexists bs, _. split; [done|]. split; [unfold bs; rewrite length_fmap, length_take; lia|].
  assert (bf_buffer_ <$> bs = (take n (free_list_ m1)).*1) as Eb.
  { unfold bs. rewrite <- list_fmap_compose. apply list_fmap_ext. by intros ? [] _. }
  assert (buffers_ok (with_memory (page_list_ m1) (drop n (free_list_ m1)) m1) (out ++ (bf_buffer_ <$> bs))) as H2.
  { destruct H1 as [P1 P2 P3].
    assert ((out ++ (bf_buffer_ <$> bs)) ++ (drop n (free_list_ m1)).*1 = out ++ (free_list_ m1).*1) as Es.
    { by rewrite Eb, <- app_assoc, <- fmap_app, take_drop. }
    split; cbn [free_list_ with_memory page_list_]; [done|by rewrite Es|intros a; rewrite Es; apply P3]. }
  split; [done|]. intros b Hb. assert (bf_manager_ b = true) as Hbm.
  { unfold bs in Hb. apply list_elem_of_fmap in Hb as ([] & -> & _). done. }
  unfold buffer_destroy. rewrite Hbm. unfold put_buffer. cbn [page_list_ free_list_ with_memory].
  set (rest := filter (fun b' => bf_buffer_ b' <> bf_buffer_ b) bs).
  destruct H2 as [P1 P2 P3]. cbn [page_list_ free_list_ with_memory] in *.
  assert ((out ++ (bf_buffer_ <$> rest)) ++ (drop n (free_list_ m1) ++ [(bf_buffer_ b, bf_local_key_ b)]).*1 ≡ₚ
    (out ++ (bf_buffer_ <$> bs)) ++ (drop n (free_list_ m1)).*1) as Hperm.
  { rewrite fmap_app. cbn [fmap list_fmap fst].
    assert ((bf_buffer_ <$> rest) ++ [bf_buffer_ b] ≡ₚ bf_buffer_ <$> bs) as Hbs.
    { apply NoDup_app in P2 as (P2 & _). apply NoDup_app in P2 as (_ & _ & P2).
      by apply filter_remove_perm. }
    rewrite <- Hbs. rewrite <- !app_assoc. apply Permutation_app_head, Permutation_app_head.
    by rewrite Permutation_app_comm. }
  split; cbn [page_list_ free_list_ with_memory]; [done|by rewrite Hperm|intros a; rewrite Hperm; apply P3].
Qed.

(** ** Receive buffers *)

(** The number of receive buffers in a page. *)
Abbreviation GROUP := 8%nat.

Lemma find_first_spec l :
  (find_first l <= length l)%nat /\ (forall i, (i < find_first l)%nat -> l !! i = Some false) /\
  ((find_first l < length l)%nat -> l !! find_first l = Some true).
Proof.
  induction l as [|[] l (IH1 & IH2 & IH3)]; simpl; (split; [lia|]).
  - split; [intros; lia|lia].
  - split; [intros; lia|done].
  - split; [intros [|i] Hi; [done|apply IH2; lia]|intros; apply IH3; lia].
Qed.

Lemma store_page_spec index page rkey offs bufs keys :
  (index + length offs <= length bufs)%nat -> length keys = length bufs ->
  exists bufs' keys', store_page index page rkey offs bufs keys = Ok (bufs', keys') /\
    length bufs' = length bufs /\ length keys' = length keys /\
    (forall k j, offs !! k = Some j -> bufs' !! (index + k)%nat = Some (Some (page + j))) /\
    (forall i, (i < index \/ index + length offs <= i)%nat -> bufs' !! i = bufs !! i).
Proof.
  revert index bufs keys. induction offs as [|j offs IH]; intros index bufs keys Hb Hk; cbn [store_page length] in *.
  { exists bufs, keys. split_and!; done. }
  rewrite decide_True by lia.
  destruct (IH (S index) (<[index := Some (page + j)]> bufs) (<[index := rkey]> keys)) as (bufs' & keys' & E & L1 & L2 & S1 & S2);
    [rewrite length_insert; lia|by rewrite !length_insert|].
  rewrite !length_insert in *. exists bufs', keys'. split; [done|]. split_and!; [done|done| |].
  - intros [|k] j'; simpl.
    + intros [= <-]. rewrite Nat.add_0_r, S2 by lia. by rewrite list_lookup_insert_eq by lia.
    + intros Hj. replace (index + S k)%nat with (S index + k)%nat by lia. by apply S1.
  - intros i Hi. rewrite S2 by lia. by rewrite list_lookup_insert_ne by lia.
Qed.

(** The receive buffers: every page provides a whole group of them, an index in use has a
    buffer, and different indices have different buffers, each of them a slot of a page. *)
Record receive_ok (m : manager) : Prop := {
  ro_buffers : length (receive_buffers_ m) = Z.to_nat MAX_QUEUE_PAIRS;
  ro_keys : length (receive_keys_ m) = Z.to_nat MAX_QUEUE_PAIRS;
  ro_bits : length (free_receive_buffers_ m) = Z.to_nat MAX_QUEUE_PAIRS;
  ro_pages : from_source m;
  ro_used i : free_receive_buffers_ m !! i = Some false -> exists a, receive_buffers_ m !! i = Some (Some a);
  ro_group i j a : receive_buffers_ m !! i = Some (Some a) -> (j / GROUP = i / GROUP)%nat ->
    exists b, receive_buffers_ m !! j = Some (Some b);
  ro_slot i a : receive_buffers_ m !! i = Some (Some a) ->
    exists p k, p ∈ page_list_ m /\ 0 <= k < HUGE_PAGE_SIZE / RECEIVE_BUFFER_SIZE /\ a = p + k * RECEIVE_BUFFER_SIZE;
  ro_distinct i j a b : receive_buffers_ m !! i = Some (Some a) -> receive_buffers_ m !! j = Some (Some b) ->
    i <> j -> a <> b }.

(** The first free index without a buffer starts a group. *)
Lemma first_free_group m :
  receive_ok m -> (find_first (free_receive_buffers_ m) < Z.to_nat MAX_QUEUE_PAIRS)%nat ->
  receive_buffers_ m !! find_first (free_receive_buffers_ m) = Some None ->
  exists g, find_first (free_receive_buffers_ m) = (g * GROUP)%nat /\ (g * GROUP + GROUP <= Z.to_nat MAX_QUEUE_PAIRS)%nat.
Proof.
  intros H Hlt Hnone. set (f := find_first (free_receive_buffers_ m)) in *.
  destruct (find_first_spec (free_receive_buffers_ m)) as (_ & Hused & _). fold f in Hused.
  pose proof (Nat.div_mod f GROUP ltac:(lia)) as Hdm. pose proof (Nat.mod_upper_bound f GROUP ltac:(lia)).
  change (Z.to_nat MAX_QUEUE_PAIRS) with (256 * 8)%nat in *.
  exists (f / GROUP)%nat. destruct (decide (f mod GROUP = 0)%nat) as [Hz|Hnz]; [lia|]. exfalso.
  destruct (ro_used _ H (f - 1)) as [a Ha]; [apply Hused; lia|].
  destruct (ro_group _ H (f - 1) f a Ha) as [b Hb]; [|congruence].
  apply (Nat.div_unique (f - 1) GROUP (f / GROUP) (f mod GROUP - 1)); lia.
Qed.

Lemma add_group_ok m g p l r bufs keys :
  receive_ok m -> new_page (length (page_list_ m)) = Some (p, l, r) ->
  (g * GROUP + GROUP <= Z.to_nat MAX_QUEUE_PAIRS)%nat ->
  length bufs = Z.to_nat MAX_QUEUE_PAIRS -> length keys = Z.to_nat MAX_QUEUE_PAIRS ->
  (forall k j, page_offsets RECEIVE_BUFFER_SIZE !! k = Some j -> bufs !! (g * GROUP + k)%nat = Some (Some (p + j))) ->
  (forall i, (i < g * GROUP \/ g * GROUP + GROUP <= i)%nat -> bufs !! i = receive_buffers_ m !! i) ->
  receive_ok (with_receive (page_list_ m ++ [p]) bufs keys (free_receive_buffers_ m) m).
Proof.
  intros H E Hg L1 L2 S1 S2.
  assert (forall i, (i / GROUP = g)%nat <-> (g * GROUP <= i < g * GROUP + GROUP)%nat) as Hgrp.
  { intros i. pose proof (Nat.div_mod i GROUP ltac:(lia)). pose proof (Nat.mod_upper_bound i GROUP ltac:(lia)).
    split; [intros <-; lia|]. intros Hi. symmetry. apply (Nat.div_unique i GROUP g (i - g * GROUP)); lia. }
  assert (forall i, (i / GROUP = g)%nat -> exists k, 0 <= k < HUGE_PAGE_SIZE / RECEIVE_BUFFER_SIZE /\
    k = Z.of_nat (i - g * GROUP) /\ bufs !! i = Some (Some (p + k * RECEIVE_BUFFER_SIZE))) as Hnew.
  { intros i Hi. apply Hgrp in Hi. exists (Z.of_nat (i - g * GROUP)).
    change (HUGE_PAGE_SIZE / RECEIVE_BUFFER_SIZE) with 8. split; [lia|]. split; [done|].
    specialize (S1 (i - g * GROUP)%nat). replace (g * GROUP + (i - g * GROUP))%nat with i in S1 by lia. apply S1.
    unfold page_offsets. rewrite list_lookup_fmap.
    change (Z.to_nat (HUGE_PAGE_SIZE / RECEIVE_BUFFER_SIZE)) with 8%nat. by rewrite lookup_seq_lt by lia. }
  assert (forall i, (i / GROUP <> g)%nat -> bufs !! i = receive_buffers_ m !! i) as Hold.
  { intros i Hi. apply S2. rewrite Hgrp in Hi. lia. }
  assert (forall i a, (i / GROUP <> g)%nat -> receive_buffers_ m !! i = Some (Some a) -> forall k,
    0 <= k < HUGE_PAGE_SIZE / RECEIVE_BUFFER_SIZE -> a <> p + k * RECEIVE_BUFFER_SIZE) as Hfresh.
  { intros i a _ Ha k Hk Eq. destruct (ro_slot _ H _ _ Ha) as (q & k' & Hq & Hk' & Ea).
    destruct (pg_aligned _ Hpages _ _ _ _ E) as [_ Hpa].
    destruct (page_unique q p k' k RECEIVE_BUFFER_SIZE) as [-> _];
      [done|eapply page_list_aligned; [apply H|done]|done|done|done|congruence|].
    apply list_elem_of_lookup in Hq as [n Hn]. destruct (ro_pages _ H _ _ Hn) as (l' & r' & E').
    eapply (pg_distinct _ Hpages _ _ _ _ _ _ _ _ E E'); [|done]. apply lookup_lt_Some in Hn. lia. }
  split; cbn [receive_buffers_ receive_keys_ free_receive_buffers_ page_list_ with_receive]; try apply H; try done.
  - intros n q. cbn [page_list_ with_receive]. rewrite lookup_snoc. case_decide as Hn; [|apply H]. intros [= <-]. subst. eauto.
  - intros i Hi. destruct (ro_used _ H i Hi) as [a Ha]. destruct (decide (i / GROUP = g)%nat) as [Hig|Hig].
    + destruct (Hnew i Hig) as (k & _ & _ & ->). eauto.
    + rewrite Hold by done. eauto.
  - intros i j a Ha Hij. destruct (decide (j / GROUP = g)%nat) as [Hjg|Hjg].
    + destruct (Hnew j Hjg) as (k & _ & _ & ->). eauto.
    + rewrite Hold in Ha |- * by congruence. by eapply (ro_group _ H).
  - intros i a Ha. destruct (decide (i / GROUP = g)%nat) as [Hig|Hig].
    + destruct (Hnew i Hig) as (k & Hk & _ & Hb). rewrite Hb in Ha. injection Ha as <-.
      exists p, k. rewrite elem_of_app, list_elem_of_singleton. auto.
    + rewrite Hold in Ha by done. destruct (ro_slot _ H _ _ Ha) as (q & k & ? & ? & ?).
      exists q, k. rewrite elem_of_app. auto.
  - intros i j a b Ha Hb Hij. destruct (decide (i / GROUP = g)%nat) as [Hig|Hig], (decide (j / GROUP = g)%nat) as [Hjg|Hjg].
    + destruct (Hnew i Hig) as (k & Hk & Ek & Hi). destruct (Hnew j Hjg) as (k' & Hk' & Ek' & Hj).
      rewrite Hi in Ha. rewrite Hj in Hb. injection Ha as <-. injection Hb as <-.
      apply Hgrp in Hig, Hjg. change RECEIVE_BUFFER_SIZE with 262144. lia.
    + destruct (Hnew i Hig) as (k & Hk & Ek & Hi). rewrite Hi in Ha. injection Ha as <-.
      rewrite Hold in Hb by done. apply not_eq_sym. by eapply Hfresh.
    + destruct (Hnew j Hjg) as (k & Hk & Ek & Hj). rewrite Hj in Hb. injection Hb as <-.
      rewrite Hold in Ha by done. by eapply Hfresh.
    + rewrite Hold in Ha, Hb by done. by eapply (ro_distinct _ H).
Qed.

(** Marking an index as used or free. *)
Lemma set_bit_ok m i b :
  receive_ok m -> (b = false -> exists a, receive_buffers_ m !! i = Some (Some a)) ->
  receive_ok (with_receive (page_list_ m) (receive_buffers_ m) (receive_keys_ m) (<[i := b]> (free_receive_buffers_ m)) m).
Proof.
  intros H Hb. split; cbn [receive_buffers_ receive_keys_ free_receive_buffers_ page_list_ with_receive]; try apply H.
  - rewrite length_insert. apply H.
  - intros j Hj. destruct (decide (i = j)) as [<-|Hne].
    + destruct (decide (i < length (free_receive_buffers_ m))%nat).
      * rewrite list_lookup_insert_eq in Hj by done. injection Hj as ->. auto.
      * rewrite list_insert_ge in Hj by lia. by apply (ro_used _ H).
    + rewrite list_lookup_insert_ne in Hj by done. by apply (ro_used _ H).
Qed.

Lemma create_receive_buffer_ok m :
  (forall n, is_Some (new_page n)) -> receive_ok m ->
  if decide (Exists (eq true) (free_receive_buffers_ m)) then
    exists i a k m', create_receive_buffer new_page m = Ok (Z.of_nat i, a, k, m') /\ receive_ok m' /\
      free_receive_buffers_ m !! i = Some true /\ free_receive_buffers_ m' = <[i := false]> (free_receive_buffers_ m) /\
      receive_buffers_ m' !! i = Some (Some a) /\ 0 <= Z.of_nat i < MAX_QUEUE_PAIRS /\
      (forall j b, receive_buffers_ m !! j = Some (Some b) -> receive_buffers_ m' !! j = Some (Some b))
  else create_receive_buffer new_page m = Err AssertFailed.
Proof.
  intros Hsome H. unfold create_receive_buffer. set (i := find_first (free_receive_buffers_ m)).
  destruct (find_first_spec (free_receive_buffers_ m)) as (Hle & Hused & Hfree). fold i in Hle, Hused, Hfree.
  rewrite (ro_bits _ H) in Hle, Hfree. case_decide as Hex.
  2:{ assert (i = Z.to_nat MAX_QUEUE_PAIRS) as Ei; [|rewrite Ei; done].
      destruct (decide (i = Z.to_nat MAX_QUEUE_PAIRS)); [done|]. exfalso. apply Hex, Exists_exists.
      exists true. split; [|done]. apply list_elem_of_lookup. exists i. apply Hfree. lia. }
  assert (i < Z.to_nat MAX_QUEUE_PAIRS)%nat as Hlt.
  { apply Exists_exists in Hex as (b & [j Hj]%list_elem_of_lookup & <-).
    pose proof (lookup_lt_Some _ _ _ Hj) as Hl. rewrite (ro_bits _ H) in Hl.
    destruct (decide (j < i)%nat) as [Hji|]; [|lia]. rewrite (Hused _ Hji) in Hj. done. }
  pose proof (Hfree Hlt) as Hfi. rewrite (proj2 (Z.eqb_neq _ _)) by lia. cbn [negb zip_assert mbind result_bind].
  destruct (lookup_lt_is_Some_2 (receive_buffers_ m) i) as [b Hb]; [by rewrite (ro_buffers _ H)|].
  rewrite Hb. cbn [deref mbind result_bind].
  assert (exists pages bufs keys a key,
    receive_ok (with_receive pages bufs keys (free_receive_buffers_ m) m) /\ bufs !! i = Some (Some a) /\ keys !! i = Some key /\
    (forall j b, receive_buffers_ m !! j = Some (Some b) -> bufs !! j = Some (Some b)) /\
    match b with
    | None =>
      '(page, _, rkey) ← assert_not_null (new_page (length (page_list_ m)));
      '(bufs, keys) ← store_page i page rkey (page_offsets RECEIVE_BUFFER_SIZE) (receive_buffers_ m) (receive_keys_ m);
      Ok (page_list_ m ++ [page], bufs, keys)
    | Some _ => Ok (page_list_ m, receive_buffers_ m, receive_keys_ m)
    end = Ok (pages, bufs, keys)) as (pages & bufs & keys & a & key & H' & Ha & Hkey & Hkeep & ->).
  { destruct b as [a|].
    - destruct (lookup_lt_is_Some_2 (receive_keys_ m) i) as [key Hkey]; [by rewrite (ro_keys _ H)|].
      exists (page_list_ m), (receive_buffers_ m), (receive_keys_ m), a, key. split_and!; try done. by destruct m.
    - destruct (first_free_group m H Hlt Hb) as (g & Eg & Hg). fold i in Eg.
      destruct (Hsome (length (page_list_ m))) as [[[p l] r] E]. rewrite E. cbn [assert_not_null mbind result_bind].
      assert (length (page_offsets RECEIVE_BUFFER_SIZE) = GROUP) as Hpo by (vm_compute; reflexivity).
      destruct (store_page_spec i p r (page_offsets RECEIVE_BUFFER_SIZE) (receive_buffers_ m) (receive_keys_ m))
        as (bufs & keys & Es & L1 & L2 & S1 & S2); [rewrite (ro_buffers _ H); lia|by rewrite (ro_buffers _ H), (ro_keys _ H)|].
      rewrite Es. cbn [mbind result_bind]. rewrite Hpo in S2. rewrite (ro_buffers _ H) in L1. rewrite (ro_keys _ H) in L2.
      destruct (lookup_lt_is_Some_2 keys i) as [key Hkey]; [by rewrite L2|].
      rewrite Eg in S1, S2.
      assert (bufs !! i = Some (Some (p + 0))) as Hi by (rewrite Eg, <- (Nat.add_0_r (g * GROUP)); by apply S1).
      eexists _, bufs, keys, _, key. split; [by eapply add_group_ok|]. split; [done|]. split; [done|]. split; [|done].
      intros j c Hj. rewrite S2; [done|].
      destruct (decide (j / GROUP = g)%nat) as [Hjg|Hjg].
      + exfalso. destruct (ro_group _ H j i c Hj) as [d Hd]; [|congruence].
        rewrite Hjg, Eg. by rewrite Nat.div_mul by lia.
      + pose proof (Nat.div_mod j GROUP ltac:(lia)). pose proof (Nat.mod_upper_bound j GROUP ltac:(lia)).
        destruct (decide (j < g * GROUP)%nat); [by left|]. right.
        assert (g < j / GROUP)%nat; [|lia].
        assert (g <= j / GROUP)%nat by (apply Nat.div_le_lower_bound; lia). lia. }
  cbn [mbind result_bind]. rewrite Ha. cbn [deref mbind result_bind]. rewrite Hkey. cbn [deref mbind result_bind].
  exists i, a, key. eexists. split; [done|]. split.
  - apply (set_bit_ok (with_receive pages bufs keys (free_receive_buffers_ m) m) i false H'). eauto.
  - split_and!; try done; lia.
Qed.

(** Receive buffers.  [create_receive_buffer] hands out the buffer of the first free index
    and marks it as used: the buffer overlaps none of the others, buffers handed out before
    stay where they are, and it fails only when all 2048 indices are in use. *)
Theorem create_receive_buffer_fresh m :
  (forall n, is_Some (new_page n)) -> receive_ok m ->
  if decide (Exists (eq true) (free_receive_buffers_ m)) then
    exists i a k m', create_receive_buffer new_page m = Ok (Z.of_nat i, a, k, m') /\ receive_ok m' /\
      free_receive_buffers_ m !! i = Some true /\ free_receive_buffers_ m' = <[i := false]> (free_receive_buffers_ m) /\
      receive_buffers_ m' !! i = Some (Some a) /\ 0 <= Z.of_nat i < MAX_QUEUE_PAIRS /\
      (forall j b, receive_buffers_ m !! j = Some (Some b) -> receive_buffers_ m' !! j = Some (Some b))
  else create_receive_buffer new_page m = Err AssertFailed.
Proof. apply create_receive_buffer_ok. Qed.
End buffers.

(** ** Connection information *)

Lemma le_split_length w v : length (le_split w v) = w.
Proof. apply length_le_split. Qed.

Lemma word_at_app w o v pre rest :
  length pre = o -> 0 <= v < 2 ^ (Z.of_nat w * 8) -> word_at w o (pre ++ le_split w v ++ rest) = v.
Proof.
  intros Hl Hv. unfold word_at. rewrite drop_app_ge, Hl, Nat.sub_diag, drop_0 by lia.
  rewrite take_app_le, firstn_all2 by (rewrite le_split_length; lia).
  rewrite le_combine_split, Z.mod_small by done. done.
Qed.

Lemma word_at_eq w o v pre rest bs :
  bs = pre ++ le_split w v ++ rest -> length pre = o -> 0 <= v < 2 ^ (Z.of_nat w * 8) -> word_at w o bs = v.
Proof. intros ->. apply word_at_app. Qed.

Definition queue_info_ok (q : queue_info) : Prop :=
  is_u64 (qi_index q) /\ is_u64 (qi_address q) /\ 0 <= qi_remote_key q < 2 ^ 32 /\
  0 <= qi_send_queue_num q < 2 ^ 32 /\ 0 <= qi_recv_queue_num q < 2 ^ 32.

(** The members fit their types, and the size does not overflow. *)
Record destination_ok (d : destination_info) : Prop := {
  do_id : 0 <= di_local_id d < 2 ^ 16;
  do_gid : length (di_local_gid d) = 16%nat;
  do_infos : Forall queue_info_ok (di_queue_infos d);
  do_xrc : Forall (fun n => 0 <= n < 2 ^ 32) (di_xrc_queue_nums d);
  do_size : SIZEOF_DESTINATION_INFO + Z.of_nat (length (di_queue_infos d)) * SIZEOF_QUEUE_INFO +
    Z.of_nat (length (di_xrc_queue_nums d)) * 4 + Z.of_nat (length (di_message d)) < W64 }.

Section serialization.
Context (pad_queue pad_dest : list Byte.byte) (Hpq : length pad_queue = 4%nat) (Hpd : length pad_dest = 6%nat).

Lemma serialize_queue_info_length q : length (serialize_queue_info pad_queue q) = 32%nat.
Proof. unfold serialize_queue_info. rewrite !length_app, !le_split_length, Hpq. done. Qed.

Lemma read_queue_info_ok q rest : queue_info_ok q -> read_queue_info (serialize_queue_info pad_queue q ++ rest) = q.
Proof.
  intros (H1 & H2 & H3 & H4 & H5). destruct q as [a b c d e].
  cbn [qi_index qi_address qi_remote_key qi_send_queue_num qi_recv_queue_num] in *. unfold is_u64 in *.
  unfold read_queue_info, serialize_queue_info. cbn [qi_index qi_address qi_remote_key qi_send_queue_num qi_recv_queue_num].
  f_equal.
  - eapply (word_at_eq 8 0 a []); [by rewrite <- !app_assoc|done|done].
  - eapply (word_at_eq 8 8 b (le_split 8 a)); [by rewrite <- !app_assoc|apply le_split_length|done].
  - eapply (word_at_eq 4 16 c (le_split 8 a ++ le_split 8 b)); [by rewrite <- !app_assoc| |done].
    by rewrite !length_app, !le_split_length.
  - eapply (word_at_eq 4 20 d (le_split 8 a ++ le_split 8 b ++ le_split 4 c)); [by rewrite <- !app_assoc| |done].
    by rewrite !length_app, !le_split_length.
  - eapply (word_at_eq 4 24 e (le_split 8 a ++ le_split 8 b ++ le_split 4 c ++ le_split 4 d)); [by rewrite <- !app_assoc| |done].
    by rewrite !length_app, !le_split_length.
Qed.

Lemma read_array_concat {A} (rd : list Byte.byte -> A) (wr : A -> list Byte.byte) size l rest :
  (forall a, length (wr a) = size) -> (forall a rest, a ∈ l -> rd (wr a ++ rest) = a) ->
  read_array rd size (length l) (concat (wr <$> l) ++ rest) = l.
Proof.
  intros Hs. induction l as [|a l IH]; intros Hr; [done|]. cbn [fmap list_fmap concat read_array length].
  rewrite <- app_assoc. rewrite Hr by apply list_elem_of_here. f_equal.
  rewrite drop_app_ge, Hs, Nat.sub_diag, drop_0 by (rewrite Hs; done). apply IH.
  intros b r Hb. apply Hr. by apply list_elem_of_further.
Qed.

Lemma concat_length {A} (wr : A -> list Byte.byte) size l :
  (forall a, length (wr a) = size) -> length (concat (wr <$> l)) = (length l * size)%nat.
Proof. intros Hs. induction l as [|a l IH]; [done|]. cbn [fmap list_fmap concat length]. rewrite length_app, IH, Hs. lia. Qed.

Lemma drop_concat {A} (wr : A -> list Byte.byte) size (l : list A) rest n :
  (forall a, length (wr a) = size) -> n = (length l * size)%nat -> drop n (concat (wr <$> l) ++ rest) = rest.
Proof. intros Hs ->. rewrite <- (concat_length wr size l Hs). by rewrite drop_app_length. Qed.

Lemma deserialize_ok d :
  destination_ok d ->
  deserialize_connection (serialize_connection pad_queue pad_dest d).1 (serialize_connection pad_queue pad_dest d).2 = Ok d.
Proof.
  intros [H1 H2 H3 H4 H5]. unfold serialize_connection, deserialize_connection. cbn [fst snd].
  set (infos := concat (serialize_queue_info pad_queue <$> di_queue_infos d)).
  set (xrc := concat (le_split 4 <$> di_xrc_queue_nums d)).
  set (nq := Z.of_nat (length (di_queue_infos d))) in *. set (nx := Z.of_nat (length (di_xrc_queue_nums d))) in *.
  set (ml := Z.of_nat (length (di_message d))) in *.
  change SIZEOF_DESTINATION_INFO with 48 in *. change SIZEOF_QUEUE_INFO with 32 in *.
  assert (0 <= nq /\ 0 <= nx /\ 0 <= ml) as (Hq0 & Hx0 & Hm0) by lia.
  set (rest := infos ++ xrc ++ di_message d).
  set (hdr := le_split 2 (di_local_id d) ++ pad_dest ++ di_local_gid d ++ le_split 8 nq ++ le_split 8 nx ++ le_split 8 ml).
  assert (length hdr = 48%nat) as Hh by (unfold hdr; rewrite !length_app, !le_split_length, H2, Hpd; done).
  match goal with |- context [Z.of_nat (length ?l) <? 48] => assert (l = hdr ++ rest) as -> end.
  { unfold hdr. by rewrite <- !app_assoc. }
  rewrite (proj2 (Z.ltb_ge _ _)) by (rewrite length_app; lia).
  set (pre := le_split 2 (di_local_id d) ++ pad_dest ++ di_local_gid d).
  assert (length pre = 24%nat) as Hpre by (unfold pre; rewrite !length_app, le_split_length, H2, Hpd; done).
  assert (word_at 8 24 (hdr ++ rest) = nq) as ->.
  { eapply (word_at_eq 8 24 nq pre); [unfold hdr, pre; by rewrite <- !app_assoc|done|lia]. }
  assert (word_at 8 32 (hdr ++ rest) = nx) as ->.
  { eapply (word_at_eq 8 32 nx (pre ++ le_split 8 nq)); [unfold hdr, pre; by rewrite <- !app_assoc| |lia].
    by rewrite length_app, le_split_length, Hpre. }
  assert (word_at 8 40 (hdr ++ rest) = ml) as ->.
  { eapply (word_at_eq 8 40 ml (pre ++ le_split 8 nq ++ le_split 8 nx)); [unfold hdr, pre; by rewrite <- !app_assoc| |lia].
    by rewrite !length_app, !le_split_length, Hpre. }
  rewrite (wrap64_small (48 + nq * 32 + nx * 4 + ml)), Z.eqb_refl by lia. cbn [zip_assert mbind result_bind].
  assert (drop 48 (hdr ++ rest) = rest) as -> by (rewrite <- Hh; apply drop_app_length).
  assert (drop (Z.to_nat (nq * 32)) rest = xrc ++ di_message d) as ->.
  { apply (drop_concat _ 32); [apply serialize_queue_info_length|lia]. }
  assert (drop (Z.to_nat (nx * 4)) (xrc ++ di_message d) = di_message d) as ->.
  { apply (drop_concat _ 4); [intros; apply le_split_length|lia]. }
  unfold nq, nx, ml. rewrite !Nat2Z.id. unfold rest, infos, xrc.
  rewrite (read_array_concat read_queue_info), (read_array_concat (fun b => word_at 4 0 b)).
  - rewrite firstn_all. f_equal.
    assert (word_at 2 0 (hdr ++ rest) = di_local_id d) as Hid.
    { eapply (word_at_eq 2 0 _ []); [unfold hdr; by rewrite <- !app_assoc|done|done]. }
    assert (take 16 (drop 8 (hdr ++ rest)) = di_local_gid d) as Hgid.
    { unfold hdr. rewrite <- !app_assoc. rewrite (app_assoc (le_split 2 _)).
      rewrite drop_app_ge by (rewrite length_app, le_split_length, Hpd; done).
      rewrite length_app, le_split_length, Hpd. cbn [Nat.add Nat.sub drop]. rewrite <- H2. apply take_app_length. }
    unfold rest, infos, xrc in Hid, Hgid. rewrite Hid, Hgid. by destruct d.
  - intros; apply le_split_length.
  - intros a r Ha. rewrite Forall_forall in H4. apply (word_at_app 4 0 a [] r); [done|]. by apply H4.
  - apply serialize_queue_info_length.
  - intros a r Ha. rewrite Forall_forall in H3. by apply read_queue_info_ok, H3.
Qed.

(** C35: [deserialize_connection] returns exactly what [serialize_connection] was given, whatever
    the padding of the structs contains, and accepts the size that was announced. *)
Theorem connection_roundtrip d :
  destination_ok d ->
  deserialize_connection (serialize_connection pad_queue pad_dest d).1 (serialize_connection pad_queue pad_dest d).2 = Ok d.
Proof. apply deserialize_ok. Qed.
End serialization.

(** ** The handshake *)

(** A send queue that writes into a receive buffer of [m] that is in use. *)
Definition points_to (q : send_queue) (m : manager) : Prop :=
  exists j, index_ q = Z.of_nat j /\ receive_buffers_ m !! j = Some (Some (address_ q)) /\
    free_receive_buffers_ m !! j = Some false /\ (j < Z.to_nat MAX_QUEUE_PAIRS)%nat.

(** The receive buffer of a queue that is offered to the other side. *)
Definition offered (info : queue_info) (m : manager) : Prop :=
  exists j, qi_index info = Z.of_nat j /\ receive_buffers_ m !! j = Some (Some (qi_address info)) /\
    free_receive_buffers_ m !! j = Some false /\ (j < Z.to_nat MAX_QUEUE_PAIRS)%nat.

(** What creating queues leaves alone. *)
Definition same_device (m m' : manager) : Prop :=
  server_ m' = server_ m /\ local_id_ m' = local_id_ m /\ local_gid_ m' = local_gid_ m /\
  m_xrc_queue_nums_ m' = m_xrc_queue_nums_ m /\ device_port_ m' = device_port_ m /\ gid_ m' = gid_ m.

Lemma create_receive_device new_page m i a k m' :
  create_receive_buffer new_page m = Ok (i, a, k, m') -> same_device m m'.
Proof.
  unfold create_receive_buffer. intros (u & _ & E)%bind_inv. apply bind_inv in E as (b & _ & E).
  apply bind_inv in E as ([[pages bufs] keys] & _ & E). apply bind_inv in E as (x & _ & E).
  apply bind_inv in E as (y & _ & E). apply bind_inv in E as (z & _ & E). by injection E as <- <- <- <-.
Qed.

Lemma create_connection_queues_ok new_page n : pages_ok new_page -> (forall n, is_Some (new_page n)) ->
  forall qps m infos m', receive_ok new_page m -> create_connection_queues new_page n qps m = Ok (infos, m') ->
  receive_ok new_page m' /\ length infos = n /\ same_device m m' /\ Forall (fun i => offered i m') infos /\
  (forall info, offered info m -> offered info m').
Proof.
  intros Hp Hsome. induction n as [|n IH]; intros qps m infos m' H E; cbn [create_connection_queues] in E.
  { injection E as <- <-. split_and!; done. }
  destruct (assert_not_null _) as [[sn rn]|] eqn:Eq; [|done]. cbn [mbind result_bind] in E.
  pose proof (create_receive_buffer_ok new_page Hp m Hsome H) as Hc. case_decide as Hex; [|by rewrite Hc in E].
  destruct Hc as (i & a & k & m1 & E1 & H1 & Hfree & Hbits & Hbuf & Hi & Hkeep). rewrite E1 in E. cbn [mbind result_bind] in E.
  destruct (create_connection_queues new_page n (tail qps) m1) as [[infos' m2]|] eqn:E2; [|done].
  cbn [mbind result_bind] in E. injection E as <- <-.
  destruct (IH _ _ _ _ H1 E2) as (H2 & Hlen & Hdev & Hall & Hmono).
  assert (same_device m m1) as Hd1.
  { by eapply create_receive_device. }
  assert (offered (QueueInfo (Z.of_nat i) a k sn rn) m1) as Hoff.
  { exists i. cbn [qi_index qi_address]. split; [done|]. split; [done|]. split; [|lia].
    rewrite Hbits, list_lookup_insert_eq; [done|]. by eapply lookup_lt_Some. }
  split; [done|]. split; [simpl; lia|]. split; [|split].
  - destruct Hd1 as (? & ? & ? & ? & ? & ?), Hdev as (? & ? & ? & ? & ? & ?). split_and!; congruence.
  - constructor; [by apply Hmono|done].
  - intros info (j & Hj & Hb & Hf & Hlt). apply Hmono. exists j. split; [done|]. split; [by apply Hkeep|].
    split; [|done]. rewrite Hbits, list_lookup_insert_ne; [done|]. intros ->. congruence.
Qed.

Lemma make_queues_ok n i d m :
  (i + n <= length (di_queue_infos d))%nat ->
  make_queues n i d m = Ok
    ((fun info => send_queue_init (qi_index info) (qi_address info) (qi_remote_key info) (di_xrc_queue_nums d)) <$>
       take n (drop i (di_queue_infos d)),
     activate_queues (device_port_ m) (gid_ m) (di_local_id d) (di_local_gid d) <$> take n (drop i (di_queue_infos d))).
Proof.
  revert i. induction n as [|n IH]; intros i Hi; cbn [make_queues]; [done|].
  destruct (lookup_lt_is_Some_2 (di_queue_infos d) i) as [info Hinfo]; [lia|]. rewrite Hinfo.
  cbn [deref mbind result_bind]. rewrite IH by lia. cbn [mbind result_bind].
  by rewrite (drop_S _ _ _ Hinfo).
Qed.

Lemma negotiate_sym a b : negotiate a b = negotiate b a.
Proof.
  unfold negotiate. destruct (Z.eqb_spec a 0), (Z.eqb_spec b 0); simpl; try done; lia.
Qed.

(** One side of the handshake. *)
Lemma establish_ok new_page qps message mine other m infos m' pq pd d :
  pages_ok new_page -> (forall n, is_Some (new_page n)) -> receive_ok new_page m ->
  create_connection_queues new_page (Z.to_nat (negotiate mine other)) qps m = Ok (infos, m') ->
  length pq = 4%nat -> length pd = 6%nat -> destination_ok d ->
  length (di_queue_infos d) = Z.to_nat (negotiate mine other) ->
  establish new_page (Peer (Some other) (Some (serialize_connection pq pd d).2) (Some (serialize_connection pq pd d).1))
      qps message mine m =
    Ok (Some ((fun info => send_queue_init (qi_index info) (qi_address info) (qi_remote_key info) (di_xrc_queue_nums d)) <$> di_queue_infos d,
              di_message d,
              activate_queues (device_port_ m') (gid_ m') (di_local_id d) (di_local_gid d) <$> di_queue_infos d),
        with_handshakes (handshakes_ m' ++ [di_message d]) m').
Proof.
  intros Hp Hs H E Hpq Hpd Hd Hlen. unfold establish. cbn [pr_num_queues pr_size pr_bytes]. rewrite E. cbn [mbind result_bind].
  rewrite (deserialize_ok pq pd Hpq Hpd d Hd). cbn [mbind result_bind].
  rewrite make_queues_ok by lia. cbn [mbind result_bind]. rewrite drop_0, <- Hlen, firstn_all. done.
Qed.

(** C28: a handshake connects the two sides with each other.  When a client and a server whose
    receive buffers are in order connect, whatever numbers of queues they ask for, both
    create the same number of queues, the handshake message of each side reaches the other,
    and for every pair of queues: each side's send queue names an index and an address that are
    a receive buffer in use at the other side (the buffer the other side's [recv] looks into for
    that index), and each queue pair is told the number of its counterpart. *)
Theorem handshake_connects npA npB qpsA qpsB msgA msgB a b mA mB infosA mA' infosB mB' pq pd :
  pages_ok npA -> pages_ok npB -> (forall n, is_Some (npA n)) -> (forall n, is_Some (npB n)) ->
  receive_ok npA mA -> receive_ok npB mB -> server_ mB = true -> length pq = 4%nat -> length pd = 6%nat ->
  create_connection_queues npA (Z.to_nat (negotiate a b)) qpsA mA = Ok (infosA, mA') ->
  create_connection_queues npB (Z.to_nat (negotiate b a)) qpsB mB = Ok (infosB, mB') ->
  let dA := connection_info infosA msgA mA' in let dB := connection_info infosB msgB mB' in
  let sA := serialize_connection pq pd dA in let sB := serialize_connection pq pd dB in
  destination_ok dA -> destination_ok dB ->
  exists qsA attrsA mA2 qsB attrsB mB2,
    connect npA true (Peer (Some b) (Some sB.2) (Some sB.1)) qpsA msgA a mA = Ok (Some (qsA, msgB, attrsA), mA2) /\
    accept npB 1 false 5 (Peer (Some a) (Some sA.2) (Some sA.1)) qpsB msgB b mB = Ok (Some (qsB, msgA, attrsB), mB2) /\
    length qsA = Z.to_nat (negotiate a b) /\ length qsB = Z.to_nat (negotiate a b) /\
    Forall (fun q => points_to q mB2) qsA /\ Forall (fun q => points_to q mA2) qsB /\
    (forall i iA iB, infosA !! i = Some iA -> infosB !! i = Some iB ->
       exists gA gB,
         attrsA !! i = Some [QpAttr true RTR (qi_send_queue_num iB) (local_id_ mB) gA (device_port_ mA); QpAttr true RTS 0 0 None 0;
                             QpAttr false RTR (qi_recv_queue_num iB) (local_id_ mB) gA (device_port_ mA); QpAttr false RTS 0 0 None 0] /\
         attrsB !! i = Some [QpAttr true RTR (qi_send_queue_num iA) (local_id_ mA) gB (device_port_ mB); QpAttr true RTS 0 0 None 0;
                             QpAttr false RTR (qi_recv_queue_num iA) (local_id_ mA) gB (device_port_ mB); QpAttr false RTS 0 0 None 0]).
Proof.
  intros HpA HpB HsA HsB HA HB Hsrv Hpq Hpd EA EB dA dB sA sB HdA HdB.
  destruct (create_connection_queues_ok _ _ HpA HsA _ _ _ _ HA EA) as (_ & LA & DA & OA & _).
  destruct (create_connection_queues_ok _ _ HpB HsB _ _ _ _ HB EB) as (_ & LB & DB & OB & _).
  pose proof (establish_ok npA qpsA msgA a b mA infosA mA' pq pd dB HpA HsA HA EA Hpq Hpd HdB) as ErA.
  pose proof (establish_ok npB qpsB msgB b a mB infosB mB' pq pd dA HpB HsB HB EB Hpq Hpd HdA) as ErB.
  assert (length infosB = Z.to_nat (negotiate a b)) as LB' by (by rewrite LB, negotiate_sym).
  assert (length infosA = Z.to_nat (negotiate b a)) as LA' by (by rewrite LA, negotiate_sym).
  eexists _, _, _, _, _, _. split; [unfold connect; simpl negb; cbv iota; apply ErA; done|].
  split; [unfold accept; rewrite Hsrv; cbn [zip_assert mbind result_bind Z.leb Z.eqb Z.ltb Z.compare orb]; apply ErB; done|].
  cbn [dA dB connection_info di_queue_infos di_xrc_queue_nums di_local_id di_local_gid].
  rewrite !length_fmap. split; [done|]. split; [by rewrite LA|].
  destruct DA as (_ & IA & _ & _ & PA & _), DB as (_ & IB & _ & _ & PB & _).
  split; [|split].
  - apply Forall_fmap. eapply Forall_impl; [exact OB|]. intros info (j & ? & ? & ? & ?). exists j. done.
  - apply Forall_fmap. eapply Forall_impl; [exact OA|]. intros info (j & ? & ? & ? & ?). exists j. done.
  - intros i iA iB HiA HiB. rewrite !list_lookup_fmap, HiA, HiB. unfold activate_queues. simpl.
    rewrite IA, IB, PA, PB. eauto.
Qed.

(** ** Examples *)

(** Pages one after the other from address 0 on. *)
Definition example_page (n : nat) : option (Z * Z * Z) := Some (Z.of_nat n * HUGE_PAGE_SIZE, 7, 9).

Lemma example_pages_ok : pages_ok example_page.
Proof.
  split.
  - intros n p l r [= <- _ _]. split; [change HUGE_PAGE_SIZE with 2097152; lia|]. by apply Z.mod_mul.
  - intros n k p l r p' l' r' [= <- _ _] [= <- _ _] Hn. change HUGE_PAGE_SIZE with 2097152. lia.
Qed.

Lemma example_page_some n : is_Some (example_page n).
Proof. eexists. reflexivity. Qed.

Lemma manager_init_receive_ok new_page port gid local_id local_gid :
  receive_ok new_page (manager_init port gid local_id local_gid).
Proof.
  split; cbn [manager_init receive_buffers_ receive_keys_ free_receive_buffers_ page_list_]; try apply length_replicate.
  - intros n p Hn. done.
  - intros i [Hi _]%lookup_replicate. done.
  - intros i j a [Hi _]%lookup_replicate. done.
  - intros i a [Hi _]%lookup_replicate. done.
  - intros i j a b [Hi _]%lookup_replicate. done.
Qed.

Definition example_manager (id : Z) : manager := manager_init 1 (-1) id (replicate 16 Byte.x00).

Lemma get_buffers_fresh_witness :
  exists bs m', get_buffers example_page 129 (example_manager 1) = Ok (bs, m') /\ Z.of_nat (length bs) = 129 /\
    buffers_ok example_page m' ([] ++ (bf_buffer_ <$> bs)) /\
    (forall b, b ∈ bs -> buffers_ok example_page (buffer_destroy b m')
       ([] ++ (bf_buffer_ <$> filter (fun b' => bf_buffer_ b' <> bf_buffer_ b) bs))).
Proof.
  apply (get_buffers_fresh example_page example_pages_ok 129 (example_manager 1) []);
    [exact example_page_some|discriminate|].
  split; [intros n p Hn; discriminate Hn|constructor|intros a Ha; by apply elem_of_nil in Ha].
Defined.

Lemma create_receive_buffer_fresh_witness :
  if decide (Exists (eq true) (free_receive_buffers_ (example_manager 1))) then
    exists i a k m', create_receive_buffer example_page (example_manager 1) = Ok (Z.of_nat i, a, k, m') /\
      receive_ok example_page m' /\
      free_receive_buffers_ (example_manager 1) !! i = Some true /\
      free_receive_buffers_ m' = <[i := false]> (free_receive_buffers_ (example_manager 1)) /\
      receive_buffers_ m' !! i = Some (Some a) /\ 0 <= Z.of_nat i < MAX_QUEUE_PAIRS /\
      (forall j b, receive_buffers_ (example_manager 1) !! j = Some (Some b) -> receive_buffers_ m' !! j = Some (Some b))
  else create_receive_buffer example_page (example_manager 1) = Err AssertFailed.
Proof.
  apply (create_receive_buffer_fresh example_page example_pages_ok (example_manager 1));
    [exact example_page_some|apply manager_init_receive_ok].
Defined.

Definition example_info : destination_info :=
  DestinationInfo 3 (replicate 16 Byte.x00) [QueueInfo 1 262144 9 100 101] [17; 18] [Byte.x61; Byte.x62].

Lemma connection_roundtrip_witness :
  deserialize_connection (serialize_connection (replicate 4 Byte.xff) (replicate 6 Byte.x00) example_info).1
    (serialize_connection (replicate 4 Byte.xff) (replicate 6 Byte.x00) example_info).2 = Ok example_info.
Proof.
  apply (connection_roundtrip (replicate 4 Byte.xff) (replicate 6 Byte.x00) eq_refl eq_refl example_info).
  split; [split; [discriminate|reflexivity]|reflexivity| | |reflexivity];
    repeat constructor; (discriminate || reflexivity).
Defined.

(** The client asks for two queues and the server leaves the number to the client. *)
Definition example_qps (n : Z) : list (option (Z * Z)) := [Some (n, n + 1); Some (n + 2, n + 3)].
Definition example_server : manager :=
  match bind_server true (example_manager 2) with Ok m => m | Err _ => example_manager 2 end.
Definition example_client_queues : list queue_info * manager :=
  match create_connection_queues example_page 2 (example_qps 50) (example_manager 1) with
  | Ok r => r | Err _ => ([], example_manager 1) end.
Definition example_server_queues : list queue_info * manager :=
  match create_connection_queues example_page 2 (example_qps 70) example_server with
  | Ok r => r | Err _ => ([], example_server) end.

Lemma handshake_connects_witness :
  let dA := connection_info example_client_queues.1 [Byte.x41] example_client_queues.2 in
  let dB := connection_info example_server_queues.1 [Byte.x42] example_server_queues.2 in
  let sA := serialize_connection (replicate 4 Byte.x00) (replicate 6 Byte.x00) dA in
  let sB := serialize_connection (replicate 4 Byte.x00) (replicate 6 Byte.x00) dB in
  exists qsA attrsA mA2 qsB attrsB mB2,
    connect example_page true (Peer (Some 0) (Some sB.2) (Some sB.1)) (example_qps 50) [Byte.x41] 2 (example_manager 1) =
      Ok (Some (qsA, [Byte.x42], attrsA), mA2) /\
    accept example_page 1 false 5 (Peer (Some 2) (Some sA.2) (Some sA.1)) (example_qps 70) [Byte.x42] 0 example_server =
      Ok (Some (qsB, [Byte.x41], attrsB), mB2) /\
    length qsA = 2%nat /\ length qsB = 2%nat /\
    Forall (fun q => points_to q mB2) qsA /\ Forall (fun q => points_to q mA2) qsB /\
    (forall i iA iB, example_client_queues.1 !! i = Some iA -> example_server_queues.1 !! i = Some iB ->
       exists gA gB,
         attrsA !! i = Some [QpAttr true RTR (qi_send_queue_num iB) 2 gA 1; QpAttr true RTS 0 0 None 0;
                             QpAttr false RTR (qi_recv_queue_num iB) 2 gA 1; QpAttr false RTS 0 0 None 0] /\
         attrsB !! i = Some [QpAttr true RTR (qi_send_queue_num iA) 1 gB 1; QpAttr true RTS 0 0 None 0;
                             QpAttr false RTR (qi_recv_queue_num iA) 1 gB 1; QpAttr false RTS 0 0 None 0]).
Proof.
  intros dA dB sA sB.
  apply (handshake_connects example_page example_page (example_qps 50) (example_qps 70) [Byte.x41] [Byte.x42] 2 0
    (example_manager 1) example_server example_client_queues.1 example_client_queues.2
    example_server_queues.1 example_server_queues.2 (replicate 4 Byte.x00) (replicate 6 Byte.x00));
    try exact example_pages_ok; try exact example_page_some; try reflexivity.
  - apply manager_init_receive_ok.
  - destruct (manager_init_receive_ok example_page 1 (-1) 2 (replicate 16 Byte.x00)). by split.
  - vm_compute. split; [split; [discriminate|reflexivity]|reflexivity| | |reflexivity]; repeat constructor; discriminate.
  - vm_compute. split; [split; [discriminate|reflexivity]|reflexivity| | |reflexivity]; repeat constructor; discriminate.
Defined.

(** Destroying a send queue frees the wrong receive buffer.  The destructor marks the index
    of the remote side's buffer as free in the local bitmap.  There are a manager and two of its
    connections (to sides whose buffers have the indices 1 and 5) such that, once the first one
    has been destroyed, the receive buffer of the second one, which is still open, is handed out
    again for a third. *)
Theorem destroy_frees_live_buffer :
  exists m1 m2 m3 q1 info2 i3 a3 k3 m4,
    create_connection_queues example_page 1 (example_qps 50) (example_manager 1) = Ok (fst m1, snd m1) /\
    create_connection_queues example_page 1 (example_qps 60) (snd m1) = Ok ([info2], m2) /\
    q1 = send_queue_init 1 4096 9 [17] /\ send_queue_destroy q1 m2 = Ok m3 /\
    create_receive_buffer example_page m3 = Ok (i3, a3, k3, m4) /\
    i3 = qi_index info2 /\ a3 = qi_address info2.
Proof.
  eexists (_, _), _, _, _, _, _, _, _, _.
  split; [vm_compute; reflexivity|]. split; [vm_compute; reflexivity|]. split; [reflexivity|].
  split; [vm_compute; reflexivity|]. split; [vm_compute; reflexivity|]. split; vm_compute; reflexivity.
Qed.

(** A handshake that breaks off after the numbers of queues were exchanged leaves the
    receive buffers it took marked as used, with no connection that would ever free them. *)
Lemma failed_handshake_leaks new_page p qps message mine other m infos m' :
  create_connection_queues new_page (Z.to_nat (negotiate mine other)) qps m = Ok (infos, m') ->
  pr_num_queues p = Some other -> pr_bytes p = None ->
  connect new_page true p qps message mine m = Ok (None, m').
Proof.
  intros E Hn Hb. unfold connect. simpl negb. cbv iota. unfold establish. rewrite Hn, E. cbn [mbind result_bind].
  rewrite Hb. by destruct (pr_size p).
Qed.
