(* ===== verification/Order.v ===== *)
(** * The ordering server ([src/order/order.h], [src/order/order.cpp], [src/order/main.cpp])

    The state of the class [order], its public operations, one definition per message handler of
    its loop, the heartbeat and the epoch rounds.  Every one of them holds [lock_], so it is one
    atomic step that returns the new state and the messages that were sent, in order. *)
From S2P Require Import Prelude Consts Util Api.

(** ** State *)

(** [order::client_state]; a buffer of [data] is the patch message it holds. *)
Record client_state := ClientState {
  o_shard_id : Z;
  o_num_slots : Z;
  o_failed : bool;
  o_requested : bool;
  o_cuts : list (Z * Z);
  o_flushed : gset Z;
  o_data : list (Z * storage_client_patch) }.

(** [client_state::client_state]. *)
Definition client_state_init (shard_id num_slots : Z) : client_state :=
  ClientState shard_id num_slots false false [] ∅ [].

(** The class [order] with the local variables of [loop].  [storage_queues_] has the same keys
    as [storage_addresses_]; a send queue is represented by the key of its owner. *)
Record order := Order {
  gsn_base_ : Z;
  storage_addresses_ : gmap Z (gmap Z sockaddr_in);
  client_state_ : gmap Z client_state;
  subscriber_queue_ : gset Z;
  iterator_ : wraparound_iterator;
  or_epoch : Z;
  or_heartbeat : Z;
  heartbeat_id : Z;
  suspicious_clients : gset Z }.

(** [time_point::min()], in the nanoseconds of [high_resolution_clock]. *)
Definition TIME_MIN : Z := - I64.

(** [order::order] and the start of [loop]. *)
Definition order_init : order :=
  Order 0 ∅ ∅ ∅ (wraparound_init (Z.to_nat (MAX_OUTSTANDING_REQUESTS + 1))) TIME_MIN TIME_MIN 0 ∅.

(** Whom a message is sent to. *)
Inductive destination :=
| ToStorage (shard_id replica_id : Z)
| ToClient (client_id : Z)
| ToSubscriber (subscriber_id : Z).

Definition outputs : Type := list (destination * message).

(** The replicas of a shard, in the order of the hash map. *)
Definition replicas (o : order) (shard_id : Z) : list Z :=
  (map_to_list (default ∅ (storage_addresses_ o !! shard_id))).*1.

Definition with_clients (cs : gmap Z client_state) (o : order) : order :=
  Order (gsn_base_ o) (storage_addresses_ o) cs (subscriber_queue_ o) (iterator_ o) (or_epoch o)
    (or_heartbeat o) (heartbeat_id o) (suspicious_clients o).
Definition with_suspicious (s : gset Z) (o : order) : order :=
  Order (gsn_base_ o) (storage_addresses_ o) (client_state_ o) (subscriber_queue_ o) (iterator_ o)
    (or_epoch o) (or_heartbeat o) (heartbeat_id o) s.
Definition with_subscriber_queue (s : gset Z) (o : order) : order :=
  Order (gsn_base_ o) (storage_addresses_ o) (client_state_ o) s (iterator_ o) (or_epoch o)
    (or_heartbeat o) (heartbeat_id o) (suspicious_clients o).
Definition with_iterator (w : wraparound_iterator) (o : order) : order :=
  Order (gsn_base_ o) (storage_addresses_ o) (client_state_ o) (subscriber_queue_ o) w (or_epoch o)
    (or_heartbeat o) (heartbeat_id o) (suspicious_clients o).
Definition with_storage (a : gmap Z (gmap Z sockaddr_in)) (o : order) : order :=
  Order (gsn_base_ o) a (client_state_ o) (subscriber_queue_ o) (iterator_ o) (or_epoch o)
    (or_heartbeat o) (heartbeat_id o) (suspicious_clients o).

(** Sending from a buffer asserts that the message fits. *)
Definition fits_buffer (m : message) : result unit := zip_assert (message_length m <=? SEND_BUFFER_SIZE).

(** To all the replicas of a shard. *)
Definition to_storage (o : order) (shard_id : Z) (m : message) : outputs :=
  (fun rid => (ToStorage shard_id rid, m)) <$> replicas o shard_id.

(** ** Public operations *)

(** [order::add_storage]. *)
Definition add_storage (shard_id replica_id : Z) (address : sockaddr_in) (o : order) : result order :=
  if (NUM_SHARDS <=? shard_id) || (MAX_REPLICAS <=? replica_id)
     || bool_decide (is_Some (default ∅ (storage_addresses_ o !! shard_id) !! replica_id)) then Ok o else
  _ ← zip_assert (bool_decide (client_state_ o = ∅) && bool_decide (subscriber_queue_ o = ∅));
  Ok (with_storage (<[shard_id := <[replica_id := address]> (default ∅ (storage_addresses_ o !! shard_id))]>
        (storage_addresses_ o)) o).

(** The addresses of a shard's servers. *)
Definition addresses (o : order) (shard_id : Z) : list sockaddr_in :=
  (map_to_list (default ∅ (storage_addresses_ o !! shard_id))).*2.

(** [order::add_client]. *)
Definition add_client (client_id shard_id num_slots : Z) (o : order) : result (order * outputs) :=
  if (NUM_SHARDS <=? shard_id) || (MAX_CLIENTS <=? client_id)
     || bool_decide (is_Some (client_state_ o !! client_id))
     || (MAX_CLIENTS <=? Z.of_nat (size (client_state_ o))) then Ok (o, []) else
  '(_, it) ← get_and_increment (iterator_ o);
  let addrs := addresses o shard_id in
  let info := MClientStorageInfo (ClientStorageInfo (Z.of_nat (length addrs)) addrs) in
  _ ← fits_buffer info;
  Ok (with_clients (<[client_id := client_state_init shard_id num_slots]> (client_state_ o)) (with_iterator it o),
      [(ToClient client_id, info)]).

(** [order::add_subscriber]. *)
Definition add_subscriber (subscriber_id : Z) (o : order) : result (order * outputs) :=
  if decide (subscriber_id ∈ subscriber_queue_ o) then Ok (o, []) else
  '(_, it) ← get_and_increment (iterator_ o);
  let addrs := seqZ 0 NUM_SHARDS ≫= addresses o in
  let info := MSubscriberStorageInfo (SubscriberStorageInfo (Z.of_nat (length addrs)) addrs) in
  _ ← fits_buffer info;
  Ok (with_subscriber_queue ({[subscriber_id]} ∪ subscriber_queue_ o) (with_iterator it o),
      [(ToSubscriber subscriber_id, info)]).

(** ** The lambdas of [loop] *)

(** [failed]. *)
Definition failed (client_id : Z) (state : client_state) (o : order) : order * outputs :=
  let state := ClientState (o_shard_id state) (o_num_slots state) true (o_requested state) (o_cuts state)
                 (o_flushed state) (o_data state) in
  (with_suspicious ({[client_id]} ∪ suspicious_clients o) (with_clients (<[client_id := state]> (client_state_ o)) o),
   to_storage o (o_shard_id state) (MStorageClientFreeze (StorageClientFreeze client_id))).

(** [requested]. *)
Definition requested (client_id : Z) (state : client_state) (min_cut : Z) (o : order) : order * outputs :=
  let state := ClientState (o_shard_id state) (o_num_slots state) (o_failed state) true (o_cuts state)
                 (o_flushed state) (o_data state) in
  (with_clients (<[client_id := state]> (client_state_ o)) o,
   to_storage o (o_shard_id state) (MStorageClientCut (StorageClientCut client_id min_cut))).

(** [finalized]. *)
Definition finalized (client_id : Z) (state : client_state) (o : order) : order * outputs :=
  let patches := if o_requested state
                 then o_data state ≫= fun '(_, p) => to_storage o (o_shard_id state) (MStorageClientPatch p)
                 else [] in
  (with_suspicious (suspicious_clients o ∖ {[client_id]}) (with_clients (delete client_id (client_state_ o)) o),
   patches ++ to_storage o (o_shard_id state) (MStorageClientFinalize (StorageClientFinalize client_id))).

(** ** The message handlers *)

Definition on_client_failure (intro : client_intro) (o : order) : order * outputs :=
  match client_state_ o !! ci_client_id intro with
  | Some state => if o_failed state then (o, []) else failed (ci_client_id intro) state o
  | None => (o, [])
  end.

Definition on_order_client_rate (rate : order_client_rate) (o : order) : order * outputs :=
  match client_state_ o !! rate_client_id rate with
  | None => (o, [])
  | Some state =>
    let n := align_any MIN_SLOTS (Z.max 1 (rate_num_slots rate)) in
    (with_clients (<[rate_client_id rate := ClientState (o_shard_id state) n (o_failed state) (o_requested state)
        (o_cuts state) (o_flushed state) (o_data state)]> (client_state_ o)) o, [])
  end.

Definition on_client_finished (bye : client_finished) (o : order) : order * outputs :=
  match client_state_ o !! cf_client_id bye with
  | None => (o, [])
  | Some state =>
    let '(o, out) := finalized (cf_client_id bye) state o in
    (o, (ToClient (cf_client_id bye), MOrderFinished) :: out)
  end.

Definition on_subscriber_finished (bye : subscriber_finished) (o : order) : order * outputs :=
  if decide (sbf_subscriber_id bye ∈ subscriber_queue_ o) then
    (with_subscriber_queue (subscriber_queue_ o ∖ {[sbf_subscriber_id bye]}) o,
     [(ToSubscriber (sbf_subscriber_id bye), MOrderFinished)])
  else (o, []).

Definition on_order_client_freeze (freeze : order_client_freeze) (o : order) : order * outputs :=
  match client_state_ o !! ocf_client_id freeze with
  | Some state => if o_failed state then (o, []) else failed (ocf_client_id freeze) state o
  | None => (o, [])
  end.

(** The last value from the end, after the first one, that is not -1. *)
Fixpoint disambiguate (max : Z) (rest : list (Z * Z)) : Z :=
  match rest with
  | [] => max
  | (_, g) :: rest => if negb (g =? UINT64_MAX) then g else disambiguate max rest
  end.

(** "find the minimum and maximum cuts": the cuts of the first and of the last replica. *)
Definition min_max_cuts (cuts : list (Z * Z)) : result (Z * Z) :=
  min ← deref (head cuts);
  max ← deref (head (rev cuts));
  let '(min, max) := (min.2, max.2) in
  if negb (min =? max) && (max =? UINT64_MAX)
  then Ok (min, disambiguate max (tail (rev cuts))) else Ok (min, max).

Definition on_order_client_cut (cut : order_client_cut) (o : order) : result (order * outputs) :=
  match client_state_ o !! cut_client_id cut with
  | None => Ok (o, [])
  | Some state =>
    if negb (o_failed state) then Ok (o, []) else
    if negb (o_shard_id state =? cut_shard_id cut) || bool_decide (is_Some (smap_find (cut_replica_id cut) (o_cuts state)))
    then Ok (o, []) else
    let state := ClientState (o_shard_id state) (o_num_slots state) (o_failed state) (o_requested state)
                   (smap_insert (cut_replica_id cut) (cut_latest_gsn cut) (o_cuts state)) (o_flushed state) (o_data state) in
    let o := with_clients (<[cut_client_id cut := state]> (client_state_ o)) o in
    if negb (o_requested state) && bool_decide (length (o_cuts state) = length (replicas o (o_shard_id state))) then
      '(min, max) ← min_max_cuts (o_cuts state);
      Ok (if min =? max then finalized (cut_client_id cut) state o else requested (cut_client_id cut) state min o)
    else Ok (o, [])
  end.

Definition on_order_client_data (data : order_client_data) (o : order) : order * outputs :=
  match client_state_ o !! ocd_client_id data with
  | None => (o, [])
  | Some state =>
    if negb (o_requested state) then (o, []) else
    if negb (o_shard_id state =? ocd_shard_id data) || bool_decide (ocd_replica_id data ∈ o_flushed state) then (o, []) else
    if ocd_gsn data =? UINT64_MAX then
      let state := ClientState (o_shard_id state) (o_num_slots state) (o_failed state) (o_requested state) (o_cuts state)
                     ({[ocd_replica_id data]} ∪ o_flushed state) (o_data state) in
      let o := with_clients (<[ocd_client_id data := state]> (client_state_ o)) o in
      if bool_decide (size (o_flushed state) = length (replicas o (o_shard_id state)))
      then finalized (ocd_client_id data) state o else (o, [])
    else
      match smap_find (ocd_gsn data) (o_data state) with
      | Some _ => (o, [])
      | None =>
        let req := StorageClientPatch (ocd_client_id data) (ocd_gsn data) (ocd_data_length data) (ocd_data data) in
        (with_clients (<[ocd_client_id data := ClientState (o_shard_id state) (o_num_slots state) (o_failed state)
            (o_requested state) (o_cuts state) (o_flushed state) (smap_insert (ocd_gsn data) req (o_data state))]>
            (client_state_ o)) o, [])
      end
  end.

(** The lambdas of [recv_apply]. *)
Definition order_recv (m : message) (o : order) : result (order * outputs) :=
  match m with
  | MOrderClientRate rate => Ok (on_order_client_rate rate o)
  | MClientFinished bye => Ok (on_client_finished bye o)
  | MSubscriberFinished bye => Ok (on_subscriber_finished bye o)
  | MOrderClientFreeze freeze => Ok (on_order_client_freeze freeze o)
  | MOrderClientCut cut => on_order_client_cut cut o
  | MOrderClientData data => Ok (on_order_client_data data o)
  | _ => Ok (o, [])
  end.

(** ** The timers *)

Definition heartbeat_round (now : Z) (o : order) : order * outputs :=
  let msg := MClientHeartbeat (ClientHeartbeat (heartbeat_id o)) in
  (Order (gsn_base_ o) (storage_addresses_ o) (client_state_ o) (subscriber_queue_ o) (iterator_ o) (or_epoch o)
     (now + HEARTBEAT_INTERVAL) (wrap64 (heartbeat_id o + 1)) (suspicious_clients o),
   (map_to_list (client_state_ o)).*1 ≫= fun cid =>
     if decide (cid ∈ suspicious_clients o) then [] else [(ToClient cid, msg)]).

(** The tuples of number of slots, shard and client of the active clients. *)
Definition active_slots (o : order) : list (Z * Z * Z) :=
  map_to_list (client_state_ o) ≫= fun '(cid, state) =>
    if o_failed state then [] else [(o_num_slots state, o_shard_id state, cid)].

(** [std::greater] on the tuples, or equality. *)
Definition slot_ge (a b : Z * Z * Z) : Prop :=
  b.1.1 < a.1.1 \/ (b.1.1 = a.1.1 /\ (b.1.2 < a.1.2 \/ (b.1.2 = a.1.2 /\ b.2 <= a.2))).

#[export] Instance slot_ge_dec : RelDecision slot_ge.
Proof. intros a b. unfold slot_ge. apply _. Defined.

(** [std::sort(.., std::greater<..>())]: the tuples are all different, so the result is the one
    descending arrangement. *)
Definition sort_slots : list (Z * Z * Z) -> list (Z * Z * Z) := merge_sort slot_ge.

(** The assignments a shard is sent. *)
Definition shard_assignments (sid : Z) (slots : list (Z * Z * Z)) : list assignment :=
  (fun '(num, csid, cid) => Assignment (if csid =? sid then cid else UINT64_MAX) num) <$> slots.

Definition epoch_round (now : Z) (o : order) : result (order * outputs) :=
  let begin := now + EPOCH_DURATION in
  let news := map_to_list (client_state_ o) ≫= fun '(cid, state) =>
    if o_failed state then []
    else [(ToClient cid, MClientNewEpoch (ClientNewEpoch begin (o_num_slots state)))] in
  let total := foldr (fun s acc => wrap64 (s.1.1 + acc)) 0 (active_slots o) in
  let slots := sort_slots (active_slots o) in
  out ← mfold (fun sid out =>
          let m := MStorageSlots (StorageSlots (gsn_base_ o) (Z.of_nat (length slots)) (shard_assignments sid slots)) in
          _ ← fits_buffer m;
          Ok (out ++ to_storage o sid m)) (seqZ 0 NUM_SHARDS) news;
  Ok (Order (wrap64 (gsn_base_ o + total)) (storage_addresses_ o) (client_state_ o) (subscriber_queue_ o) (iterator_ o)
        (now + EPOCH_DURATION) (or_heartbeat o) (heartbeat_id o) (suspicious_clients o), out).

(** The end of the loop's body. *)
Definition timers (now : Z) (o : order) : result (order * outputs) :=
  if or_heartbeat o <? now then Ok (heartbeat_round now o)
  else if or_epoch o <? now then epoch_round now o
  else Ok (o, []).

(** ** The accept loop of [main.cpp] *)

(** [htons] on a little-endian host. *)
Definition htons (p : Z) : Z := (p mod 256) * 256 + p / 256.

Definition on_accept (m : message) (address : sockaddr_in) (o : order) : result (order * outputs) :=
  match m with
  | MClientIntro intro => add_client (ci_client_id intro) (ci_shard_id intro) (ci_num_slots intro) o
  | MSubscriberIntro intro => add_subscriber (sbi_subscriber_id intro) o
  | MStorageIntro intro =>
    o ← add_storage (si_shard_id intro) (si_replica_id intro)
          (SockaddrIn (sin_family address) (htons (si_port intro)) (sin_addr address) (sin_zero address)) o;
    Ok (o, [])
  | _ => Ok (o, [])
  end.

(** ** The steps of the server *)
Inductive event :=
| ERecv (m : message)
| EFailure (intro : client_intro)
| ETimers (now : Z)
| EAccept (m : message) (address : sockaddr_in).

Definition handle (e : event) (o : order) : result (order * outputs) :=
  match e with
  | ERecv m => order_recv m o
  | EFailure intro => Ok (on_client_failure intro o)
  | ETimers now => timers now o
  | EAccept m address => on_accept m address o
  end.
