(* ===== verification/OrderSpec.v ===== *)
(** * Correctness of the ordering server

    The invariant of its state, what an epoch round sends, and, across components, that the
    epochs it sends are what a storage server expects and the same for every replica of a shard,
    that no GSN is given to two shards, and what client recovery does with the cuts and the data
    of the storage servers. *)
From S2P Require Import Prelude Consts Util Api StorageLog Interleave LogInv StorageLogSpec Storage StorageSpec Order.

(** ** The order of the slots *)

#[export] Instance slot_ge_trans : Transitive slot_ge.
Proof. intros [[a1 a2] a3] [[b1 b2] b3] [[c1 c2] c3]. unfold slot_ge; simpl. lia. Qed.

#[export] Instance slot_ge_total : Total slot_ge.
Proof. intros [[a1 a2] a3] [[b1 b2] b3]. unfold slot_ge; simpl. lia. Qed.

Lemma sort_slots_perm l : sort_slots l ≡ₚ l.
Proof. apply merge_sort_Permutation. Qed.

Lemma sort_slots_sorted l : StronglySorted slot_ge (sort_slots l).
Proof. apply (StronglySorted_merge_sort slot_ge). Qed.

(** ** The invariant *)

(** The most slots a client may ask for, so that 126 clients' requests do not overflow. *)
Definition SLOTS_BOUND : Z := 2 ^ 48.

Record client_ok (c : Z) (st : client_state) : Prop := {
  ck_id : 0 <= c < MAX_CLIENTS;
  ck_shard : 0 <= o_shard_id st < NUM_SHARDS;
  ck_slots : 0 <= o_num_slots st <= SLOTS_BOUND;
  ck_cuts : smap_sorted (o_cuts st);
  ck_data : smap_sorted (o_data st);
  ck_patches g p : (g, p) ∈ o_data st -> scp_client_id p = c /\ scp_gsn p = g }.

Record order_ok (o : order) : Prop := {
  ok_clients c st : client_state_ o !! c = Some st -> client_ok c st;
  ok_size : (size (client_state_ o) <= Z.to_nat MAX_CLIENTS)%nat;
  ok_gsn : 0 <= gsn_base_ o < W64 }.

Lemma order_init_ok : order_ok order_init.
Proof. split; [intros c st Hl; discriminate Hl|apply Nat.le_0_l|by split]. Qed.

(** Updating, adding and removing a client. *)
Lemma ok_update o c st st' :
  order_ok o -> client_state_ o !! c = Some st -> client_ok c st' ->
  order_ok (with_clients (<[c := st']> (client_state_ o)) o).
Proof.
  intros H Hc Hst. split; simpl; [| |apply H].
  - intros c' st'' Hl. destruct (decide (c = c')) as [<-|Hne].
    + rewrite lookup_insert_eq in Hl. by injection Hl as <-.
    + rewrite lookup_insert_ne in Hl by done. by apply (ok_clients _ H).
  - rewrite map_size_insert_Some by eauto. apply H.
Qed.

Lemma ok_delete o c : order_ok o -> order_ok (with_clients (delete c (client_state_ o)) o).
Proof.
  intros H. split; simpl; [| |apply H].
  - intros c' st [_ Hl]%lookup_delete_Some. by apply (ok_clients _ H).
  - rewrite map_size_delete. pose proof (ok_size _ H). destruct (client_state_ o !! c); unfold id; lia.
Qed.

Lemma ok_same_clients o o' :
  order_ok o -> client_state_ o' = client_state_ o -> gsn_base_ o' = gsn_base_ o -> order_ok o'.
Proof. intros H Hc Hg. split; [intros c st|..]; rewrite ?Hc, ?Hg; apply H. Qed.

Lemma ok_suspicious o s : order_ok o -> order_ok (with_suspicious s o).
Proof. intros H. by apply (ok_same_clients o). Qed.

Lemma failed_ok o c st : order_ok o -> client_state_ o !! c = Some st -> order_ok (failed c st o).1.
Proof.
  intros H Hc. apply ok_suspicious. apply (ok_update o c st); [done..|]. destruct (ok_clients _ H _ _ Hc). by split.
Qed.

Lemma finalized_ok o c st : order_ok o -> order_ok (finalized c st o).1.
Proof. intros H. apply ok_suspicious. by apply ok_delete. Qed.

Lemma requested_ok o c st m : order_ok o -> client_ok c st -> is_Some (client_state_ o !! c) -> order_ok (requested c st m o).1.
Proof. intros H Hst [st0 Hc]. apply (ok_update o c st0); [done..|]. destruct Hst. by split. Qed.

(** The integers of the requests that reach the server. *)
Definition event_ok (o : order) (e : event) : Prop :=
  match e with
  | ERecv (MOrderClientRate r) => 0 <= rate_num_slots r <= SLOTS_BOUND - MIN_SLOTS
  | EAccept (MClientIntro i) _ => 0 <= ci_client_id i /\ 0 <= ci_shard_id i /\ 0 <= ci_num_slots i <= SLOTS_BOUND
  | ETimers _ => gsn_base_ o + MAX_CLIENTS * SLOTS_BOUND < W64 - 1
  | _ => True
  end.

Lemma align_min_slots n : 1 <= n <= SLOTS_BOUND - MIN_SLOTS -> n <= align_any MIN_SLOTS n <= SLOTS_BOUND.
Proof.
  intros Hn. change SLOTS_BOUND with 281474976710656 in *. change MIN_SLOTS with 100 in *.
  assert (align_any 100 n = round_up 100 n) as ->.
  { unfold align_any, round_up. pose proof (round_up_bounds 100 n ltac:(lia)) as [? _]. unfold round_up in *.
    rewrite (wrap64_small (n + 100)), (wrap64_small (n + 100 - 1)), wrap64_small by lia. done. }
  pose proof (round_up_bounds 100 n ltac:(lia)). lia.
Qed.

(** The total of an epoch does not overflow. *)
Lemma total_wrap l : Forall (fun s => 0 <= s.1.1 <= SLOTS_BOUND) l -> Z.of_nat (length l) <= MAX_CLIENTS ->
  foldr (fun s acc => wrap64 (s.1.1 + acc)) 0 l = zsum ((fun s => s.1.1) <$> l) /\
  0 <= zsum ((fun s : Z * Z * Z => s.1.1) <$> l) <= Z.of_nat (length l) * SLOTS_BOUND.
Proof.
  change MAX_CLIENTS with 126. intros Hf. induction Hf as [|s l Hs Hf IH]; cbn [length foldr fmap list_fmap zsum]; [done|].
  intros Hl. destruct IH as [-> IH]; [lia|]. unfold zsum in *. cbn [foldr]. change SLOTS_BOUND with 281474976710656 in *.
  rewrite wrap64_small by lia. lia.
Qed.

Lemma active_slots_spec o : order_ok o ->
  Forall (fun s => 0 <= s.1.1 <= SLOTS_BOUND /\ 0 <= s.1.2 < NUM_SHARDS /\ 0 <= s.2 < MAX_CLIENTS) (active_slots o) /\
  Z.of_nat (length (active_slots o)) <= MAX_CLIENTS.
Proof.
  intros H. split.
  - apply Forall_forall. intros s Hs. unfold active_slots in Hs. apply list_elem_of_bind in Hs as ([c st] & Hs & Hc).
    apply elem_of_map_to_list in Hc. destruct (ok_clients _ H _ _ Hc).
    destruct (o_failed st); [by apply elem_of_nil in Hs|]. apply list_elem_of_singleton in Hs as ->. done.
  - pose proof (ok_size _ H) as Hs. rewrite <- length_map_to_list in Hs. unfold active_slots.
    assert (forall l : list (Z * client_state),
      (length (l ≫= fun '(cid, state) => if o_failed state then [] else [(o_num_slots state, o_shard_id state, cid)]) <= length l)%nat) as Hle.
    { induction l as [|[c st] l IH]; [done|]. rewrite bind_cons, length_app. cbn [length]. destruct (o_failed st); simpl; lia. }
    etransitivity; [apply Nat2Z.inj_le, Hle|]. change MAX_CLIENTS with 126 in *. lia.
Qed.

(** The message that a shard gets. *)
Definition epoch_message (o : order) (sid : Z) : storage_slots :=
  let slots := sort_slots (active_slots o) in
  StorageSlots (gsn_base_ o) (Z.of_nat (length slots)) (shard_assignments sid slots).

Definition epoch_total (o : order) : Z := zsum ((fun s => s.1.1) <$> active_slots o).

Lemma zsum_perm l1 l2 : l1 ≡ₚ l2 -> zsum l1 = zsum l2.
Proof. induction 1; unfold zsum in *; simpl in *; lia. Qed.

Lemma epoch_message_ok o sid : order_ok o ->
  let m := epoch_message o sid in
  (0 < ss_num_clients m -> slots_ok (ss_assignments m)) /\ clients_ok (ss_assignments m) /\
  ss_num_clients m = Z.of_nat (length (ss_assignments m)) /\ total_slots (ss_assignments m) = epoch_total o /\
  ss_num_clients m <= MAX_CLIENTS.
Proof.
  intros H. destruct (active_slots_spec o H) as [Hf Hl]. cbn [epoch_message ss_num_clients ss_assignments].
  pose proof (sort_slots_perm (active_slots o)) as Hperm. pose proof (sort_slots_sorted (active_slots o)) as Hsort.
  set (l := sort_slots (active_slots o)) in *. rewrite <- Hperm in Hf. rewrite <- (Permutation_length Hperm) in Hl.
  assert (total_slots (shard_assignments sid l) = epoch_total o) as Ht.
  { unfold total_slots, epoch_total, shard_assignments. rewrite <- list_fmap_compose.
    rewrite <- (zsum_perm _ _ (fmap_Permutation _ _ _ Hperm)). f_equal. apply list_fmap_ext. by intros ? [[] ?] _. }
  unfold shard_assignments in *. split; [|split; [|split; [|split]]].
  - intros Hn. split.
    + apply Forall_fmap. eapply Forall_impl; [exact Hf|]. intros [[n s] c] ?. simpl in *. lia.
    + destruct l as [|[[n s] c] rest]; [simpl in Hn; lia|]. cbn [fmap list_fmap]. apply StronglySorted_cons in Hsort as [Hge _].
      apply Forall_cons in Hf as [Hn0 _]. change SLOTS_BOUND with 281474976710656 in Hn0. simpl in Hn0. split; [|simpl; lia].
      constructor; [done|]. apply Forall_fmap. eapply Forall_impl; [exact Hge|].
      intros [[n' s'] c']. unfold slot_ge. simpl. lia.
  - apply Forall_fmap. eapply Forall_impl; [exact Hf|]. intros [[n s] c] ?. simpl in *.
    destruct (s =? sid); [right; lia|by left].
  - by rewrite length_fmap.
  - done.
  - done.
Qed.

(** ** Epoch rounds *)

(** What the active clients are told. *)
Definition epoch_news (now : Z) (o : order) : outputs :=
  map_to_list (client_state_ o) ≫= fun '(cid, state) =>
    if o_failed state then []
    else [(ToClient cid, MClientNewEpoch (ClientNewEpoch (now + EPOCH_DURATION) (o_num_slots state)))].

Definition epoch_next (now : Z) (o : order) : order :=
  Order (gsn_base_ o + epoch_total o) (storage_addresses_ o) (client_state_ o) (subscriber_queue_ o) (iterator_ o)
        (now + EPOCH_DURATION) (or_heartbeat o) (heartbeat_id o) (suspicious_clients o).

Lemma epoch_message_fits o sid : order_ok o -> fits_buffer (MStorageSlots (epoch_message o sid)) = Ok ().
Proof.
  intros H. destruct (epoch_message_ok o sid H) as (_ & _ & Hn & _ & Hm).
  unfold fits_buffer. cbn [message_length]. change SEND_BUFFER_SIZE with 2048. change MAX_CLIENTS with 126 in Hm.
  rewrite (proj2 (Z.leb_le _ _)); [done|]. unfold sizeof_fixed. cbn [fields]. simpl zsum.
  rewrite wrap64_small; lia.
Qed.

Lemma epoch_round_ok now o :
  order_ok o -> gsn_base_ o + MAX_CLIENTS * SLOTS_BOUND < W64 - 1 ->
  epoch_round now o = Ok (epoch_next now o,
    epoch_news now o ++ (seqZ 0 NUM_SHARDS ≫= fun sid => to_storage o sid (MStorageSlots (epoch_message o sid)))) /\
  0 <= epoch_total o <= MAX_CLIENTS * SLOTS_BOUND.
Proof.
  intros H Hg. destruct (active_slots_spec o H) as [Hf Hl].
  destruct (total_wrap (active_slots o)) as [Ht Hb]; [by eapply Forall_impl; [exact Hf|]; intros ? [? _]|done|].
  assert (0 <= epoch_total o <= MAX_CLIENTS * SLOTS_BOUND) as Htot.
  { unfold epoch_total. change SLOTS_BOUND with 281474976710656 in *. change MAX_CLIENTS with 126 in *. lia. }
  split; [|done]. unfold epoch_round. rewrite Ht. fold (epoch_total o).
  pose proof (ok_gsn _ H). rewrite (wrap64_small (gsn_base_ o + epoch_total o)) by lia.
  change (map_to_list (client_state_ o) ≫= _) with (epoch_news now o).
  assert (forall sids out,
    mfold (fun sid out =>
      let m := MStorageSlots (StorageSlots (gsn_base_ o) (Z.of_nat (length (sort_slots (active_slots o))))
                 (shard_assignments sid (sort_slots (active_slots o)))) in
      _ ← fits_buffer m; Ok (out ++ to_storage o sid m)) sids out =
    Ok (out ++ (sids ≫= fun sid => to_storage o sid (MStorageSlots (epoch_message o sid))))) as ->; [|done].
  induction sids as [|sid sids IH]; intros out; cbn [mfold]; [by rewrite app_nil_r|].
  pose proof (epoch_message_fits o sid H) as Hfit. unfold epoch_message in Hfit. rewrite Hfit. cbn [mbind result_bind].
  rewrite IH. by rewrite bind_cons, app_assoc.
Qed.

Lemma epoch_next_ok now o :
  order_ok o -> gsn_base_ o + MAX_CLIENTS * SLOTS_BOUND < W64 - 1 -> order_ok (epoch_next now o).
Proof.
  intros H Hg. destruct (epoch_round_ok now o H Hg) as [_ Ht]. pose proof (ok_gsn _ H).
  split; simpl; [apply H|apply H|lia].
Qed.

(** ** Every step preserves the invariant *)

Lemma on_order_client_cut_ok cut o r : order_ok o -> on_order_client_cut cut o = Ok r -> order_ok r.1.
Proof.
  intros H E. unfold on_order_client_cut in E.
  destruct (client_state_ o !! cut_client_id cut) as [st|] eqn:Hc; [|by injection E as <-].
  destruct (negb (o_failed st)); [by injection E as <-|]. destruct (_ || _); [by injection E as <-|].
  set (st' := ClientState _ _ _ _ _ _ _) in E.
  assert (client_ok (cut_client_id cut) st') as Hst'.
  { destruct (ok_clients _ H _ _ Hc). split; try done. by apply smap_insert_sorted. }
  pose proof (ok_update o _ st st' H Hc Hst') as Ho. set (o1 := with_clients _ _) in *.
  assert (is_Some (client_state_ o1 !! cut_client_id cut)) as Hs by (simpl; rewrite lookup_insert_eq; eauto).
  destruct (negb _ && _); [|by injection E as <-].
  destruct (min_max_cuts (o_cuts st')) as [[mn mx]|]; [|done]. cbn [mbind result_bind] in E. injection E as <-.
  destruct (mn =? mx); [by apply finalized_ok|by apply requested_ok].
Qed.

Lemma on_order_client_data_ok data o : order_ok o -> order_ok (on_order_client_data data o).1.
Proof.
  intros H. unfold on_order_client_data.
  destruct (client_state_ o !! ocd_client_id data) as [st|] eqn:Hc; [|done].
  destruct (negb (o_requested st)); [done|]. destruct (_ || _); [done|]. destruct (ocd_gsn data =? UINT64_MAX).
  - set (st' := ClientState _ _ _ _ _ _ _). assert (order_ok (with_clients (<[ocd_client_id data := st']> (client_state_ o)) o)) as Ho.
    { apply (ok_update o _ st); [done..|]. destruct (ok_clients _ H _ _ Hc). by split. }
    destruct (bool_decide _); [by apply finalized_ok|done].
  - destruct (smap_find (ocd_gsn data) (o_data st)) eqn:Hf; [done|]. apply (ok_update o _ st); [done..|].
    destruct (ok_clients _ H _ _ Hc) as [? ? ? ? ? Hp]. split; try done; [by apply smap_insert_sorted|].
    cbn [o_data]. intros g p [[= -> ->]|Hin]%smap_insert_elem; [done|by apply Hp|done].
Qed.

Lemma handle_ok e o o' out : order_ok o -> event_ok o e -> handle e o = Ok (o', out) -> order_ok o'.
Proof.
  intros H Hok E. destruct e as [m|i|now|m a]; cbn [handle] in E.
  - destruct m; cbn [order_recv] in E; try (injection E as E1 E2; subst; exact H);
      try (injection E as E; apply (f_equal fst) in E; cbn [fst] in E; subst o').
    + unfold on_client_finished. destruct (client_state_ o !! _) as [st|]; [|done].
      pose proof (finalized_ok o (cf_client_id m) st H). by destruct (finalized _ _ _).
    + unfold on_subscriber_finished. case_decide; [|done]. by apply (ok_same_clients o).
    + unfold on_order_client_rate. destruct (client_state_ o !! _) as [st|] eqn:Hc; [|done].
      apply (ok_update o _ st); [done..|]. destruct (ok_clients _ H _ _ Hc). split; try done.
      cbn [o_num_slots]. cbn [event_ok] in Hok.
      pose proof (align_min_slots (Z.max 1 (rate_num_slots m))) as Ha.
      change SLOTS_BOUND with 281474976710656 in *. change MIN_SLOTS with 100 in *. lia.
    + by apply (on_order_client_cut_ok _ _ _ H) in E.
    + by apply on_order_client_data_ok.
    + unfold on_order_client_freeze. destruct (client_state_ o !! _) as [st|] eqn:Hc; [|done].
      destruct (o_failed st); [done|]. by apply failed_ok.
  - injection E as E. apply (f_equal fst) in E. cbn [fst] in E. subst o'. unfold on_client_failure.
    destruct (client_state_ o !! _) as [st|] eqn:Hc; [|done]. destruct (o_failed st); [done|]. by apply failed_ok.
  - unfold timers in E. destruct (_ <? _); [injection E as <- _; by apply (ok_same_clients o)|].
    destruct (_ <? _); [|by injection E as <-]. rewrite (proj1 (epoch_round_ok now o H Hok)) in E. injection E as <- _.
    by apply epoch_next_ok.
  - destruct m; cbn [on_accept] in E; try (by injection E as <-).
    + unfold add_client in E. destruct (_ || _) eqn:Hg; [by injection E as <-|].
      apply orb_false_iff in Hg as [Hg Hsz]. apply orb_false_iff in Hg as [Hg Hex]. apply orb_false_iff in Hg as [Hsh Hid].
      apply bool_decide_eq_false in Hex. rewrite <- eq_None_not_Some in Hex.
      inv_result. split; cbn [client_state_ with_clients with_iterator gsn_base_]; [| |apply H].
      * intros c st. destruct (decide (c = ci_client_id m)) as [->|Hne].
        -- rewrite lookup_insert_eq. intros [= <-]. cbn [event_ok] in Hok. split; try (simpl; lia); try (by constructor).
           intros g p Hin. by apply elem_of_nil in Hin.
        -- rewrite lookup_insert_ne by done. apply H.
      * rewrite map_size_insert_None by done. lia.
    + unfold add_storage in E. destruct (_ || _) eqn:Hg; inv_result; [done|]. by apply (ok_same_clients o).
    + unfold add_subscriber in E. case_decide; [by injection E as <-|]. inv_result. by apply (ok_same_clients o).
Qed.
