(* ===== verification/EpochSpec.v ===== *)
(** * The ordering server and the storage servers together

    Runs of the ordering server, the epochs a storage server receives from it, and what the two
    components promise together: the epochs are what the storage server's theorems assume, all
    replicas of a shard get the same ones, and every GSN belongs to one client of one shard. *)
From S2P Require Import Prelude Consts Util Api StorageLog Interleave LogInv StorageLogSpec Storage StorageSpec Order OrderSpec.

#[local] Opaque NUM_SHARDS.

(** ** Runs of the ordering server *)

Fixpoint order_exec (es : list event) (o : order) : result (order * outputs) :=
  match es with
  | [] => Ok (o, [])
  | e :: es => '(o, out) ← handle e o; '(o, out') ← order_exec es o; Ok (o, out ++ out')
  end.

(** The events of the run are well formed when they are handled. *)
Fixpoint order_events_ok (es : list event) (o : order) : Prop :=
  match es with
  | [] => True
  | e :: es => event_ok o e /\ match handle e o with Ok (o, _) => order_events_ok es o | Err _ => True end
  end.

Lemma order_exec_cons e es o r :
  order_exec (e :: es) o = Ok r ->
  exists o1 out1 out2, handle e o = Ok (o1, out1) /\ order_exec es o1 = Ok (r.1, out2) /\ r.2 = out1 ++ out2.
Proof.
  cbn [order_exec]. destruct (handle e o) as [[o1 out1]|]; [|done]. cbn [mbind result_bind].
  destruct (order_exec es o1) as [[o2 out2]|] eqn:E; [|done]. cbn [mbind result_bind].
  intros [= <-]. by exists o1, out1, out2.
Qed.

Lemma order_exec_ok es o r : order_ok o -> order_events_ok es o -> order_exec es o = Ok r -> order_ok r.1.
Proof.
  revert o r. induction es as [|e es IH]; intros o r H Hok E; [by injection E as <-|].
  apply order_exec_cons in E as (o1 & out1 & out2 & Eh & Ee & _). destruct Hok as [Hok Hoks]. rewrite Eh in Hoks.
  apply (IH o1 (r.1, out2)); [by eapply handle_ok|done|done].
Qed.

(** ** Epochs *)

(** Whether handling [e] starts an epoch. *)
Definition starts_epoch (e : event) (o : order) : bool :=
  match e with ETimers now => negb (or_heartbeat o <? now) && (or_epoch o <? now) | _ => false end.

(** The epochs of shard [sid] in a run. *)
Fixpoint epochs (sid : Z) (es : list event) (o : order) : list storage_slots :=
  match es with
  | [] => []
  | e :: es =>
    (if starts_epoch e o then [epoch_message o sid] else []) ++
    match handle e o with Ok (o, _) => epochs sid es o | Err _ => [] end
  end.

(** An epoch as an event of the storage server. *)
Definition epoch_event (m : storage_slots) : Storage.event := EControl [] (MStorageSlots m).

(** The (client, GSN) slots of the shard in a run: the contents of its log. *)
Definition shard_log (sid : Z) (es : list event) (o : order) : list (Z * Z) :=
  (epoch_event <$> epochs sid es o) ≫= new_slots.

(** The epochs sent to replica [rid] of shard [sid]. *)
Definition slots_sent (sid rid : Z) (out : outputs) : list storage_slots :=
  omap (fun x => match x with
    | (ToStorage s r, MStorageSlots m) => if bool_decide (s = sid) && bool_decide (r = rid) then Some m else None
    | _ => None
    end) out.

Definition not_slots (x : destination * message) : Prop :=
  match x.2 with MStorageSlots _ => False | _ => True end.

Lemma slots_sent_app sid rid o1 o2 : slots_sent sid rid (o1 ++ o2) = slots_sent sid rid o1 ++ slots_sent sid rid o2.
Proof. apply omap_app. Qed.

Lemma slots_sent_none sid rid out : Forall not_slots out -> slots_sent sid rid out = [].
Proof.
  induction 1 as [|[d m] out Hm _ IH]; [done|]. unfold slots_sent in *. cbn [omap list_omap].
  destruct d, m; try done.
Qed.

Lemma to_storage_not_slots o sid m : not_slots (ToStorage 0 0, m) -> Forall not_slots (to_storage o sid m).
Proof. intros Hm. apply Forall_fmap, Forall_true. done. Qed.

Lemma failed_not_slots c st o : Forall not_slots (failed c st o).2.
Proof. by apply to_storage_not_slots. Qed.

Lemma requested_not_slots c st m o : Forall not_slots (requested c st m o).2.
Proof. by apply to_storage_not_slots. Qed.

Lemma finalized_not_slots c st o : Forall not_slots (finalized c st o).2.
Proof.
  apply Forall_app_2; [|by apply to_storage_not_slots]. destruct (o_requested st); [|done].
  apply Forall_bind, Forall_true. intros [g p]. by apply to_storage_not_slots.
Qed.

(** A step that starts no epoch leaves [gsn_base_] alone and sends no slots. *)
Lemma handle_quiet e o o' out :
  order_ok o -> event_ok o e -> handle e o = Ok (o', out) -> starts_epoch e o = false ->
  gsn_base_ o' = gsn_base_ o /\ Forall not_slots out.
Proof.
  intros H Hok E Hs. destruct e as [m|i|now|m a]; cbn [handle] in E.
  - destruct m; cbn [order_recv] in E; try (injection E as <- <-; done); try (injection E as E).
    + unfold on_client_finished in E. destruct (client_state_ o !! _) as [st|]; [|by injection E as <- <-].
      pose proof (finalized_not_slots (cf_client_id m) st o) as Hf.
      assert (gsn_base_ (finalized (cf_client_id m) st o).1 = gsn_base_ o) as Hg by done.
      destruct (finalized _ _ _) as [o1 out1]. injection E as <- <-. split; [done|]. by constructor.
    + unfold on_subscriber_finished in E. case_decide; injection E as <- <-; [|done]. split; [done|]. by constructor.
    + unfold on_order_client_rate in E. destruct (client_state_ o !! _); by injection E as <- <-.
    + unfold on_order_client_cut in E. destruct (client_state_ o !! _) as [st|]; [|by injection E as <- <-].
      destruct (negb _); [by injection E as <- <-|]. destruct (_ || _); [by injection E as <- <-|].
      destruct (negb _ && _); [|by injection E as <- <-]. destruct (min_max_cuts _) as [[mn mx]|]; [|done].
      cbn [mbind result_bind] in E. injection E as E. match type of E with context [finalized ?c ?st ?o1] =>
        pose proof (finalized_not_slots c st o1) as H1; pose proof (requested_not_slots c st mn o1) as H2 end.
      destruct (mn =? mx); injection E as <- <-; done.
    + unfold on_order_client_data in E. destruct (client_state_ o !! _) as [st|]; [|by injection E as <- <-].
      destruct (negb _); [by injection E as <- <-|]. destruct (_ || _); [by injection E as <- <-|].
      destruct (_ =? _); [|destruct (smap_find _ _); by injection E as <- <-].
      match type of E with context [finalized ?c ?st ?o1] => pose proof (finalized_not_slots c st o1) as H1 end.
      destruct (bool_decide _); injection E as <- <-; done.
    + unfold on_order_client_freeze in E. destruct (client_state_ o !! _) as [st|]; [|by injection E as <- <-].
      destruct (o_failed st); injection E as <- <-; [done|]. split; [done|apply failed_not_slots].
  - injection E as E. unfold on_client_failure in E. destruct (client_state_ o !! _) as [st|]; [|by injection E as <- <-].
    destruct (o_failed st); injection E as <- <-; [done|]. split; [done|apply failed_not_slots].
  - unfold timers in E. cbn [starts_epoch] in Hs. destruct (_ <? _).
    + injection E as <- <-. split; [done|]. apply Forall_bind, Forall_true. intros c. simpl. destruct (decide (c ∈ suspicious_clients o)); by repeat constructor.
    + destruct (_ <? _); [done|]. by injection E as <- <-.
  - destruct m; cbn [on_accept] in E; try (by injection E as <- <-).
    + unfold add_client in E. destruct (_ || _); inv_result; (split; [done|]); by repeat constructor.
    + unfold add_storage in E. destruct (_ || _); inv_result; done.
    + unfold add_subscriber in E. case_decide; inv_result; (split; [done|]); by repeat constructor.
Qed.

(** A step that starts an epoch is a round of [epoch_round]. *)
Lemma handle_epoch e o o' out :
  order_ok o -> event_ok o e -> handle e o = Ok (o', out) -> starts_epoch e o = true ->
  exists now, o' = epoch_next now o /\ 0 <= epoch_total o /\ gsn_base_ o + epoch_total o < W64 - 1 /\
    out = epoch_news now o ++ (seqZ 0 NUM_SHARDS ≫= fun sid => to_storage o sid (MStorageSlots (epoch_message o sid))).
Proof.
  intros H Hok E Hs. destruct e as [| |now|]; try done. cbn [starts_epoch] in Hs. cbn [handle] in E. unfold timers in E.
  destruct (_ <? _); [done|]. cbn [negb andb] in Hs. rewrite Hs in E. cbn [event_ok] in Hok.
  destruct (epoch_round_ok now o H Hok) as [Er Ht]. rewrite Er in E. injection E as <- <-.
  exists now. split; [done|]. change MAX_CLIENTS with 126 in *. change SLOTS_BOUND with 281474976710656 in *. split; [lia|]. by split; [lia|].
Qed.

Lemma replicas_NoDup o sid : NoDup (replicas o sid).
Proof. apply NoDup_fst_map_to_list. Qed.

(** What [to_storage] delivers to one replica. *)
Lemma slots_sent_to_storage o sid rid s m :
  slots_sent sid rid (to_storage o s (MStorageSlots m)) =
  if decide (s = sid /\ rid ∈ replicas o s) then [m] else [].
Proof.
  unfold to_storage. pose proof (replicas_NoDup o s) as Hnd. induction Hnd as [|r rs Hr _ IH].
  { rewrite decide_False by set_solver. done. }
  unfold slots_sent in *. cbn [fmap list_fmap omap list_omap]. rewrite IH.
  destruct (decide (s = sid)) as [->|]; [|rewrite !decide_False by tauto; rewrite bool_decide_false by done; done].
  rewrite bool_decide_true by done. destruct (decide (r = rid)) as [->|].
  - rewrite bool_decide_true by done. rewrite decide_False by tauto. rewrite decide_True by set_solver. done.
  - rewrite bool_decide_false by done. cbn [andb]. apply decide_ext. set_solver.
Qed.

Lemma slots_sent_epoch o sid rid now :
  0 <= sid < NUM_SHARDS -> rid ∈ replicas o sid ->
  slots_sent sid rid (epoch_news now o ++
    (seqZ 0 NUM_SHARDS ≫= fun s => to_storage o s (MStorageSlots (epoch_message o s)))) = [epoch_message o sid].
Proof.
  intros Hsid Hr. rewrite slots_sent_app, (slots_sent_none _ _ (epoch_news now o)).
  2:{ apply Forall_bind, Forall_true. intros [c st]. simpl. destruct (o_failed st); simpl; by repeat constructor. }
  assert (forall sids, NoDup sids ->
    slots_sent sid rid (sids ≫= fun s => to_storage o s (MStorageSlots (epoch_message o s))) =
    if decide (sid ∈ sids) then [epoch_message o sid] else []) as ->.
  2:{ rewrite decide_True; [done|]. apply elem_of_seqZ. lia. }
  2:{ apply NoDup_seqZ. }
  intros sids Hnd. induction Hnd as [|s sids Hs _ IH].
  { rewrite decide_False by set_solver. done. }
  rewrite bind_cons, slots_sent_app, IH, slots_sent_to_storage. destruct (decide (s = sid)) as [->|].
  - rewrite decide_True by done. rewrite decide_False by done. rewrite decide_True by set_solver. done.
  - rewrite decide_False by tauto. cbn [app]. apply decide_ext. set_solver.
Qed.

(** [storage_addresses_] only changes when a storage server connects. *)
Definition storage_intro_event (e : event) : Prop :=
  match e with EAccept (MStorageIntro _) _ => True | _ => False end.

Lemma handle_storage e o o' out :
  handle e o = Ok (o', out) -> ~ storage_intro_event e -> storage_addresses_ o' = storage_addresses_ o.
Proof.
  intros E Hs. destruct e as [m|i|now|m a]; cbn [handle] in E.
  - destruct m; cbn [order_recv] in E; try (injection E as <- <-; done); try (injection E as E).
    + unfold on_client_finished in E. destruct (client_state_ o !! _); by injection E as <- <-.
    + unfold on_subscriber_finished in E. case_decide; by injection E as <- <-.
    + unfold on_order_client_rate in E. destruct (client_state_ o !! _); by injection E as <- <-.
    + unfold on_order_client_cut in E. destruct (client_state_ o !! _) as [st|]; [|by injection E as <- <-].
      destruct (negb _); [by injection E as <- <-|]. destruct (_ || _); [by injection E as <- <-|].
      destruct (negb _ && _); [|by injection E as <- <-]. destruct (min_max_cuts _) as [[mn mx]|]; [|done].
      cbn [mbind result_bind] in E. destruct (mn =? mx); by injection E as <- <-.
    + unfold on_order_client_data in E. destruct (client_state_ o !! _) as [st|]; [|by injection E as <- <-].
      destruct (negb _); [by injection E as <- <-|]. destruct (_ || _); [by injection E as <- <-|].
      destruct (_ =? _); [|destruct (smap_find _ _); by injection E as <- <-].
      destruct (bool_decide _); by injection E as <- <-.
    + unfold on_order_client_freeze in E. destruct (client_state_ o !! _) as [st|]; [|by injection E as <- <-].
      destruct (o_failed st); by injection E as <- <-.
  - injection E as E. unfold on_client_failure in E. destruct (client_state_ o !! _) as [st|]; [|by injection E as <- <-].
    destruct (o_failed st); by injection E as <- <-.
  - unfold timers in E. destruct (_ <? _); [by injection E as <- <-|]. destruct (_ <? _); [|by injection E as <- <-].
    unfold epoch_round in E. inv_result. done.
  - destruct m; cbn [on_accept] in E; try (by injection E as <- <-).
    + unfold add_client in E. destruct (_ || _); by inv_result.
    + by destruct Hs.
    + unfold add_subscriber in E. case_decide; by inv_result.
Qed.

Lemma epochs_cons sid e es o :
  epochs sid (e :: es) o = (if starts_epoch e o then [epoch_message o sid] else []) ++
    match handle e o with Ok (o, _) => epochs sid es o | Err _ => [] end.
Proof. done. Qed.

(** Every replica is sent the epochs of its shard. *)
Lemma slots_sent_run es o r sid rid :
  order_ok o -> order_events_ok es o -> order_exec es o = Ok r ->
  Forall (fun e => ~ storage_intro_event e) es -> 0 <= sid < NUM_SHARDS -> rid ∈ replicas o sid ->
  slots_sent sid rid r.2 = epochs sid es o.
Proof.
  intros H Hok E Hs Hsid. revert o r H Hok E. induction Hs as [|e es He Hes IH]; intros o r H Hok E Hr; [by injection E as <-|].
  apply order_exec_cons in E as (o1 & out1 & out2 & Eh & Ee & ->). destruct Hok as [Hok Hoks]. rewrite Eh in Hoks.
  rewrite slots_sent_app, epochs_cons, Eh. f_equal.
  - destruct (starts_epoch e o) eqn:Hst.
    + destruct (handle_epoch _ _ _ _ H Hok Eh Hst) as (now & _ & _ & _ & ->). by apply slots_sent_epoch.
    + apply slots_sent_none. by apply (handle_quiet e o o1).
  - rewrite <- (IH o1 (r.1, out2)); [done|by eapply handle_ok|done|done|].
    unfold replicas. by rewrite (handle_storage _ _ _ _ Eh He).
Qed.

(** ** The slots of an epoch *)

Lemma assigned_elem slots g0 sched c g :
  (c, g) ∈ assigned slots g0 sched <->
  exists i j a, sched !! i = Some j /\ slots !! j = Some a /\ as_client_id a = c /\ c <> UINT64_MAX /\ g = g0 + Z.of_nat i.
Proof.
  revert g0. induction sched as [|k sched IH]; intros g0; cbn [assigned].
  { split; [by intros ?%elem_of_nil|by intros (i & j & a & ? & _)]. }
  rewrite elem_of_app, IH. split.
  - intros [Hk|(i & j & a & Hi & Hj & Hc & Hm & ->)].
    + destruct (slots !! k) as [a|] eqn:Ha; [|by apply elem_of_nil in Hk].
      destruct (Z.eqb_spec (as_client_id a) UINT64_MAX); [by apply elem_of_nil in Hk|].
      apply list_elem_of_singleton in Hk as [= -> ->]. exists 0%nat, k, a. split_and!; [done..|lia].
    + exists (S i), j, a. split_and!; [done..|lia].
  - intros ([|i] & j & a & Hi & Hj & Hc & Hm & ->).
    + left. injection Hi as ->. rewrite Hj, Hc. rewrite (proj2 (Z.eqb_neq _ _)) by done.
      apply list_elem_of_singleton. f_equal. lia.
    + right. exists i, j, a. split_and!; [done..|lia].
Qed.

(** All shards place the slots of an epoch by the same schedule. *)
Lemma epoch_slots o :
  order_ok o -> exists sched, Z.of_nat (length sched) = epoch_total o /\
    Forall (fun j => (j < length (sort_slots (active_slots o)))%nat) sched /\
    forall sid, new_slots (epoch_event (epoch_message o sid)) =
      assigned (shard_assignments sid (sort_slots (active_slots o))) (gsn_base_ o) sched.
Proof.
  intros H. set (l := sort_slots (active_slots o)).
  destruct (epoch_message_ok o 0 H) as (Hok & _ & Hn & Ht & _). unfold new_slots, epoch_event.
  assert (forall sid, shard_assignments sid l = shard_assignments sid l /\ length (shard_assignments sid l) = length l /\
    as_num_slots <$> shard_assignments sid l = (as_num_slots <$> shard_assignments 0 l)) as Hs.
  { intros sid. unfold shard_assignments. rewrite length_fmap, <- !list_fmap_compose. split_and!; [done..|].
    apply list_fmap_ext. by intros ? [[] ?] _. }
  cbn [epoch_message ss_num_clients ss_assignments ss_start_gsn] in *. fold l in Hok, Ht |- *.
  destruct (Z.ltb_spec 0 (Z.of_nat (length l))) as [Hl|Hl].
  - destruct (schedule_occurrences _ (Hok Hl)) as (sched & Es & _ & Hlt).
    pose proof (schedule_length _ _ (Hok Hl) Es) as Hlen. rewrite (proj1 (proj2 (Hs 0))) in Es, Hlt.
    exists sched. split; [lia|]. split; [done|]. intros sid.
    by rewrite (schedule_counts _ (shard_assignments 0 l) _ (proj2 (proj2 (Hs sid)))), Es.
  - exists []. assert (l = []) as Hnil by (destruct l; [done|simpl in Hl; lia]).
    rewrite Hnil in Ht. split; [by rewrite <- Ht|]. by split; [constructor|].
Qed.

Lemma epoch_slots_elem o sched sid c g :
  order_ok o -> (c, g) ∈ assigned (shard_assignments sid (sort_slots (active_slots o))) (gsn_base_ o) sched <->
  exists i j num, sched !! i = Some j /\ sort_slots (active_slots o) !! j = Some (num, sid, c) /\ g = gsn_base_ o + Z.of_nat i.
Proof.
  intros H. rewrite assigned_elem. unfold shard_assignments. setoid_rewrite list_lookup_fmap.
  destruct (active_slots_spec o H) as [Hf _]. rewrite <- (sort_slots_perm (active_slots o)) in Hf.
  set (l := sort_slots (active_slots o)) in *. split.
  - intros (i & j & a & Hi & Hj & Hc & Hm & ->). destruct (l !! j) as [[[num s] c']|] eqn:Hl; [|done].
    injection Hj as <-. cbn [as_client_id] in *. exists i, j, num.
    destruct (Z.eqb_spec s sid); [|done]. by subst.
  - intros (i & j & num & Hi & Hj & ->). pose proof (Forall_lookup_1 _ _ _ _ Hf Hj) as (_ & _ & Hc).
    exists i, j, (Assignment c num). rewrite Hj. cbn [fmap option_fmap option_map as_client_id]. rewrite Z.eqb_refl.
    split_and!; try done. cbn [snd] in Hc. change MAX_CLIENTS with 126 in Hc. unfold UINT64_MAX. lia.
Qed.

(** One epoch: its GSNs go each to one client of one shard. *)
Lemma epoch_gsns o :
  order_ok o ->
  (forall g, gsn_base_ o <= g < gsn_base_ o + epoch_total o <->
     exists sid c, 0 <= sid < NUM_SHARDS /\ (c, g) ∈ new_slots (epoch_event (epoch_message o sid))) /\
  (forall g sid1 c1 sid2 c2, (c1, g) ∈ new_slots (epoch_event (epoch_message o sid1)) ->
     (c2, g) ∈ new_slots (epoch_event (epoch_message o sid2)) -> sid1 = sid2 /\ c1 = c2) /\
  (forall sid c g, (c, g) ∈ new_slots (epoch_event (epoch_message o sid)) -> gsn_base_ o <= g < gsn_base_ o + epoch_total o).
Proof.
  intros H. destruct (epoch_slots o H) as (sched & Hlen & Hlt & Hs). setoid_rewrite Hs.
  assert (forall sid c g, (c, g) ∈ assigned (shard_assignments sid (sort_slots (active_slots o))) (gsn_base_ o) sched ->
    gsn_base_ o <= g < gsn_base_ o + epoch_total o) as Hb.
  { intros sid c g Hg%assigned_bounds. simpl in Hg. lia. }
  split; [|split; [|done]].
  - intros g. split; [|intros (sid & c & _ & Hg); by apply Hb in Hg]. intros Hg.
    destruct (lookup_lt_is_Some_2 sched (Z.to_nat (g - gsn_base_ o))) as [j Hj]; [lia|].
    destruct (lookup_lt_is_Some_2 (sort_slots (active_slots o)) j) as [[[num sid] c] Hl].
    { by apply (Forall_lookup_1 _ _ _ _ Hlt Hj). }
    destruct (active_slots_spec o H) as [Hf _]. rewrite <- (sort_slots_perm (active_slots o)) in Hf.
    pose proof (Forall_lookup_1 _ _ _ _ Hf Hl) as (_ & Hsid & _).
    exists sid, c. split; [done|]. apply epoch_slots_elem; [done|]. exists (Z.to_nat (g - gsn_base_ o)), j, num.
    split_and!; [done..|lia].
  - intros g sid1 c1 sid2 c2. rewrite !epoch_slots_elem by done.
    intros (i & j & num & Hi & Hj & ->) (i' & j' & num' & Hi' & Hj' & E).
    assert (i' = i) as -> by lia. rewrite Hi in Hi'. injection Hi' as <-. rewrite Hj in Hj'. by injection Hj' as <- <- <-.
Qed.

(** ** The GSNs of a run *)

Lemma shard_log_cons sid e es o o1 out :
  handle e o = Ok (o1, out) ->
  shard_log sid (e :: es) o =
  (if starts_epoch e o then new_slots (epoch_event (epoch_message o sid)) else []) ++ shard_log sid es o1.
Proof.
  intros E. unfold shard_log. rewrite epochs_cons, E. destruct (starts_epoch e o); [|done].
  rewrite fmap_app, bind_app. cbn [fmap list_fmap]. by rewrite bind_cons, app_nil_r.
Qed.

Lemma handle_gsn e o o1 out :
  order_ok o -> event_ok o e -> handle e o = Ok (o1, out) ->
  gsn_base_ o1 = gsn_base_ o + (if starts_epoch e o then epoch_total o else 0) /\
  (starts_epoch e o = true -> 0 <= epoch_total o).
Proof.
  intros H Hok E. destruct (starts_epoch e o) eqn:Hs.
  - destruct (handle_epoch _ _ _ _ H Hok E Hs) as (now & -> & Ht & _). by split.
  - destruct (handle_quiet _ _ _ _ H Hok E Hs) as [-> _]. split; [lia|done].
Qed.

Lemma gsn_base_mono es o r :
  order_ok o -> order_events_ok es o -> order_exec es o = Ok r -> gsn_base_ o <= gsn_base_ r.1.
Proof.
  revert o r. induction es as [|e es IH]; intros o r H Hok E; [by injection E as <-|].
  apply order_exec_cons in E as (o1 & out1 & out2 & Eh & Ee & _). destruct Hok as [Hok Hoks]. rewrite Eh in Hoks.
  pose proof (IH o1 (r.1, out2) ltac:(by eapply handle_ok) Hoks Ee). destruct (handle_gsn _ _ _ _ H Hok Eh) as [Hg Ht].
  simpl in *. destruct (starts_epoch e o); [specialize (Ht eq_refl)|]; lia.
Qed.

Lemma shard_log_bounds es o r sid c g :
  order_ok o -> order_events_ok es o -> order_exec es o = Ok r -> (c, g) ∈ shard_log sid es o ->
  gsn_base_ o <= g < gsn_base_ r.1.
Proof.
  revert o r. induction es as [|e es IH]; intros o r H Hok E Hg; [by apply elem_of_nil in Hg|].
  apply order_exec_cons in E as (o1 & out1 & out2 & Eh & Ee & _). destruct Hok as [Hok Hoks]. rewrite Eh in Hoks.
  assert (order_ok o1) as H1 by by eapply handle_ok.
  destruct (handle_gsn _ _ _ _ H Hok Eh) as [Hb Ht]. pose proof (gsn_base_mono _ _ _ H1 Hoks Ee) as Hm.
  rewrite (shard_log_cons _ _ _ _ _ _ Eh), elem_of_app in Hg. cbn [fst] in Hm.
  destruct (starts_epoch e o); [specialize (Ht eq_refl)|].
  - destruct Hg as [Hg|Hg]; [apply epoch_gsns in Hg; [lia|done]|].
    specialize (IH o1 (r.1, out2) H1 Hoks Ee Hg). simpl in IH. lia.
  - destruct Hg as [Hg%elem_of_nil|Hg]; [done|]. specialize (IH o1 (r.1, out2) H1 Hoks Ee Hg). simpl in IH. lia.
Qed.

Lemma gsn_owner_exists es o r g :
  order_ok o -> order_events_ok es o -> order_exec es o = Ok r -> gsn_base_ o <= g < gsn_base_ r.1 ->
  exists sid c, 0 <= sid < NUM_SHARDS /\ (c, g) ∈ shard_log sid es o.
Proof.
  revert o r. induction es as [|e es IH]; intros o r H Hok E Hg; [injection E as <-; simpl in Hg; lia|].
  apply order_exec_cons in E as (o1 & out1 & out2 & Eh & Ee & _). destruct Hok as [Hok Hoks]. rewrite Eh in Hoks.
  assert (order_ok o1) as H1 by by eapply handle_ok.
  destruct (handle_gsn _ _ _ _ H Hok Eh) as [Hb Ht].
  destruct (decide (gsn_base_ o1 <= g)) as [Hle|Hlt].
  - destruct (IH o1 (r.1, out2) H1 Hoks Ee) as (sid & c & Hsid & Hin); [simpl; lia|].
    exists sid, c. split; [done|]. rewrite (shard_log_cons _ _ _ _ _ _ Eh). set_solver.
  - destruct (starts_epoch e o) eqn:Hs; [|lia].
    destruct (proj1 (proj1 (epoch_gsns o H) g)) as (sid & c & Hsid & Hin); [lia|].
    exists sid, c. split; [done|]. rewrite (shard_log_cons _ _ _ _ _ _ Eh), Hs. set_solver.
Qed.

Lemma gsn_owner_unique es o r g sid1 c1 sid2 c2 :
  order_ok o -> order_events_ok es o -> order_exec es o = Ok r ->
  (c1, g) ∈ shard_log sid1 es o -> (c2, g) ∈ shard_log sid2 es o -> sid1 = sid2 /\ c1 = c2.
Proof.
  revert o r. induction es as [|e es IH]; intros o r H Hok E G1 G2; [by apply elem_of_nil in G1|].
  apply order_exec_cons in E as (o1 & out1 & out2 & Eh & Ee & _). destruct Hok as [Hok Hoks]. rewrite Eh in Hoks.
  assert (order_ok o1) as H1 by by eapply handle_ok.
  destruct (handle_gsn _ _ _ _ H Hok Eh) as [Hb Ht].
  assert (forall sid c, (c, g) ∈ shard_log sid es o1 -> gsn_base_ o1 <= g) as Hlater.
  { intros sid c Hin. pose proof (shard_log_bounds _ _ _ _ _ _ H1 Hoks Ee Hin). lia. }
  rewrite (shard_log_cons sid1 _ _ _ _ _ Eh), elem_of_app in G1. rewrite (shard_log_cons sid2 _ _ _ _ _ Eh), elem_of_app in G2.
  destruct (starts_epoch e o) eqn:Hs.
  - assert (forall sid c, (c, g) ∈ new_slots (epoch_event (epoch_message o sid)) -> g < gsn_base_ o1) as Hnow.
    { intros sid c Hin%epoch_gsns; [lia|done]. }
    destruct G1 as [G1|G1], G2 as [G2|G2];
      [by apply (proj1 (proj2 (epoch_gsns o H)) g)| | |by apply (IH o1 (r.1, out2))];
      repeat match goal with G : _ |- _ => apply Hnow in G | G : _ |- _ => apply Hlater in G end; lia.
  - destruct G1 as [G1%elem_of_nil|G1], G2 as [G2%elem_of_nil|G2]; try done. by apply (IH o1 (r.1, out2)).
Qed.

(** C8: the GSNs form one total order over all shards.  In every run of the ordering server,
    whatever clients come, go, fail or change their rate, each GSN between the first and the
    last value of [gsn_base_] is a slot of exactly one client of exactly one shard, and no
    shard has a slot outside. *)
Theorem gsns_partitioned es o r :
  order_ok o -> order_events_ok es o -> order_exec es o = Ok r ->
  (forall g, gsn_base_ o <= g < gsn_base_ r.1 <->
     exists sid c, 0 <= sid < NUM_SHARDS /\ (c, g) ∈ shard_log sid es o) /\
  (forall g sid1 c1 sid2 c2, (c1, g) ∈ shard_log sid1 es o -> (c2, g) ∈ shard_log sid2 es o -> sid1 = sid2 /\ c1 = c2).
Proof.
  intros H Hok E. split.
  - intros g. split; [by apply gsn_owner_exists|]. intros (sid & c & _ & Hg). by apply (shard_log_bounds _ _ _ _ _ _ H Hok E Hg).
  - intros g sid1 c1 sid2 c2. by apply (gsn_owner_unique _ _ r).
Qed.

(** Two replicas of shard 0 connect, then clients 3 and 5; there are two epochs, the second one
    after client 5 has changed its rate. *)
Definition example_address : sockaddr_in := SockaddrIn 2 0 0 0.
Definition example_connect : list event :=
  [EAccept (MStorageIntro (StorageIntro 0 0 1 1000)) example_address;
   EAccept (MStorageIntro (StorageIntro 0 1 1 1001)) example_address].
Definition example_rounds : list event :=
  [EAccept (MClientIntro (ClientIntro 3 0 5)) example_address;
   EAccept (MClientIntro (ClientIntro 5 0 3)) example_address;
   ETimers 0; ETimers 1; ERecv (MOrderClientRate (OrderClientRate 5 120)); 
   ETimers (2 + EPOCH_DURATION); ETimers (2 + EPOCH_DURATION)].

Definition example_order (es : list event) (o : order) : order * outputs :=
  match order_exec es o with Ok r => r | Err _ => (o, []) end.

Definition example_connected : order := (example_order example_connect order_init).1.

Lemma example_connected_ok : order_ok example_connected.
Proof.
  apply (order_exec_ok example_connect order_init (example_order example_connect order_init)); [apply order_init_ok|by repeat split|].
  vm_compute. reflexivity.
Qed.

Example example_epochs :
  ss_assignments <$> epochs 0 example_rounds example_connected =
  [[Assignment 3 5; Assignment 5 3]; [Assignment 5 200; Assignment 3 5]].
Proof. vm_compute. reflexivity. Qed.

Ltac order_events_ok :=
  cbn [order_events_ok example_rounds event_ok]; vm_compute; repeat split; try discriminate; try reflexivity.

Lemma example_rounds_ok : order_events_ok example_rounds example_connected.
Proof. order_events_ok. Qed.

Lemma gsns_partitioned_witness :
  (forall g, 0 <= g < 213 <-> exists sid c, 0 <= sid < NUM_SHARDS /\ (c, g) ∈ shard_log sid example_rounds example_connected) /\
  (forall g sid1 c1 sid2 c2, (c1, g) ∈ shard_log sid1 example_rounds example_connected ->
     (c2, g) ∈ shard_log sid2 example_rounds example_connected -> sid1 = sid2 /\ c1 = c2).
Proof.
  apply (gsns_partitioned example_rounds example_connected (example_order example_rounds example_connected));
    [exact example_connected_ok|exact example_rounds_ok|vm_compute; reflexivity].
Defined.

(** ** What the storage servers are promised *)

(** Consecutive epochs from [base] on. *)
Fixpoint epochs_from (base : Z) (ms : list storage_slots) : Prop :=
  match ms with
  | [] => True
  | m :: ms =>
    ss_start_gsn m = base /\ 0 <= base /\ 0 <= total_slots (ss_assignments m) /\
    base + total_slots (ss_assignments m) < W64 - 1 /\
    (0 < ss_num_clients m -> slots_ok (ss_assignments m)) /\ clients_ok (ss_assignments m) /\
    ss_num_clients m = Z.of_nat (length (ss_assignments m)) /\
    epochs_from (base + total_slots (ss_assignments m)) ms
  end.

Lemma epochs_consecutive es o r sid :
  order_ok o -> order_events_ok es o -> order_exec es o = Ok r -> epochs_from (gsn_base_ o) (epochs sid es o).
Proof.
  revert o r. induction es as [|e es IH]; intros o r H Hok E; [done|].
  apply order_exec_cons in E as (o1 & out1 & out2 & Eh & Ee & _). destruct Hok as [Hok Hoks]. rewrite Eh in Hoks.
  assert (order_ok o1) as H1 by by eapply handle_ok. pose proof (IH o1 (r.1, out2) H1 Hoks Ee) as Hc.
  destruct (handle_gsn _ _ _ _ H Hok Eh) as [Hg Ht]. rewrite epochs_cons, Eh. destruct (starts_epoch e o) eqn:Hs.
  - destruct (epoch_message_ok o sid H) as (Hso & Hco & Hn & Htot & _). pose proof (ok_gsn _ H).
    destruct (handle_epoch _ _ _ _ H Hok Eh Hs) as (_ & _ & ? & ? & _).
    cbn [app epochs_from]. rewrite Htot, <- Hg. split_and!; try done; lia.
  - replace (gsn_base_ o) with (gsn_base_ o1) by lia. done.
Qed.

(** The epoch an event of a storage server carries. *)
Definition epoch_of (e : Storage.event) : option storage_slots :=
  match e with EControl _ (MStorageSlots m) => Some m | _ => None end.

(** The integers of the other messages are words. *)
Definition words_ok (e : Storage.event) : Prop :=
  match e with
  | EControl _ (MStorageClientPatch data) => is_u64 (scp_gsn data)
  | EClient _ (MStorageInsert req) => is_u64 (ins_num_slots req)
  | _ => True
  end.

Lemma new_slots_none e : epoch_of e = None -> new_slots e = [].
Proof. by destruct e as [stale []|stale []| | |]. Qed.

Lemma new_slots_bounds base m ms x :
  epochs_from base (m :: ms) -> x ∈ new_slots (epoch_event m) ->
  base <= x.2 < base + total_slots (ss_assignments m).
Proof.
  intros (<- & _ & _ & _ & Hok & _ & Hn & _) Hx. cbn [new_slots epoch_event] in Hx.
  destruct (Z.ltb_spec 0 (ss_num_clients m)) as [Hl|]; [|by apply elem_of_nil in Hx].
  destruct (schedule _ _) as [sched|] eqn:Es; [|by apply elem_of_nil in Hx]. rewrite Hn in Es.
  rewrite <- (schedule_length _ _ (Hok Hl) Es). by apply assigned_bounds in Hx.
Qed.

Lemma new_slots_length base m ms :
  epochs_from base (m :: ms) -> Z.of_nat (length (new_slots (epoch_event m))) <= total_slots (ss_assignments m).
Proof.
  intros (_ & _ & Ht & _ & Hok & _ & Hn & _). cbn [new_slots epoch_event].
  destruct (Z.ltb_spec 0 (ss_num_clients m)) as [Hl|]; [|simpl; lia].
  destruct (schedule _ _) as [sched|] eqn:Es; [|simpl; lia]. rewrite Hn in Es.
  rewrite <- (schedule_length _ _ (Hok Hl) Es). pose proof (length_assigned (ss_assignments m) (ss_start_gsn m) sched). lia.
Qed.

(** A storage server that handles consecutive epochs, in order and as far as it has got, and
    anything else in between, is in the domain of its theorems. *)
Lemma epochs_accepted_ok sl base ms es :
  epochs_from base ms -> omap epoch_of es `prefix_of` ms -> Forall words_ok es ->
  Forall (fun x => x.2 < base) sl -> Z.of_nat (length sl) <= base -> events_ok sl es.
Proof.
  intros Hms Hp Hw. revert sl base ms Hms Hp. induction Hw as [|e es He _ IH]; intros sl base ms Hms Hp Hb Hl; [done|].
  cbn [omap list_omap] in Hp. cbn [events_ok]. destruct (epoch_of e) as [m|] eqn:Hm.
  2:{ rewrite (new_slots_none _ Hm), app_nil_r. split; [|by apply (IH sl base ms)]. by destruct e as [stale []|stale []| | |]. }
  destruct ms as [|m' ms]; [by apply prefix_nil_not in Hp|].
  apply prefix_cons_inv_1 in Hp as Heq. subst m'. apply prefix_cons_inv_2 in Hp.
  destruct e as [stale []|stale []| | |]; try discriminate Hm. injection Hm as ->.
  change (new_slots (EControl stale (MStorageSlots m))) with (new_slots (epoch_event m)).
  pose proof (new_slots_bounds base m ms) as Hnb. pose proof (new_slots_length base m ms Hms) as Hnl.
  pose proof Hms as (Hst & H0 & Ht & Hw & Hok & Hc & Hn & Hms'). split.
  - cbn [event_ok StorageSpec.event_ok]. intros Hpos. split; rewrite ?Hst; try done; [by apply Hok|lia|lia].
  - apply (IH _ (base + total_slots (ss_assignments m)) ms); [done|done| |rewrite length_app; lia].
    apply Forall_app_2; [eapply Forall_impl; [exact Hb|simpl; lia]|]. apply Forall_forall. intros x Hx. by apply Hnb.
Qed.

(** C9: what the ordering server sends is what a storage server needs.  In a run in which no
    further storage server connects, every replica of a shard is sent the same epochs, and a
    replica that handles them in order (as far as it has got), interleaved with any client,
    subscriber and recovery traffic, meets the preconditions of all the storage server's
    theorems. *)
Theorem epochs_delivered es o r sid :
  order_ok o -> order_events_ok es o -> order_exec es o = Ok r ->
  Forall (fun e => ~ storage_intro_event e) es -> 0 <= sid < NUM_SHARDS ->
  (forall rid, rid ∈ replicas o sid -> slots_sent sid rid r.2 = epochs sid es o) /\
  (forall ses, omap epoch_of ses `prefix_of` epochs sid es o -> Forall words_ok ses -> events_ok [] ses).
Proof.
  intros H Hok E Hs Hsid. split.
  - intros rid Hr. by apply (slots_sent_run es o r).
  - intros ses Hp Hw. apply (epochs_accepted_ok [] (gsn_base_ o) (epochs sid es o)); try done; [by apply (epochs_consecutive es o r)|apply H].
Qed.

Lemma no_intro_rounds : Forall (fun e => ~ storage_intro_event e) example_rounds.
Proof. repeat constructor; by intros []. Qed.

Lemma epochs_delivered_witness :
  (forall rid, rid ∈ replicas example_connected 0 ->
     slots_sent 0 rid (example_order example_rounds example_connected).2 = epochs 0 example_rounds example_connected) /\
  (forall ses, omap epoch_of ses `prefix_of` epochs 0 example_rounds example_connected -> Forall words_ok ses -> events_ok [] ses).
Proof.
  apply (epochs_delivered example_rounds example_connected (example_order example_rounds example_connected) 0);
    [exact example_connected_ok|exact example_rounds_ok|vm_compute; reflexivity|exact no_intro_rounds|split; reflexivity || discriminate].
Defined.

Lemma prefixes_comparable {A} (l1 l2 k : list A) : l1 `prefix_of` k -> l2 `prefix_of` k -> comparable l1 l2.
Proof. intros H1 H2. unfold comparable. destruct (prefix_weak_total l1 l2 k H1 H2); [by left|by right]. Qed.

Lemma new_slots_epochs ses : ses ≫= new_slots = (epoch_event <$> omap epoch_of ses) ≫= new_slots.
Proof.
  induction ses as [|e ses IH]; [done|]. rewrite bind_cons, IH. cbn [omap list_omap].
  destruct (epoch_of e) eqn:He; [|by rewrite new_slots_none].
  cbn [fmap list_fmap]. rewrite bind_cons. f_equal. destruct e as [stale []|stale []| | |]; try discriminate He. by injection He as ->.
Qed.

(** C7: the replicas of a shard agree, end to end.  Two storage servers of one shard, each
    handling a prefix of the epochs that one ordering server sent it, and the inserts of client
    [c] in the order in which [c] made them (the first server being behind), acknowledge the
    same inserts with the same GSNs, however epochs, other clients, subscribers and failures
    of other clients are interleaved on each of them, and whatever the ordering server handles
    after all the storage servers have connected to it: clients, subscribers, failures and timers
    in any order, but no further storage server. *)
Theorem shard_agrees oes o r sid rid1 rid2 ct1 st1 sd1 ct2 st2 sd2 s1 s2 es1 es2 r1 r2 c :
  order_ok o -> order_events_ok oes o -> order_exec oes o = Ok r ->
  Forall (fun e => ~ storage_intro_event e) oes -> 0 <= sid < NUM_SHARDS ->
  rid1 ∈ replicas o sid -> rid2 ∈ replicas o sid ->
  storage_init sid rid1 ct1 st1 sd1 = Ok s1 -> storage_init sid rid2 ct2 st2 sd2 = Ok s2 ->
  omap epoch_of es1 `prefix_of` slots_sent sid rid1 r.2 -> omap epoch_of es2 `prefix_of` slots_sent sid rid2 r.2 ->
  Forall words_ok es1 -> Forall words_ok es2 -> exec es1 s1 = Ok r1 -> exec es2 s2 = Ok r2 ->
  Forall (undisturbed c) es1 -> Forall (undisturbed c) es2 ->
  (ins_num_slots <$> inserts c es1) `prefix_of` (ins_num_slots <$> inserts c es2) ->
  acks c r1.2 `prefix_of` acks c r2.2.
Proof.
  intros H Hok E Hs Hsid Hr1 Hr2 I1 I2 P1 P2 W1 W2 E1 E2 U1 U2 Hins.
  rewrite (slots_sent_run oes o r) in P1, P2 by done. pose proof (epochs_consecutive oes o r sid H Hok E) as Hc.
  pose proof (ok_gsn _ H) as Hg.
  assert (forall es, omap epoch_of es `prefix_of` epochs sid oes o -> Forall words_ok es -> events_ok [] es) as Hev.
  { intros es Hp Hw. apply (epochs_accepted_ok [] (gsn_base_ o) (epochs sid oes o)); [done..|constructor|]. simpl. apply Hg. }
  apply (acks_comparable [] s1 es1 ([] ++ (es1 ≫= new_slots)) r1.1 r1.2 [] s2 es2 ([] ++ (es2 ≫= new_slots)) r2.1 r2.2 c); try done; try by eapply server_ok_init.
  all: try (unfold storage_init in I1, I2; inv_result; done).
  - apply exec_run; [done|]. by apply Hev.
  - apply exec_run; [done|]. by apply Hev.
  - cbn [app]. rewrite (new_slots_epochs es1), (new_slots_epochs es2).
    destruct (prefixes_comparable _ _ _ P1 P2) as [[x ->]|[x ->]]; [left|right];
      rewrite fmap_app, bind_app; by eexists.
Qed.

(** Replica 0 has handled the first epoch of the example and one insert of client 3, replica 1
    both epochs and three inserts. *)
Definition example_replica (n : nat) (inserts : list Z) : list Storage.event :=
  EAddClient 3 :: (epoch_event <$> take n (epochs 0 example_rounds example_connected)) ++ (example_insert <$> inserts).

Lemma example_replica_words n ks : Forall is_u64 ks -> Forall words_ok (example_replica n ks).
Proof.
  intros Hk. constructor; [done|]. apply Forall_app_2; apply Forall_fmap; [by apply Forall_true|].
  eapply Forall_impl; [exact Hk|done].
Qed.

Lemma example_replica_undisturbed n ks : Forall (undisturbed 3) (example_replica n ks).
Proof. constructor; [done|]. apply Forall_app_2; apply Forall_fmap; by apply Forall_true. Qed.

Lemma shard_agrees_witness :
  acks 3 (example_exec 0 (example_replica 1 [2])).2 `prefix_of` acks 3 (example_exec 1 (example_replica 2 [2; 3; 1])).2.
Proof.
  eapply (shard_agrees example_rounds example_connected (example_order example_rounds example_connected) 0 0 1 1 1 64 1 1 64
            (example_server 0) (example_server 1) (example_replica 1 [2]) (example_replica 2 [2; 3; 1])).
  - exact example_connected_ok.
  - exact example_rounds_ok.
  - vm_compute; reflexivity.
  - exact no_intro_rounds.
  - split; reflexivity || discriminate.
  - vm_compute. constructor 2. constructor.
  - vm_compute. constructor.
  - reflexivity.
  - reflexivity.
  - eexists. vm_compute. reflexivity.
  - exists []. vm_compute. reflexivity.
  - apply example_replica_words. repeat constructor; discriminate.
  - apply example_replica_words. repeat constructor; discriminate.
  - vm_compute. reflexivity.
  - vm_compute. reflexivity.
  - apply example_replica_undisturbed.
  - apply example_replica_undisturbed.
  - exists [3; 1]. reflexivity.
Defined.

(** ** What the clients are promised *)

Lemma active_clients_NoDup o : NoDup (snd <$> active_slots o).
Proof.
  apply (sublist_NoDup _ (map_to_list (client_state_ o)).*1); [apply NoDup_fst_map_to_list|].
  unfold active_slots. induction (map_to_list (client_state_ o)) as [|[c st] l IH]; [constructor|].
  rewrite bind_cons, fmap_app. destruct (o_failed st); [by apply sublist_cons|]. by apply sublist_skip.
Qed.

Lemma active_slots_elem o c st :
  client_state_ o !! c = Some st -> o_failed st = false -> (o_num_slots st, o_shard_id st, c) ∈ active_slots o.
Proof.
  intros Hc Hf. unfold active_slots. apply list_elem_of_bind. exists (c, st).
  split; [|by apply elem_of_map_to_list]. rewrite Hf. by apply list_elem_of_singleton.
Qed.

(** The slots of a client that occurs once among the assignments. *)
Lemma assigned_count slots g0 sched j a c :
  slots !! j = Some a -> as_client_id a = c -> c <> UINT64_MAX ->
  (forall j' a', slots !! j' = Some a' -> as_client_id a' = c -> j' = j) ->
  Z.of_nat (length (filter (fun x => x.1 = c) (assigned slots g0 sched))) = occurrences j sched.
Proof.
  intros Hj Hc Hm Hu. revert g0. induction sched as [|k sched IH]; intros g0; [done|].
  cbn [assigned occurrences]. rewrite filter_app, length_app, Nat2Z.inj_add, IH. f_equal.
  destruct (decide (k = j)) as [->|Hne].
  - rewrite Hj, Hc, (proj2 (Z.eqb_neq _ _)) by done. by rewrite filter_cons_True.
  - destruct (slots !! k) as [a'|] eqn:Hk; [|done]. destruct (_ =? _); [done|].
    rewrite filter_cons_False; [done|]. simpl. intros Hc'. by apply Hne, (Hu k a').
Qed.

Lemma epoch_client_slots o c st :
  order_ok o -> client_state_ o !! c = Some st -> o_failed st = false ->
  Z.of_nat (length (filter (fun x => x.1 = c) (new_slots (epoch_event (epoch_message o (o_shard_id st)))))) = o_num_slots st.
Proof.
  intros H Hc Hf. set (sid := o_shard_id st). pose proof (active_slots_elem o c st Hc Hf) as Hin.
  rewrite <- (sort_slots_perm (active_slots o)) in Hin. apply list_elem_of_lookup in Hin as [j Hj].
  destruct (epoch_message_ok o sid H) as (Hok & _ & Hn & _ & _). cbn [epoch_message ss_num_clients ss_assignments] in *.
  cbn [new_slots epoch_event epoch_message ss_num_clients ss_assignments ss_start_gsn].
  pose proof (active_clients_NoDup o) as Hnd. rewrite <- (sort_slots_perm (active_slots o)) in Hnd.
  set (l := sort_slots (active_slots o)) in *. pose proof (lookup_lt_Some _ _ _ Hj) as Hlt.
  assert (0 < Z.of_nat (length l)) as Hpos by lia. rewrite (proj2 (Z.ltb_lt _ _) Hpos). specialize (Hok Hpos).
  assert (shard_assignments sid l !! j = Some (Assignment c (o_num_slots st))) as Ha.
  { unfold shard_assignments. rewrite list_lookup_fmap, Hj. cbn [fmap option_fmap option_map]. fold sid. by rewrite Z.eqb_refl. }
  destruct (schedule_occurrences _ Hok) as (sched & Es & Hocc & _). rewrite Hn, Es.
  rewrite (assigned_count _ _ _ j _ c Ha eq_refl).
  - rewrite Hocc by (by apply lookup_lt_Some in Ha). unfold slots_of. by rewrite Ha.
  - pose proof (ck_id _ _ (ok_clients _ H _ _ Hc)) as Hid. change MAX_CLIENTS with 126 in Hid. unfold UINT64_MAX. lia.
  - intros j' a' Hj' Hca. unfold shard_assignments in Hj'. rewrite list_lookup_fmap in Hj'.
    destruct (l !! j') as [[[n' s'] c']|] eqn:Hl; [|done]. injection Hj' as <-. cbn [as_client_id] in Hca.
    destruct (s' =? sid).
    + apply (NoDup_lookup _ _ _ c Hnd); rewrite list_lookup_fmap; [by rewrite Hl, <- Hca|by rewrite Hj].
    + pose proof (ck_id _ _ (ok_clients _ H _ _ Hc)) as Hid. change MAX_CLIENTS with 126 in Hid. unfold UINT64_MAX in Hca. lia.
Qed.

(** An epoch gives the clients what it tells them.  In an epoch round every client that is
    not suspected is told a number of slots and the time the epoch begins; all replicas of its
    shard are sent the epoch; and the client owns exactly that many slots of the epoch in its
    shard's log. *)
Theorem epoch_gives_slots now o c st :
  order_ok o -> gsn_base_ o + MAX_CLIENTS * SLOTS_BOUND < W64 - 1 ->
  client_state_ o !! c = Some st -> o_failed st = false ->
  exists out, epoch_round now o = Ok (epoch_next now o, out) /\
    (ToClient c, MClientNewEpoch (ClientNewEpoch (now + EPOCH_DURATION) (o_num_slots st))) ∈ out /\
    (forall rid, rid ∈ replicas o (o_shard_id st) ->
       (ToStorage (o_shard_id st) rid, MStorageSlots (epoch_message o (o_shard_id st))) ∈ out) /\
    Z.of_nat (length (filter (fun x => x.1 = c) (new_slots (epoch_event (epoch_message o (o_shard_id st)))))) = o_num_slots st.
Proof.
  intros H Hg Hc Hf. destruct (epoch_round_ok now o H Hg) as [Er _]. eexists. split; [exact Er|].
  split; [|split; [|by apply epoch_client_slots]].
  - apply elem_of_app; left. unfold epoch_news. apply list_elem_of_bind. exists (c, st).
    split; [|by apply elem_of_map_to_list]. rewrite Hf. by apply list_elem_of_singleton.
  - intros rid Hr. apply elem_of_app; right. apply list_elem_of_bind. exists (o_shard_id st). split.
    + apply list_elem_of_fmap. eauto.
    + pose proof (ck_shard _ _ (ok_clients _ H _ _ Hc)). apply elem_of_seqZ. lia.
Qed.

(** The state of the example after its first epoch. *)
Definition example_serving : order := (example_order (take 4 example_rounds) example_connected).1.

Lemma example_serving_ok : order_ok example_serving.
Proof.
  apply (order_exec_ok (take 4 example_rounds) example_connected (example_order (take 4 example_rounds) example_connected));
    [exact example_connected_ok|order_events_ok|vm_compute; reflexivity].
Qed.

Lemma epoch_gives_slots_witness :
  exists out, epoch_round 7 example_serving = Ok (epoch_next 7 example_serving, out) /\
    (ToClient 5, MClientNewEpoch (ClientNewEpoch (7 + EPOCH_DURATION) 3)) ∈ out /\
    (forall rid, rid ∈ replicas example_serving 0 ->
       (ToStorage 0 rid, MStorageSlots (epoch_message example_serving 0)) ∈ out) /\
    Z.of_nat (length (filter (fun x => x.1 = 5) (new_slots (epoch_event (epoch_message example_serving 0))))) = 3.
Proof.
  apply (epoch_gives_slots 7 example_serving 5 (client_state_init 0 3));
    [exact example_serving_ok|vm_compute; reflexivity|vm_compute; reflexivity|reflexivity].
Defined.
