(* ===== verification/RecoverySpec.v ===== *)
(** * Client recovery in the ordering server

    What [order::loop] does with a client that is suspected to have failed: the decision it
    takes from the cuts of the replicas, the roll-forward of the data they send, and the
    silence towards the client. *)
From S2P Require Import Prelude Consts Util Api Order OrderSpec EpochSpec.

(** ** The decision *)

(** The messages that start the roll-forward and that end the client. *)
Definition ask_for_data (o : order) (sid c min : Z) : outputs :=
  to_storage o sid (MStorageClientCut (StorageClientCut c min)).
Definition finalize_client (o : order) (sid c : Z) : outputs :=
  to_storage o sid (MStorageClientFinalize (StorageClientFinalize c)).

(** The cuts [cut] completes. *)
Definition completes (cut : order_client_cut) (o : order) (st : client_state) (cuts : list (Z * Z)) : Prop :=
  client_state_ o !! cut_client_id cut = Some st /\ o_failed st = true /\ o_requested st = false /\
  o_shard_id st = cut_shard_id cut /\ smap_find (cut_replica_id cut) (o_cuts st) = None /\
  smap_insert (cut_replica_id cut) (cut_latest_gsn cut) (o_cuts st) = cuts /\
  length cuts = length (replicas o (o_shard_id st)).

(** The last cut that is not -1, or -1. *)
Fixpoint last_cut (cuts : list (Z * Z)) : Z :=
  match cuts with
  | [] => UINT64_MAX
  | (_, g) :: cuts => let l := last_cut cuts in if l =? UINT64_MAX then g else l
  end.

Lemma last_cut_snoc cuts r g :
  last_cut (cuts ++ [(r, g)]) = if g =? UINT64_MAX then last_cut cuts else g.
Proof.
  induction cuts as [|[r' g'] cuts IH]; simpl; [|rewrite IH].
  - destruct (Z.eqb_spec UINT64_MAX UINT64_MAX); [|done]. by destruct (Z.eqb_spec g UINT64_MAX).
  - destruct (Z.eqb_spec g UINT64_MAX) as [|Hg]; [done|]. by rewrite (proj2 (Z.eqb_neq _ _) Hg).
Qed.

Lemma disambiguate_rev cuts m : m = UINT64_MAX -> disambiguate m (rev cuts) = last_cut cuts.
Proof.
  intros ->. induction cuts as [|[r g] cuts IH] using rev_ind; [done|].
  rewrite rev_app_distr, last_cut_snoc. simpl. destruct (g =? UINT64_MAX); simpl; [done|done].
Qed.

(** The handler compares the cut of the replica with the least ID with the last cut that is
    not -1. *)
Lemma min_max_cuts_ok r0 g0 mid rn gn :
  min_max_cuts ((r0, g0) :: mid ++ [(rn, gn)]) =
  Ok (g0, if g0 =? gn then gn else last_cut ((r0, g0) :: mid ++ [(rn, gn)])).
Proof.
  unfold min_max_cuts. cbn [head deref mbind result_bind].
  change ((r0, g0) :: mid ++ [(rn, gn)]) with (((r0, g0) :: mid) ++ [(rn, gn)]).
  rewrite rev_app_distr, last_cut_snoc. cbn [rev app head deref mbind result_bind snd tail].
  destruct (Z.eqb_spec g0 gn) as [->|Hne]; cbn [negb andb]; [done|].
  destruct (Z.eqb_spec gn UINT64_MAX) as [->|]; [|done].
  change (rev mid ++ [(r0, g0)]) with (rev ((r0, g0) :: mid)). by rewrite disambiguate_rev.
Qed.

(** Once the last cut is in, the client is finalized if [min] is [max], and its data is
    requested otherwise. *)
Lemma cut_step_ok cut o st cuts :
  completes cut o st cuts ->
  on_order_client_cut cut o =
    ('(min, max) ← min_max_cuts cuts;
     Ok (let st := ClientState (o_shard_id st) (o_num_slots st) true false cuts (o_flushed st) (o_data st) in
         let o := with_clients (<[cut_client_id cut := st]> (client_state_ o)) o in
         if min =? max then finalized (cut_client_id cut) st o else requested (cut_client_id cut) st min o)).
Proof.
  intros (Hc & Hf & Hr & Hs & Hn & Hi & Hl). unfold on_order_client_cut. rewrite Hc, Hf. cbn [negb].
  rewrite Hs, Z.eqb_refl, Hn. cbn [negb orb]. rewrite bool_decide_false by (by intros []).
  rewrite Hr, Hi. cbn [negb andb o_requested o_cuts o_shard_id]. rewrite bool_decide_true; [done|].
  rewrite Hl, Hs. done.
Qed.

(** The least and the greatest replica's cuts, and what the handler takes for the maximum. *)
Lemma min_max_ends cuts r0 g0 rn gn :
  head cuts = Some (r0, g0) -> last cuts = Some (rn, gn) ->
  min_max_cuts cuts = Ok (g0, if g0 =? gn then gn else last_cut cuts).
Proof.
  destruct cuts as [|[r g] rest]; [done|]. intros [= -> ->] Hl.
  destruct rest as [|x mid _] using rev_ind.
  - injection Hl as -> ->. unfold min_max_cuts. simpl. by rewrite Z.eqb_refl.
  - rewrite app_comm_cons, last_snoc in Hl. injection Hl as ->. apply min_max_cuts_ok.
Qed.

Lemma decision_ok cut o st cuts r0 g0 rn gn :
  completes cut o st cuts -> head cuts = Some (r0, g0) -> last cuts = Some (rn, gn) ->
  exists o', client_state_ o' =
      (if decide (g0 = gn \/ g0 = last_cut cuts) then delete (cut_client_id cut) (client_state_ o)
       else <[cut_client_id cut := ClientState (o_shard_id st) (o_num_slots st) true true cuts (o_flushed st) (o_data st)]>
              (client_state_ o)) /\
    on_order_client_cut cut o =
      Ok (o', if decide (g0 = gn \/ g0 = last_cut cuts) then finalize_client o (o_shard_id st) (cut_client_id cut)
              else ask_for_data o (o_shard_id st) (cut_client_id cut) g0).
Proof.
  intros Hc Hh Hl. rewrite (cut_step_ok _ _ _ _ Hc), (min_max_ends _ _ _ _ _ Hh Hl). cbn [mbind result_bind].
  destruct (decide (g0 = gn \/ g0 = last_cut cuts)) as [Hd|Hd].
  - assert ((g0 =? (if g0 =? gn then gn else last_cut cuts)) = true) as ->.
    { destruct (Z.eqb_spec g0 gn) as [->|]; [by rewrite Z.eqb_refl|]. destruct Hd; [done|by apply Z.eqb_eq]. }
    eexists. split; [|reflexivity]. simpl. by rewrite delete_insert_eq.
  - assert ((g0 =? (if g0 =? gn then gn else last_cut cuts)) = false) as ->.
    { destruct (Z.eqb_spec g0 gn) as [->|]; [tauto|]. apply Z.eqb_neq. tauto. }
    eexists. split; [|reflexivity]. simpl. by rewrite insert_insert_eq.
Qed.

(** C16: the decision on a failed client.  When the last replica of its shard reports its cut,
    the handler compares the cut of the replica with the least ID with the cut of the one with
    the greatest ID, and, if that is -1, with the last cut that is not -1.  If they are equal it
    finalizes the client at all replicas and forgets it; otherwise it asks all replicas for the
    data above the first replica's cut and waits for it. *)
Theorem recovery_decision cut o st cuts r0 g0 rn gn :
  completes cut o st cuts -> head cuts = Some (r0, g0) -> last cuts = Some (rn, gn) ->
  exists o' out, on_order_client_cut cut o = Ok (o', out) /\
    (g0 = gn \/ g0 = last_cut cuts ->
       out = finalize_client o (o_shard_id st) (cut_client_id cut) /\
       client_state_ o' = delete (cut_client_id cut) (client_state_ o)) /\
    (g0 <> gn -> g0 <> last_cut cuts ->
       out = ask_for_data o (o_shard_id st) (cut_client_id cut) g0 /\
       client_state_ o' !! cut_client_id cut =
         Some (ClientState (o_shard_id st) (o_num_slots st) true true cuts (o_flushed st) (o_data st))).
Proof.
  intros Hc Hh Hl. destruct (decision_ok _ _ _ _ _ _ _ _ Hc Hh Hl) as (o' & Hs & E).
  destruct (decide (g0 = gn \/ g0 = last_cut cuts)); eexists o', _; (split; [exact E|]); split.
  - done.
  - tauto.
  - tauto.
  - intros _ _. rewrite Hs. by rewrite lookup_insert_eq.
Qed.

(** C40: the decision misses replicas that differ.  With three replicas, of which the first and the
    last have the same cut, the cut of the middle one is not looked at, and with two a replica
    that has acknowledged nothing (-1) after one that has is not seen: in both cases the client is
    finalized without any roll-forward, so that the entries some replica has acknowledged are not
    brought to the one that lacks them. *)
Theorem decision_misses_divergence cut o st cuts r0 r1 r2 g h :
  completes cut o st cuts -> cuts = [(r0, g); (r1, h); (r2, g)] \/ (cuts = [(r0, g); (r1, UINT64_MAX)]) ->
  exists o', on_order_client_cut cut o = Ok (o', finalize_client o (o_shard_id st) (cut_client_id cut)) /\
    client_state_ o' !! cut_client_id cut = None.
Proof.
  intros Hc Hcuts.
  assert (exists rn gn, head cuts = Some (r0, g) /\ last cuts = Some (rn, gn) /\ (g = gn \/ g = last_cut cuts)) as (rn & gn & Hh & Hl & Hd).
  { destruct Hcuts as [-> | ->]; eexists _, _; (split; [reflexivity|split; [reflexivity|]]); [by left|by right]. }
  destruct (decision_ok _ _ _ _ _ _ _ _ Hc Hh Hl) as (o' & Hs & E).
  rewrite decide_True in Hs by done. rewrite decide_True in E by done. exists o'. split; [done|]. by rewrite Hs, lookup_delete_eq.
Qed.

(** Client 3 of the example is suspected, and replica 0 has reported the cut 5. *)
Definition example_cut (replica gsn : Z) : order_client_cut := OrderClientCut 3 0 replica gsn.
Definition example_suspected : order :=
  (example_order [ERecv (MOrderClientFreeze (OrderClientFreeze 3)); ERecv (MOrderClientCut (example_cut 0 5))] example_serving).1.
Definition example_suspected_state : client_state := ClientState 0 5 true false [(0, 5)] ∅ [].

Lemma example_completes g : completes (example_cut 1 g) example_suspected example_suspected_state [(0, 5); (1, g)].
Proof. split_and!; vm_compute; reflexivity. Qed.

Lemma recovery_decision_witness :
  exists o' out, on_order_client_cut (example_cut 1 9) example_suspected = Ok (o', out) /\
    (5 = 9 \/ 5 = 9 -> out = finalize_client example_suspected 0 3 /\ client_state_ o' = delete 3 (client_state_ example_suspected)) /\
    (5 <> 9 -> 5 <> 9 ->
       out = ask_for_data example_suspected 0 3 5 /\
       client_state_ o' !! 3 = Some (ClientState 0 5 true true [(0, 5); (1, 9)] ∅ [])).
Proof.
  apply (recovery_decision (example_cut 1 9) example_suspected example_suspected_state [(0, 5); (1, 9)] 0 5 1 9);
    [apply example_completes|reflexivity|reflexivity].
Defined.

Lemma decision_misses_divergence_witness :
  exists o', on_order_client_cut (example_cut 1 UINT64_MAX) example_suspected = Ok (o', finalize_client example_suspected 0 3) /\
    client_state_ o' !! 3 = None.
Proof.
  apply (decision_misses_divergence (example_cut 1 UINT64_MAX) example_suspected example_suspected_state
           [(0, 5); (1, UINT64_MAX)] 0 1 2 5 0); [apply example_completes|by right].
Defined.

(** ** Rolling the data forward *)

(** Handling a sequence of data messages. *)
Fixpoint data_exec (ms : list order_client_data) (o : order) : order * outputs :=
  match ms with
  | [] => (o, [])
  | m :: ms => let '(o, out) := on_order_client_data m o in let '(o, out') := data_exec ms o in (o, out ++ out')
  end.

Lemma data_exec_app ms1 ms2 o :
  data_exec (ms1 ++ ms2) o =
  let '(o, out) := data_exec ms1 o in let '(o, out') := data_exec ms2 o in (o, out ++ out').
Proof.
  revert o. induction ms1 as [|m ms1 IH]; intros o; cbn [app data_exec].
  - by destruct (data_exec ms2 o).
  - destruct (on_order_client_data m o) as [o1 out1]. rewrite IH.
    destruct (data_exec ms1 o1) as [o2 out2], (data_exec ms2 o2) as [o3 out3]. by rewrite app_assoc.
Qed.

Definition is_flush (m : order_client_data) : Prop := ocd_gsn m = UINT64_MAX.
#[export] Instance is_flush_dec m : Decision (is_flush m).
Proof. unfold is_flush. apply _. Defined.

(** The replicas that have flushed. *)
Definition flushed_by (ms : list order_client_data) : list Z := ocd_replica_id <$> filter is_flush ms.

(** A message from a replica of the client's shard. *)
Definition about (c sid : Z) (m : order_client_data) : Prop := ocd_client_id m = c /\ ocd_shard_id m = sid.

(** A replica sends nothing after its flush: messages of one replica arrive in order. *)
Definition flush_last (ms : list order_client_data) : Prop :=
  forall i j m m', ms !! i = Some m -> ms !! j = Some m' -> (i < j)%nat -> is_flush m -> ocd_replica_id m' <> ocd_replica_id m.

Definition patch_of (m : order_client_data) : storage_client_patch :=
  StorageClientPatch (ocd_client_id m) (ocd_gsn m) (ocd_data_length m) (ocd_data m).

(** The data the messages leave in [state.data]: the first that arrives for a GSN. *)
Fixpoint add_data (ms : list order_client_data) (d : list (Z * storage_client_patch)) : list (Z * storage_client_patch) :=
  match ms with
  | [] => d
  | m :: ms =>
    add_data ms (if decide (is_flush m) then d
                 else match smap_find (ocd_gsn m) d with Some _ => d | None => smap_insert (ocd_gsn m) (patch_of m) d end)
  end.

(** The first message for a GSN. *)
Definition first_for (g : Z) (ms : list order_client_data) : option order_client_data :=
  head (filter (fun m => ocd_gsn m = g) ms).

Lemma add_data_sorted ms d : smap_sorted d -> smap_sorted (add_data ms d).
Proof.
  revert d. induction ms as [|m ms IH]; intros d Hd; [done|]. cbn [add_data]. apply IH.
  destruct (decide (is_flush m)); [done|]. destruct (smap_find _ _); [done|]. by apply smap_insert_sorted.
Qed.

Lemma smap_find_insert {A} k k' (a : A) m :
  smap_sorted m -> smap_find k m = None -> smap_find k' (smap_insert k a m) = if k' =? k then Some a else smap_find k' m.
Proof.
  intros Hs Hn. pose proof (smap_insert_sorted k a m Hs) as Hs'.
  destruct (Z.eqb_spec k' k) as [->|Hne].
  - apply smap_find_sorted; [done|]. apply smap_insert_elem; [done|]. by left.
  - apply option_eq. intros x. rewrite !smap_find_sorted by done. rewrite smap_insert_elem by done. naive_solver.
Qed.

Lemma add_data_find ms d g :
  smap_sorted d -> g <> UINT64_MAX ->
  smap_find g (add_data ms d) = match smap_find g d with Some p => Some p | None => patch_of <$> first_for g ms end.
Proof.
  intros Hd Hg. revert d Hd. induction ms as [|m ms IH]; intros d Hd; cbn [add_data]; [by destruct (smap_find g d)|].
  destruct (decide (is_flush m)) as [Hf|Hf].
  - rewrite IH by done. destruct (smap_find g d); [done|]. unfold first_for. rewrite filter_cons_False; [done|].
    unfold is_flush in Hf. congruence.
  - destruct (smap_find (ocd_gsn m) d) as [p|] eqn:Hm.
    + rewrite IH by done. destruct (smap_find g d) eqn:Hgd; [done|]. unfold first_for.
      rewrite filter_cons_False; [done|]. intros E. rewrite E, Hgd in Hm. done.
    + rewrite IH by (by apply smap_insert_sorted). rewrite smap_find_insert by done.
      destruct (Z.eqb_spec g (ocd_gsn m)) as [->|Hne].
      * rewrite Hm. unfold first_for. by rewrite filter_cons_True.
      * destruct (smap_find g d); [done|]. unfold first_for. by rewrite filter_cons_False.
Qed.

Lemma add_data_no_flush ms d p : smap_sorted d -> (UINT64_MAX, p) ∉ d -> (UINT64_MAX, p) ∉ add_data ms d.
Proof.
  revert d. induction ms as [|m ms IH]; intros d Hs Hd; [done|]. cbn [add_data].
  destruct (decide (is_flush m)) as [|Hf]; [by apply IH|]. destruct (smap_find _ _) eqn:Hfind; [by apply IH|].
  apply IH; [by apply smap_insert_sorted|]. rewrite smap_insert_elem by done.
  intros [[= E _]|Hin]; [by apply Hf|done].
Qed.

Definition collected (st : client_state) (ms : list order_client_data) : client_state :=
  ClientState (o_shard_id st) (o_num_slots st) (o_failed st) (o_requested st) (o_cuts st)
    (list_to_set (flushed_by ms) ∪ o_flushed st) (add_data ms (o_data st)).

Lemma flush_last_tail m ms : flush_last (m :: ms) ->
  flush_last ms /\ (is_flush m -> Forall (fun m' => ocd_replica_id m' <> ocd_replica_id m) ms).
Proof.
  intros H. split.
  - intros i j m1 m2 H1 H2 Hij. by apply (H (S i) (S j) m1 m2 H1 H2 ltac:(lia)).
  - intros Hf. apply Forall_lookup_2. intros j m' Hj. by apply (H 0%nat (S j) m m' eq_refl Hj ltac:(lia)).
Qed.

(** One data message of a replica that has not flushed yet. *)
Lemma data_step m c o st :
  client_state_ o !! c = Some st -> o_requested st = true -> about c (o_shard_id st) m ->
  ocd_replica_id m ∉ o_flushed st ->
  let o' := with_clients (<[c := collected st [m]]> (client_state_ o)) o in
  on_order_client_data m o =
    if bool_decide (is_flush m) && bool_decide (size (o_flushed (collected st [m])) = length (replicas o (o_shard_id st)))
    then finalized c (collected st [m]) o' else (o', []).
Proof.
  intros Hc Hr [<- Hsh] Hn o'. unfold on_order_client_data. rewrite Hc, Hr, Hsh, Z.eqb_refl. cbn [negb orb].
  rewrite bool_decide_false by done.
  unfold o', collected, flushed_by, is_flush. cbn [add_data]. unfold is_flush. destruct (Z.eqb_spec (ocd_gsn m) UINT64_MAX) as [Hg|Hg].
  - rewrite (bool_decide_true (ocd_gsn m = UINT64_MAX)) by done. rewrite filter_cons_True by done.
    rewrite decide_True by done. cbn [fmap list_fmap filter list_filter list_to_set andb]. rewrite union_empty_r_L, Hr. done.
  - rewrite (bool_decide_false (ocd_gsn m = UINT64_MAX)) by done. rewrite filter_cons_False by done.
    rewrite decide_False by done. cbn [fmap list_fmap filter list_filter list_to_set andb]. rewrite union_empty_l_L, Hr.
    destruct (smap_find _ _); [|by destruct m]. destruct st. cbn in *. subst. rewrite insert_id by done. by destruct o.
Qed.

Lemma collected_cons st m ms : collected (collected st [m]) ms = collected st (m :: ms).
Proof.
  unfold collected, flushed_by. cbn [o_shard_id o_num_slots o_failed o_requested o_cuts o_flushed o_data add_data]. f_equal.
  rewrite !filter_cons. destruct (decide (is_flush m)); cbn [fmap list_fmap list_to_set filter list_filter]; set_solver.
Qed.

Lemma collected_nil st : collected st [] = st.
Proof. unfold collected, flushed_by. cbn. rewrite union_empty_l_L. by destruct st. Qed.

(** While a replica has not flushed, the messages are only collected. *)
Lemma data_exec_collect c ms o st :
  client_state_ o !! c = Some st -> o_requested st = true -> Forall (about c (o_shard_id st)) ms ->
  Forall (fun m => ocd_replica_id m ∉ o_flushed st) ms -> flush_last ms ->
  (size (o_flushed st) + length (flushed_by ms) < length (replicas o (o_shard_id st)))%nat ->
  data_exec ms o = (with_clients (<[c := collected st ms]> (client_state_ o)) o, []) /\
  size (o_flushed (collected st ms)) = (size (o_flushed st) + length (flushed_by ms))%nat.
Proof.
  intros Hc Hr Ha. revert o st Hc Hr Ha. induction ms as [|m ms IH]; intros o st Hc Hr Ha Hn Hl Hlt.
  { rewrite collected_nil. cbn [data_exec]. rewrite insert_id by done. split; [by destruct o|]. simpl. lia. }
  apply Forall_cons in Ha as [Ha Has]. apply Forall_cons in Hn as [Hn Hns]. apply flush_last_tail in Hl as [Hl Hfl].
  cbn [data_exec]. rewrite (data_step m c o st Hc Hr Ha Hn).
  assert (size (o_flushed (collected st [m])) = size (o_flushed st) + length (flushed_by [m]))%nat as Hsz.
  { unfold collected, flushed_by. cbn [o_flushed]. rewrite filter_cons. destruct (decide (is_flush m)); cbn [fmap list_fmap filter list_filter list_to_set length].
    - rewrite union_empty_r_L, size_union, size_singleton by set_solver. lia.
    - rewrite union_empty_l_L. lia. }
  assert (length (flushed_by (m :: ms)) = length (flushed_by [m]) + length (flushed_by ms))%nat as Hlen.
  { unfold flushed_by. rewrite !filter_cons. by destruct (decide (is_flush m)). }
  rewrite (bool_decide_false (size _ = _)), andb_false_r by lia.
  set (o' := with_clients _ o). assert (client_state_ o' !! c = Some (collected st [m])) as Hc' by apply lookup_insert_eq.
  assert (Forall (fun m' => ocd_replica_id m' ∉ o_flushed (collected st [m])) ms) as Hn'.
  { apply Forall_forall. intros m' Hin. rewrite Forall_forall in Hns. specialize (Hns _ Hin).
    unfold collected, flushed_by. cbn [o_flushed]. rewrite filter_cons. destruct (decide (is_flush m)) as [Hf|]; cbn; [|set_solver].
    specialize (Hfl Hf). rewrite Forall_forall in Hfl. specialize (Hfl _ Hin). set_solver. }
  destruct (IH o' (collected st [m]) Hc' Hr Has Hn' Hl) as [E Hs].
  { change (replicas o' _) with (replicas o (o_shard_id st)). lia. }
  rewrite E, !collected_cons. unfold o'. cbn [client_state_ with_clients app]. rewrite insert_insert_eq. split; [done|].
  rewrite <- collected_cons. lia.
Qed.

(** The patches sent to the replicas, GSN by GSN. *)
Definition send_patches (o : order) (sid : Z) (ps : list (Z * storage_client_patch)) : outputs :=
  ps ≫= fun '(_, p) => to_storage o sid (MStorageClientPatch p).

(** C15: the roll-forward.  After the data of a failed client has been requested, and the
    replicas of its shard have sent theirs in any interleaving, each ending with its flush, the
    ordering server, at the last flush and not before, sends every replica one patch per GSN
    that any replica had data for, in the order of the GSNs and with the data that arrived
    first, then finalizes the client at every replica and forgets it. *)
Theorem roll_forward c o st ms m :
  client_state_ o !! c = Some st -> o_requested st = true -> o_flushed st = ∅ -> o_data st = [] ->
  Forall (about c (o_shard_id st)) (ms ++ [m]) -> flush_last (ms ++ [m]) -> is_flush m ->
  length (flushed_by (ms ++ [m])) = length (replicas o (o_shard_id st)) ->
  exists o' ps,
    (data_exec ms o).2 = [] /\
    data_exec (ms ++ [m]) o = (o', send_patches o (o_shard_id st) ps ++ finalize_client o (o_shard_id st) c) /\
    smap_sorted ps /\
    (forall g p, (g, p) ∈ ps <-> g <> UINT64_MAX /\ exists m', first_for g ms = Some m' /\ p = patch_of m') /\
    client_state_ o' = delete c (client_state_ o).
Proof.
  intros Hc Hr Hfl Hd Ha Hl Hm Hlen. apply Forall_app in Ha as [Ha Ham]. apply Forall_cons in Ham as [Ham _].
  assert (length (flushed_by (ms ++ [m])) = S (length (flushed_by ms))) as Hlen'.
  { unfold flushed_by. rewrite filter_app, filter_cons_True by done. rewrite fmap_app, length_app. simpl. lia. }
  assert (flush_last ms) as Hl'.
  { intros i j m1 m2 H1 H2. apply (Hl i j); by apply lookup_app_l_Some. }
  destruct (data_exec_collect c ms o st Hc Hr Ha) as [E Hs]; [apply Forall_true; rewrite Hfl; set_solver|done|rewrite Hfl, size_empty; lia|].
  rewrite data_exec_app, E. cbn [data_exec app].
  set (o1 := with_clients (<[c := collected st ms]> (client_state_ o)) o).
  assert (ocd_replica_id m ∉ o_flushed (collected st ms)) as Hn.
  { cbn [collected o_flushed]. rewrite Hfl, union_empty_r_L, elem_of_list_to_set. unfold flushed_by.
    intros (m' & Hrep & [Hf Hin]%list_elem_of_filter)%list_elem_of_fmap. apply list_elem_of_lookup in Hin as [i Hi].
    apply (Hl i (length ms) m' m); try done; [by apply lookup_app_l_Some|by rewrite list_lookup_middle|by eapply lookup_lt_Some]. }
  rewrite (data_step m c o1 (collected st ms)) by (try done; apply lookup_insert_eq).
  rewrite (bool_decide_true _ Hm), bool_decide_true; cbn [andb].
  2:{ change (replicas o1 _) with (replicas o (o_shard_id st)). unfold collected at 1, flushed_by at 1. cbn [o_flushed].
      rewrite filter_cons_True by done. cbn [fmap list_fmap filter list_filter list_to_set].
      rewrite union_empty_r_L, size_union, size_singleton by set_solver. rewrite Hs, Hfl, size_empty. lia. }
  cbn [client_state_ with_clients o1]. unfold finalized. cbn [o_requested collected]. rewrite Hr.
  eexists _, (add_data (ms ++ [m]) []). rewrite !app_nil_r. split; [done|]. split; [|split; [|split]].
  - assert (o_data (collected (collected st ms) [m]) = add_data (ms ++ [m]) []) as Hdata.
    { cbn [collected o_data]. rewrite Hd. clear. generalize (@nil (Z * storage_client_patch)).
      induction ms as [|m' ms IH]; intros d; [done|]. cbn [app]. cbn [add_data] in *. apply IH. }
    rewrite Hdata. reflexivity.
  - apply add_data_sorted. constructor.
  - intros g p. assert (smap_sorted (add_data (ms ++ [m]) [])) as Hso by (apply add_data_sorted; constructor).
    assert (forall g', g' <> UINT64_MAX -> first_for g' (ms ++ [m]) = first_for g' ms) as Hff.
    { intros g' Hg'. unfold first_for. rewrite filter_app, (filter_cons_False _ m); [by rewrite app_nil_r|]. unfold is_flush in Hm. congruence. }
    rewrite <- smap_find_sorted by done. destruct (decide (g = UINT64_MAX)) as [->|Hg].
    + split; [|by intros []]. rewrite smap_find_sorted by done. intros Hin.
      exfalso. apply (add_data_no_flush (ms ++ [m]) [] p); [constructor|set_solver|done].
    + rewrite add_data_find by (done || constructor). cbn [smap_find]. rewrite Hff by done.
      destruct (first_for g ms) as [m'|]; simpl; [|naive_solver]. split; [intros [= <-]; eauto|].
      intros (_ & m'' & [= ->] & ->). done.
  - simpl. rewrite insert_insert_eq. by rewrite delete_insert_eq.
Qed.

(** The replicas have reported 5 and 9, and replica 1 has data for GSN 7. *)
Definition example_rolling : order :=
  (example_order [ERecv (MOrderClientCut (example_cut 1 9))] example_suspected).1.
Definition example_rolling_state : client_state := ClientState 0 5 true true [(0, 5); (1, 9)] ∅ [].
Definition example_data (replica gsn : Z) (data : list Byte.byte) : order_client_data :=
  OrderClientData 3 0 replica gsn (Z.of_nat (length data)) data.
Definition example_datas : list order_client_data :=
  [example_data 1 9 [Byte.x61]; example_data 0 UINT64_MAX []; example_data 1 7 [Byte.x62; Byte.x63]].

Lemma example_flush_last : flush_last (example_datas ++ [example_data 1 UINT64_MAX []]).
Proof.
  intros i j m m' Hi Hj Hij Hf. unfold is_flush in Hf.
  destruct i as [|[|[|[|i]]]]; try discriminate Hi; injection Hi as <-; try discriminate Hf;
    destruct j as [|[|[|[|j]]]]; try discriminate Hj; try lia; injection Hj as <-; discriminate.
Qed.

Example example_patches :
  add_data example_datas [] = [(7, StorageClientPatch 3 7 2 [Byte.x62; Byte.x63]); (9, StorageClientPatch 3 9 1 [Byte.x61])].
Proof. vm_compute. reflexivity. Qed.

Lemma roll_forward_witness :
  exists o' ps,
    (data_exec example_datas example_rolling).2 = [] /\
    data_exec (example_datas ++ [example_data 1 UINT64_MAX []]) example_rolling =
      (o', send_patches example_rolling 0 ps ++ finalize_client example_rolling 0 3) /\
    smap_sorted ps /\
    (forall g p, (g, p) ∈ ps <-> g <> UINT64_MAX /\ exists m', first_for g example_datas = Some m' /\ p = patch_of m') /\
    client_state_ o' = delete 3 (client_state_ example_rolling).
Proof.
  apply (roll_forward 3 example_rolling example_rolling_state example_datas (example_data 1 UINT64_MAX []));
    [vm_compute; reflexivity|reflexivity|reflexivity|reflexivity|repeat constructor|exact example_flush_last|reflexivity|vm_compute; reflexivity].
Defined.

(** ** Silence towards a suspected client *)

(** The set [suspicious_clients] is that of the clients whose state says they have failed. *)
Definition suspects_ok (o : order) : Prop :=
  forall c, c ∈ suspicious_clients o <-> exists st, client_state_ o !! c = Some st /\ o_failed st = true.

Lemma suspects_update o c st st' :
  suspects_ok o -> client_state_ o !! c = Some st -> o_failed st' = o_failed st ->
  suspects_ok (with_clients (<[c := st']> (client_state_ o)) o).
Proof.
  intros H Hc Hf c'. simpl. rewrite (H c'). destruct (decide (c = c')) as [<-|Hne].
  - rewrite lookup_insert_eq, Hc. naive_solver congruence.
  - by rewrite lookup_insert_ne.
Qed.

Lemma suspects_failed o c st : suspects_ok o -> client_state_ o !! c = Some st -> suspects_ok (failed c st o).1.
Proof.
  intros H Hc c'. simpl. rewrite elem_of_union, elem_of_singleton, (H c'). destruct (decide (c = c')) as [<-|Hne].
  - rewrite lookup_insert_eq. naive_solver.
  - rewrite lookup_insert_ne by done. naive_solver.
Qed.

Lemma suspects_finalized o c st : suspects_ok o -> suspects_ok (finalized c st o).1.
Proof.
  intros H c'. simpl. rewrite elem_of_difference, elem_of_singleton, (H c'). destruct (decide (c = c')) as [<-|Hne].
  - rewrite lookup_delete_eq. naive_solver.
  - rewrite lookup_delete_ne by done. naive_solver.
Qed.

Lemma suspects_same o o' :
  suspects_ok o -> client_state_ o' = client_state_ o -> suspicious_clients o' = suspicious_clients o -> suspects_ok o'.
Proof. intros H Hc Hs c. rewrite Hc, Hs. apply H. Qed.

Lemma suspects_requested o c st st0 m :
  suspects_ok o -> client_state_ o !! c = Some st0 -> o_failed st = o_failed st0 -> suspects_ok (requested c st m o).1.
Proof. intros H Hc Hf. by apply (suspects_update o c st0). Qed.

Lemma handle_suspects e o o' out : suspects_ok o -> handle e o = Ok (o', out) -> suspects_ok o'.
Proof.
  intros H E. destruct e as [m|i|now|m a]; cbn [handle] in E.
  - destruct m; cbn [order_recv] in E; try (injection E as <- _; exact H);
      try (injection E as E; apply (f_equal fst) in E; cbn [fst] in E; subst o').
    + unfold on_client_finished. destruct (client_state_ o !! _) as [st|]; [|done].
      pose proof (suspects_finalized o (cf_client_id m) st H). by destruct (finalized _ _ _).
    + unfold on_subscriber_finished. destruct (decide _); [|done]. by apply (suspects_same o).
    + unfold on_order_client_rate. destruct (client_state_ o !! _) as [st|] eqn:Hc; [|done]. by apply (suspects_update o _ st).
    + unfold on_order_client_cut in E. destruct (client_state_ o !! _) as [st|] eqn:Hc; [|by injection E as <- _].
      destruct (negb _); [by injection E as <- _|]. destruct (_ || _); [by injection E as <- _|].
      match type of E with context [with_clients (<[_ := ?s]> _) _] => pose proof (suspects_update o _ st s H Hc eq_refl) as H1 end.
      destruct (negb _ && _); [|by injection E as <- _]. destruct (min_max_cuts _) as [[mn mx]|]; [|done].
      cbn [mbind result_bind] in E. injection E as E. apply (f_equal fst) in E. cbn [fst] in E. subst o'.
      destruct (mn =? mx); [by apply suspects_finalized|]. by eapply suspects_requested; [|apply lookup_insert_eq|].
    + unfold on_order_client_data. destruct (client_state_ o !! _) as [st|] eqn:Hc; [|done].
      destruct (negb _); [done|]. destruct (_ || _); [done|]. destruct (_ =? _).
      * match goal with |- context [with_clients (<[_ := ?s]> _) _] => pose proof (suspects_update o _ st s H Hc eq_refl) as H1 end.
        destruct (bool_decide _); [by apply suspects_finalized|done].
      * destruct (smap_find _ _); [done|]. by apply (suspects_update o _ st).
    + unfold on_order_client_freeze. destruct (client_state_ o !! _) as [st|] eqn:Hc; [|done].
      destruct (o_failed st); [done|]. by apply suspects_failed.
  - injection E as E. apply (f_equal fst) in E. cbn [fst] in E. subst o'. unfold on_client_failure.
    destruct (client_state_ o !! _) as [st|] eqn:Hc; [|done]. destruct (o_failed st); [done|]. by apply suspects_failed.
  - unfold timers in E. destruct (_ <? _); [injection E as <- _; by apply (suspects_same o)|].
    destruct (_ <? _); [|by injection E as <-]. unfold epoch_round in E. inv_result. by apply (suspects_same o).
  - destruct m; cbn [on_accept] in E; try (by injection E as <-).
    + unfold add_client in E. destruct (_ || _) eqn:Hg; [by injection E as <- _|].
      apply orb_false_iff in Hg as [Hg _]. apply orb_false_iff in Hg as [_ Hex].
      apply bool_decide_eq_false in Hex. rewrite <- eq_None_not_Some in Hex. inv_result.
      intros c. simpl. rewrite (H c). destruct (decide (c = ci_client_id m)) as [->|Hne].
      * rewrite lookup_insert_eq, Hex. naive_solver.
      * by rewrite lookup_insert_ne.
    + unfold add_storage in E. destruct (_ || _); inv_result; [done|]. by apply (suspects_same o).
    + unfold add_subscriber in E. case_decide; [by injection E as <-|]. inv_result. by apply (suspects_same o).
Qed.

Lemma reachable_suspects es o r : suspects_ok o -> order_exec es o = Ok r -> suspects_ok r.1.
Proof.
  revert o r. induction es as [|e es IH]; intros o r H E; [by injection E as <-|].
  apply order_exec_cons in E as (o1 & out1 & out2 & Eh & Ee & _).
  apply (IH o1 (r.1, out2)); [by eapply handle_suspects|done].
Qed.

(** Nothing but the reply to its own farewell is sent to the client, and it stays suspected for
    as long as it is known. *)
Definition silent (c : Z) (r : order * outputs) : Prop :=
  (forall m, (ToClient c, m) ∈ r.2 -> m = MOrderFinished) /\
  (forall st, client_state_ r.1 !! c = Some st -> o_failed st = true).

Lemma to_storage_client o sid m c m' : (ToClient c, m') ∉ to_storage o sid m.
Proof. unfold to_storage. intros (r & [=] & _)%list_elem_of_fmap. Qed.

Lemma silent_same c o out : (forall st, client_state_ o !! c = Some st -> o_failed st = true) ->
  Forall (fun x => match x.1 with ToClient _ => False | _ => True end) out -> silent c (o, out).
Proof. intros Ho Hf. split; [|done]. intros m Hin. rewrite Forall_forall in Hf. by specialize (Hf _ Hin). Qed.

Definition to_others (x : destination * message) : Prop := match x.1 with ToClient _ => False | _ => True end.

Lemma to_storage_others o sid m : Forall to_others (to_storage o sid m).
Proof. apply Forall_fmap, Forall_true. done. Qed.

(** An update of a client that keeps a failed client failed. *)
Lemma still_failed (cs : gmap Z client_state) c c' st st' :
  (forall st, cs !! c = Some st -> o_failed st = true) -> cs !! c' = Some st ->
  (o_failed st = true -> o_failed st' = true) ->
  forall s, <[c' := st']> cs !! c = Some s -> o_failed s = true.
Proof.
  intros Hf Hc' Hst s. destruct (decide (c' = c)) as [->|Hne].
  - rewrite lookup_insert_eq. intros [= <-]. by apply Hst, Hf.
  - rewrite lookup_insert_ne by done. apply Hf.
Qed.

Lemma silent_failed c c' st o :
  (forall st, client_state_ o !! c = Some st -> o_failed st = true) -> client_state_ o !! c' = Some st -> silent c (failed c' st o).
Proof. intros Hf Hc. apply silent_same; [|apply to_storage_others]. by eapply still_failed. Qed.

Lemma silent_finalized c c' st o :
  (forall st, client_state_ o !! c = Some st -> o_failed st = true) -> silent c (finalized c' st o).
Proof.
  intros Hf. apply silent_same; [simpl; intros s [_ Hs]%lookup_delete_Some; by apply Hf|].
  apply Forall_app_2; [|apply to_storage_others]. destruct (o_requested st); [|done].
  apply Forall_bind, Forall_true. intros [g p]. apply to_storage_others.
Qed.

Lemma handle_silent e o r c st :
  suspects_ok o -> client_state_ o !! c = Some st -> o_failed st = true -> handle e o = Ok r -> silent c r.
Proof.
  intros H Hcl Hst E. assert (forall st, client_state_ o !! c = Some st -> o_failed st = true) as Hf by (intros; congruence).
  assert (silent c (o, [])) as Hq by by apply silent_same.
  destruct e as [m|i|now|m a]; cbn [handle] in E.
  - destruct m; cbn [order_recv] in E; try (injection E as <-; exact Hq); try (injection E as <-).
    + unfold on_client_finished. destruct (client_state_ o !! cf_client_id m) as [st'|]; [|done].
      pose proof (silent_finalized c (cf_client_id m) st' o Hf) as [Hs1 Hs2]. destruct (finalized _ _ _) as [o1 out1].
      split; [|done]. intros m' [[= _ ->]|Hin]%elem_of_cons; [done|by apply Hs1].
    + unfold on_subscriber_finished. destruct (decide _); [|done]. apply silent_same; [done|by repeat constructor].
    + unfold on_order_client_rate. destruct (client_state_ o !! rate_client_id m) as [st'|] eqn:Hc; [|done].
      apply silent_same; [|done]. by eapply still_failed.
    + unfold on_order_client_cut in E. destruct (client_state_ o !! cut_client_id m) as [st'|] eqn:Hc; [|by injection E as <-].
      destruct (negb _); [by injection E as <-|]. destruct (_ || _); [by injection E as <-|].
      match type of E with context [with_clients (<[?k := ?s]> _) _] =>
        assert (forall st, <[k := s]> (client_state_ o) !! c = Some st -> o_failed st = true) as Hf' by by eapply still_failed end.
      destruct (negb _ && _); [|injection E as <-; by apply silent_same].
      destruct (min_max_cuts _) as [[mn mx]|]; [|done]. cbn [mbind result_bind] in E. injection E as <-.
      destruct (mn =? mx); [by apply silent_finalized|]. apply silent_same; [|apply to_storage_others].
      cbn [fst requested]. eapply still_failed; [exact Hf'|apply lookup_insert_eq|done].
    + unfold on_order_client_data. destruct (client_state_ o !! ocd_client_id m) as [st'|] eqn:Hc; [|done].
      destruct (negb _); [done|]. destruct (_ || _); [done|]. destruct (_ =? _).
      * match goal with |- context [with_clients (<[?k := ?s]> _) _] =>
          assert (forall st, <[k := s]> (client_state_ o) !! c = Some st -> o_failed st = true) as Hf' by by eapply still_failed end.
        destruct (bool_decide _); [by apply silent_finalized|by apply silent_same].
      * destruct (smap_find _ _); [done|]. apply silent_same; [|done]. by eapply still_failed.
    + unfold on_order_client_freeze. destruct (client_state_ o !! ocf_client_id m) as [st'|] eqn:Hc; [|done].
      destruct (o_failed st'); [done|]. by apply silent_failed.
  - injection E as <-. unfold on_client_failure. destruct (client_state_ o !! ci_client_id i) as [st'|] eqn:Hc; [|done].
    destruct (o_failed st'); [done|]. by apply silent_failed.
  - unfold timers in E. destruct (_ <? _); [injection E as <-|destruct (_ <? _); [|by injection E as <-]].
    + split; [|done]. cbn [snd heartbeat_round]. intros m (c' & Hin & _)%list_elem_of_bind.
      destruct (decide (c' ∈ _)) as [|Hn]; [by apply elem_of_nil in Hin|].
      apply list_elem_of_singleton in Hin as [= <- _]. destruct Hn. apply H. eauto.
    + unfold epoch_round in E. inv_result. split; [|done]. cbn [snd]. intros m Hin. exfalso.
      match goal with E0 : mfold _ _ ?news = Ok _ |- _ =>
        assert (forall m, (ToClient c, m) ∉ news) as Hnews; [|clear - E0 Hin Hnews; revert E0 Hnews; generalize news] end.
      { intros m' ([c' st'] & Hin' & Hc%elem_of_map_to_list)%list_elem_of_bind.
        destruct (o_failed st') eqn:Hf'; [by apply elem_of_nil in Hin'|]. apply list_elem_of_singleton in Hin' as [= -> _].
        rewrite (Hf _ Hc) in Hf'. done. }
      induction (seqZ 0 NUM_SHARDS) as [|sid sids IH]; intros out E0 Hnews; cbn [mfold] in E0; [injection E0 as ->; by apply (Hnews m)|].
      destruct (fits_buffer _); [|done]. cbn [mbind result_bind] in E0. apply (IH _ E0).
      intros m' [Hn|Hs]%elem_of_app; [by apply (Hnews m')|by apply to_storage_client in Hs].
  - destruct m; cbn [on_accept] in E; try (by injection E as <-).
    + unfold add_client in E. destruct (_ || _) eqn:Hg; [by injection E as <-|].
      apply orb_false_iff in Hg as [Hg _]. apply orb_false_iff in Hg as [_ Hex].
      apply bool_decide_eq_false in Hex. rewrite <- eq_None_not_Some in Hex. inv_result.
      assert (c <> ci_client_id m) as Hne by congruence. split; simpl.
      * intros m' [= -> _]%list_elem_of_singleton. done.
      * intros s. rewrite lookup_insert_ne by done. apply Hf.
    + unfold add_storage in E. destruct (_ || _); inv_result; [done|]. by apply silent_same.
    + unfold add_subscriber in E. case_decide; [by injection E as <-|]. inv_result. apply silent_same; [done|by repeat constructor].
Qed.

Lemma suspects_init : suspects_ok order_init.
Proof. intros c. simpl. split; [set_solver|]. by intros (st & [=] & _). Qed.

(** C17: a suspected client is left alone, and no other.  In every state the ordering server can
    reach, [suspicious_clients] are exactly the clients marked as failed (so that one that is
    removed and connects again gets its heartbeats).  Whatever the ordering server handles next, it
    sends such a client nothing but the reply to its own CLIENT_FINISHED (no heartbeat, no epoch,
    so no slots either), and the client stays marked until it is removed. *)
Theorem suspected_silent es o out :
  order_exec es order_init = Ok (o, out) ->
  (forall c, c ∈ suspicious_clients o <-> exists st, client_state_ o !! c = Some st /\ o_failed st = true) /\
  (forall e r c, c ∈ suspicious_clients o -> handle e o = Ok r ->
     (forall m, (ToClient c, m) ∈ r.2 -> m = MOrderFinished) /\
     (forall num sid, (num, sid, c) ∉ active_slots o) /\
     (forall st', client_state_ r.1 !! c = Some st' -> o_failed st' = true)).
Proof.
  intros E. pose proof (reachable_suspects _ _ _ suspects_init E) as H. cbn [fst] in H. split; [exact H|].
  intros e r c (st & Hc & Hf)%H Eh.
  destruct (handle_silent e o r c st H Hc Hf Eh) as [H1 H2]. split; [done|]. split; [|done].
  intros num sid ([c' st'] & Hin & Hc')%list_elem_of_bind. apply elem_of_map_to_list in Hc'.
  destruct (o_failed st') eqn:Hf'; [by apply elem_of_nil in Hin|]. apply list_elem_of_singleton in Hin as [= _ _ <-]. congruence.
Qed.

(** Everything up to the suspicion of client 3, and the next epoch. *)
Definition example_history : list event :=
  example_connect ++ take 4 example_rounds ++
  [ERecv (MOrderClientFreeze (OrderClientFreeze 3)); ERecv (MOrderClientCut (example_cut 0 5))].
Definition example_step : order * outputs := example_order [ETimers (2 * EPOCH_DURATION)] example_suspected.

Lemma suspected_silent_witness :
  3 ∈ suspicious_clients example_suspected /\ handle (ETimers (2 * EPOCH_DURATION)) example_suspected = Ok example_step /\
  (forall c, c ∈ suspicious_clients example_suspected <->
     exists st, client_state_ example_suspected !! c = Some st /\ o_failed st = true) /\
  (forall e r c, c ∈ suspicious_clients example_suspected -> handle e example_suspected = Ok r ->
     (forall m, (ToClient c, m) ∈ r.2 -> m = MOrderFinished) /\
     (forall num sid, (num, sid, c) ∉ active_slots example_suspected) /\
     (forall st', client_state_ r.1 !! c = Some st' -> o_failed st' = true)).
Proof.
  split; [refine (bool_decide_unpack _ _); vm_compute; exact I|]. split; [vm_compute; reflexivity|].
  assert (exists out, order_exec example_history order_init = Ok (example_suspected, out)) as [out E] by (eexists; vm_compute; reflexivity).
  exact (suspected_silent example_history example_suspected out E).
Defined.
