(* ===== verification/SubscriberLog.v ===== *)
(** * The log of a subscriber ([src/subscriber/log.h], [src/subscriber/log.cpp])

    Two blocks of pointers to entries, indexed by GSN.  The polling threads store entries at
    their place ([position_insert]), the application threads walk over the places with a stride
    ([next_entry]), and the control thread moves a block that all of them have left behind to
    the end of the log ([recycle_blocks]).

    The lists of blocks and of counters only grow, so an iterator into them is a place number.
    A block is a pointer into [mem_], where the places that hold [nullptr] are left out; a fresh
    page is zero-filled.  An entry is the message its pointer points to. *)
From S2P Require Import Prelude Consts Api.

(** ** Data *)

(** The class [log]; a [log::block] is a [gmap Z subscriber_log_entry]. *)
Record log := Log {
  blocks_ : list (option nat);
  mem_ : gmap nat (gmap Z subscriber_log_entry);
  counters_ : list Z;
  block_ : nat;
  counter_ : nat;
  num_blocks_ : Z;
  num_iterators_ : Z }.

(** [log::log]. *)
Definition log_init (num_iterators : Z) : log :=
  Log [Some 0%nat; Some 1%nat] (<[0%nat := ∅]> (<[1%nat := ∅]> ∅)) [0; 0] 0 0 2 num_iterators.

(** [log::recycle_blocks]. *)
Definition recycle_blocks (l : log) : result log :=
  c ← deref (counters_ l !! counter_ l);
  if c =? num_iterators_ l then
    b ← deref (blocks_ l !! block_ l);
    p ← deref b;
    Ok (Log (<[block_ l := None]> (blocks_ l ++ [Some p])) (<[p := ∅]> (mem_ l)) (counters_ l ++ [0])
          (S (block_ l)) (S (counter_ l)) (wrap64 (num_blocks_ l + 1)) (num_iterators_ l))
  else Ok l.

(** ** [position] *)

Record position := Position {
  p_current_blocks_ : Z;
  p_iterator_ : nat;
  p_block_index_ : Z }.

(** [position::position]. *)
Definition position_init : position := Position 0 0 0.

(** [while (block > block_index_) { block_index_++; iterator_++; }]. *)
Fixpoint position_advance (n : nat) (p : position) : position :=
  match n with
  | O => p
  | S n => position_advance n (Position (p_current_blocks_ p) (S (p_iterator_ p)) (p_block_index_ p + 1))
  end.

(** [position::insert].  Without the block the thread spins until another thread recycles one. *)
Definition position_insert (entry : subscriber_log_entry) (p : position) (l : log) : result (position * log) :=
  let block := sle_gsn entry / NUM_ENTRIES_PER_BLOCK in
  p ← (if p_current_blocks_ p <=? block then
         if num_blocks_ l <=? block then Err Spins
         else Ok (Position (num_blocks_ l) (p_iterator_ p) (p_block_index_ p))
       else Ok p);
  let p := position_advance (Z.to_nat (block - p_block_index_ p)) p in
  let index := sle_gsn entry mod NUM_ENTRIES_PER_BLOCK in
  b ← deref (blocks_ l !! p_iterator_ p);
  q ← deref b;
  mem ← deref (mem_ l !! q);
  Ok (p, Log (blocks_ l) (<[q := <[index := entry]> mem]> (mem_ l)) (counters_ l) (block_ l) (counter_ l)
           (num_blocks_ l) (num_iterators_ l)).

(** ** [iterator] *)

(** [entry_] is a place: a block and an index in it. *)
Record iterator := Iterator {
  entry_index_ : Z;
  stride_ : Z;
  it_current_blocks_ : Z;
  it_block_ : nat;
  it_counter_ : nat;
  it_block_index_ : Z;
  entry_ : option (nat * Z) }.

(** [iterator::iterator], which leaves [current_blocks_] as the memory was. *)
Definition iterator_init (uninitialized : Z) (index stride : Z) : iterator :=
  Iterator index stride uninitialized 0 0 0 None.

(** [while (block > block_index_) { .. }]: every block left behind is counted. *)
Fixpoint iterator_advance (n : nat) (it : iterator) (counters : list Z) : result (iterator * list Z) :=
  match n with
  | O => Ok (it, counters)
  | S n =>
    c ← deref (counters !! it_counter_ it);
    iterator_advance n
      (Iterator (entry_index_ it) (stride_ it) (it_current_blocks_ it) (S (it_block_ it)) (S (it_counter_ it))
         (it_block_index_ it + 1) (entry_ it))
      (<[it_counter_ it := wrap64 (c + 1)]> counters)
  end.

Definition with_counters (c : list Z) (l : log) : log :=
  Log (blocks_ l) (mem_ l) c (block_ l) (counter_ l) (num_blocks_ l) (num_iterators_ l).

(** The first half of [next_entry]: look for the entry under consideration, and move on by
    [step]. [None] if its block does not exist yet. *)
Definition find_entry (step : Z) (it : iterator) (l : log) : result (option (iterator * log)) :=
  match entry_ it with
  | Some _ => Ok (Some (it, l))
  | None =>
    let block := entry_index_ it / NUM_ENTRIES_PER_BLOCK in
    let current := if it_current_blocks_ it <=? block then num_blocks_ l else it_current_blocks_ it in
    if current <=? block then Ok None else
    '(it, counters) ← iterator_advance (Z.to_nat (block - it_block_index_ it))
      (Iterator (entry_index_ it) (stride_ it) current (it_block_ it) (it_counter_ it) (it_block_index_ it) None) (counters_ l);
    let index := entry_index_ it mod NUM_ENTRIES_PER_BLOCK in
    b ← deref (blocks_ l !! it_block_ it);
    q ← deref b;
    Ok (Some (Iterator (wrap64 (entry_index_ it + step)) (stride_ it) (it_current_blocks_ it) (it_block_ it)
                (it_counter_ it) (it_block_index_ it) (Some (q, index)), with_counters counters l))
  end.

(** [current_blocks_] is re-read when the block does not exist yet, too. *)
Definition reread (it : iterator) (l : log) : iterator :=
  Iterator (entry_index_ it) (stride_ it) (num_blocks_ l) (it_block_ it) (it_counter_ it) (it_block_index_ it) (entry_ it).

(** What the place under consideration holds. *)
Definition load_entry (it : iterator) (l : log) : result (option subscriber_log_entry) :=
  '(q, index) ← deref (entry_ it);
  mem ← deref (mem_ l !! q);
  Ok (mem !! index).

Definition clear_entry (it : iterator) : iterator :=
  Iterator (entry_index_ it) (stride_ it) (it_current_blocks_ it) (it_block_ it) (it_counter_ it) (it_block_index_ it) None.

(** [iterator::next_entry]. *)
Definition next_entry (it : iterator) (l : log) : result (option subscriber_log_entry * iterator * log) :=
  found ← find_entry (stride_ it) it l;
  match found with
  | None => Ok (None, reread it l, l)
  | Some (it, l) =>
    e ← load_entry it l;
    match e with
    | Some e => Ok (Some e, clear_entry it, l)
    | None => Ok (None, it, l)
    end
  end.

(** ** [sequential_iterator] *)

Record sequential_iterator := SequentialIterator {
  base : iterator;
  index_ : Z }.

(** [sequential_iterator::sequential_iterator]. *)
Definition sequential_init (uninitialized : Z) (index stride : Z) : sequential_iterator :=
  SequentialIterator (Iterator 0 stride uninitialized 0 0 0 None) index.

(** [sequential_iterator::next_entry]. *)
Definition sequential_next_entry (s : sequential_iterator) (l : log)
  : result (option subscriber_log_entry * sequential_iterator * log) :=
  let it := base s in
  found ← find_entry 1 it l;
  match found with
  | None => Ok (None, SequentialIterator (reread it l) (index_ s), l)
  | Some (it, l) =>
    e ← load_entry it l;
    match e with
    | Some e =>
      if stride_ it =? 0 then Err Undefined else
      Ok (if wrap64 (entry_index_ it - 1) mod stride_ it =? index_ s then Some e else None,
          SequentialIterator (clear_entry it) (index_ s), l)
    | None => Ok (None, SequentialIterator it (index_ s), l)
    end
  end.
