(* ===== verification/SubscriberLogSpec.v ===== *)
(** * Correctness of the subscriber's log

    However the steps of the polling threads (inserts), of the control thread (recycling) and of
    the application threads (reading) interleave, every application thread reads the entries of
    its places in the order of their GSNs, each exactly once and only after it has been stored,
    and the recycling of blocks never touches an entry that is still needed. *)
From S2P Require Import Prelude Consts Api SubscriberLog.

#[local] Opaque NUM_ENTRIES_PER_BLOCK.
#[local] Abbreviation B := NUM_ENTRIES_PER_BLOCK.

(** ** The threads as steps *)

(** [next_entry] in terms of its two halves. *)
Definition walk (step : Z) (it : iterator) (l : log) : result (option subscriber_log_entry * iterator * log) :=
  found ← find_entry step it l;
  match found with
  | None => Ok (None, reread it l, l)
  | Some (it, l) =>
    e ← load_entry it l;
    Ok (e, match e with Some _ => clear_entry it | None => it end, l)
  end.

Lemma next_entry_walk it l : next_entry it l = walk (stride_ it) it l.
Proof.
  unfold next_entry, walk. destruct (find_entry _ _ _) as [[[it' l']|]|]; try done. cbn [mbind result_bind].
  destruct (load_entry it' l') as [[e|]|]; done.
Qed.

(** The log with the positions of the polling threads, the walkers of the application threads
    and what each of these has read. *)
Record system := System {
  sys_log : log;
  sys_positions : list position;
  sys_walkers : list iterator;
  sys_read : list (list subscriber_log_entry) }.

Inductive action :=
| NewPosition
| Insert (i : nat) (e : subscriber_log_entry)
| Recycle
| Next (k : nat).

(** One step. *)
Definition act (a : action) (s : system) : result system :=
  match a with
  | NewPosition => Ok (System (sys_log s) (sys_positions s ++ [position_init]) (sys_walkers s) (sys_read s))
  | Insert i e =>
    p ← deref (sys_positions s !! i);
    '(p, l) ← position_insert e p (sys_log s);
    Ok (System l (<[i := p]> (sys_positions s)) (sys_walkers s) (sys_read s))
  | Recycle =>
    l ← recycle_blocks (sys_log s);
    Ok (System l (sys_positions s) (sys_walkers s) (sys_read s))
  | Next k =>
    it ← deref (sys_walkers s !! k);
    read ← deref (sys_read s !! k);
    '(e, it, l) ← next_entry it (sys_log s);
    Ok (System l (sys_positions s) (<[k := it]> (sys_walkers s)) (<[k := read ++ option_list e]> (sys_read s)))
  end.

(** ** The invariant *)

(** GSNs and strides are far from the end of [uint64_t]. *)
Definition GSN_BOUND : Z := 2 ^ 62.
Definition MAX_STEP : Z := 2 ^ 32.

(** The place numbers a walker that starts at [a] visits. *)
Definition place (w : Z * Z) (n : nat) : Z := w.1 + w.2 * Z.of_nat n.

Definition strides_ok (ws : list (Z * Z)) : Prop :=
  Forall (fun w => 0 <= w.1 < MAX_STEP /\ 0 < w.2 < MAX_STEP) ws.

(** Every place is visited by one of the walkers. *)
Definition covering (ws : list (Z * Z)) : Prop :=
  strides_ok ws /\
  forall g, 0 <= g -> exists k w n, ws !! k = Some w /\ g = place w n.

(** The block holds the entries of the GSNs of the [i]-th block. *)
Definition holds (D : gmap Z subscriber_log_entry) (i : nat) (m : gmap Z subscriber_log_entry) : Prop :=
  forall j, 0 <= j < B -> m !! j = D !! (Z.of_nat i * B + j).

Definition passed (i : nat) (its : list iterator) : Z :=
  Z.of_nat (length (filter (fun it => Z.of_nat i < it_block_index_ it) its)).

(** The log after the entries [D] have been inserted. *)
Record log_ok (D : gmap Z subscriber_log_entry) (l : log) : Prop := {
  lo_length : length (blocks_ l) = S (S (block_ l));
  lo_block i : (i = block_ l \/ i = S (block_ l)) ->
    exists q m, blocks_ l !! i = Some (Some q) /\ mem_ l !! q = Some m /\ holds D i m;
  lo_distinct : blocks_ l !! block_ l <> blocks_ l !! S (block_ l);
  lo_num : num_blocks_ l = Z.of_nat (block_ l) + 2;
  lo_counter : counter_ l = block_ l;
  lo_entries g e : D !! g = Some e -> sle_gsn e = g /\ 0 <= g < (Z.of_nat (block_ l) + 2) * B /\ g < GSN_BOUND;
  lo_complete g : 0 <= g < Z.of_nat (block_ l) * B -> is_Some (D !! g) }.

Record position_ok (l : log) (last : Z) (p : position) : Prop := {
  po_current : p_current_blocks_ p <= num_blocks_ l;
  po_iterator : Z.of_nat (p_iterator_ p) = p_block_index_ p;
  po_last : p_block_index_ p * B <= Z.max 0 last }.

(** A walker that has read the entries of its first [n] places. *)
Record walker_ok (D : gmap Z subscriber_log_entry) (l : log) (w : Z * Z) (n : nat) (it : iterator) : Prop := {
  wo_stride : stride_ it = w.2;
  wo_block : Z.of_nat (it_block_ it) = it_block_index_ it;
  wo_counter : it_counter_ it = it_block_ it;
  wo_range : Z.of_nat (block_ l) <= it_block_index_ it <= Z.of_nat (block_ l) + 1;
  wo_current : it_current_blocks_ it <= num_blocks_ l;
  wo_read i : (i < n)%nat -> is_Some (D !! place w i);
  wo_index : it_block_index_ it * B <= place w n;
  wo_entry : match entry_ it with
    | None => entry_index_ it = place w n
    | Some (q, j) => entry_index_ it = place w (S n) /\ place w n / B = it_block_index_ it /\
        j = place w n mod B /\ blocks_ l !! it_block_ it = Some (Some q)
    end }.

Record system_ok (ws : list (Z * Z)) (D : gmap Z subscriber_log_entry) (lasts : list Z) (s : system) : Prop := {
  sk_log : log_ok D (sys_log s);
  sk_num : num_iterators_ (sys_log s) = Z.of_nat (length ws);
  sk_counters : length (counters_ (sys_log s)) = S (S (block_ (sys_log s)));
  sk_passed i c : counters_ (sys_log s) !! i = Some c -> c = passed i (sys_walkers s);
  sk_positions : Forall2 (position_ok (sys_log s)) lasts (sys_positions s);
  sk_walkers : length (sys_walkers s) = length ws;
  sk_reads : length (sys_read s) = length ws;
  sk_walker k w it read : ws !! k = Some w -> sys_walkers s !! k = Some it -> sys_read s !! k = Some read ->
    walker_ok D (sys_log s) w (length read) it /\
    forall i e, read !! i = Some e -> D !! place w i = Some e }.

Lemma B_pos : 0 < B.
Proof. exact num_entries_per_block_pos. Qed.

Lemma B_bound : B < MAX_STEP.
Proof. reflexivity. Qed.

(** ** Moving the iterators *)

Lemma position_advance_ok n p :
  position_advance n p = Position (p_current_blocks_ p) (p_iterator_ p + n) (p_block_index_ p + Z.of_nat n).
Proof.
  revert p. induction n as [|n IH]; intros [c i b]; simpl.
  - f_equal; lia.
  - rewrite IH. simpl. f_equal; lia.
Qed.

(** What [iterator_advance] does: the walker moves [n] blocks and each of them is counted. *)
Lemma iterator_advance_ok n it counters :
  it_counter_ it = it_block_ it -> (it_counter_ it + n <= length counters)%nat ->
  (forall i c, (it_counter_ it <= i)%nat -> counters !! i = Some c -> 0 <= c < W64 - 1) ->
  exists counters', iterator_advance n it counters =
    Ok (Iterator (entry_index_ it) (stride_ it) (it_current_blocks_ it) (it_block_ it + n) (it_counter_ it + n)
          (it_block_index_ it + Z.of_nat n) (entry_ it), counters') /\
    length counters' = length counters /\
    forall i, counters' !! i = (fun c => if decide (it_block_ it <= i < it_block_ it + n)%nat then c + 1 else c) <$> counters !! i.
Proof.
  revert it counters. induction n as [|n IH]; intros [x s cb b ct bi e] counters Hcb Hlen Hc; simpl in *; subst ct.
  - exists counters. split; [f_equal; f_equal; f_equal; lia|]. split; [done|]. intros i. destruct (counters !! i); simpl; [|done].
    by rewrite decide_False by lia.
  - destruct (lookup_lt_is_Some_2 counters b) as [c Hl]; [lia|]. rewrite Hl. cbn [deref mbind result_bind].
    rewrite wrap64_small by (specialize (Hc b c ltac:(lia) Hl); lia).
    destruct (IH (Iterator x s cb (S b) (S b) (bi + 1) e) (<[b := c + 1]> counters)) as (cs' & E & Hl' & Hcs'); simpl.
    + done.
    + rewrite length_insert. lia.
    + intros i c' Hi. rewrite list_lookup_insert_ne by lia. apply Hc. lia.
    + simpl in E. rewrite E. exists cs'. split; [f_equal; f_equal; f_equal; lia|]. split; [by rewrite Hl', length_insert|].
      intros i. rewrite Hcs'. simpl. destruct (decide (i = b)) as [->|Hne].
      * rewrite list_lookup_insert_eq by (by eapply lookup_lt_Some). rewrite Hl. simpl.
        rewrite decide_False by lia. by rewrite decide_True by lia.
      * rewrite list_lookup_insert_ne by done. destruct (counters !! i); simpl; [|done]. f_equal.
        destruct (decide (S b <= i < S (b + n))%nat), (decide (b <= i < b + S n)%nat); lia.
Qed.

(** ** Inserting *)

(** The two logs differ in the contents of the blocks and the counters only. *)
Definition same_blocks (l l' : log) : Prop :=
  blocks_ l' = blocks_ l /\ block_ l' = block_ l /\ counter_ l' = counter_ l /\
  num_blocks_ l' = num_blocks_ l /\ num_iterators_ l' = num_iterators_ l.

Lemma place_split g : 0 <= g -> g = g / B * B + g mod B /\ 0 <= g mod B < B /\ 0 <= g / B.
Proof.
  intros Hg. pose proof B_pos. pose proof (Z.div_mod g B ltac:(lia)). pose proof (Z.mod_pos_bound g B B_pos).
  pose proof (Z.div_pos g B Hg B_pos). lia.
Qed.

Lemma split_inj i j i' j' : 0 <= j < B -> 0 <= j' < B -> i * B + j = i' * B + j' -> i = i' /\ j = j'.
Proof. intros Hj Hj' E. assert (i = i') by nia. subst. split; lia. Qed.

(** The two live blocks are different memory. *)
Lemma live_distinct D l i i' q : log_ok D l -> (i = block_ l \/ i = S (block_ l)) -> (i' = block_ l \/ i' = S (block_ l)) ->
  blocks_ l !! i = Some (Some q) -> blocks_ l !! i' = Some (Some q) -> i = i'.
Proof. intros H Hi Hi' E E'. pose proof (lo_distinct _ _ H). destruct Hi as [-> | ->], Hi' as [-> | ->]; congruence. Qed.

(** Storing an entry in its block. *)
Lemma store_ok D l e q m i :
  let g := sle_gsn e in
  log_ok D l -> 0 <= g < GSN_BOUND -> g / B = Z.of_nat i -> (i = block_ l \/ i = S (block_ l)) ->
  blocks_ l !! i = Some (Some q) -> mem_ l !! q = Some m ->
  log_ok (<[g := e]> D)
    (Log (blocks_ l) (<[q := <[g mod B := e]> m]> (mem_ l)) (counters_ l) (block_ l) (counter_ l) (num_blocks_ l) (num_iterators_ l)).
Proof.
  intros g H Hg Hb Hi Hq Hm. destruct (place_split g ltac:(lia)) as (Hdm & Hmod & _). pose proof B_pos.
  split; simpl; try apply H.
  - intros i' Hi'. destruct (lo_block _ _ H i' Hi') as (q' & m' & Hq' & Hm' & Hh). exists q'.
    destruct (decide (q = q')) as [<-|Hne].
    + assert (i' = i) as -> by by apply (live_distinct D l i' i q).
      assert (m' = m) as -> by congruence. rewrite lookup_insert_eq. eexists. split; [done|]. split; [done|].
      intros j Hj. destruct (decide (j = g mod B)) as [->|Hnj].
      * rewrite lookup_insert_eq. replace (Z.of_nat i * B + g mod B) with g by lia. by rewrite lookup_insert_eq.
      * rewrite lookup_insert_ne by done. rewrite Hh by done. rewrite lookup_insert_ne by (intros E; apply Hnj; subst; nia). done.
    + exists m'. rewrite lookup_insert_ne by done. split; [done|]. split; [done|]. intros j Hj. rewrite Hh by done.
      rewrite lookup_insert_ne; [done|]. intros E. assert (i' = i) as ->; [|congruence].
      destruct (split_inj (Z.of_nat i') j (Z.of_nat i) (g mod B)); [done..|lia|lia].
  - intros g' e'. destruct (decide (g = g')) as [<-|Hne].
    + rewrite lookup_insert_eq. intros [= <-]. split; [done|]. split; [nia|lia].
    + rewrite lookup_insert_ne by done. apply H.
  - intros g' Hg'. destruct (decide (g = g')) as [<-|Hne]; [rewrite lookup_insert_eq; eauto|].
    rewrite lookup_insert_ne by done. by apply (lo_complete _ _ H).
Qed.

Lemma store_entry_ok D l last p e :
  let g := sle_gsn e in
  log_ok D l -> position_ok l last p -> 0 <= g < GSN_BOUND -> D !! g = None -> last < g ->
  (num_blocks_ l <= g / B -> position_insert e p l = Err Spins) /\
  (g / B < num_blocks_ l -> exists p' l', position_insert e p l = Ok (p', l') /\
     log_ok (<[g := e]> D) l' /\ position_ok l' g p' /\ same_blocks l l' /\ counters_ l' = counters_ l).
Proof.
  intros g H Hp Hg Hfresh Hlast. destruct (place_split g ltac:(lia)) as (Hdm & Hmod & Hdiv). pose proof B_pos.
  destruct p as [cur it bi]. destruct Hp as [Hcur Hit Hbi]; simpl in *. unfold position_insert. cbn [p_current_blocks_ p_iterator_ p_block_index_].
  fold g. split.
  - intros Hn. rewrite (proj2 (Z.leb_le _ _)) by lia. by rewrite (proj2 (Z.leb_le _ _)) by lia.
  - intros Hn. assert (Z.of_nat (block_ l) <= g / B) as Hlow.
    { apply Z.nlt_ge. intros Hlt. destruct (lo_complete _ _ H g) as [x Hx]; [nia|congruence]. }
    pose proof (lo_num _ _ H) as Hnum. set (i := Z.to_nat (g / B)).
    assert (i = block_ l \/ i = S (block_ l)) as Hi by lia.
    destruct (lo_block _ _ H i Hi) as (q & m & Hq & Hm & _).
    assert (bi <= g / B) as Hbig by nia.
    assert (exists cur', (if cur <=? g / B then if num_blocks_ l <=? g / B then Err Spins else Ok (Position (num_blocks_ l) it bi)
      else Ok (Position cur it bi)) = Ok (Position cur' it bi) /\ cur' <= num_blocks_ l) as (cur' & -> & Hcur').
    { destruct (cur <=? g / B); [|by exists cur]. rewrite (proj2 (Z.leb_gt _ _)) by lia. by exists (num_blocks_ l). }
    cbn [mbind result_bind]. rewrite position_advance_ok. cbn [p_current_blocks_ p_iterator_ p_block_index_].
    assert (it + Z.to_nat (g / B - bi) = i)%nat as -> by (clear - Hit Hbig Hdiv; unfold i; lia). rewrite Hq. cbn [deref mbind result_bind]. rewrite Hm. cbn [deref mbind result_bind].
    eexists _, _. split; [reflexivity|]. split; [apply (store_ok D l e q m i); try done; unfold i; by rewrite Z2Nat.id|].
    split; [|done]. split; cbn [p_current_blocks_ p_iterator_ p_block_index_ num_blocks_]; [done|lia|].
    rewrite Z2Nat.id by lia. replace (bi + (g / B - bi)) with (g / B) by lia. lia.
Qed.

(** ** Reading *)

Lemma walker_mono D D' l l' w n it : same_blocks l l' -> D ⊆ D' -> walker_ok D l w n it -> walker_ok D' l' w n it.
Proof.
  intros (Hb & Hr & _ & Hn & _) HD [H0 H1 H2 H3 H4 H5 H6 H7].
  split; rewrite ?Hb, ?Hr, ?Hn; try done. intros i [e He]%H5. exists e. by eapply lookup_weaken.
Qed.

Lemma position_mono l l' last p : num_blocks_ l <= num_blocks_ l' -> position_ok l last p -> position_ok l' last p.
Proof. intros Hn [H1 H2 H3]. split; [lia|done|done]. Qed.

Lemma log_ok_counters D l cs : log_ok D l -> log_ok D (with_counters cs l).
Proof. intros [H1 H2 H3 H4 H5 H6 H7]. by split. Qed.

Lemma place_succ w n : place w (S n) = place w n + w.2.
Proof. unfold place. lia. Qed.

(** The places read so far are below the end of the log. *)
Lemma place_bound D l w n it :
  log_ok D l -> walker_ok D l w n it -> 0 <= w.1 < MAX_STEP -> 0 < w.2 < MAX_STEP -> 0 <= place w n < GSN_BOUND + MAX_STEP.
Proof.
  intros H Hw H1 H2. split; [unfold place; lia|]. destruct n as [|n].
  - unfold place. change GSN_BOUND with 4611686018427387904. change MAX_STEP with 4294967296 in *. lia.
  - destruct (wo_read _ _ _ _ _ Hw n) as [e He]; [lia|]. destruct (lo_entries _ _ H _ _ He) as (_ & _ & Hg).
    rewrite place_succ. lia.
Qed.

(** The walker's place is in the live block it stands in. *)
Lemma load_ok D l it i q g :
  log_ok D l -> 0 <= g -> g / B = Z.of_nat i -> (i = block_ l \/ i = S (block_ l)) -> blocks_ l !! i = Some (Some q) ->
  entry_ it = Some (q, g mod B) -> load_entry it l = Ok (D !! g).
Proof.
  intros H Hg Hb Hi Hq He. unfold load_entry. rewrite He. cbn [deref mbind result_bind].
  destruct (lo_block _ _ H i Hi) as (q' & m & Hq' & Hm & Hh). assert (q' = q) as -> by congruence.
  rewrite Hm. cbn [deref mbind result_bind]. destruct (place_split g Hg) as (Hdm & Hmod & _).
  rewrite (Hh _ Hmod). do 2 f_equal. lia.
Qed.

(** Everything at and after the end of the log is still to be inserted. *)
Lemma beyond_end D l g : log_ok D l -> num_blocks_ l <= g / B -> D !! g = None.
Proof.
  intros H Hn. destruct (D !! g) as [e|] eqn:He; [|done]. destruct (lo_entries _ _ H _ _ He) as (_ & Hg & _).
  rewrite (lo_num _ _ H) in Hn. pose proof B_pos. pose proof (Z.div_lt_upper_bound g B (Z.of_nat (block_ l) + 2) ltac:(lia)). lia.
Qed.

(** What [find_entry] does. *)
Lemma find_ok D l w n it :
  log_ok D l -> walker_ok D l w n it -> 0 <= w.1 < MAX_STEP -> 0 < w.2 < MAX_STEP ->
  length (counters_ l) = S (S (block_ l)) -> (forall i c, counters_ l !! i = Some c -> 0 <= c < W64 - 1) ->
  (D !! place w n = None /\ entry_ it = None /\ find_entry w.2 it l = Ok None) \/
  (exists it' cs q, find_entry w.2 it l = Ok (Some (it', with_counters cs l)) /\
     walker_ok D l w n it' /\ it_block_index_ it <= it_block_index_ it' /\ entry_ it' = Some (q, place w n mod B) /\ length cs = length (counters_ l) /\
     forall i, cs !! i = (fun c => if decide (it_block_index_ it <= Z.of_nat i < it_block_index_ it') then c + 1 else c) <$> counters_ l !! i).
Proof.
  intros H Hw H1 H2 Hlen Hcs. pose proof (place_bound _ _ _ _ _ H Hw H1 H2) as Hpl. pose proof Hw as [Ws Wb Wc Wr Wcur Wread Wi We].
  unfold find_entry. destruct (entry_ it) as [[q j]|] eqn:Hent.
  { right. exists it, (counters_ l), q. destruct We as (We1 & We2 & -> & We3). split; [by destruct l|].
    split; [done|]. split; [done|]. split; [done|]. split; [done|]. intros i. destruct (counters_ l !! i); simpl; [|done]. by rewrite decide_False by lia. }
  rewrite We. pose proof (lo_num _ _ H) as Hnum. pose proof B_pos as HB.
  destruct (place_split (place w n) ltac:(lia)) as (Hdm & Hmod & Hdiv).
  set (cur := if it_current_blocks_ it <=? place w n / B then num_blocks_ l else it_current_blocks_ it).
  destruct (Z.leb_spec cur (place w n / B)) as [Hc|Hc].
  { left. split; [|done]. apply (beyond_end _ _ _ H). unfold cur in Hc. destruct (Z.leb_spec (it_current_blocks_ it) (place w n / B)); lia. }
  right. assert (cur <= num_blocks_ l) as Hcur by (unfold cur; destruct (_ <=? _); lia).
  assert (it_block_index_ it <= place w n / B) as Hbi by nia.
  destruct (iterator_advance_ok (Z.to_nat (place w n / B - it_block_index_ it))
    (Iterator (place w n) (stride_ it) cur (it_block_ it) (it_counter_ it) (it_block_index_ it) None) (counters_ l))
    as (cs & -> & Hl & Hcs'); simpl.
  { done. }
  { rewrite Wc. lia. }
  { intros i c _. apply Hcs. }
  simpl in Hcs'. set (i := Z.to_nat (place w n / B)).
  assert (it_block_ it + Z.to_nat (place w n / B - it_block_index_ it) = i)%nat as Hi by (clear - Wb Hbi Hdiv; unfold i; lia).
  rewrite Wc, Hi. assert (i = block_ l \/ i = S (block_ l)) as Hlive by (clear - Wr Hnum Hcur Hc Hbi; unfold i; lia).
  destruct (lo_block _ _ H i Hlive) as (q & m & Hq & _). rewrite Hq. cbn [deref mbind result_bind].
  assert (it_block_index_ it + Z.of_nat (Z.to_nat (place w n / B - it_block_index_ it)) = place w n / B) as -> by (rewrite Z2Nat.id by lia; lia).
  eexists _, cs, q. split; [reflexivity|]. simpl. split; [|split; [done|split; [done|split; [done|]]]].
  - split; simpl; try done.
    + unfold i. by rewrite Z2Nat.id.
    + clear - Wr Hnum Hcur Hc Hbi. lia.
    + lia.
    + split; [|done]. rewrite place_succ. apply wrap64_small.
      change GSN_BOUND with 4611686018427387904 in *. change MAX_STEP with 4294967296 in *. lia.
  - intros i'. rewrite Hcs'. destruct (counters_ l !! i'); simpl; [|done]. f_equal.
    destruct (decide _), (decide _); try done; exfalso; clear - Wb Hi Hdiv Hbi a n0 || clear - Wb Hi Hdiv Hbi n0 a; unfold i in *; lia.
Qed.

(** A walker reads what has been inserted at its place, and moves on if there is something. *)
Lemma walk_ok D l w n it :
  log_ok D l -> walker_ok D l w n it -> 0 <= w.1 < MAX_STEP -> 0 < w.2 < MAX_STEP ->
  length (counters_ l) = S (S (block_ l)) -> (forall i c, counters_ l !! i = Some c -> 0 <= c < W64 - 1) ->
  exists it' cs, walk w.2 it l = Ok (D !! place w n, it', with_counters cs l) /\
    walker_ok D l w (match D !! place w n with Some _ => S n | None => n end) it' /\ it_block_index_ it <= it_block_index_ it' /\ length cs = length (counters_ l) /\
    forall i, cs !! i = (fun c => if decide (it_block_index_ it <= Z.of_nat i < it_block_index_ it') then c + 1 else c) <$> counters_ l !! i.
Proof.
  intros H Hw H1 H2 Hlen Hcs. unfold walk.
  destruct (find_ok D l w n it H Hw H1 H2 Hlen Hcs) as [(HD & Hent & ->)|(it' & cs & q & -> & Hw' & Hle & Hent & Hl & Hcs')]; cbn [mbind result_bind].
  - rewrite HD. exists (reread it l), (counters_ l). split; [by destruct l|]. split; [|split; [done|split; [done|]]].
    + destruct Hw as [Ws Wb Wc Wr Wcur Wread Wi We]. rewrite Hent in We. split; simpl; try done. by rewrite Hent.
    + intros i. destruct (counters_ l !! i); simpl; [|done]. by rewrite decide_False by lia.
  - pose proof (place_bound _ _ _ _ _ H Hw H1 H2) as Hpl. pose proof Hw' as [Ws Wb Wc Wr Wcur Wread Wi We]. rewrite Hent in We.
    destruct We as (We1 & We2 & _ & We3).
    rewrite (load_ok D _ it' (it_block_ it') q (place w n)); try done; [|by apply log_ok_counters|lia|by rewrite Wb|simpl; lia].
    cbn [mbind result_bind]. destruct (D !! place w n) as [e|] eqn:He.
    + exists (clear_entry it'), cs. split; [done|]. split; [|done]. split; simpl; try done.
      * intros i Hi. destruct (decide (i = n)) as [->|]; [by rewrite He|]. apply Wread. lia.
      * rewrite place_succ. lia.
    + by exists it', cs.
Qed.

(** ** Recycling *)

Lemma passed_le i its : 0 <= passed i its <= Z.of_nat (length its).
Proof. unfold passed. pose proof (length_filter (fun it => Z.of_nat i < it_block_index_ it) its). lia. Qed.

Lemma passed_all i its : passed i its = Z.of_nat (length its) -> Forall (fun it => Z.of_nat i < it_block_index_ it) its.
Proof.
  unfold passed. intros E. induction its as [|it its IH]; [done|].
  rewrite filter_cons in E. destruct (decide _) as [Hd|Hd]; cbn [length] in E.
  - constructor; [done|]. apply IH. lia.
  - pose proof (length_filter (fun it => Z.of_nat i < it_block_index_ it) its). lia.
Qed.

Lemma passed_none i its : Forall (fun it => it_block_index_ it <= Z.of_nat i) its -> passed i its = 0.
Proof.
  unfold passed. induction 1 as [|it its Hit _ IH]; [done|]. rewrite filter_cons_False by lia. done.
Qed.

Lemma passed_insert k it it' i its :
  its !! k = Some it -> it_block_index_ it <= it_block_index_ it' ->
  passed i (<[k := it']> its) = if decide (it_block_index_ it <= Z.of_nat i < it_block_index_ it') then passed i its + 1 else passed i its.
Proof.
  unfold passed. revert k. induction its as [|x its IH]; intros [|k] Hk Hle; try done; simpl in Hk.
  - injection Hk as ->. cbn [insert list_insert]. rewrite !filter_cons.
    destruct (decide (_ < it_block_index_ it')), (decide (_ < it_block_index_ it)), (decide (_ <= _ < _)); cbn [length]; lia.
  - change (<[S k := it']> (x :: its)) with (x :: <[k := it']> its). rewrite !filter_cons. specialize (IH k Hk Hle).
    destruct (decide (_ < it_block_index_ x)); cbn [length]; rewrite ?Nat2Z.inj_succ, IH; destruct (decide (it_block_index_ it <= _ < _)); lia.
Qed.

(** All entries of a block that every walker has left have been inserted. *)
Lemma passed_complete ws D lasts s g :
  covering ws -> system_ok ws D lasts s ->
  passed (block_ (sys_log s)) (sys_walkers s) = Z.of_nat (length ws) ->
  0 <= g < (Z.of_nat (block_ (sys_log s)) + 1) * B -> is_Some (D !! g).
Proof.
  intros [Hws Hcov] H Hp Hg. rewrite <- (sk_walkers _ _ _ _ H) in Hp. apply passed_all in Hp.
  destruct (Hcov g) as (k & w & n & Hk & ->); [lia|]. pose proof (lookup_lt_Some _ _ _ Hk) as Hlt.
  destruct (lookup_lt_is_Some_2 (sys_walkers s) k) as [it Hit]; [rewrite (sk_walkers _ _ _ _ H); lia|].
  destruct (lookup_lt_is_Some_2 (sys_read s) k) as [rd Hrd]; [rewrite (sk_reads _ _ _ _ H); lia|].
  destruct (sk_walker _ _ _ _ H _ _ _ _ Hk Hit Hrd) as [Hw _].
  pose proof (Forall_lookup_1 _ _ _ _ Hp Hit) as Hb. pose proof (Forall_lookup_1 _ _ _ _ Hws Hk) as [_ Hstep].
  apply (wo_read _ _ _ _ _ Hw). pose proof (wo_index _ _ _ _ _ Hw) as Hi. pose proof B_pos.
  cbv beta in Hb. apply Nat2Z.inj_lt. assert (place w n < place w (length rd)) as Hpl by nia. unfold place in Hpl.
  apply (Z.mul_lt_mono_pos_l w.2); [apply Hstep|lia].
Qed.

(** [fold] in the hypotheses whose types mention the term. *)
Ltac fold_in x := repeat match goal with H : _ |- _ => progress fold x in H end.

Lemma recycle_ok ws D lasts s :
  covering ws -> system_ok ws D lasts s -> Z.of_nat (length ws) < MAX_STEP ->
  exists l', recycle_blocks (sys_log s) = Ok l' /\
    system_ok ws D lasts (System l' (sys_positions s) (sys_walkers s) (sys_read s)).
Proof.
  intros Hcov H Hws. pose proof (sk_log _ _ _ _ H) as Hl. unfold recycle_blocks. rewrite (lo_counter _ _ Hl).
  destruct (lookup_lt_is_Some_2 (counters_ (sys_log s)) (block_ (sys_log s))) as [c Hc]; [rewrite (sk_counters _ _ _ _ H); lia|].
  rewrite Hc. cbn [deref mbind result_bind]. rewrite (sk_num _ _ _ _ H). pose proof (sk_passed _ _ _ _ H _ _ Hc) as Hp.
  destruct (Z.eqb_spec c (Z.of_nat (length ws))) as [->|]; [|by exists (sys_log s); destruct s].
  symmetry in Hp. set (l := sys_log s) in *. set (r := block_ l) in Hc, Hp |- *.
  destruct (lo_block _ _ Hl r (or_introl eq_refl)) as (q & m & Hq & Hm & _).
  destruct (lo_block _ _ Hl (S r) (or_intror eq_refl)) as (q1 & m1 & Hq1 & Hm1 & Hh1).
  assert (q <> q1) as Hne by (pose proof (lo_distinct _ _ Hl); fold_in r; congruence).
  rewrite Hq. cbn [deref mbind result_bind]. eexists. split; [reflexivity|].
  pose proof (lo_length _ _ Hl) as Hlen. fold r in Hlen. pose proof B_pos as HB.
  assert (Z.of_nat r * B <= GSN_BOUND) as Hr.
  { destruct (decide (r = 0%nat)) as [->|Hr0]; [change GSN_BOUND with 4611686018427387904; lia|].
    destruct (lo_complete _ _ Hl (Z.of_nat r * B - 1)) as [e He]; [fold r; nia|].
    destruct (lo_entries _ _ Hl _ _ He) as (_ & _ & ?). lia. }
  assert (Z.of_nat r <= GSN_BOUND) as Hr' by nia.
  assert (wrap64 (num_blocks_ l + 1) = Z.of_nat (S r) + 2) as Hnum.
  { rewrite (lo_num _ _ Hl). fold r. change GSN_BOUND with 4611686018427387904 in Hr'. rewrite wrap64_small by lia. lia. }
  assert (forall i, (i = S r \/ i = S (S r)) -> <[r := None]> (blocks_ l ++ [Some q]) !! i = (blocks_ l ++ [Some q]) !! i) as Hins.
  { intros i Hi. apply list_lookup_insert_ne. lia. }
  assert ((blocks_ l ++ [Some q]) !! S r = Some (Some q1)) as Hb1 by (rewrite lookup_app_l by lia; done).
  assert ((blocks_ l ++ [Some q]) !! S (S r) = Some (Some q)) as Hb2 by (rewrite <- Hlen; by rewrite list_lookup_middle).
  assert (system_ok ws D lasts s) as Hs by done.
  assert (log_ok D (Log (<[r := None]> (blocks_ l ++ [Some q])) (<[q := ∅]> (mem_ l)) (counters_ l ++ [0]) (S r) (S r)
            (wrap64 (num_blocks_ l + 1)) (Z.of_nat (length ws)))) as Hl'.
  { split; simpl.
    - rewrite length_insert, length_app. simpl. lia.
    - intros i Hi. rewrite Hins by done. destruct Hi as [-> | ->].
      + exists q1, m1. rewrite lookup_insert_ne by done. done.
      + exists q, ∅. rewrite lookup_insert_eq. split; [done|]. split; [done|]. intros j Hj. rewrite lookup_empty.
        symmetry. apply (beyond_end _ _ _ Hl). rewrite (lo_num _ _ Hl). fold r.
        apply Z.div_le_lower_bound; nia.
    - rewrite !Hins by tauto. rewrite Hb1, Hb2. congruence.
    - lia.
    - done.
    - intros g e He. destruct (lo_entries _ _ Hl _ _ He) as (? & ? & ?). fold_in r. split; [done|]. split; [nia|done].
    - intros g Hg. apply (passed_complete ws D lasts s g); [done|done|done|]. fold l r. lia. }
  split; simpl; try apply H.
  - done.
  - done.
  - pose proof (sk_counters _ _ _ _ H). rewrite length_app. fold_in l. fold_in r. simpl. lia.
  - intros i c Hi. apply lookup_app_Some in Hi as [Hi|[Hge Hi]]; [by apply (sk_passed _ _ _ _ H)|].
    apply list_lookup_singleton_Some in Hi as [Hi <-]. symmetry. apply passed_none. apply Forall_lookup_2. intros k it Hit.
    destruct (lookup_lt_is_Some_2 ws k) as [w Hw]; [rewrite <- (sk_walkers _ _ _ _ H); by apply lookup_lt_Some in Hit|].
    destruct (lookup_lt_is_Some_2 (sys_read s) k) as [rd Hrd]; [rewrite (sk_reads _ _ _ _ H); by apply lookup_lt_Some in Hw|].
    destruct (sk_walker _ _ _ _ H _ _ _ _ Hw Hit Hrd) as [Hwo _]. pose proof (wo_range _ _ _ _ _ Hwo).
    pose proof (sk_counters _ _ _ _ H). fold_in l. fold_in r. lia.
  - eapply Forall2_impl; [apply H|]. intros last p Hpo. apply (position_mono l); [|done]. simpl. rewrite Hnum. pose proof (lo_num _ _ Hl). fold_in r. lia.
  - intros k w it rd Hk Hit Hrd. destruct (sk_walker _ _ _ _ H _ _ _ _ Hk Hit Hrd) as [Hwo Hread]. split; [|done].
    rewrite <- (sk_walkers _ _ _ _ H) in Hp. apply passed_all in Hp. pose proof (Forall_lookup_1 _ _ _ _ Hp Hit) as Hb.
    destruct Hwo as [W0 W1 W2 W3 W4 W5 W6 W7]. cbv beta in Hb. fold l r in W3, Hb. split; simpl; try done.
    + lia.
    + rewrite Hnum. pose proof (lo_num _ _ Hl). fold_in r. fold l in W4. lia.
    + destruct (entry_ it) as [[q' j]|]; [|done]. destruct W7 as (? & ? & ? & W7). split_and!; try done.
      fold l in W7. assert (it_block_ it = S r) as E by lia. rewrite E in *. rewrite Hins by tauto. congruence.
Qed.

(** ** Every interleaving *)

(** The entries inserted so far, and the last GSN each position has inserted. *)
Definition next_entries (a : action) (D : gmap Z subscriber_log_entry) : gmap Z subscriber_log_entry :=
  match a with Insert _ e => <[sle_gsn e := e]> D | _ => D end.
Definition next_lasts (a : action) (lasts : list Z) : list Z :=
  match a with NewPosition => lasts ++ [-1] | Insert i e => <[i := sle_gsn e]> lasts | _ => lasts end.

(** What the polling threads guarantee: every position inserts entries in the order of their
    GSNs, and no GSN is inserted twice. *)
Definition action_ok (num_walkers : nat) (a : action) (D : gmap Z subscriber_log_entry) (lasts : list Z) : Prop :=
  match a with
  | Insert i e => exists last, lasts !! i = Some last /\ last < sle_gsn e /\ 0 <= sle_gsn e < GSN_BOUND /\ D !! sle_gsn e = None
  | Next k => (k < num_walkers)%nat
  | _ => True
  end.

Fixpoint actions_ok (num_walkers : nat) (acts : list action) (D : gmap Z subscriber_log_entry) (lasts : list Z) : Prop :=
  match acts with
  | [] => True
  | a :: acts => action_ok num_walkers a D lasts /\ actions_ok num_walkers acts (next_entries a D) (next_lasts a lasts)
  end.

Fixpoint run (acts : list action) (s : system) : result system :=
  match acts with
  | [] => Ok s
  | a :: acts => s ← act a s; run acts s
  end.

Definition inserted (acts : list action) (D : gmap Z subscriber_log_entry) : gmap Z subscriber_log_entry :=
  foldl (fun D a => next_entries a D) D acts.

(** The application threads of a subscriber: [iterator_init] for each start and stride. *)
Definition system_init (uninitialized : Z) (ws : list (Z * Z)) : system :=
  System (log_init (Z.of_nat (length ws))) [] ((fun w => iterator_init uninitialized w.1 w.2) <$> ws) (replicate (length ws) []).

Lemma system_init_ok u ws : u <= 2 -> strides_ok ws -> Z.of_nat (length ws) < MAX_STEP -> system_ok ws ∅ [] (system_init u ws).
Proof.
  intros Hu Hws Hlen. pose proof B_pos. split; simpl; try done.
  - split; simpl; try done.
    + intros i [-> | ->]; simpl; eexists _, ∅; (split; [done|]); (split; [by rewrite ?lookup_insert_eq|]); intros j _; by rewrite !lookup_empty.
    + intros g Hg. lia.
  - intros i c Hc. assert (c = 0) as -> by (destruct i as [|[|i]]; [by injection Hc|by injection Hc|discriminate Hc]). symmetry. apply passed_none.
    apply Forall_fmap, Forall_true. intros w. simpl. lia.
  - by rewrite length_fmap.
  - by rewrite length_replicate.
  - intros k w it rd Hk Hit Hrd. rewrite list_lookup_fmap, Hk in Hit. injection Hit as <-.
    apply lookup_replicate in Hrd as [-> _]. split; [|intros i e Hi; done].
    pose proof (Forall_lookup_1 _ _ _ _ Hws Hk) as [[? _] _]. split; simpl; try done; unfold place; simpl; try lia.
Qed.

Lemma insert_mono (D : gmap Z subscriber_log_entry) g e : D !! g = None -> D ⊆ <[g := e]> D.
Proof. apply insert_subseteq. Qed.

Lemma act_insert_ok ws D lasts s i e :
  system_ok ws D lasts s -> action_ok (length ws) (Insert i e) D lasts ->
  (act (Insert i e) s = Err Spins /\ num_blocks_ (sys_log s) <= sle_gsn e / B) \/
  exists s', act (Insert i e) s = Ok s' /\ system_ok ws (<[sle_gsn e := e]> D) (<[i := sle_gsn e]> lasts) s'.
Proof.
  intros H (last & Hlast & Hlt & Hg & Hfresh). cbn [act].
  destruct (Forall2_lookup_l _ _ _ _ _ (sk_positions _ _ _ _ H) Hlast) as (p & Hp & Hpo). rewrite Hp. cbn [deref mbind result_bind].
  destruct (store_entry_ok D (sys_log s) last p e (sk_log _ _ _ _ H) Hpo Hg Hfresh Hlt) as [Hspin Hok].
  destruct (Z.le_gt_cases (num_blocks_ (sys_log s)) (sle_gsn e / B)) as [Hn|Hn]; [left; by rewrite Hspin|right].
  destruct (Hok Hn) as (p' & l' & -> & Hl' & Hp' & Hsame & Hcs). cbn [mbind result_bind]. eexists. split; [done|].
  pose proof Hsame as (_ & Hr & _ & Hnum & Hni). split; simpl; try done.
  - rewrite Hni. apply H.
  - rewrite Hcs, Hr. apply H.
  - rewrite Hcs. apply H.
  - apply Forall2_insert; [|done]. eapply Forall2_impl; [apply H|]. intros x y. apply position_mono. lia.
  - apply H.
  - apply H.
  - intros k w it rd Hk Hit Hrd. destruct (sk_walker _ _ _ _ H _ _ _ _ Hk Hit Hrd) as [Hw Hread]. split.
    + eapply walker_mono; [exact Hsame|by apply insert_mono|done].
    + intros j x Hj. eapply lookup_weaken; [by apply Hread|by apply insert_mono].
Qed.

Lemma act_next_ok ws D lasts s k w read :
  strides_ok ws -> Z.of_nat (length ws) < MAX_STEP -> system_ok ws D lasts s -> ws !! k = Some w -> sys_read s !! k = Some read ->
  exists it it' cs, sys_walkers s !! k = Some it /\
    next_entry it (sys_log s) = Ok (D !! place w (length read), it', with_counters cs (sys_log s)) /\
    act (Next k) s = Ok (System (with_counters cs (sys_log s)) (sys_positions s) (<[k := it']> (sys_walkers s))
                          (<[k := read ++ option_list (D !! place w (length read))]> (sys_read s))) /\
    system_ok ws D lasts (System (with_counters cs (sys_log s)) (sys_positions s) (<[k := it']> (sys_walkers s))
                          (<[k := read ++ option_list (D !! place w (length read))]> (sys_read s))).
Proof.
  intros Hws Hlen H Hk Hrd. pose proof (lookup_lt_Some _ _ _ Hk) as Hlt.
  destruct (lookup_lt_is_Some_2 (sys_walkers s) k) as [it Hit]; [rewrite (sk_walkers _ _ _ _ H); lia|].
  destruct (sk_walker _ _ _ _ H _ _ _ _ Hk Hit Hrd) as [Hw Hread].
  pose proof (Forall_lookup_1 _ _ _ _ Hws Hk) as [Hw1 Hw2].
  destruct (walk_ok D (sys_log s) w (length read) it (sk_log _ _ _ _ H) Hw Hw1 Hw2 (sk_counters _ _ _ _ H)) as (it' & cs & E & Hw' & Hle & Hl & Hcs).
  { intros i c Hc. rewrite (sk_passed _ _ _ _ H _ _ Hc). pose proof (passed_le i (sys_walkers s)) as Hp.
    rewrite (sk_walkers _ _ _ _ H) in Hp. change MAX_STEP with 4294967296 in Hlen. lia. }
  exists it, it', cs. split; [done|]. rewrite next_entry_walk, (wo_stride _ _ _ _ _ Hw). split; [done|]. split.
  - cbn [act]. rewrite Hit, Hrd. cbn [deref mbind result_bind]. by rewrite next_entry_walk, (wo_stride _ _ _ _ _ Hw), E.
  - split; cbn [sys_log sys_positions sys_walkers sys_read counters_ num_iterators_ block_ with_counters].
    + apply log_ok_counters, H.
    + apply H.
    + rewrite Hl. apply H.
    + intros i c Hi. rewrite Hcs in Hi. destruct (counters_ (sys_log s) !! i) as [c0|] eqn:Hc0; [|done]. injection Hi as <-.
      rewrite (passed_insert k it it') by done. rewrite (sk_passed _ _ _ _ H _ _ Hc0). done.
    + eapply Forall2_impl; [apply H|]. intros x y. by apply position_mono.
    + rewrite length_insert. apply H.
    + rewrite length_insert. apply H.
    + intros k' w' it1 rd1 Hk' Hit1 Hrd1. destruct (decide (k = k')) as [<-|Hne].
      * rewrite list_lookup_insert_eq in Hit1 by (by eapply lookup_lt_Some). injection Hit1 as <-.
        rewrite list_lookup_insert_eq in Hrd1 by (by eapply lookup_lt_Some). injection Hrd1 as <-.
        assert (w' = w) as -> by congruence. split.
        -- assert (length (read ++ option_list (D !! place w (length read))) =
             match D !! place w (length read) with Some _ => S (length read) | None => length read end) as ->.
           { rewrite length_app. destruct (D !! _); simpl; lia. }
           by eapply walker_mono; [| |exact Hw'].
        -- intros i x Hi. apply lookup_app_Some in Hi as [Hi|[Hge Hi]]; [by apply Hread|].
           destruct (D !! place w (length read)) as [y|] eqn:Hy; [|done]. apply list_lookup_singleton_Some in Hi as [Hi <-].
           replace i with (length read) by lia. done.
      * rewrite list_lookup_insert_ne in Hit1 by done. rewrite list_lookup_insert_ne in Hrd1 by done. destruct (sk_walker _ _ _ _ H _ _ _ _ Hk' Hit1 Hrd1) as [Hw'' Hread''].
        split; [|done]. by eapply walker_mono; [| |exact Hw''].
Qed.

Lemma act_ok ws D lasts s a :
  strides_ok ws -> (a = Recycle -> covering ws) -> Z.of_nat (length ws) < MAX_STEP -> system_ok ws D lasts s -> action_ok (length ws) a D lasts ->
  act a s = Err Spins \/ exists s', act a s = Ok s' /\ system_ok ws (next_entries a D) (next_lasts a lasts) s'.
Proof.
  intros Hws Hcov Hlen H Ha. destruct a as [|i e| |k].
  - right. eexists. split; [done|]. cbn [next_entries next_lasts]. split; simpl; try apply H.
    apply Forall2_app; [apply H|]. constructor; [|done]. split; simpl; [|done|pose proof B_pos; lia].
    rewrite (lo_num _ _ (sk_log _ _ _ _ H)). lia.
  - destruct (act_insert_ok ws D lasts s i e H Ha) as [[? _]|?]; [by left|by right].
  - right. destruct (recycle_ok ws D lasts s (Hcov eq_refl) H Hlen) as (l' & E & H'). cbn [act]. rewrite E. eexists. by split.
  - right. destruct (lookup_lt_is_Some_2 ws k Ha) as [w Hw].
    destruct (lookup_lt_is_Some_2 (sys_read s) k) as [rd Hrd]; [rewrite (sk_reads _ _ _ _ H); done|].
    destruct (act_next_ok ws D lasts s k w rd Hws Hlen H Hw Hrd) as (it & it' & cs & _ & _ & E & H'). eexists. by split.
Qed.

Lemma system_run_ok acts ws D lasts s :
  strides_ok ws -> (Recycle ∈ acts -> covering ws) -> Z.of_nat (length ws) < MAX_STEP -> system_ok ws D lasts s -> actions_ok (length ws) acts D lasts ->
  run acts s = Err Spins \/ exists s', run acts s = Ok s' /\ system_ok ws (inserted acts D) (foldl (fun l a => next_lasts a l) lasts acts) s'.
Proof.
  intros Hws Hcov Hlen. revert D lasts s. induction acts as [|a acts IH]; intros D lasts s H Hok; [right; by exists s|].
  destruct Hok as [Ha Hok]. cbn [run].
  destruct (act_ok ws D lasts s a Hws) as [->|(s1 & -> & H1)]; try done; [intros ->; apply Hcov; by left|by left|].
  cbn [mbind result_bind]. apply IH; [|done|done]. intros Hr. apply Hcov. by right.
Qed.

(** The walkers of [n] application threads that do not deliver in order. *)
Definition parallel (n : nat) : list (Z * Z) := (fun k => (k, Z.of_nat n)) <$> seqZ 0 (Z.of_nat n).

Lemma parallel_lookup n k : (k < n)%nat -> parallel n !! k = Some (Z.of_nat k, Z.of_nat n).
Proof. intros Hk. unfold parallel. rewrite list_lookup_fmap, lookup_seqZ_lt by lia. simpl. do 2 f_equal. Qed.

Lemma length_parallel n : length (parallel n) = n.
Proof. unfold parallel. rewrite length_fmap, length_seqZ. lia. Qed.

Lemma parallel_covering n : (0 < n)%nat -> Z.of_nat n < MAX_STEP -> covering (parallel n).
Proof.
  intros Hn Hb. split.
  - apply Forall_fmap, Forall_forall. intros k Hk%elem_of_seqZ. simpl. lia.
  - intros g Hg. pose proof (Z.mod_pos_bound g (Z.of_nat n) ltac:(lia)). pose proof (Z.div_mod g (Z.of_nat n) ltac:(lia)) as Hdm.
    pose proof (Z.div_pos g (Z.of_nat n) Hg ltac:(lia)).
    exists (Z.to_nat (g mod Z.of_nat n)), (Z.of_nat (Z.to_nat (g mod Z.of_nat n)), Z.of_nat n), (Z.to_nat (g / Z.of_nat n)).
    split; [apply parallel_lookup; lia|]. unfold place. simpl. lia.
Qed.

(** C11: the subscriber's log delivers every entry once and in order, if the memory of its
    iterators happens to be such that it can: the constructor of [iterator] does not initialize
    [current_blocks_], and the value found there, [u], has to be at most 2 (if it is more, an
    iterator may walk past the end of the list of blocks: [uninitialized_overruns]).  Then, with
    [n] application threads, for every interleaving of inserts (each polling position in the order
    of its GSNs, no GSN twice), recycling and reads, the log never follows a null or dangling
    pointer, an insert is the only step that can wait (for a block to be recycled), and what the
    [k]-th thread has read are the entries inserted for the GSNs [k], [k + n], [k + 2n], ...,
    without a gap, from the first one on. *)
Theorem log_delivers n u acts :
  (0 < n)%nat -> Z.of_nat n < MAX_STEP -> u <= 2 -> actions_ok n acts ∅ [] ->
  run acts (system_init u (parallel n)) = Err Spins \/
  exists s, run acts (system_init u (parallel n)) = Ok s /\
    forall k read i e, (k < n)%nat -> sys_read s !! k = Some read -> read !! i = Some e ->
      inserted acts ∅ !! (Z.of_nat k + Z.of_nat n * Z.of_nat i) = Some e /\
      sle_gsn e = Z.of_nat k + Z.of_nat n * Z.of_nat i.
Proof.
  intros Hn Hb Hu Hok. pose proof (parallel_covering n Hn Hb) as Hcov. pose proof (length_parallel n) as Hl.
  destruct (system_run_ok acts (parallel n) ∅ [] (system_init u (parallel n)) (proj1 Hcov) (fun _ => Hcov)) as [|(s & E & H)]; rewrite ?Hl; try done; [apply system_init_ok; rewrite ?Hl; try done; apply Hcov|by left|right].
  exists s. split; [done|]. intros k read i e Hk Hrd Hi. pose proof (parallel_lookup n k Hk) as Hw.
  destruct (lookup_lt_is_Some_2 (sys_walkers s) k) as [it Hit]; [rewrite (sk_walkers _ _ _ _ H); lia|].
  destruct (sk_walker _ _ _ _ H _ _ _ _ Hw Hit Hrd) as [_ Hread]. specialize (Hread i e Hi). unfold place in Hread. simpl in Hread.
  split; [done|]. by apply (lo_entries _ _ (sk_log _ _ _ _ H)).
Qed.

(** C18: reading the log makes progress.  Let the value [u] that is found in the uninitialized
    [current_blocks_] of the iterators be at most 2, as before (with more, [next_entry] may step
    past the list of blocks instead: [uninitialized_overruns]).  After any interleaving of inserts
    (each polling position in the order of its GSNs, no GSN twice), recycling and reads that did
    not end in a waiting insert, [next_entry] of the [k]-th thread, which has read [i] entries so
    far, returns the entry with the GSN [k + n * i] if it has been inserted, and nothing
    otherwise. *)
Theorem next_entry_complete n u acts s k read :
  (0 < n)%nat -> Z.of_nat n < MAX_STEP -> u <= 2 -> actions_ok n acts ∅ [] ->
  run acts (system_init u (parallel n)) = Ok s -> (k < n)%nat -> sys_read s !! k = Some read ->
  exists it it' l', sys_walkers s !! k = Some it /\
    next_entry it (sys_log s) = Ok (inserted acts ∅ !! (Z.of_nat k + Z.of_nat n * Z.of_nat (length read)), it', l').
Proof.
  intros Hn Hb Hu Hok E Hk Hrd. pose proof (parallel_covering n Hn Hb) as Hcov. pose proof (length_parallel n) as Hl.
  destruct (system_run_ok acts (parallel n) ∅ [] (system_init u (parallel n)) (proj1 Hcov) (fun _ => Hcov)) as [E'|(s' & E' & H)]; rewrite ?Hl; try done; [apply system_init_ok; rewrite ?Hl; try done; apply Hcov|congruence|].
  rewrite E in E'. injection E' as <-. pose proof (parallel_lookup n k Hk) as Hw.
  destruct (act_next_ok (parallel n) _ _ s k _ read (proj1 Hcov) ltac:(by rewrite Hl) H Hw Hrd) as (it & it' & cs & Hit & Hne & _).
  exists it, it', (with_counters cs (sys_log s)). split; [done|]. rewrite Hne. done.
Qed.

(** Two polling positions and two application threads; entry 3 arrives before entry 2. *)
Definition example_entry (gsn : Z) : subscriber_log_entry := SubscriberLogEntry 2 0 0 7 gsn 1 [Byte.x61].
Definition example_actions : list action :=
  [NewPosition; NewPosition; Insert 0 (example_entry 0); Next 0; Next 1; Insert 1 (example_entry 1); Insert 1 (example_entry 3);
   Next 1; Next 0; Recycle; Next 1; Insert 0 (example_entry 2)].
Definition example_system : system :=
  match run example_actions (system_init 0 (parallel 2)) with Ok s => s | Err _ => system_init 0 (parallel 2) end.

Example example_read : sys_read example_system = [[example_entry 0]; [example_entry 1; example_entry 3]].
Proof. vm_compute. reflexivity. Qed.

Lemma example_actions_ok : actions_ok 2 example_actions ∅ [].
Proof.
  cbn [actions_ok example_actions action_ok next_entries next_lasts].
  repeat split; try exact I; try lia; eexists; split_and!; try (vm_compute; reflexivity); vm_compute; discriminate.
Qed.

Lemma log_delivers_witness :
  run example_actions (system_init 0 (parallel 2)) = Err Spins \/
  exists s, run example_actions (system_init 0 (parallel 2)) = Ok s /\
    forall k read i e, (k < 2)%nat -> sys_read s !! k = Some read -> read !! i = Some e ->
      inserted example_actions ∅ !! (Z.of_nat k + 2 * Z.of_nat i) = Some e /\ sle_gsn e = Z.of_nat k + 2 * Z.of_nat i.
Proof. apply (log_delivers 2 0 example_actions); [lia|reflexivity|discriminate|exact example_actions_ok]. Defined.

(** Thread 0 has read entry 0, and its next one, entry 2, has arrived meanwhile. *)
Lemma next_entry_complete_witness :
  exists it it' l', sys_walkers example_system !! 0%nat = Some it /\
    next_entry it (sys_log example_system) = Ok (inserted example_actions ∅ !! 2, it', l').
Proof.
  apply (next_entry_complete 2 0 example_actions example_system 0 [example_entry 0]);
    [lia|reflexivity|discriminate|exact example_actions_ok|vm_compute; reflexivity|lia|vm_compute; reflexivity].
Defined.

(** ** An iterator whose [current_blocks_] was not initialised *)

Lemma iterator_advance_short n it cs :
  (it_counter_ it <= length cs < it_counter_ it + n)%nat -> iterator_advance n it cs = Err Undefined.
Proof.
  revert it cs. induction n as [|n IH]; intros it cs Hlt; cbn [iterator_advance]; [lia|].
  destruct (cs !! it_counter_ it) as [c|] eqn:Hc; [|done]. apply lookup_lt_Some in Hc. cbn [deref mbind result_bind].
  apply IH. simpl. rewrite length_insert. lia.
Qed.

Lemma iterator_advance_block n it cs r :
  iterator_advance n it cs = Ok r -> it_block_ r.1 = (it_block_ it + n)%nat.
Proof.
  revert it cs. induction n as [|n IH]; intros it cs; cbn [iterator_advance]; [intros [= <-]; simpl; lia|].
  destruct (cs !! _); [|done]. cbn [deref mbind result_bind]. intros ->%IH. simpl. lia.
Qed.

(** The constructor leaves [current_blocks_] as it finds the memory.  If that is a number above
    the block of the next entry while the log has no such block yet, [next_entry] does not
    notice, and steps past the end of the list of blocks instead of returning nothing. *)
Lemma uninitialized_overruns D l w n it :
  log_ok D l -> walker_ok D l w n (reread it l) -> entry_ it = None -> 0 <= place w n ->
  length (counters_ l) = S (S (block_ l)) ->
  num_blocks_ l <= place w n / B < it_current_blocks_ it -> next_entry it l = Err Undefined.
Proof.
  intros H [Ws Wb Wc Wr _ _ Wi We] Hent Hpl Hlen Hgar. simpl in *. rewrite Hent in We.
  pose proof (lo_num _ _ H) as Hnum. unfold next_entry, find_entry. rewrite Hent, We.
  rewrite (proj2 (Z.leb_gt (it_current_blocks_ it) _)) by lia. rewrite (proj2 (Z.leb_gt (it_current_blocks_ it) _)) by lia.
  set (it0 := Iterator _ _ _ _ _ _ _). set (m := Z.to_nat (place w n / B - it_block_index_ it)).
  assert (it_block_ it + m = Z.to_nat (place w n / B))%nat as Hm.
  { destruct (place_split (place w n) Hpl) as (_ & _ & Hdiv). unfold m. clear - Wb Wr Hgar Hnum Hdiv. lia. }
  destruct (iterator_advance m it0 (counters_ l)) as [[it1 cs]|f] eqn:E.
  - pose proof (iterator_advance_block _ _ _ _ E) as Hb. simpl in Hb. cbn [mbind result_bind].
    rewrite lookup_ge_None_2; [done|]. rewrite (lo_length _ _ H). lia.
  - destruct (decide (length (counters_ l) < it_counter_ it0 + m)%nat) as [Hs|Hs].
    + rewrite iterator_advance_short in E by (simpl in *; lia). by injection E as <-.
    + exfalso. clear - E Hs. revert E Hs. generalize (counters_ l). generalize it0. induction m as [|m IH]; intros it1 cs E Hs; [done|].
      cbn [iterator_advance] in E. destruct (lookup_lt_is_Some_2 cs (it_counter_ it1)) as [c Hc]; [lia|].
      rewrite Hc in E. cbn [deref mbind result_bind] in E. apply IH in E; [done|]. simpl. rewrite length_insert. lia.
Qed.
