(* ===== verification/Subscriber.v ===== *)
(** * The subscriber ([src/subscriber/subscriber.h], [src/subscriber/subscriber.cpp])

    The three kinds of threads of the class [subscriber]: [control], which talks to the ordering
    server and to the storage servers, [poll], which counts the copies of an entry that the
    replicas send and inserts the entry into the log, and [process], which reads the log and
    calls the application.  A function takes one round of a thread's loop or one message. *)
From S2P Require Import Prelude Consts Api SubscriberLog.

(** ** [subscriber::poll] *)

(** The local variables of a polling thread: [current_requests], and [shard_info] by shard and
    storage thread, the latest GSN and the position in the log. *)
Record poll_state := PollState {
  current_requests : gmap Z subscriber_log_entry;
  shard_info : gmap (Z * Z) (Z * position) }.

Definition poll_init : poll_state := PollState ∅ ∅.

Definition with_num_acks (n : Z) (e : subscriber_log_entry) : subscriber_log_entry :=
  SubscriberLogEntry n (sle_shard_id e) (sle_thread_id e) (sle_client_id e) (sle_gsn e) (sle_data_length e) (sle_data e).

(** "verify the entry parameters". *)
Definition same_parameters (entry current : subscriber_log_entry) : bool :=
  (sle_shard_id entry =? sle_shard_id current) && (sle_client_id entry =? sle_client_id current) &&
  (sle_thread_id entry =? sle_thread_id current) && (sle_data_length entry =? sle_data_length current).

(** The lambda of [poll] up to the insertion into the log: the new state, and the entry to insert
    at the position of its storage thread if enough replicas have sent it. *)
Definition poll_entry (failures : Z) (current : subscriber_log_entry) (p : poll_state)
  : result (poll_state * option subscriber_log_entry) :=
  _ ← (if sle_shard_id current <? NUM_SHARDS then Ok () else Err Undefined);
  let key := (sle_shard_id current, sle_thread_id current) in
  let '(gsn, position) := default (UINT64_MAX, position_init) (shard_info p !! key) in
  let p := PollState (current_requests p) (<[key := (gsn, position)]> (shard_info p)) in
  if negb (gsn =? UINT64_MAX) && (sle_gsn current <=? gsn) then Ok (p, None) else
  let entry := match current_requests p !! sle_gsn current with
               | None => Some (with_num_acks 0 current)
               | Some entry => if same_parameters entry current then Some entry else None
               end in
  match entry with
  | None => Ok (p, None)
  | Some entry =>
    let entry := with_num_acks (wrap64 (sle_replica_id_or_num_acks entry + 1)) entry in
    if failures <? sle_replica_id_or_num_acks entry then
      Ok (PollState (delete (sle_gsn current) (current_requests p)) (<[key := (sle_gsn current, position)]> (shard_info p)), Some entry)
    else Ok (PollState (<[sle_gsn current := entry]> (current_requests p)) (shard_info p), None)
  end.

(** The whole lambda; [position.insert] may spin. *)
Definition on_subscriber_log_entry (failures : Z) (current : subscriber_log_entry) (p : poll_state) (l : log)
  : result (poll_state * log) :=
  '(p, delivered) ← poll_entry failures current p;
  match delivered with
  | None => Ok (p, l)
  | Some entry =>
    let key := (sle_shard_id current, sle_thread_id current) in
    '(gsn, position) ← deref (shard_info p !! key);
    '(position, l) ← position_insert entry position l;
    Ok (PollState (current_requests p) (<[key := (gsn, position)]> (shard_info p)), l)
  end.

(** ** [subscriber::process] *)

(** [auto log = sequential ? sequential_iterator(..) : iterator(..)]: the type both operands
    convert to is [iterator], so a [sequential_iterator] is sliced to its base. *)
Definition process_iterator (uninitialized index application_threads : Z) (sequential : bool) : iterator :=
  if sequential then base (sequential_init uninitialized index application_threads)
  else iterator_init uninitialized index application_threads.

(** One round of the loops of [process]: the entry that is freed, if any, and the one the
    callback is called with. *)
Definition process_round (it : iterator) (l : log)
  : result (option subscriber_log_entry * option subscriber_log_entry * iterator * log) :=
  '(entry, it, l) ← next_entry it l;
  Ok (entry, match entry with Some e => if 0 <? sle_data_length e then Some e else None | None => None end, it, l).

(** ** [subscriber::control] *)

(** The local variables of the control thread; a vector of send queues is its size. *)
Record control_state := ControlState {
  storage_queues : gmap Z (gmap Z Z);
  storage_finished : gmap Z (gmap Z Z);
  order_finished : bool;
  stopped : bool;
  ended : bool }.

Definition control_init : control_state := ControlState ∅ ∅ false false false.

Inductive destination :=
| ToOrder
| ToStorage (shard_id replica_id : Z).

(** The element of the arrays that belongs to a shard. *)
Definition of_shard (m : gmap Z (gmap Z Z)) (shard_id : Z) : gmap Z Z := default ∅ (m !! shard_id).

(** The queues of every shard are empty. *)
Definition all_empty (m : gmap Z (gmap Z Z)) : bool :=
  forallb (fun sid => bool_decide (of_shard m sid = ∅)) (seqZ 0 NUM_SHARDS).

(** The check of [stop_] at the top of the loop. *)
Definition check_stop (subscriber_id : Z) (stop : bool) (c : control_state) : result (control_state * list (destination * message)) :=
  if negb (stopped c) && stop then
    let req := MSubscriberFinished (SubscriberFinished subscriber_id) in
    out ← mfold (fun sid out =>
            mfold (fun '(rid, queues) out => if queues =? 0 then Err Undefined else Ok (out ++ [(ToStorage sid rid, req)]))
                  (map_to_list (of_shard (storage_queues c) sid)) out)
          (seqZ 0 NUM_SHARDS) [(ToOrder, req)];
    Ok (ControlState (storage_queues c) (storage_finished c) (order_finished c) stop (ended c), out)
  else Ok (c, []).

Section connect.
(** [manager::connect] to a storage server: the number of send queues, the message it sent and
    the length it was received with. *)
Variable connect : sockaddr_in -> option (Z * message * Z).

(** One round of the loop over the servers in [subscriber_storage_info]. *)
Definition connect_storage (address : sockaddr_in) (c : control_state) : control_state :=
  match connect address with
  | Some (queues, MStorageIntro intro, length) =>
    if negb (message_length (MStorageIntro intro) =? length) || (NUM_SHARDS <=? si_shard_id intro)
       || bool_decide (is_Some (of_shard (storage_queues c) (si_shard_id intro) !! si_replica_id intro)) then c
    else ControlState
           (<[si_shard_id intro := <[si_replica_id intro := queues]> (of_shard (storage_queues c) (si_shard_id intro))]> (storage_queues c))
           (storage_finished c) (order_finished c) (stopped c) (ended c)
  | _ => c
  end.

Definition on_subscriber_storage_info (info : subscriber_storage_info) (c : control_state) : control_state :=
  foldl (fun c address => connect_storage address c) c (take (Z.to_nat (ssi_num_servers info)) (ssi_addresses info)).

Definition on_order_finished (c : control_state) : result control_state :=
  _ ← zip_assert (negb (order_finished c));
  Ok (ControlState (storage_queues c) (storage_finished c) true (stopped c) (ended c || all_empty (storage_queues c))).

Definition on_storage_finished (bye : Api.storage_finished) (c : control_state) : control_state :=
  let sid := sf_shard_id bye in
  let rid := sf_replica_id bye in
  if NUM_SHARDS <=? sid then c else
  match of_shard (storage_queues c) sid !! rid with
  | Some queues =>
    let finished := <[rid := wrap64 (default 0 (of_shard (storage_finished c) sid !! rid) + 1)]> (of_shard (storage_finished c) sid) in
    let '(finished, queues) :=
      if bool_decide (finished !! rid = Some queues)
      then (delete rid finished, delete rid (of_shard (storage_queues c) sid))
      else (finished, of_shard (storage_queues c) sid) in
    let queues := <[sid := queues]> (storage_queues c) in
    ControlState queues (<[sid := finished]> (storage_finished c)) (order_finished c) (stopped c)
      (ended c || (order_finished c && all_empty queues))
  | None => c
  end.

(** The lambdas of [recv_apply] in [control]; [ended] clears [process_], too. *)
Definition control_recv (m : message) (c : control_state) : result control_state :=
  match m with
  | MSubscriberStorageInfo info => Ok (on_subscriber_storage_info info c)
  | MOrderFinished => on_order_finished c
  | MStorageFinished bye => Ok (on_storage_finished bye c)
  | _ => Ok c
  end.
End connect.

(** ** The constructor *)

(** The assertions of [subscriber::subscriber], and the state of its threads: the log, the
    polling threads and the iterators of the application threads. *)
Definition subscriber_init (uninitialized polling_threads application_threads : Z) (sequential : bool)
    (intro : message) (length : Z) : result (log * list poll_state * list iterator * control_state) :=
  _ ← zip_assert (0 <? polling_threads);
  _ ← zip_assert (0 <? application_threads);
  _ ← zip_assert (message_length MOrderIntro =? length);
  _ ← zip_assert (match intro with MOrderIntro => true | _ => false end);
  Ok (log_init application_threads, replicate (Z.to_nat polling_threads) poll_init,
      (fun index => process_iterator uninitialized index application_threads sequential) <$> seqZ 0 application_threads,
      control_init).
