(* ===== verification/SubscriberSpec.v ===== *)
(** * Correctness of the subscriber

    What the polling threads insert into the log when the replicas of every shard send the same
    entries in the same order, each at its own pace; when the control thread ends; and what
    becomes of [sequential] with more than one application thread. *)
From S2P Require Import Prelude Consts Api SubscriberLog SubscriberLogSpec Subscriber.

#[local] Opaque NUM_ENTRIES_PER_BLOCK NUM_SHARDS.

(** A storage thread of a shard, and one of the replicas. *)
#[local] Abbreviation sender := ((Z * Z) * Z)%type.

(** ** Polling *)

Section poll.
(** The number of failures to tolerate, and what every storage thread of every shard sends: the
    replicas of a shard agree on it. *)
Context (failures : Z) (stream : Z * Z -> list subscriber_log_entry).

Definition entry_key (e : subscriber_log_entry) : Z * Z := (sle_shard_id e, sle_thread_id e).

Record streams_ok : Prop := {
  st_failures : 0 <= failures < W64 - 1;
  st_key key k e : stream key !! k = Some e -> entry_key e = key /\ sle_shard_id e < NUM_SHARDS /\ sle_gsn e < UINT64_MAX;
  st_increasing key i j e e' : stream key !! i = Some e -> stream key !! j = Some e' -> (i < j)%nat -> sle_gsn e < sle_gsn e';
  st_distinct key i e key' i' e' : stream key !! i = Some e -> stream key' !! i' = Some e' -> sle_gsn e = sle_gsn e' -> key = key' }.

(** The copy of an entry that replica [r] sends. *)
Definition copy (r : Z) (e : subscriber_log_entry) : subscriber_log_entry := with_num_acks r e.

(** The messages a polling thread receives, as the sequence of who sends the next of the
    entries of which storage thread. *)
Definition sent (s : sender) (order : list sender) : nat := length (filter (fun s' => s' = s) order).

(** Handling a sequence of messages: [done] has been handled before. *)
Fixpoint poll_exec (order handled : list sender) (p : poll_state) : result (poll_state * list subscriber_log_entry) :=
  match order with
  | [] => Ok (p, [])
  | (key, r) :: order =>
    e ← deref (stream key !! sent (key, r) handled);
    '(p, d) ← poll_entry failures (copy r e) p;
    '(p, ds) ← poll_exec order (handled ++ [(key, r)]) p;
    Ok (p, option_list d ++ ds)
  end.

(** Nobody sends more than there is. *)
Definition order_ok (order : list sender) : Prop :=
  forall key r, (sent (key, r) order <= length (stream key))%nat.

(** How many replicas have sent the [k]-th entry of a storage thread. *)
Definition copies (key : Z * Z) (k : nat) (order : list sender) : Z :=
  Z.of_nat (length (filter (fun r => (k < sent (key, r) order)%nat) (remove_dups (snd <$> order)))).

(** The state after [order], of which the first [m key] entries of every storage thread have
    been delivered. *)
Record poll_ok (order : list sender) (m : Z * Z -> nat) (p : poll_state) : Prop := {
  pk_delivered key k : (k < m key)%nat -> failures < copies key k order;
  pk_pending key k : (m key <= k)%nat -> copies key k order <= failures;
  pk_length key : (m key <= length (stream key))%nat;
  pk_gsn key : match m key with
    | O => forall x, shard_info p !! key = Some x -> x.1 = UINT64_MAX
    | S k => exists e x, stream key !! k = Some e /\ shard_info p !! key = Some x /\ x.1 = sle_gsn e
    end;
  pk_request key k e : stream key !! k = Some e ->
    (current_requests p !! sle_gsn e = if decide ((m key <= k)%nat /\ 0 < copies key k order)
                                       then Some (with_num_acks (copies key k order) e) else None) }.

(** ** Counting copies *)

Lemma sent_app s o1 o2 : sent s (o1 ++ o2) = (sent s o1 + sent s o2)%nat.
Proof. unfold sent. by rewrite filter_app, length_app. Qed.

Lemma sent_snoc s order s' : sent s (order ++ [s']) = if decide (s' = s) then S (sent s order) else sent s order.
Proof. rewrite sent_app. unfold sent at 2. rewrite filter_cons. destruct (decide (s' = s)); simpl; lia. Qed.

Lemma sent_zero s order : s ∉ order -> sent s order = 0%nat.
Proof.
  unfold sent. induction order as [|x order IH]; [done|]. intros [Hne Hin]%not_elem_of_cons.
  rewrite filter_cons_False by congruence. by apply IH.
Qed.

(** The replicas that have sent the [k]-th entry. *)
Definition copiers (key : Z * Z) (k : nat) (order : list sender) : gset Z :=
  list_to_set (filter (fun r => (k < sent (key, r) order)%nat) (remove_dups (snd <$> order))).

Lemma copies_size key k order : copies key k order = Z.of_nat (size (copiers key k order)).
Proof.
  unfold copies, copiers. rewrite size_list_to_set; [done|]. apply NoDup_filter, NoDup_remove_dups.
Qed.

Lemma elem_of_copiers key k order r : r ∈ copiers key k order <-> (k < sent (key, r) order)%nat.
Proof.
  unfold copiers. rewrite elem_of_list_to_set, list_elem_of_filter, elem_of_remove_dups. split; [by intros []|].
  intros Hk. split; [done|]. apply list_elem_of_fmap. exists (key, r). split; [done|].
  destruct (decide ((key, r) ∈ order)) as [|Hn]; [done|]. rewrite sent_zero in Hk by done. lia.
Qed.

Lemma copies_nonneg key k order : 0 <= copies key k order.
Proof. rewrite copies_size. lia. Qed.

(** One more message only adds a copy of the entry it carries. *)
Lemma copiers_snoc key k order key' r :
  copiers key k (order ++ [(key', r)]) =
  if decide (key' = key /\ k = sent (key', r) order) then {[r]} ∪ copiers key k order else copiers key k order.
Proof.
  apply set_eq. intros x. rewrite elem_of_copiers, sent_snoc.
  assert (forall y, y ∈ copiers key k order <-> (k < sent (key, y) order)%nat) as Hc by (intros; apply elem_of_copiers).
  destruct (decide (key' = key /\ k = sent (key', r) order)) as [Hk|Hn]; rewrite ?elem_of_union, ?elem_of_singleton, Hc.
  - destruct Hk as [-> ->]. destruct (decide ((key, r) = (key, x))) as [E|Hne].
    + injection E as ->. split; intros _; [by left|lia].
    + split; [by right|]. by intros [->|].
  - destruct (decide ((key', r) = (key, x))) as [E|Hne]; [|done]. injection E as -> ->.
    destruct (decide (k = sent (key, x) order)); [tauto|lia].
Qed.

Lemma copies_snoc key k order key' r :
  copies key k (order ++ [(key', r)]) =
  if decide (key' = key /\ k = sent (key', r) order) then copies key k order + 1 else copies key k order.
Proof.
  rewrite !copies_size, copiers_snoc. destruct (decide _) as [[-> ->]|]; [|done].
  rewrite size_union, size_singleton; [lia|]. intros x ->%elem_of_singleton Hx. apply elem_of_copiers in Hx. lia.
Qed.

Lemma copies_anti key k k' order : (k <= k')%nat -> copies key k' order <= copies key k order.
Proof.
  intros Hk. rewrite !copies_size. apply Nat2Z.inj_le, subseteq_size. intros x. rewrite !elem_of_copiers. lia.
Qed.

(** A replica that goes on past entry [k] has sent it. *)
Lemma copies_strict key k r order : (k < sent (key, r) order)%nat -> (copies key (sent (key, r) order) order < copies key k order).
Proof.
  intros Hk. rewrite !copies_size. apply Nat2Z.inj_lt, subset_size. split.
  - intros x. rewrite !elem_of_copiers. lia.
  - intros Hs. specialize (Hs r). rewrite !elem_of_copiers in Hs. lia.
Qed.

(** ** One message *)

Lemma stream_inj key i e key' i' e' : streams_ok ->
  stream key !! i = Some e -> stream key' !! i' = Some e' -> sle_gsn e = sle_gsn e' -> key = key' /\ i = i'.
Proof.
  intros H He He' Hg. pose proof (st_distinct H _ _ _ _ _ _ He He' Hg) as <-. split; [done|].
  destruct (Nat.lt_trichotomy i i') as [Hlt|[?|Hlt]]; [|done|];
    [pose proof (st_increasing H _ _ _ _ _ He He' Hlt)|pose proof (st_increasing H _ _ _ _ _ He' He Hlt)]; lia.
Qed.

(** An entry that has been delivered is recognised, any other passes the check of the GSN. *)
Lemma gsn_check order m p key k e : streams_ok -> poll_ok order m p -> stream key !! k = Some e ->
  let x := default (UINT64_MAX, position_init) (shard_info p !! key) in
  negb (x.1 =? UINT64_MAX) && (sle_gsn e <=? x.1) = bool_decide (k < m key)%nat /\
  ((k < m key)%nat -> shard_info p !! key = Some x).
Proof.
  intros H Hp He x. pose proof (pk_gsn _ _ _ Hp key) as Hg. destruct (m key) as [|j] eqn:Hm.
  - assert (x.1 = UINT64_MAX) as ->; [|by split; [|lia]].
    unfold x. destruct (shard_info p !! key) as [y|] eqn:Hy; [by apply Hg|done].
  - destruct Hg as (ej & y & Hej & Hy & Hyg). assert (x = y) as -> by (unfold x; by rewrite Hy).
    destruct (st_key H _ _ _ Hej) as (_ & _ & Hmax). rewrite Hyg. rewrite (proj2 (Z.eqb_neq _ _)) by lia.
    split; [|by rewrite Hy]. cbn [negb andb]. destruct (decide (k < S j)%nat) as [Hlt|Hlt].
    + rewrite bool_decide_true by done. apply Z.leb_le. destruct (decide (k = j)) as [->|]; [rewrite He in Hej; injection Hej as ->; lia|].
      pose proof (st_increasing H _ _ _ _ _ He Hej ltac:(lia)). lia.
    + rewrite bool_decide_false by done. apply Z.leb_gt. by apply (st_increasing H key j k); [| |lia].
Qed.

Definition deliver (m : Z * Z -> nat) (key : Z * Z) : Z * Z -> nat := fun key' => if decide (key' = key) then S (m key) else m key'.

Lemma copies_mono key k order s : copies key k order <= copies key k (order ++ [s]).
Proof. destruct s as [key' r]. rewrite copies_snoc. destruct (decide _); lia. Qed.

(** The entry is dropped, counted or delivered. *)
Lemma poll_dropped order m p key r e : streams_ok -> poll_ok order m p ->
  let k := sent (key, r) order in stream key !! k = Some e -> (k < m key)%nat ->
  exists p', poll_entry failures (copy r e) p = Ok (p', None) /\ poll_ok (order ++ [(key, r)]) m p'.
Proof.
  intros H Hp k He Hk. destruct (st_key H _ _ _ He) as (Hkey & Hsh & _). unfold entry_key in Hkey.
  destruct (gsn_check order m p key k e H Hp He) as [Hc Hx]. specialize (Hx Hk). unfold poll_entry.
  cbn [copy with_num_acks sle_shard_id sle_thread_id sle_gsn]. rewrite (proj2 (Z.ltb_lt _ _) Hsh), Hkey. cbn [mbind result_bind].
  destruct (default _ _) as [g pos]. cbn [fst] in Hc. cbn [current_requests shard_info].
  rewrite Hc, bool_decide_true, insert_id by done. eexists. split; [done|].
  destruct Hp as [H1 H2 H3 H4 H5]. split; cbn [current_requests shard_info]; try done.
  - intros key' k' Hk'. eapply Z.lt_le_trans; [by apply H1|apply copies_mono].
  - intros key' k' Hk'. rewrite copies_snoc, decide_False; [by apply H2|]. intros [<- ->]. lia.
  - intros key' k' e' He'. rewrite (H5 _ _ _ He'), copies_snoc.
    destruct (decide (key = key' /\ k' = sent (key, r) order)) as [[<- ->]|]; [|done].
    by rewrite !decide_False by lia.
Qed.

Lemma poll_accepted order m p key r e : streams_ok -> poll_ok order m p ->
  let k := sent (key, r) order in stream key !! k = Some e -> (m key <= k)%nat ->
  exists pos, poll_entry failures (copy r e) p =
    let entry := with_num_acks (copies key k order + 1) e in
    if decide (copies key k order = failures) then
      Ok (PollState (delete (sle_gsn e) (current_requests p)) (<[key := (sle_gsn e, pos)]> (shard_info p)), Some entry)
    else Ok (PollState (<[sle_gsn e := entry]> (current_requests p))
               (<[key := ((default (UINT64_MAX, position_init) (shard_info p !! key)).1, pos)]> (shard_info p)), None).
Proof.
  intros H Hp k He Hk. destruct (st_key H _ _ _ He) as (Hkey & Hsh & _). unfold entry_key in Hkey.
  destruct (gsn_check order m p key k e H Hp He) as [Hc _]. unfold poll_entry.
  cbn [copy with_num_acks sle_shard_id sle_thread_id sle_gsn]. rewrite (proj2 (Z.ltb_lt _ _) Hsh), Hkey. cbn [mbind result_bind].
  destruct (default _ _) as [g pos]. cbn [fst] in Hc |- *. exists pos. cbn [current_requests shard_info].
  rewrite Hc, bool_decide_false by lia. rewrite (pk_request _ _ _ Hp _ _ _ He).
  pose proof (copies_nonneg key k order) as Hn. pose proof (pk_pending _ _ _ Hp key k Hk) as Hle. pose proof (st_failures H) as Hf.
  set (entry := with_num_acks (copies key k order + 1) e).
  assert (forall c, c = copies key k order -> with_num_acks (wrap64 (sle_replica_id_or_num_acks (with_num_acks c e) + 1)) (with_num_acks c e) = entry) as Hent.
  { intros c ->. cbn [with_num_acks sle_replica_id_or_num_acks]. rewrite wrap64_small by lia. by destruct e. }
  assert ((failures <? copies key k order + 1) = bool_decide (copies key k order = failures)) as Hdec.
  { destruct (decide (copies key k order = failures)); [rewrite bool_decide_true by done; lia|rewrite bool_decide_false by done; lia]. }
  destruct (decide (_ /\ _)) as [[_ Hpos]|Hz].
  - assert (same_parameters (with_num_acks (copies key k order) e) (with_num_acks r e) = true) as Hsame
      by (unfold same_parameters; simpl; by rewrite !Z.eqb_refl).
    unfold copy. rewrite Hsame, Hent by done. unfold entry at 1 2. cbn [with_num_acks sle_replica_id_or_num_acks]. rewrite Hdec.
    destruct (decide (copies key k order = failures)); [rewrite bool_decide_true by done|rewrite bool_decide_false by done]; cbv zeta; by rewrite ?insert_insert_eq.
  - assert (copies key k order = 0) as Hz' by (destruct (decide (0 < copies key k order)); [tauto|lia]).
    change (with_num_acks 0 (copy r e)) with (with_num_acks 0 e). rewrite Hent by done.
    unfold entry at 1 2. cbn [with_num_acks sle_replica_id_or_num_acks]. rewrite Hdec.
    destruct (decide (copies key k order = failures)); [rewrite bool_decide_true by done|rewrite bool_decide_false by done]; cbv zeta; by rewrite ?insert_insert_eq.
Qed.

Lemma poll_counted order m p key r e g pos : streams_ok -> poll_ok order m p ->
  let k := sent (key, r) order in stream key !! k = Some e -> (m key <= k)%nat -> copies key k order <> failures ->
  g = (default (UINT64_MAX, position_init) (shard_info p !! key)).1 ->
  poll_ok (order ++ [(key, r)]) m
    (PollState (<[sle_gsn e := with_num_acks (copies key k order + 1) e]> (current_requests p)) (<[key := (g, pos)]> (shard_info p))).
Proof.
  intros H [H1 H2 H3 H4 H5] k He Hk Hne ->. pose proof (copies_nonneg key k order). split; cbn [current_requests shard_info]; [| |done| |].
  - intros key' k' Hk'. eapply Z.lt_le_trans; [by apply H1|apply copies_mono].
  - intros key' k' Hk'. rewrite copies_snoc. destruct (decide _) as [[<- ->]|]; [|by apply H2]. pose proof (H2 _ _ Hk'). fold k. fold_in k. lia.
  - intros key'. specialize (H4 key'). destruct (decide (key' = key)) as [->|Hn].
    + rewrite lookup_insert_eq. destruct (m key) as [|j].
      * intros x [= <-]. simpl. destruct (shard_info p !! key) as [y|]; [by apply H4|done].
      * destruct H4 as (ej & x & Hej & Hx & Hg). rewrite Hx. eauto.
    + by rewrite lookup_insert_ne by done.
  - intros key' k' e' He'. rewrite copies_snoc. destruct (decide (key = key' /\ k' = sent (key, r) order)) as [[<- ->]|Hn].
    + fold k. fold k in He'. assert (e' = e) as -> by congruence. rewrite lookup_insert_eq. by rewrite decide_True by lia.
    + rewrite lookup_insert_ne; [by apply H5|]. intros Hg. destruct (stream_inj _ _ _ _ _ _ H He He' Hg) as [<- <-]. by apply Hn.
Qed.

Lemma poll_delivered order m p key r e pos : streams_ok -> poll_ok order m p ->
  let k := sent (key, r) order in stream key !! k = Some e -> (m key <= k)%nat -> copies key k order = failures ->
  k = m key /\
  poll_ok (order ++ [(key, r)]) (deliver m key)
    (PollState (delete (sle_gsn e) (current_requests p)) (<[key := (sle_gsn e, pos)]> (shard_info p))).
Proof.
  intros H [H1 H2 H3 H4 H5] k He Hk Heq. assert (k = m key) as Hkm.
  { destruct (decide (k = m key)) as [|Hne]; [done|]. pose proof (copies_strict key (m key) r order ltac:(fold k; lia)) as Hs.
    fold k in Hs. pose proof (H2 key (m key) ltac:(lia)). lia. }
  split; [done|]. split; cbn [current_requests shard_info]; unfold deliver.
  - intros key' k' Hk'. rewrite copies_snoc. destruct (decide (key = key' /\ _)) as [[<- ->]|Hn]; [fold k; lia|].
    apply H1. destruct (decide (key' = key)) as [->|]; [|done]. destruct (decide (k' = k)) as [->|]; [by destruct Hn|lia].
  - intros key' k' Hk'. rewrite copies_snoc. destruct (decide (key' = key)) as [->|].
    + rewrite decide_False by (fold k; lia). apply H2. lia.
    + rewrite decide_False by (intros [-> _]; done). by apply H2.
  - intros key'. destruct (decide (key' = key)) as [->|]; [|done]. rewrite <- Hkm. by apply lookup_lt_Some in He.
  - intros key'. destruct (decide (key' = key)) as [->|].
    + rewrite lookup_insert_eq. rewrite <- Hkm. eauto.
    + rewrite lookup_insert_ne by done. apply H4.
  - intros key' k' e' He'. rewrite copies_snoc. destruct (decide (sle_gsn e = sle_gsn e')) as [Hg|Hg].
    + destruct (stream_inj _ _ _ _ _ _ H He He' Hg) as [<- <-]. rewrite Hg, lookup_delete_eq.
      destruct (decide (key = key)) as [_|]; [|done]. rewrite decide_False; [done|]. fold k. lia.
    + rewrite lookup_delete_ne, (H5 _ _ _ He') by done.
      destruct (decide (key = key' /\ k' = sent (key, r) order)) as [[<- ->]|_]; [fold k in He'; congruence|].
      destruct (decide (key' = key)) as [->|]; [|done]. assert (k' <> k) by (intros ->; congruence).
      destruct (decide ((m key <= k')%nat /\ 0 < copies key k' order)) as [?|?]; [rewrite decide_True by lia|rewrite decide_False by lia]; done.
Qed.

Lemma poll_init_ok : streams_ok -> poll_ok [] (fun _ => 0%nat) poll_init.
Proof.
  intros H. pose proof (st_failures H). assert (forall key k, copies key k [] = 0) as Hz by done.
  split; simpl; try done; intros; rewrite ?Hz; lia.
Qed.

(** What is delivered of one storage thread, with the count of copies. *)
Definition delivered_of (key : Z * Z) (ds : list subscriber_log_entry) : list subscriber_log_entry :=
  filter (fun e => entry_key e = key) ds.

Lemma poll_exec_ok order handled m p : streams_ok -> poll_ok handled m p -> order_ok (handled ++ order) ->
  exists p' ds m', poll_exec order handled p = Ok (p', ds) /\ poll_ok (handled ++ order) m' p' /\
    forall key, (m key <= m' key)%nat /\
      delivered_of key ds = with_num_acks (failures + 1) <$> take (m' key - m key) (drop (m key) (stream key)).
Proof.
  intros H. revert handled m p. induction order as [|[key r] order IH]; intros handled m p Hp Ho.
  { exists p, [], m. rewrite app_nil_r. split; [done|]. split; [done|]. intros key. by rewrite Nat.sub_diag. }
  cbn [poll_exec]. set (k := sent (key, r) handled).
  destruct (lookup_lt_is_Some_2 (stream key) k) as [e He].
  { specialize (Ho key r). rewrite sent_app in Ho. unfold sent at 2 in Ho. rewrite filter_cons_True in Ho by done.
    cbn [length] in Ho. fold k in Ho. lia. }
  rewrite He. cbn [deref mbind result_bind].
  assert (handled ++ (key, r) :: order = (handled ++ [(key, r)]) ++ order) as Happ by by rewrite <- app_assoc.
  rewrite Happ in Ho |- *. pose proof (st_key H _ _ _ He) as (Hkey & _).
  assert (exists p1 d m1, poll_entry failures (copy r e) p = Ok (p1, d) /\ poll_ok (handled ++ [(key, r)]) m1 p1 /\
    ((d = None /\ m1 = m) \/ (d = Some (with_num_acks (failures + 1) e) /\ m1 = deliver m key /\ k = m key))) as (p1 & d & m1 & E & Hp1 & Hd).
  { destruct (decide (k < m key)%nat) as [Hlt|Hge].
    - destruct (poll_dropped handled m p key r e H Hp He Hlt) as (p1 & E & Hp1). exists p1, None, m. split; [done|]. split; [done|]. by left.
    - destruct (poll_accepted handled m p key r e H Hp He ltac:(lia)) as (pos & E). fold k in E. cbv zeta in E.
      destruct (decide (copies key k handled = failures)) as [Heq|Hne].
      + destruct (poll_delivered handled m p key r e pos H Hp He ltac:(lia) Heq) as [Hk Hp1]. rewrite Heq in E. eauto 10.
      + pose proof (poll_counted handled m p key r e _ pos H Hp He ltac:(lia) Hne eq_refl) as Hp1. fold k in Hp1. eauto 10. }
  rewrite E. cbn [mbind result_bind]. destruct (IH _ _ _ Hp1 Ho) as (p' & ds & m' & -> & Hp' & Hall). cbn [mbind result_bind].
  exists p', (option_list d ++ ds), m'. split; [done|]. split; [done|].
  intros key'. destruct (Hall key') as [Hle Hds]. unfold delivered_of in *. rewrite filter_app, Hds.
  destruct Hd as [[-> ->]|(-> & -> & Hk)]; [by split|]. unfold deliver in *.
  change (option_list (Some (with_num_acks (failures + 1) e))) with [with_num_acks (failures + 1) e].
  assert (entry_key (with_num_acks (failures + 1) e) = key) as Hkey' by done.
  destruct (decide (key' = key)) as [->|Hne].
  - split; [lia|]. rewrite filter_cons_True by done. rewrite (drop_S (stream key) e (m key)) by (by rewrite <- Hk).
    replace (m' key - m key)%nat with (S (m' key - S (m key))) by lia. done.
  - split; [done|]. rewrite filter_cons_False by congruence. done.
Qed.
End poll.

(** Entries that differ in their storage thread or in their place in its stream differ in their
    GSN. *)
Lemma gsns_NoDup ds :
  (forall key, NoDup (sle_gsn <$> delivered_of key ds)) ->
  (forall e e', e ∈ ds -> e' ∈ ds -> sle_gsn e = sle_gsn e' -> entry_key e = entry_key e') -> NoDup (sle_gsn <$> ds).
Proof.
  induction ds as [|e ds IH]; intros Hk Hd; [constructor|]. cbn [fmap list_fmap]. constructor.
  - intros (e' & Hg & Hin)%list_elem_of_fmap. specialize (Hk (entry_key e)). unfold delivered_of in Hk.
    rewrite filter_cons_True in Hk by done. cbn [fmap list_fmap] in Hk. apply NoDup_cons in Hk as [Hn _]. apply Hn.
    apply list_elem_of_fmap. exists e'. split; [done|]. apply list_elem_of_filter. split; [|done].
    symmetry. apply Hd; [by left|by right|done].
  - apply IH.
    + intros key. specialize (Hk key). unfold delivered_of in *. rewrite filter_cons in Hk.
      destruct (decide _); [|done]. cbn [fmap list_fmap] in Hk. by apply NoDup_cons in Hk as [_ ?].
    + intros e1 e2 H1 H2. apply Hd; by right.
Qed.

(** C10: what a polling thread delivers.  The replicas of every shard send it the entries of
    every storage thread in the same order, each at its own pace, and the messages of all of
    them are interleaved in any way.  Then of every storage thread it delivers, in their order,
    exactly the entries that more than [failures] replicas have sent so far: none is skipped,
    reordered or delivered twice, and each has the payload that was sent. *)
Theorem poll_delivers failures stream order :
  streams_ok failures stream -> order_ok stream order ->
  exists p ds m, poll_exec failures stream order [] poll_init = Ok (p, ds) /\
    (forall key, delivered_of key ds = with_num_acks (failures + 1) <$> take (m key) (stream key)) /\
    (forall key k, (k < m key)%nat <-> failures < copies key k order) /\
    NoDup (sle_gsn <$> ds).
Proof.
  intros H Ho. destruct (poll_exec_ok failures stream order [] _ _ H (poll_init_ok _ _ H) Ho) as (p & ds & m & E & Hp & Hds).
  exists p, ds, m. split; [done|].
  assert (forall key, delivered_of key ds = with_num_acks (failures + 1) <$> take (m key) (stream key)) as Hall.
  { intros key. destruct (Hds key) as [_ ->]. by rewrite Nat.sub_0_r. }
  split; [done|]. split.
  - intros key k. split; [apply (pk_delivered _ _ _ _ _ Hp)|]. intros Hc.
    destruct (decide (k < m key)%nat) as [|Hge]; [done|]. pose proof (pk_pending _ _ _ _ _ Hp key k ltac:(lia)) as Hle. simpl in Hle. lia.
  - assert (forall e, e ∈ ds -> exists k e', stream (entry_key e) !! k = Some e' /\ sle_gsn e = sle_gsn e') as Hin.
    { intros e He. assert (e ∈ delivered_of (entry_key e) ds) as Hd by by apply list_elem_of_filter.
      rewrite Hall in Hd. apply list_elem_of_fmap in Hd as (e' & -> & Ht). apply list_elem_of_lookup in Ht as [k Hk].
      apply lookup_take_Some in Hk as [Hk _]. by exists k, e'. }
    apply gsns_NoDup.
    + intros key. rewrite Hall. apply NoDup_alt. intros i j g. rewrite !list_lookup_fmap.
      intros Hi Hj. destruct (take _ _ !! i) as [e|] eqn:Ei; [|done]. destruct (take _ _ !! j) as [e'|] eqn:Ej; [|done].
      apply lookup_take_Some in Ei as [Ei _], Ej as [Ej _]. injection Hi as Hi. injection Hj as Hj.
      by apply (stream_inj failures stream key i e key j e' H Ei Ej ltac:(simpl in *; congruence)).
    + intros e e' (k & x & Hx & Hg)%Hin (k' & x' & Hx' & Hg')%Hin Heq.
      apply (st_distinct _ _ H _ _ _ _ _ _ Hx Hx'). congruence.
Qed.

(** Two storage threads of a shard with three replicas; one failure is tolerated.  Replicas 0 and
    2 have sent the first two entries of thread 0, replica 1 all three. *)
Definition example_stream (key : Z * Z) : list subscriber_log_entry :=
  let entry thread gsn := SubscriberLogEntry 0 0 thread 7 gsn 1 [Byte.x61] in
  if decide (key = (0, 0)) then [entry 0 0; entry 0 2; entry 0 4] else
  if decide (key = (0, 1)) then [entry 1 1; entry 1 3] else [].
Definition example_order : list ((Z * Z) * Z) :=
  [((0, 0), 1); ((0, 0), 1); ((0, 1), 0); ((0, 0), 0); ((0, 0), 1); ((0, 0), 2); ((0, 0), 2); ((0, 1), 2); ((0, 0), 0)].

Lemma example_streams_ok : streams_ok 1 example_stream.
Proof.
  assert (forall key k e, example_stream key !! k = Some e ->
    (key = (0, 0) /\ (k < 3)%nat /\ e = SubscriberLogEntry 0 0 0 7 (2 * Z.of_nat k) 1 [Byte.x61]) \/
    (key = (0, 1) /\ (k < 2)%nat /\ e = SubscriberLogEntry 0 0 1 7 (2 * Z.of_nat k + 1) 1 [Byte.x61])) as Hs.
  { intros key k e. unfold example_stream. destruct (decide (key = (0, 0))) as [->|]; [|destruct (decide (key = (0, 1))) as [->|]].
    - destruct k as [|[|[|k]]]; intros Hk; try discriminate Hk; injection Hk as <-; left; split_and!; done || lia.
    - destruct k as [|[|k]]; intros Hk; try discriminate Hk; injection Hk as <-; right; split_and!; done || lia.
    - done. }
  split; [lia| | |].
  - intros key k e [(-> & ? & ->)|(-> & ? & ->)]%Hs; (split; [done|]); (split; [reflexivity|]); cbn [sle_gsn]; unfold UINT64_MAX; lia.
  - intros key i j e e' [(-> & ? & ->)|(-> & ? & ->)]%Hs [(E & ? & ->)|(E & ? & ->)]%Hs; try discriminate E; cbn [sle_gsn]; lia.
  - intros key i e key' i' e' [(-> & ? & ->)|(-> & ? & ->)]%Hs [(-> & ? & ->)|(-> & ? & ->)]%Hs; cbn [sle_gsn]; done || lia.
Qed.

Lemma example_order_ok : order_ok example_stream example_order.
Proof.
  intros key r. destruct (decide ((key, r) ∈ example_order)) as [Hin|Hn]; [|rewrite sent_zero by done; lia].
  unfold example_order in Hin. rewrite !elem_of_cons in Hin.
  repeat destruct Hin as [[= -> ->]|Hin]; try (vm_compute; lia). by apply elem_of_nil in Hin.
Qed.

Example example_delivered : ('(_, ds) ← poll_exec 1 example_stream example_order [] poll_init; Ok ds) =
  Ok [with_num_acks 2 (SubscriberLogEntry 0 0 0 7 0 1 [Byte.x61]); with_num_acks 2 (SubscriberLogEntry 0 0 0 7 2 1 [Byte.x61]);
      with_num_acks 2 (SubscriberLogEntry 0 0 1 7 1 1 [Byte.x61])].
Proof. vm_compute. reflexivity. Qed.

Lemma poll_delivers_witness :
  exists p ds m, poll_exec 1 example_stream example_order [] poll_init = Ok (p, ds) /\
    (forall key, delivered_of key ds = with_num_acks 2 <$> take (m key) (example_stream key)) /\
    (forall key k, (k < m key)%nat <-> 1 < copies key k example_order) /\
    NoDup (sle_gsn <$> ds).
Proof. apply (poll_delivers 1 example_stream example_order); [exact example_streams_ok|exact example_order_ok]. Defined.

(** ** [sequential] with several application threads *)

Lemma prefix_by_lookup {A} (l1 l2 : list A) :
  (length l1 <= length l2)%nat -> (forall i x y, l1 !! i = Some x -> l2 !! i = Some y -> x = y) -> l1 `prefix_of` l2.
Proof.
  revert l2. induction l1 as [|x l1 IH]; intros [|y l2] Hlen Heq; simpl in Hlen; try lia; try apply prefix_nil.
  rewrite (Heq 0%nat x y) by done. apply prefix_cons, IH; [lia|]. intros i a b Ha Hb. by apply (Heq (S i)).
Qed.

(** The threads of a sequential subscriber get in each other's way.  [process] slices its
    [sequential_iterator], so with [n > 1] application threads all of them walk over the places
    0, [n], [2n], ...: what one thread has read is a prefix of what the other has (each entry is
    handed to the callback and freed once per thread), and no entry whose GSN is not a multiple
    of [n] is ever read. *)
Theorem sequential_threads_collide n u acts :
  (1 < n)%nat -> Z.of_nat n < MAX_STEP -> u <= 2 -> actions_ok n acts ∅ [] -> Recycle ∉ acts ->
  let ws := replicate n (0, Z.of_nat n) in
  sys_walkers (system_init u ws) = (fun k => process_iterator u k (Z.of_nat n) true) <$> seqZ 0 (Z.of_nat n) /\
  (run acts (system_init u ws) = Err Spins \/
   exists s, run acts (system_init u ws) = Ok s /\
     (forall j k rj rk, sys_read s !! j = Some rj -> sys_read s !! k = Some rk -> rj `prefix_of` rk \/ rk `prefix_of` rj) /\
     (forall k read e, sys_read s !! k = Some read -> e ∈ read -> sle_gsn e mod Z.of_nat n = 0)).
Proof.
  intros Hn Hb Hu Hok Hr ws. split.
  { unfold ws, system_init. cbn [sys_walkers]. apply list_eq. intros i. rewrite !list_lookup_fmap.
    destruct (decide (i < n)%nat) as [Hi|Hi].
    - rewrite lookup_replicate_2, lookup_seqZ_lt by lia. done.
    - rewrite !lookup_ge_None_2; [done| |]; rewrite ?length_seqZ, ?length_replicate; lia. }
  assert (length ws = n) as Hl by apply length_replicate.
  assert (strides_ok ws) as Hws by (apply Forall_replicate; simpl; change MAX_STEP with 4294967296 in *; lia).
  destruct (system_run_ok acts ws ∅ [] (system_init u ws) Hws) as [|(s & E & H)]; rewrite ?Hl; try done; [apply system_init_ok; rewrite ?Hl; done|by left|right].
  exists s. split; [done|].
  assert (forall k read i e, sys_read s !! k = Some read -> read !! i = Some e ->
    inserted acts ∅ !! (Z.of_nat n * Z.of_nat i) = Some e) as Hread.
  { intros k read i e Hk Hi. pose proof (lookup_lt_Some _ _ _ Hk) as Hlt. rewrite (sk_reads _ _ _ _ H), Hl in Hlt.
    destruct (lookup_lt_is_Some_2 (sys_walkers s) k) as [it Hit]; [rewrite (sk_walkers _ _ _ _ H); lia|].
    assert (ws !! k = Some (0, Z.of_nat n)) as Hw by by apply lookup_replicate_2.
    destruct (sk_walker _ _ _ _ H _ _ _ _ Hw Hit Hk) as [_ Hrd]. specialize (Hrd i e Hi). unfold place in Hrd. simpl in Hrd.
    by replace (Z.of_nat n * Z.of_nat i) with (0 + Z.of_nat n * Z.of_nat i) by lia. }
  split.
  - intros j k rj rk Hj Hk. destruct (Nat.le_ge_cases (length rj) (length rk)); [left|right]; apply prefix_by_lookup; try done;
      intros i x y Hx Hy; [pose proof (Hread _ _ _ _ Hj Hx)|pose proof (Hread _ _ _ _ Hk Hx)];
      [pose proof (Hread _ _ _ _ Hk Hy)|pose proof (Hread _ _ _ _ Hj Hy)]; congruence.
  - intros k read e Hk [i Hi]%list_elem_of_lookup. destruct (lo_entries _ _ (sk_log _ _ _ _ H) _ _ (Hread _ _ _ _ Hk Hi)) as [-> _].
    rewrite Z.mul_comm. apply Z_mod_mult.
Qed.

(** Two threads; the entries 0, 1 and 2 have been inserted. *)
Definition example_sequential : list action :=
  [NewPosition; Insert 0 (example_entry 0); Insert 0 (example_entry 1); Insert 0 (example_entry 2); Next 0; Next 1; Next 0; Next 1].

Example example_collide :
  (s ← run example_sequential (system_init 0 (replicate 2 (0, 2))); Ok (sys_read s)) =
  Ok [[example_entry 0; example_entry 2]; [example_entry 0; example_entry 2]].
Proof. vm_compute. reflexivity. Qed.

Lemma example_sequential_ok : actions_ok 2 example_sequential ∅ [].
Proof.
  cbn [actions_ok example_sequential action_ok next_entries next_lasts].
  repeat split; try exact I; try lia; eexists; split_and!; try (vm_compute; reflexivity); vm_compute; discriminate.
Qed.

Lemma sequential_threads_collide_witness :
  let ws := replicate 2 (0, 2) in
  sys_walkers (system_init 0 ws) = (fun k => process_iterator 0 k 2 true) <$> seqZ 0 2 /\
  (run example_sequential (system_init 0 ws) = Err Spins \/
   exists s, run example_sequential (system_init 0 ws) = Ok s /\
     (forall j k rj rk, sys_read s !! j = Some rj -> sys_read s !! k = Some rk -> rj `prefix_of` rk \/ rk `prefix_of` rj) /\
     (forall k read e, sys_read s !! k = Some read -> e ∈ read -> sle_gsn e mod 2 = 0)).
Proof.
  apply (sequential_threads_collide 2 0 example_sequential); [lia|reflexivity|discriminate|exact example_sequential_ok|].
  unfold example_sequential. rewrite !elem_of_cons, elem_of_nil. intuition discriminate.
Defined.

(** ** The end of the control thread *)

Section control.
Context (connect : sockaddr_in -> option (Z * message * Z)).

Fixpoint control_exec (ms : list message) (c : control_state) : result control_state :=
  match ms with
  | [] => Ok c
  | m :: ms => c ← control_recv connect m c; control_exec ms c
  end.

(** How often a storage server, and the ordering server, have said goodbye. *)
Definition finished_by (sid rid : Z) (m : message) : bool :=
  match m with MStorageFinished bye => (sf_shard_id bye =? sid) && (sf_replica_id bye =? rid) | _ => false end.
Definition is_order_finished (m : message) : bool := match m with MOrderFinished => true | _ => false end.
Definition goodbyes (sid rid : Z) (ms : list message) : Z := Z.of_nat (length (filter (fun m => finished_by sid rid m = true) ms)).
Definition order_goodbyes (ms : list message) : Z := Z.of_nat (length (filter (fun m => is_order_finished m = true) ms)).

(** A message of the shutdown: a goodbye of a server. *)
Definition is_goodbye (m : message) : Prop := match m with MStorageFinished _ | MOrderFinished => True | _ => False end.

(** The state after the goodbyes [ms], when the storage servers [queues] were connected. *)
Record control_ok (queues : gmap Z (gmap Z Z)) (ms : list message) (c : control_state) : Prop := {
  ct_queues sid rid : of_shard (storage_queues c) sid !! rid =
    (q ← of_shard queues sid !! rid; if decide (goodbyes sid rid ms < q) then Some q else None);
  ct_finished sid rid q : of_shard queues sid !! rid = Some q -> goodbyes sid rid ms < q ->
    default 0 (of_shard (storage_finished c) sid !! rid) = goodbyes sid rid ms;
  ct_order : order_finished c = bool_decide (0 < order_goodbyes ms);
  ct_ended : ended c = order_finished c && all_empty (storage_queues c) }.

Lemma goodbyes_snoc sid rid ms m : goodbyes sid rid (ms ++ [m]) = goodbyes sid rid ms + (if finished_by sid rid m then 1 else 0).
Proof. unfold goodbyes. rewrite filter_app, length_app, filter_cons. destruct (finished_by sid rid m); simpl; lia. Qed.

Lemma order_goodbyes_snoc ms m : order_goodbyes (ms ++ [m]) = order_goodbyes ms + (if is_order_finished m then 1 else 0).
Proof. unfold order_goodbyes. rewrite filter_app, length_app, filter_cons. destruct (is_order_finished m); simpl; lia. Qed.

Lemma goodbyes_nonneg sid rid ms : 0 <= goodbyes sid rid ms.
Proof. unfold goodbyes. lia. Qed.

Lemma of_shard_insert m sid sid' x : of_shard (<[sid := x]> m) sid' = if decide (sid' = sid) then x else of_shard m sid'.
Proof.
  unfold of_shard. destruct (decide (sid' = sid)) as [->|]; [by rewrite lookup_insert_eq|by rewrite lookup_insert_ne].
Qed.

(** The servers that are connected are in range, have queues, and none says goodbye more often
    than it has queues. *)
Record queues_ok (queues : gmap Z (gmap Z Z)) (ms : list message) : Prop := {
  qk_range sid rid q : of_shard queues sid !! rid = Some q -> 0 <= sid < NUM_SHARDS /\ 0 < q < W64;
  qk_goodbyes sid rid q : of_shard queues sid !! rid = Some q -> goodbyes sid rid ms <= q;
  qk_order : order_goodbyes ms <= 1 }.

Lemma storage_finished_ok queues ms bye c :
  queues_ok queues (ms ++ [MStorageFinished bye]) -> control_ok queues ms c ->
  control_ok queues (ms ++ [MStorageFinished bye]) (on_storage_finished bye c).
Proof.
  intros HQ [H1 H2 H3 H4]. destruct bye as [s r]. set (m := MStorageFinished (StorageFinished s r)) in *.
  assert (forall sid rid, finished_by sid rid m = bool_decide (sid = s /\ rid = r)) as Hm.
  { intros sid rid. unfold m. cbn. destruct (decide (sid = s /\ rid = r)) as [[-> ->]|Hn].
    - rewrite bool_decide_true by done. by rewrite !Z.eqb_refl.
    - rewrite bool_decide_false by done. destruct (Z.eqb_spec s sid), (Z.eqb_spec r rid); subst; tauto. }
  assert (forall sid rid, goodbyes sid rid (ms ++ [m]) = goodbyes sid rid ms + if decide (sid = s /\ rid = r) then 1 else 0) as Hg.
  { intros sid rid. rewrite goodbyes_snoc, Hm. destruct (decide _); [by rewrite bool_decide_true|by rewrite bool_decide_false]. }
  assert (order_goodbyes (ms ++ [m]) = order_goodbyes ms) as Ho by (rewrite order_goodbyes_snoc; simpl; lia).
  (* the server is not, or no longer, connected *)
  assert (of_shard (storage_queues c) s !! r = None -> control_ok queues (ms ++ [m]) c) as Hunknown.
  { intros Hn. split; [| |by rewrite Ho|done].
    - intros sid rid. rewrite H1, Hg. destruct (of_shard queues sid !! rid) as [q|] eqn:Hq; [|done]. cbn [mbind option_bind].
      destruct (decide (sid = s /\ rid = r)) as [[-> ->]|]; [|by rewrite Z.add_0_r].
      rewrite H1, Hq in Hn. cbn [mbind option_bind] in Hn. destruct (decide (goodbyes s r ms < q)); [done|]. by rewrite decide_False by lia.
    - intros sid rid q Hq. rewrite Hg. destruct (decide (sid = s /\ rid = r)) as [[-> ->]|]; [|rewrite Z.add_0_r; by apply H2].
      rewrite H1, Hq in Hn. cbn [mbind option_bind] in Hn. destruct (decide (goodbyes s r ms < q)); [done|lia]. }
  unfold on_storage_finished. cbn [sf_shard_id sf_replica_id].
  destruct (of_shard (storage_queues c) s !! r) as [q|] eqn:Hq; [|destruct (NUM_SHARDS <=? s); by apply Hunknown].
  rewrite H1 in Hq. destruct (of_shard queues s !! r) as [q'|] eqn:Hq'; [|done]. cbn [mbind option_bind] in Hq.
  destruct (decide (goodbyes s r ms < q')) as [Hlt|]; [|done]. injection Hq as ->.
  destruct (qk_range _ _ HQ _ _ _ Hq') as [Hs Hqpos]. rewrite (proj2 (Z.leb_gt _ _)) by lia.
  rewrite (H2 _ _ _ Hq' Hlt). pose proof (goodbyes_nonneg s r ms) as Hnn. rewrite wrap64_small by lia.
  rewrite lookup_insert_eq.
  assert (all_empty (storage_queues c) = false) as Hne.
  { unfold all_empty. apply not_true_is_false. intros Ha. rewrite forallb_forall in Ha.
    specialize (Ha s). rewrite <- list_elem_of_In in Ha. specialize (Ha ltac:(apply elem_of_seqZ; lia)).
    apply bool_decide_eq_true in Ha. specialize (H1 s r). rewrite Ha, lookup_empty, Hq' in H1. cbn [mbind option_bind] in H1.
    by rewrite decide_True in H1. }
  assert (ended c = false) as Hend by (by rewrite H4, Hne, andb_false_r).
  destruct (decide (goodbyes s r ms + 1 = q)) as [Heq|Hneq].
  - rewrite bool_decide_true by by rewrite Heq. split; cbn [storage_queues storage_finished order_finished ended].
    + intros sid rid. rewrite of_shard_insert, Hg. destruct (decide (sid = s)) as [->|Hsn].
      * destruct (decide (rid = r)) as [->|Hrn].
        -- rewrite lookup_delete_eq, Hq'. cbn [mbind option_bind]. rewrite (decide_True (P := s = s /\ r = r)) by done. by rewrite decide_False by lia.
        -- rewrite lookup_delete_ne, H1 by done. rewrite (decide_False (P := s = s /\ rid = r)) by tauto. by rewrite Z.add_0_r.
      * rewrite H1. rewrite (decide_False (P := sid = s /\ rid = r)) by tauto. by rewrite Z.add_0_r.
    + intros sid rid q0 Hq0. rewrite of_shard_insert, Hg. destruct (decide (sid = s /\ rid = r)) as [[-> ->]|Hn].
      * intros. assert (q0 = q) by congruence. lia.
      * rewrite Z.add_0_r. destruct (decide (sid = s)) as [->|]; [|by apply H2].
        assert (rid <> r) by tauto. rewrite lookup_delete_ne, lookup_insert_ne by done. by apply H2.
    + by rewrite Ho.
    + by rewrite Hend.
  - rewrite bool_decide_false by congruence. split; cbn [storage_queues storage_finished order_finished ended].
    + intros sid rid. rewrite of_shard_insert, Hg. destruct (decide (sid = s)) as [->|Hsn]; rewrite H1;
        [destruct (decide (rid = r)) as [->|Hrn]|].
      * rewrite Hq'. cbn [mbind option_bind]. rewrite (decide_True (P := s = s /\ r = r)) by done. by rewrite !decide_True by lia.
      * rewrite (decide_False (P := s = s /\ rid = r)) by tauto. by rewrite Z.add_0_r.
      * rewrite (decide_False (P := sid = s /\ rid = r)) by tauto. by rewrite Z.add_0_r.
    + intros sid rid q0 Hq0. rewrite of_shard_insert, Hg. destruct (decide (sid = s /\ rid = r)) as [[-> ->]|Hn].
      * rewrite decide_True by done. by rewrite lookup_insert_eq.
      * rewrite Z.add_0_r. destruct (decide (sid = s)) as [->|]; [|by apply H2].
        assert (rid <> r) by tauto. rewrite lookup_insert_ne by done. by apply H2.
    + by rewrite Ho.
    + by rewrite Hend.
Qed.

Lemma order_finished_ok queues ms c :
  queues_ok queues (ms ++ [MOrderFinished]) -> control_ok queues ms c ->
  exists c', on_order_finished c = Ok c' /\ control_ok queues (ms ++ [MOrderFinished]) c'.
Proof.
  intros HQ [H1 H2 H3 H4]. pose proof (qk_order _ _ HQ) as Ho. rewrite order_goodbyes_snoc in Ho. simpl in Ho.
  assert (0 <= order_goodbyes ms) by (unfold order_goodbyes; lia).
  unfold on_order_finished. rewrite H3, bool_decide_false by lia. eexists. split; [done|].
  rewrite H3, bool_decide_false in H4 by lia. simpl in H4.
  assert (forall sid rid, goodbyes sid rid (ms ++ [MOrderFinished]) = goodbyes sid rid ms) as Hg.
  { intros. rewrite goodbyes_snoc. cbn [finished_by]. lia. }
  split; cbn [storage_queues storage_finished order_finished ended].
  - intros sid rid. by rewrite Hg.
  - intros sid rid q. rewrite Hg. apply H2.
  - rewrite order_goodbyes_snoc. simpl. by rewrite bool_decide_true by lia.
  - by rewrite H4.
Qed.

Lemma queues_ok_prefix queues ms m : queues_ok queues (ms ++ [m]) -> queues_ok queues ms.
Proof.
  intros [H1 H2 H3]. split; [done| |].
  - intros sid rid q Hq. specialize (H2 _ _ _ Hq). rewrite goodbyes_snoc in H2. destruct (finished_by _ _ _); lia.
  - rewrite order_goodbyes_snoc in H3. destruct (is_order_finished m); lia.
Qed.

Lemma control_exec_ok queues c ms :
  Forall is_goodbye ms -> queues_ok queues ms -> control_ok queues [] c ->
  exists c', control_exec ms c = Ok c' /\ control_ok queues ms c'.
Proof.
  intros Hms HQ H0.
  assert (forall done ms, Forall is_goodbye ms -> queues_ok queues (done ++ ms) -> forall c, control_ok queues done c ->
    exists c', control_exec ms c = Ok c' /\ control_ok queues (done ++ ms) c') as Hgen; [|by apply (Hgen [] ms)].
  clear. intros done ms Hms. revert done. induction Hms as [|m ms Hm _ IH]; intros done HQ c H; cbn [control_exec].
  { rewrite app_nil_r. eauto. }
  assert (done ++ m :: ms = (done ++ [m]) ++ ms) as Happ by by rewrite <- app_assoc. rewrite Happ in HQ |- *.
  assert (queues_ok queues (done ++ [m])) as HQm.
  { clear - HQ. induction ms as [|x ms IH] using rev_ind; [by rewrite app_nil_r in HQ|].
    apply IH. rewrite app_assoc in HQ. by apply queues_ok_prefix in HQ. }
  destruct m; try done; cbn [control_recv].
  - destruct (order_finished_ok queues done c HQm H) as (c' & -> & H'). cbn [mbind result_bind]. by apply IH.
  - cbn [mbind result_bind]. apply IH; [done|]. by apply storage_finished_ok.
Qed.

Lemma all_empty_iff queues ms c : queues_ok queues ms -> control_ok queues ms c ->
  all_empty (storage_queues c) = true <-> forall sid rid q, of_shard queues sid !! rid = Some q -> goodbyes sid rid ms = q.
Proof.
  intros HQ [H1 _ _ _]. unfold all_empty. rewrite forallb_forall. split.
  - intros Ha sid rid q Hq. destruct (qk_range _ _ HQ _ _ _ Hq) as [Hs _]. specialize (Ha sid). rewrite <- list_elem_of_In in Ha.
    specialize (Ha ltac:(apply elem_of_seqZ; lia)). apply bool_decide_eq_true in Ha. specialize (H1 sid rid).
    rewrite Ha, lookup_empty, Hq in H1. cbn [mbind option_bind] in H1. destruct (decide (goodbyes sid rid ms < q)); [done|].
    pose proof (qk_goodbyes _ _ HQ _ _ _ Hq). lia.
  - intros Hall sid _. apply bool_decide_eq_true. apply map_empty. intros rid. rewrite H1.
    destruct (of_shard queues sid !! rid) as [q|] eqn:Hq; [|done]. cbn [mbind option_bind].
    rewrite decide_False; [done|]. rewrite (Hall _ _ _ Hq). lia.
Qed.
End control.

(** C19: the shutdown of a subscriber.  With any storage servers connected, each through one
    send queue per subscriber thread of the server, and the goodbyes of the ordering server and
    of the storage servers' threads arriving in any order (with goodbyes of unknown servers in
    between), the control thread ends when, and only when, the ordering server and every thread
    of every storage server have said goodbye. *)
Theorem control_ends connect queues ms c :
  storage_queues c = queues -> storage_finished c = ∅ -> order_finished c = false -> ended c = false ->
  Forall is_goodbye ms -> queues_ok queues ms ->
  exists c', control_exec connect ms c = Ok c' /\
    (ended c' = true <-> order_goodbyes ms = 1 /\
       forall sid rid q, of_shard queues sid !! rid = Some q -> goodbyes sid rid ms = q).
Proof.
  intros Hq Hf Ho He Hms HQ. assert (control_ok queues [] c) as H0.
  { split; [| |by rewrite Ho|by rewrite He, Ho].
    - intros sid rid. rewrite Hq. destruct (of_shard queues sid !! rid) as [q|] eqn:E; [|done]. cbn [mbind option_bind].
      destruct (qk_range _ _ HQ _ _ _ E). by rewrite decide_True by (unfold goodbyes; simpl; lia).
    - intros sid rid q _ _. by rewrite Hf. }
  destruct (control_exec_ok connect queues c ms Hms HQ H0) as (c' & E & H). exists c'. split; [done|].
  rewrite (ct_ended _ _ _ H), andb_true_iff, (all_empty_iff _ _ _ HQ H), (ct_order _ _ _ H), bool_decide_eq_true.
  pose proof (qk_order _ _ HQ). assert (0 <= order_goodbyes ms) by (unfold order_goodbyes; lia). intuition lia.
Qed.

(** Two replicas of shard 0, the first with two threads. *)
Definition example_queues : gmap Z (gmap Z Z) := {[0 := <[0 := 2]> {[1 := 1]}]}.
Definition example_goodbyes : list message :=
  [MStorageFinished (StorageFinished 0 0); MOrderFinished; MStorageFinished (StorageFinished 0 1); MStorageFinished (StorageFinished 0 0)].

Lemma example_queues_ok : queues_ok example_queues example_goodbyes.
Proof.
  assert (forall sid rid q, of_shard example_queues sid !! rid = Some q ->
    sid = 0 /\ ((rid = 0 /\ q = 2) \/ (rid = 1 /\ q = 1))) as Hq.
  { intros sid rid q. unfold of_shard, example_queues. destruct (decide (sid = 0)) as [->|].
    - rewrite lookup_singleton_eq. cbn [default from_option id]. destruct (decide (rid = 0)) as [->|]; [rewrite lookup_insert_eq; intros [= <-]; auto|].
      rewrite lookup_insert_ne by done. intros [<- <-]%lookup_singleton_Some. auto.
    - by rewrite lookup_singleton_ne. }
  split; [| |vm_compute; discriminate].
  - intros sid rid q [-> [[-> ->]|[-> ->]]]%Hq; by vm_compute.
  - intros sid rid q [-> [[-> ->]|[-> ->]]]%Hq; by vm_compute.
Qed.

Lemma control_ends_witness :
  exists c', control_exec (fun _ => None) example_goodbyes (ControlState example_queues ∅ false true false) = Ok c' /\
    (ended c' = true <-> order_goodbyes example_goodbyes = 1 /\
       forall sid rid q, of_shard example_queues sid !! rid = Some q -> goodbyes sid rid example_goodbyes = q).
Proof.
  apply (control_ends (fun _ => None) example_queues example_goodbyes (ControlState example_queues ∅ false true false));
    [reflexivity|reflexivity|reflexivity|reflexivity|repeat constructor|exact example_queues_ok].
Defined.
