(* ===== verification/Client.v ===== *)
(** * The client library ([src/client/client.h], [src/client/client.cpp])

    The class [client]: its constructors, [insert], which the application calls, and one
    iteration of [loop], which paces the inserts over the slots of the current epoch, sends them
    to every replica of the shard, counts the acknowledgements and estimates the rate to ask the
    ordering server for.  Doubles are IEEE 754 binary64 ([SpecFloat] with 53 bits of precision);
    the program is compiled without fused multiplication. *)
From Stdlib Require Import SpecFloat.
From S2P Require Import Prelude Consts Util Api.

(** ** Doubles *)
Abbreviation double := spec_float.
Definition double_of_Z (z : Z) : double := binary_normalize 53 1024 z 0 false.
Definition dadd : double -> double -> double := SFadd 53 1024.
Definition dsub : double -> double -> double := SFsub 53 1024.
Definition dmul : double -> double -> double := SFmul 53 1024.
Definition ddiv : double -> double -> double := SFdiv 53 1024.

(** [std::max<double>(a, b)] is [(a < b) ? b : a]. *)
Definition dmax (a b : double) : double := if SFltb a b then b else a.

(** The value without its fraction. *)
Definition truncate (s : bool) (m : positive) (e : Z) : Z :=
  let n := if 0 <=? e then Z.shiftl (Zpos m) e else Z.shiftr (Zpos m) (- e) in if s then - n else n.

(** The conversion to [unsigned long], which is undefined when the value does not fit. *)
Definition u64_of_double (d : double) : result Z :=
  match d with
  | S754_zero _ => Ok 0
  | S754_finite s m e => let n := truncate s m e in if (0 <=? n) && (n <? W64) then Ok n else Err Undefined
  | S754_infinity _ | S754_nan => Err Undefined
  end.

(** [std::round<unsigned long>(x)]: the template for integral types is named explicitly, so the
    argument is converted to [unsigned long] before it is rounded. *)
Definition round_ulong (d : double) : result double := n ← u64_of_double d; Ok (double_of_Z n).

(** ** State *)

(** [client::pid]. *)
Record pid := Pid { p_target : double; p_proportional : double; p_integral : double; p_detivative : double }.

(** [detail::epoch]; [begin] is a [time_point] in nanoseconds. *)
Record epoch := Epoch { e_begin : Z; e_first : Z; e_last : Z }.

(** [detail::FIRST_EPOCH]. *)
Definition FIRST_EPOCH : epoch := Epoch (- I64) 0 0.

(** [detail::outstanding]; a location of a response is its address, and [None] the null pointer. *)
Record outstanding := Outstanding { o_response : option Z; o_gsn : Z; o_num_acks : Z }.

(** The local variables of [loop] and the members it shares with [insert], by concern: the
    connections, the slots, the rate estimation, the acknowledgements, and the memory of the
    application: its buffers and the locations of the responses.  A send queue is represented by
    its key. *)
Record connections := Connections {
  queues : gset Z; client_queues : Z; destination : Z; stopped : bool; ended : bool }.

Record slots := Slots { consumed : Z; assigned : Z; current : epoch; epochs : list epoch }.

Record rates := Rates {
  current_rate : double; epoch_requests : double; last_error : double; total_error : double; req_num_slots : Z }.

Record acks := Acks { latest_gsn : Z; outstandings : list outstanding }.

Record memory := Memory { buffers : gmap Z storage_insert; responses : gmap Z Z }.

Record client := Client {
  c_conn : connections; c_slots : slots; c_rates : rates; c_acks : acks; c_memory : memory;
  requests_ : queue (Z * Z) }.

(** The start of [loop]; [client_queues] and [destination] are uninitialized. *)
Definition loop_init (uninitialized : Z) (mem : memory) : client :=
  Client (Connections ∅ uninitialized uninitialized false false) (Slots 0 0 FIRST_EPOCH [])
    (Rates (double_of_Z MIN_SLOTS) (double_of_Z 0) (double_of_Z 0) (double_of_Z 0) MIN_SLOTS)
    (Acks UINT64_MAX []) mem queue_init.

(** Whom a message is sent to: the ordering server, or a queue of a replica. *)
Inductive target :=
| ToOrder
| ToStorage (replica_id queue : Z).

Definition outputs : Type := list (target * message).

(** ** Constructors *)

(** The number of slots in the first message of a client with a fixed rate, in requests per
    second; [EPOCH_DURATION] counts milliseconds there. *)
Definition fixed_num_slots (rate : Z) : Z :=
  align_any MIN_SLOTS (Z.max 1 (wrap64 (rate * (EPOCH_DURATION / 1000000)) / 1000)).

(** The assertions of the constructors and the first message, for a fixed rate or with
    estimation. *)
Definition client_intro_of (client_id shard_id : Z) (rate : option Z) : result client_intro :=
  _ ← zip_assert (client_id <? MAX_CLIENTS);
  _ ← zip_assert (shard_id <? NUM_SHARDS);
  Ok (ClientIntro client_id shard_id (match rate with Some r => fixed_num_slots r | None => MIN_SLOTS end)).

(** [initialize_client]: what is checked of the ordering server's answer. *)
Definition initialize_client (connection : option (message * Z)) : result unit :=
  '(intro, length) ← assert_not_null connection;
  _ ← zip_assert (message_length MOrderIntro =? length);
  zip_assert (match intro with MOrderIntro => true | _ => false end).

(** ** [client::insert] *)
Definition with_client_id (id : Z) (r : storage_insert) : storage_insert :=
  StorageInsert id (ins_num_slots r) (ins_data_length r) (ins_data r).

Definition insert (client_id request response : Z) (c : client) : result client :=
  req ← deref (buffers (c_memory c) !! request);
  _ ← zip_assert (ins_data_length req <=? MAX_PAYLOAD);
  Ok (Client (c_conn c) (c_slots c) (c_rates c) (c_acks c)
       (Memory (<[request := with_client_id client_id req]> (buffers (c_memory c)))
               (<[response := UINT64_MAX]> (responses (c_memory c))))
       (enqueue (request, response) (requests_ c))).

(** ** [client::loop] *)

(** [time_in_us] of a duration in nanoseconds. *)
Definition time_in_us (ns : Z) : Z := wrap64 (Z.quot ns 1000).

Section loop.
Variables client_id shard_id failures : Z.

(** [pid_], if [estimate_]. *)
Variable estimate : option pid.

(** [manager::connect] to a storage server: the message it sent and the length it was received
    with. *)
Variable connect : sockaddr_in -> option (message * Z).

(** To every replica. *)
Definition to_queues (k : connections) (m : message) : outputs :=
  (fun rid => (ToStorage rid (destination k), m)) <$> elements (queues k).

(** "check if we need to stop processing". *)
Definition check_stop (stop : bool) (k : connections) : connections * outputs :=
  if negb (stopped k) && stop then
    (Connections (queues k) (client_queues k) (destination k) stop (ended k),
     to_queues k (MClientFinished (ClientFinished client_id)))
  else (k, []).

(** "check if we need to perform rate estimation": the new state of the estimation, and the
    request to the ordering server if the number of slots changed. *)
Definition update_rate (p : pid) (cur : epoch) (r : rates) : result (rates * outputs) :=
  let fraction_used := ddiv (epoch_requests r) (double_of_Z (wrap64 (e_last cur - e_first cur))) in
  let error := dsub fraction_used (p_target p) in
  let rate := dadd (current_rate r)
    (dadd (dadd (dmul (p_proportional p) error) (dmul (p_integral p) (total_error r)))
          (dmul (p_detivative p) (dsub (last_error r) error))) in
  let rate := dmax (double_of_Z MIN_SLOTS) rate in
  let total := dadd (total_error r) error in
  units ← round_ulong (ddiv rate (double_of_Z MIN_SLOTS));
  let quantized := dmul (double_of_Z MIN_SLOTS) units in
  if negb (SFeqb quantized (double_of_Z (req_num_slots r))) then
    n ← u64_of_double quantized;
    Ok (Rates rate (epoch_requests r) error total n, [(ToOrder, MOrderClientRate (OrderClientRate client_id n))])
  else Ok (Rates rate (epoch_requests r) error total (req_num_slots r), []).

(** "check if we need to switch to the next epoch". *)
Definition switch_epoch (now : Z) (s : slots) (r : rates) : result (slots * rates * outputs) :=
  match epochs s with
  | next :: rest =>
    if e_begin next <=? now then
      '(r, out) ← (match estimate with
                   | Some p => if negb (e_begin (current s) =? e_begin FIRST_EPOCH) then update_rate p (current s) r else Ok (r, [])
                   | None => Ok (r, [])
                   end);
      Ok (Slots (consumed s) (assigned s) next rest,
          Rates (current_rate r) (double_of_Z 0) (last_error r) (total_error r) (req_num_slots r), out)
    else Ok (s, r, [])
  | [] => Ok (s, r, [])
  end.

(** The position in the log where the client should be.  [now - current.begin] wraps around
    before the first epoch, where it is multiplied by zero. *)
Definition ideal (now : Z) (cur : epoch) : Z :=
  wrap64 (e_first cur + wrap64 (wrap64 (e_last cur - e_first cur) * time_in_us (swrap64 (now - e_begin cur)))
            / time_in_us EPOCH_DURATION).

(** "if we can send a request now and we are behind in the log position". *)
Definition can_send (now : Z) (c : client) : bool :=
  negb (stopped (c_conn c)) && (consumed (c_slots c) <? ideal now (current (c_slots c))) &&
  (failures <? Z.of_nat (size (queues (c_conn c)))) &&
  (Z.of_nat (length (outstandings (c_acks c))) <=? MAX_OUTSTANDING_REQUESTS) &&
  (swrap64 (now - e_begin (current (c_slots c))) <=? EPOCH_DURATION).

(** Sending from a buffer asserts that the message fits. *)
Definition send_all (k : connections) (m : message) : result outputs :=
  _ ← zip_assert (message_length m <=? SEND_BUFFER_SIZE);
  Ok (to_queues k m).

Definition with_num_slots (n : Z) (r : storage_insert) : storage_insert :=
  StorageInsert (ins_client_id r) n (ins_data_length r) (ins_data r).

Definition consume (n : Z) (s : slots) : slots :=
  Slots (wrap64 (consumed s + n)) (assigned s) (current s) (epochs s).

(** The no-op that is sent when there is no request. *)
Definition nop (n : Z) : storage_insert := StorageInsert client_id n 0 [].

(** Sending a request of the application, or a no-op if nothing is outstanding. *)
Definition send_requests (now : Z) (c : client) : result (client * outputs) :=
  if can_send now c then
    let advanced := wrap64 (ideal now (current (c_slots c)) - consumed (c_slots c)) in
    '(request, q) ← dequeue (requests_ c);
    match request with
    | Some (request, response) =>
      req ← deref (buffers (c_memory c) !! request);
      let req := with_num_slots advanced req in
      let acks := Acks (latest_gsn (c_acks c)) (outstandings (c_acks c) ++ [Outstanding (Some response) UINT64_MAX 0]) in
      let r := c_rates c in
      out ← send_all (c_conn c) (MStorageInsert req);
      Ok (Client (c_conn c) (consume advanced (c_slots c))
            (Rates (current_rate r) (dadd (epoch_requests r) (double_of_Z 1)) (last_error r) (total_error r) (req_num_slots r))
            acks (Memory (<[request := req]> (buffers (c_memory c))) (responses (c_memory c))) q, out)
    | None =>
      if decide (outstandings (c_acks c) = []) then
        Ok (Client (c_conn c) (consume advanced (c_slots c)) (c_rates c)
              (Acks (latest_gsn (c_acks c)) [Outstanding None UINT64_MAX 0]) (c_memory c) q,
            to_queues (c_conn c) (MStorageInsert (nop advanced)))
      else Ok (Client (c_conn c) (c_slots c) (c_rates c) (c_acks c) (c_memory c) q, [])
    end
  else Ok (c, []).

(** The lambda for [client_insert_ack].  [find_ack] is [std::find_if] with the increment of the
    element it finds: the elements before it, the element, and those after it. *)
Fixpoint find_ack (gsn : Z) (l : list outstanding) : option (list outstanding * outstanding * list outstanding) :=
  match l with
  | [] => None
  | it :: l =>
    if (o_gsn it =? UINT64_MAX) || (gsn =? o_gsn it) then Some ([], it, l)
    else '(before, found, after) ← find_ack gsn l; Some (it :: before, found, after)
  end.

Definition on_client_insert_ack (ack : client_insert_ack) (a : acks) (m : memory) : acks * memory :=
  if negb (latest_gsn a =? UINT64_MAX) && (ack_gsn ack <=? latest_gsn a) then (a, m) else
  match find_ack (ack_gsn ack) (outstandings a) with
  | None => (a, m)
  | Some (before, it, after) =>
    let gsn := if o_gsn it =? UINT64_MAX then ack_gsn ack else o_gsn it in
    let num_acks := wrap64 (o_num_acks it + 1) in
    if failures <? num_acks then
      (Acks gsn (before ++ after),
       match o_response it with
       | Some response => Memory (buffers m) (<[response := gsn]> (responses m))
       | None => m
       end)
    else (Acks (latest_gsn a) (before ++ Outstanding (o_response it) gsn num_acks :: after), m)
  end.

(** The lambda for [client_new_epoch]; the initializers are evaluated in order. *)
Definition on_client_new_epoch (e : client_new_epoch) (s : slots) : slots :=
  let last := wrap64 (assigned s + cne_num_slots e) in
  Slots (consumed s) last (current s) (epochs s ++ [Epoch (cne_begin e) (assigned s) last]).

(** The lambda for [storage_finished]. *)
Definition on_storage_finished (bye : storage_finished) (k : connections) : connections * outputs :=
  if negb (sf_shard_id bye =? shard_id) || bool_decide (sf_replica_id bye ∉ queues k) then (k, []) else
  let rest := queues k ∖ {[sf_replica_id bye]} in
  (Connections rest (client_queues k) (destination k) (stopped k) (ended k),
   if decide (rest = ∅) then [(ToOrder, MClientFinished (ClientFinished client_id))] else []).

(** The lambda for [order_finished]. *)
Definition on_order_finished (k : connections) : connections :=
  Connections (queues k) (client_queues k) (destination k) (stopped k) true.

(** One server of the list in [client_storage_info]. *)
Definition connect_storage (address : sockaddr_in) (k : connections) : result connections :=
  match connect address with
  | Some (MStorageIntro intro, length) =>
    if negb (message_length (MStorageIntro intro) =? length) || negb (si_shard_id intro =? shard_id)
       || bool_decide (si_replica_id intro ∈ queues k)
       || negb (bool_decide (queues k = ∅) || (client_queues k =? si_client_queues intro)) then Ok k
    else
      '(qs, dest) ← (if decide (queues k = ∅) then
                       if si_client_queues intro =? 0 then Err Undefined
                       else Ok (si_client_queues intro, wrap64 (1 + (client_id / NUM_SHARDS) `mod` si_client_queues intro))
                     else Ok (client_queues k, destination k));
      Ok (Connections ({[si_replica_id intro]} ∪ queues k) qs dest (stopped k) (ended k))
  | _ => Ok k
  end.

Definition on_client_storage_info (info : client_storage_info) (k : connections) : result connections :=
  mfold connect_storage (take (Z.to_nat (csi_num_servers info)) (csi_addresses info)) k.

Definition with_conn (k : connections) (c : client) : client :=
  Client k (c_slots c) (c_rates c) (c_acks c) (c_memory c) (requests_ c).

(** The lambdas of [recv_apply] in [loop]. *)
Definition client_recv (m : message) (c : client) : result (client * outputs) :=
  match m with
  | MClientInsertAck ack =>
    let '(a, mem) := on_client_insert_ack ack (c_acks c) (c_memory c) in
    Ok (Client (c_conn c) (c_slots c) (c_rates c) a mem (requests_ c), [])
  | MClientNewEpoch e =>
    Ok (Client (c_conn c) (on_client_new_epoch e (c_slots c)) (c_rates c) (c_acks c) (c_memory c) (requests_ c), [])
  | MStorageFinished bye => let '(k, out) := on_storage_finished bye (c_conn c) in Ok (with_conn k c, out)
  | MOrderFinished => Ok (with_conn (on_order_finished (c_conn c)) c, [])
  | MClientStorageInfo info => k ← on_client_storage_info info (c_conn c); Ok (with_conn k c, [])
  | _ => Ok (c, [])
  end.

(** A batch of received messages. *)
Definition recv_batch (ms : list message) (c : client) : result (client * outputs) :=
  mfold (fun m '(c, out) => '(c, o) ← client_recv m c; Ok (c, out ++ o)) ms (c, []).

(** One iteration of the loop: [stop] is what is read of [stop_], [now] the clock, [ms] the
    messages that are received; what comes before the messages, and the whole of it. *)
Definition before_recv (stop : bool) (now : Z) (c : client) : result (client * outputs) :=
  let '(k, out1) := check_stop stop (c_conn c) in
  '(s, r, out2) ← switch_epoch now (c_slots c) (c_rates c);
  '(c, out3) ← send_requests now (Client k s r (c_acks c) (c_memory c) (requests_ c));
  Ok (c, out1 ++ out2 ++ out3).

Definition round (stop : bool) (now : Z) (ms : list message) (c : client) : result (client * outputs) :=
  '(c, out1) ← before_recv stop now c;
  '(c, out2) ← recv_batch ms c;
  Ok (c, out1 ++ out2).

(** ** The threads

    The application fills a buffer of its own and calls [insert]; the client's thread runs the
    loop until [end] or [force_stop_].  They share the queue and the memory: an insertion takes
    effect when it is enqueued, so it is one step between two iterations. *)
Inductive event :=
| Fill (request : Z) (contents : storage_insert)
| Insert (request response : Z)
| Round (stop : bool) (now : Z) (ms : list message).

Definition fill (request : Z) (contents : storage_insert) (c : client) : client :=
  Client (c_conn c) (c_slots c) (c_rates c) (c_acks c)
    (Memory (<[request := contents]> (buffers (c_memory c))) (responses (c_memory c))) (requests_ c).

Definition step (e : event) (c : client) : result (client * outputs) :=
  match e with
  | Fill request contents => Ok (fill request contents c, [])
  | Insert request response => c ← insert client_id request response c; Ok (c, [])
  | Round stop now ms => if ended (c_conn c) then Ok (c, []) else round stop now ms c
  end.

(** What the client does and sends in a sequence of events. *)
Fixpoint run (es : list event) (c : client) : result (client * outputs) :=
  match es with
  | [] => Ok (c, [])
  | e :: es => '(c, out1) ← step e c; '(c, out2) ← run es c; Ok (c, out1 ++ out2)
  end.
End loop.
