(* ===== verification/ClientSpec.v ===== *)
(** * Properties of the client

    The client never uses slots it was not assigned and keeps to the schedule of the epoch; its
    state is well formed after every step and no step faults; the counting of acknowledgements
    implements a quorum; stopping ends the loop once every replica has answered. *)
From Stdlib Require Import SpecFloat.
From S2P Require Import Prelude Consts Util Api Client.

Local Opaque double_of_Z dadd dsub dmul ddiv.

(** ** Slots and time *)

(** More slots than any epoch has. *)
Definition EPOCH_SLOTS : Z := 281474976710656.

(** The position of the schedule [elapsed] nanoseconds after the beginning of an epoch: the slots
    are used up evenly over its five milliseconds, a microsecond at a time. *)
Definition schedule (e : epoch) (elapsed : Z) : Z :=
  e_first e + (e_last e - e_first e) * (elapsed / 1000) / 5000.

Record epoch_ok (e : epoch) : Prop := {
  ep_first : 0 <= e_first e;
  ep_width : e_first e <= e_last e <= e_first e + EPOCH_SLOTS;
  ep_last : e_last e < W64 }.

Lemma schedule_bounds e elapsed :
  epoch_ok e -> 0 <= elapsed <= EPOCH_DURATION -> e_first e <= schedule e elapsed <= e_last e.
Proof.
  intros [H1 H2 H3] Ht. unfold schedule. change EPOCH_DURATION with 5000000 in Ht.
  assert (0 <= elapsed / 1000 <= 5000) as He.
  { split; [apply Z.div_pos; lia|]. change 5000 with (5000000 / 1000). apply Z.div_le_mono; lia. }
  set (u := elapsed / 1000) in *. set (w := e_last e - e_first e) in *.
  assert (0 <= w * u <= w * 5000) as Hwu by nia.
  pose proof (Z.div_pos (w * u) 5000 ltac:(lia) ltac:(lia)).
  pose proof (Z.div_le_mono (w * u) (w * 5000) 5000 ltac:(lia) ltac:(lia)) as Hle. rewrite Z.div_mul in Hle by lia.
  unfold w in *. lia.
Qed.

Lemma ideal_schedule now e :
  epoch_ok e -> 0 <= e_begin e <= now -> now < I64 -> now - e_begin e <= EPOCH_DURATION ->
  ideal now e = schedule e (now - e_begin e).
Proof.
  intros He Hb Hn Ht. pose proof (schedule_bounds e (now - e_begin e) He ltac:(lia)) as Hs.
  destruct He as [H1 H2 H3]. unfold ideal, time_in_us, schedule in *. change EPOCH_DURATION with 5000000 in *.
  change EPOCH_SLOTS with 281474976710656 in *.
  rewrite (swrap64_small (now - e_begin e)) by lia. rewrite Z.quot_div_nonneg by lia.
  assert (0 <= (now - e_begin e) / 1000 <= 5000) as He.
  { split; [apply Z.div_pos; lia|]. change 5000 with (5000000 / 1000). apply Z.div_le_mono; lia. }
  rewrite (wrap64_small (_ / 1000)), (wrap64_small (_ - e_first e)) by lia.
  rewrite (wrap64_small (_ * _)) by nia. change (wrap64 (Z.quot 5000000 1000)) with 5000.
  apply wrap64_small. lia.
Qed.

(** Before the first epoch the position is zero at any time. *)
Lemma ideal_first now : ideal now FIRST_EPOCH = 0.
Proof. unfold ideal. simpl e_first. simpl e_last. rewrite Z.sub_diag. reflexivity. Qed.

(** The epochs a client was told of follow each other without a gap. *)
Fixpoint chain (from : Z) (es : list epoch) (to : Z) : Prop :=
  match es with
  | [] => from = to
  | e :: es => e_first e = from /\ epoch_ok e /\ 0 <= e_begin e /\ chain (e_last e) es to
  end.

Lemma chain_snoc from es to e :
  chain from es to -> e_first e = to -> epoch_ok e -> 0 <= e_begin e -> chain from (es ++ [e]) (e_last e).
Proof. revert from. induction es as [|e' es IH]; intros from; simpl; [intros -> ???; auto|]. intros (-> & ? & ? & ?) ???. eauto. Qed.

Lemma chain_le from es to : chain from es to -> from <= to.
Proof. revert from. induction es as [|e es IH]; intros from; simpl; [lia|]. intros (<- & [_ ? _] & _ & ?%IH). lia. Qed.

(** The slots of a client, when the clock was last read as [t]. *)
Record slots_ok (t : Z) (s : slots) : Prop := {
  so_current : current s = FIRST_EPOCH \/ 0 <= e_begin (current s) <= t;
  so_epoch : epoch_ok (current s);
  so_chain : chain (e_last (current s)) (epochs s) (assigned s);
  so_consumed : 0 <= consumed s <= e_last (current s);
  so_assigned : assigned s < W64 }.

Lemma slots_ok_mono t t' s : slots_ok t s -> t <= t' -> slots_ok t' s.
Proof. intros [[?|?] ????] ?; split; auto; right; lia. Qed.

(** The position of a client that may send is on the schedule of its epoch, ahead of what it
    has consumed. *)
Lemma can_send_schedule failures t now c :
  slots_ok t (c_slots c) -> 0 <= t <= now -> now < I64 -> can_send failures now c = true ->
  let e := current (c_slots c) in
  ideal now e = schedule e (now - e_begin e) /\ consumed (c_slots c) < ideal now e <= e_last e /\
  failures < Z.of_nat (size (queues (c_conn c))) /\ stopped (c_conn c) = false /\
  (length (outstandings (c_acks c)) <= 128)%nat.
Proof.
  intros [Hc He _ Hu _] Ht Hn H e. unfold can_send in H. change MAX_OUTSTANDING_REQUESTS with 128 in H.
  rewrite !andb_true_iff, negb_true_iff, !Z.ltb_lt, !Z.leb_le in H. destruct H as ((((H1 & H2) & H3) & H4) & H5).
  subst e. destruct Hc as [Hc|Hc].
  { rewrite Hc, ideal_first in H2. lia. }
  rewrite swrap64_small in H5 by lia.
  pose proof (ideal_schedule now (current (c_slots c)) He ltac:(lia) Hn H5) as E.
  pose proof (schedule_bounds _ (now - e_begin (current (c_slots c))) He ltac:(lia)).
  split_and!; [done|lia|lia|done|done|lia].
Qed.

(** ** Well-formedness *)

(** A queued request is a buffer with a payload that fits. *)
Definition request_ok (m : memory) (x : Z * Z) : Prop :=
  exists b, buffers m !! x.1 = Some b /\ 0 <= ins_data_length b <= MAX_PAYLOAD.

Definition buffer_ok (b : storage_insert) : Prop := 0 <= ins_data_length b <= MAX_PAYLOAD.

(** The application has filled the buffers in [filled], and the requests that wait are [l]. *)
Record client_ok (t : Z) (filled : gset Z) (l : list (Z * Z)) (c : client) : Prop := {
  co_slots : slots_ok t (c_slots c);
  co_queue : queue_rep (requests_ c) l;
  co_requests : Forall (request_ok (c_memory c)) l;
  co_memory : map_Forall (fun _ => buffer_ok) (buffers (c_memory c));
  co_filled : filled ⊆ dom (buffers (c_memory c)) }.

Lemma request_ok_insert m k b x r :
  buffer_ok b -> request_ok m x -> request_ok (Memory (<[k := b]> (buffers m)) r) x.
Proof.
  intros Hb (b' & Hx & ?). unfold request_ok. simpl. destruct (decide (k = x.1)) as [->|Hne].
  - exists b. by rewrite lookup_insert_eq.
  - exists b'. by rewrite lookup_insert_ne.
Qed.

Lemma requests_ok_insert m k b l r :
  buffer_ok b -> Forall (request_ok m) l -> Forall (request_ok (Memory (<[k := b]> (buffers m)) r)) l.
Proof. intros Hb Hl. eapply Forall_impl; [exact Hl|]. intros x. by apply request_ok_insert. Qed.

Lemma insert_message_fits b : buffer_ok b -> (message_length (MStorageInsert b) <=? SEND_BUFFER_SIZE) = true.
Proof.
  intros Hb. unfold buffer_ok in Hb. change MAX_PAYLOAD with 1992 in Hb.
  cbn [message_length]. change (sizeof_fixed (MStorageInsert b)) with 32. change SEND_BUFFER_SIZE with 2048.
  rewrite wrap64_small by lia. apply Z.leb_le. lia.
Qed.

(** ** Sending *)

(** A broadcast reaches more than [failures] replicas and advances by at least one slot. *)
Definition broadcast_ok (failures : Z) (k : connections) (ins : storage_insert) : Prop :=
  stopped k = false /\ failures < Z.of_nat (size (queues k)) /\ 1 <= ins_num_slots ins.

(** What one call of [send_requests] does: nothing, or one broadcast that brings the client to
    where the schedule says it should be, with a new outstanding request. *)
Inductive sends (failures now : Z) (l : list (Z * Z)) (c : client) : list (Z * Z) -> client -> outputs -> Prop :=
| sends_nothing c' :
    c_conn c' = c_conn c -> c_slots c' = c_slots c -> c_rates c' = c_rates c -> c_acks c' = c_acks c ->
    c_memory c' = c_memory c ->
    (can_send failures now c = false \/ (l = [] /\ outstandings (c_acks c) <> [])) ->
    sends failures now l c l c' []
| sends_insert l' c' response ins :
    can_send failures now c = true ->
    broadcast_ok failures (c_conn c) ins -> buffer_ok ins ->
    (match response with
     | Some a => exists request, l = (request, a) :: l' /\ buffers (c_memory c') !! request = Some ins /\ responses (c_memory c') = responses (c_memory c)
     | None => l = [] /\ l' = [] /\ outstandings (c_acks c) = [] /\ ins_data_length ins = 0 /\ c_memory c' = c_memory c
     end) ->
    c_conn c' = c_conn c ->
    c_acks c' = Acks (latest_gsn (c_acks c)) (outstandings (c_acks c) ++ [Outstanding response UINT64_MAX 0]) ->
    consumed (c_slots c') = schedule (current (c_slots c)) (now - e_begin (current (c_slots c))) ->
    ins_num_slots ins = consumed (c_slots c') - consumed (c_slots c) ->
    sends failures now l c l' c' (to_queues (c_conn c) (MStorageInsert ins)).

Section events.
Variables client_id shard_id failures : Z.
Variable estimate : option pid.
Variable connect : sockaddr_in -> option (message * Z).

Lemma consume_ok t s n :
  slots_ok t s -> 1 <= n -> consumed s + n <= e_last (current s) -> slots_ok t (consume n s) /\ consumed (consume n s) = consumed s + n.
Proof.
  intros [H1 H2 H3 H4 H5] Hn Hl. pose proof (ep_last _ H2).
  assert (consumed (consume n s) = consumed s + n) as E by (simpl; rewrite wrap64_small by lia; done).
  split; [|done]. split; [done|done|done|rewrite E; simpl; lia|done].
Qed.

Lemma send_requests_ok t now filled l c :
  client_ok t filled l c -> 0 <= t <= now -> now < I64 -> num_enqueued_ (requests_ c) < W64 ->
  exists c' out l', send_requests client_id failures now c = Ok (c', out) /\
    client_ok now filled l' c' /\ sends failures now l c l' c' out /\
    num_enqueued_ (requests_ c') = num_enqueued_ (requests_ c) /\ assigned (c_slots c') = assigned (c_slots c).
Proof.
  intros [Hs Hq Hr Hm Hfl] Ht Hn Hb. unfold send_requests. pose proof (slots_ok_mono t now _ Hs ltac:(lia)) as Hs'.
  destruct (can_send failures now c) eqn:Hc.
  2:{ exists c, [], l. split; [done|]. split; [by split|]. split; [|done]. by constructor; [..|left]. }
  destruct (can_send_schedule _ _ _ _ Hs Ht Hn Hc) as (E & Hu & Hf & Hst & _).
  pose proof (ep_last _ (so_epoch _ _ Hs)) as Hw. pose proof (so_consumed _ _ Hs) as Hc0.
  set (n := wrap64 (ideal now (current (c_slots c)) - consumed (c_slots c))).
  assert (n = ideal now (current (c_slots c)) - consumed (c_slots c)) as Hn' by (apply wrap64_small; lia).
  clearbody n.
  destruct (consume_ok now (c_slots c) n Hs' ltac:(lia) ltac:(lia)) as [Hs1 E1].
  destruct (dequeue_rep _ _ Hq Hb) as (q' & Hd & Hq' & Hnq). rewrite Hd. cbn [mbind result_bind].
  destruct l as [|[request response] l]; cbn [head tail] in *.
  - case_decide as Ho.
    + eexists _, _, []. split; [done|]. split; [by split|]. split; [|done].
      eapply (sends_insert _ _ _ _ _ _ None); cbn [c_conn c_slots c_rates c_acks c_memory ins_num_slots ins_data_length]; try done.
      * unfold broadcast_ok. cbn [ins_num_slots nop]. split_and!; [done|done|lia].
      * by rewrite Ho.
      * rewrite E1, <- E. lia.
      * simpl. rewrite wrap64_small by lia. lia.
    + eexists _, [], []. split; [done|]. split; [by split|]. split; [|done]. constructor; try done. by right.
  - apply Forall_cons in Hr as [(b & Hl & Hbo) Hr']. cbn [fst] in Hl. rewrite Hl. cbn [deref mbind result_bind].
    assert (buffer_ok (with_num_slots n b)) as Hbo' by done.
    unfold send_all. rewrite insert_message_fits by done. cbn [zip_assert mbind result_bind].
    eexists _, _, l. split; [done|]. split; [split; [done|done|by apply requests_ok_insert|by apply map_Forall_insert_2|simpl; set_solver]|]. split; [|done].
    eapply (sends_insert _ _ _ _ _ _ (Some response)); cbn [c_conn c_slots c_rates c_acks c_memory]; try done.
    * unfold broadcast_ok. cbn [ins_num_slots with_num_slots]. split_and!; [done|done|lia].
    * exists request. cbn [buffers responses]. by rewrite lookup_insert_eq.
    * rewrite E1, <- E. lia.
    * rewrite E1. simpl. lia.
Qed.

(** The inserts among the messages that were sent. *)
Definition inserts (out : outputs) : list (target * storage_insert) :=
  omap (fun x => match x.2 with MStorageInsert i => Some (x.1, i) | _ => None end) out.

(** An event broadcasts nothing, or one insert to every replica that is connected. *)
Definition broadcast (k : connections) (sent : option storage_insert) : list (target * storage_insert) :=
  match sent with Some ins => (fun rid => (ToStorage rid (destination k), ins)) <$> elements (queues k) | None => [] end.

Definition sent_ok (k : connections) (sent : option storage_insert) : Prop :=
  match sent with Some ins => broadcast_ok failures k ins | None => True end.

Definition sent_slots (sent : option storage_insert) : Z := match sent with Some ins => ins_num_slots ins | None => 0 end.

Lemma inserts_app out1 out2 : inserts (out1 ++ out2) = inserts out1 ++ inserts out2.
Proof. apply omap_app. Qed.

Lemma inserts_to_queues k i : inserts (to_queues k (MStorageInsert i)) = broadcast k (Some i).
Proof. unfold inserts, to_queues, broadcast. simpl. by induction (elements (queues k)); simpl; f_equal. Qed.

Lemma inserts_others k m : (forall i, m <> MStorageInsert i) -> inserts (to_queues k m) = [].
Proof. intros Hm. unfold inserts, to_queues. induction (elements (queues k)); simpl; [done|]. destruct m; naive_solver. Qed.

(** A property of what a call returned; it only faults in the estimation of the rate. *)
Definition returns {A} (P : A -> Prop) (r : result A) : Prop :=
  match r with Ok a => P a | Err _ => is_Some estimate end.

Lemma returns_bind {A B} (P : A -> Prop) (Q : B -> Prop) (r : result A) (f : A -> result B) :
  returns P r -> (forall a, P a -> returns Q (f a)) -> returns Q (r ≫= f).
Proof. destruct r; simpl; auto. Qed.

Lemma switch_epoch_ok t now s r :
  slots_ok t s -> 0 <= t <= now ->
  returns (fun x => slots_ok now x.1.1 /\ consumed x.1.1 = consumed s /\ assigned x.1.1 = assigned s /\ inserts x.2 = [])
    (switch_epoch client_id estimate now s r).
Proof.
  intros Hs Ht. pose proof (slots_ok_mono t now _ Hs ltac:(lia)) as Hs'. unfold switch_epoch.
  destruct (epochs s) as [|next rest] eqn:He; [by simpl|]. destruct (Z.leb_spec (e_begin next) now); [|by simpl].
  destruct Hs as [_ _ Hc Hu Ha]. rewrite He in Hc. destruct Hc as (Hf & Hok & Hb & Hc).
  eapply (returns_bind (fun x => inserts x.2 = [])).
  - destruct estimate as [p|] eqn:Hest; [|by simpl]. destruct (negb _); [|by simpl].
    unfold update_rate, returns. destruct (round_ulong _); simpl; [|by rewrite Hest].
    destruct (negb _); [|done]. destruct (u64_of_double _); simpl; [done|by rewrite Hest].
  - intros [r' out] Hout. simpl in Hout |- *. split_and!; [|done|done|done].
    split; simpl; [by right|done|done| |done]. pose proof (ep_width _ Hok). lia.
Qed.

(** ** Messages *)
Definition msg_ok (m : message) : Prop :=
  match m with
  | MClientNewEpoch e => 0 <= cne_begin e /\ 0 <= cne_num_slots e <= EPOCH_SLOTS
  | _ => True
  end.

(** The slots a message assigns. *)
Definition new_slots (m : message) : Z := match m with MClientNewEpoch e => cne_num_slots e | _ => 0 end.
Definition granted (ms : list message) : Z := zsum (new_slots <$> ms).

Lemma granted_nonneg ms : Forall msg_ok ms -> 0 <= granted ms.
Proof.
  intros Hms. apply zsum_nonneg, Forall_fmap. eapply Forall_impl; [exact Hms|].
  intros m. destruct m; simpl; lia.
Qed.

(** Every storage server has at least one client thread. *)
Definition connect_ok : Prop :=
  forall a intro n, connect a = Some (MStorageIntro intro, n) -> si_client_queues intro <> 0.

Lemma connect_storage_ok a k :
  connect_ok -> exists k', connect_storage client_id shard_id connect a k = Ok k' /\ stopped k' = stopped k /\ ended k' = ended k.
Proof.
  intros Hconn. unfold connect_storage. destruct (connect a) as [[m n]|] eqn:Ha; [|by eexists].
  destruct m as [| |intro| | | | | | | | | | | | | | | | | | | | |]; try by eexists.
  destruct (_ || _); [by eexists|]. case_decide; [|by eexists].
  rewrite (proj2 (Z.eqb_neq _ _) (Hconn _ _ _ Ha)). by eexists.
Qed.

Lemma on_client_storage_info_ok info k :
  connect_ok -> exists k', on_client_storage_info client_id shard_id connect info k = Ok k' /\ stopped k' = stopped k /\ ended k' = ended k.
Proof.
  intros Hconn. unfold on_client_storage_info. generalize (take (Z.to_nat (csi_num_servers info)) (csi_addresses info)).
  intros l. revert k. induction l as [|a l IH]; intros k; [by exists k|]. cbn [mfold].
  destruct (connect_storage_ok a k Hconn) as (k1 & -> & <- & <-). apply IH.
Qed.

Lemma on_client_new_epoch_ok t e s :
  slots_ok t s -> msg_ok (MClientNewEpoch e) -> assigned s + cne_num_slots e < W64 ->
  slots_ok t (on_client_new_epoch e s) /\ assigned (on_client_new_epoch e s) = assigned s + cne_num_slots e.
Proof.
  intros [H1 H2 H3 H4 H5] [Hb Hn] Hw. pose proof (chain_le _ _ _ H3). pose proof (ep_first _ H2). pose proof (ep_width _ H2).
  unfold on_client_new_epoch. rewrite wrap64_small by lia. split; [|done]. split; simpl; [done|done| |done|lia].
  apply (chain_snoc _ _ (assigned s) (Epoch _ _ _)); [done|done| |done]. split; simpl; lia.
Qed.

Lemma client_recv_ok t filled l m c :
  connect_ok -> client_ok t filled l c -> msg_ok m -> assigned (c_slots c) + new_slots m < W64 ->
  exists c' out, client_recv client_id shard_id failures connect m c = Ok (c', out) /\ client_ok t filled l c' /\
    inserts out = [] /\ requests_ c' = requests_ c /\ consumed (c_slots c') = consumed (c_slots c) /\
    assigned (c_slots c') = assigned (c_slots c) + new_slots m.
Proof.
  intros Hconn Hok Hm Hw. pose proof Hok as [Hs Hq Hr Hbuf Hfl].
  destruct m; cbn [client_recv new_slots] in *; try (eexists _, _; split_and!; [done|by split|done|done|done|simpl; lia]).
  - unfold on_storage_finished. destruct (_ || _); [by eexists _, _; split_and!; [done|by split|done|done|done|simpl; lia]|].
    eexists _, _. split; [done|]. split_and!; [by split|by case_decide|done|done|simpl; lia].
  - destruct (on_client_insert_ack failures m (c_acks c) (c_memory c)) as [a mem] eqn:E.
    assert (buffers mem = buffers (c_memory c)) as Hmem.
    { revert E. unfold on_client_insert_ack. destruct (_ && _); [by intros [= <- <-]|].
      destruct (find_ack _ _) as [[[before it] after]|]; [|by intros [= <- <-]].
      destruct (failures <? _); [|by intros [= <- <-]]. by destruct (o_response it); intros [= <- <-]. }
    eexists _, _. split; [done|]. split_and!; [|done|done|done|simpl; lia]. split; cbn [c_memory]; [done|done| |by rewrite Hmem|by rewrite Hmem].
    eapply Forall_impl; [exact Hr|]. intros x. unfold request_ok. by rewrite Hmem.
  - destruct (on_client_storage_info_ok m (c_conn c) Hconn) as (k' & -> & _). simpl.
    eexists _, _. split; [done|]. split_and!; [by split|done|done|done|simpl; lia].
  - destruct (on_client_new_epoch_ok t m (c_slots c) Hs Hm Hw) as [Hs' Ha].
    eexists _, _. split; [done|]. by split_and!.
Qed.

Lemma recv_batch_ok t filled l ms c out :
  connect_ok -> client_ok t filled l c -> Forall msg_ok ms -> assigned (c_slots c) + granted ms < W64 ->
  exists c' out',
    mfold (fun m '(c, out) => '(c, o) ← client_recv client_id shard_id failures connect m c; Ok (c, out ++ o)) ms (c, out) = Ok (c', out') /\
    client_ok t filled l c' /\ inserts out' = inserts out /\ requests_ c' = requests_ c /\
    consumed (c_slots c') = consumed (c_slots c) /\ assigned (c_slots c') = assigned (c_slots c) + granted ms.
Proof.
  intros Hconn Hok Hms. revert c out Hok. induction Hms as [|m ms Hm Hms IH]; intros c out Hok Hw.
  { exists c, out. split_and!; [done|done|done|done|done|unfold granted; simpl; lia]. }
  pose proof (granted_nonneg _ Hms). change (granted (m :: ms)) with (new_slots m + granted ms) in *.
  destruct (client_recv_ok t filled l m c Hconn Hok Hm ltac:(lia)) as (c1 & o1 & E1 & Hok1 & Ho1 & Hq1 & Hc1 & Ha1).
  cbn [mfold]. rewrite E1. cbn [mbind result_bind].
  destruct (IH c1 (out ++ o1) Hok1 ltac:(lia)) as (c' & out' & E & Hok' & Ho & Hq & Hc & Ha).
  exists c', out'. split_and!; [done|done| |congruence|lia|lia]. by rewrite Ho, inserts_app, Ho1, app_nil_r.
Qed.

(** ** Runs *)

(** The events of a correct application and clock: a buffer is filled before it is inserted, the
    clock does not go back, and [t] is what was read last. *)
Fixpoint events_ok (t : Z) (filled : gset Z) (es : list event) : Prop :=
  match es with
  | [] => True
  | Fill request b :: es => buffer_ok b /\ events_ok t ({[request]} ∪ filled) es
  | Insert request _ :: es => request ∈ filled /\ events_ok t filled es
  | Round _ now ms :: es => t <= now < I64 /\ Forall msg_ok ms /\ events_ok now filled es
  end.

(** The slots that are assigned, and the number of requests that are inserted. *)
Definition granted_by (e : event) : Z := match e with Round _ _ ms => granted ms | _ => 0 end.
Definition inserted_by (e : event) : Z := match e with Insert _ _ => 1 | _ => 0 end.

Lemma granted_by_nonneg t filled es : events_ok t filled es -> 0 <= zsum (granted_by <$> es).
Proof.
  revert t filled. induction es as [|e es IH]; intros t filled; [done|]. rewrite zsum_fmap_cons.
  destruct e; cbn [events_ok granted_by]; [intros [_ ?%IH]; lia|intros [_ ?%IH]; lia|].
  intros (_ & ?%granted_nonneg & ?%IH). lia.
Qed.

Lemma inserted_by_nonneg es : 0 <= zsum (inserted_by <$> es).
Proof. induction es as [|e es IH]; [done|]. rewrite zsum_fmap_cons. destruct e; cbn [inserted_by]; lia. Qed.

Lemma before_recv_ok stop t now filled l c :
  client_ok t filled l c -> 0 <= t <= now -> now < I64 -> num_enqueued_ (requests_ c) < W64 ->
  returns (fun x => exists l' sent, client_ok now filled l' x.1 /\ inserts x.2 = broadcast (c_conn c) sent /\
      sent_ok (c_conn c) sent /\ consumed (c_slots x.1) = consumed (c_slots c) + sent_slots sent /\
      assigned (c_slots x.1) = assigned (c_slots c) /\ num_enqueued_ (requests_ x.1) = num_enqueued_ (requests_ c))
    (before_recv client_id failures estimate stop now c).
Proof.
  intros [Hs Hq Hr Hm Hfl] Ht Hn Hb. unfold before_recv.
  destruct (check_stop client_id stop (c_conn c)) as [k out1] eqn:Ek.
  assert (inserts out1 = []) as Hk.
  { revert Ek. unfold check_stop. destruct (_ && _); intros [= <- <-]; [by apply inserts_others|done]. }
  eapply returns_bind; [by apply (switch_epoch_ok t)|]. intros [[s r] out2] (Hs' & Hc & Ha & Ho2). cbn [fst snd] in *.
  destruct (send_requests_ok now now filled l (Client k s r (c_acks c) (c_memory c) (requests_ c))) as (c' & out3 & l' & E & Hok & Hsend & Hnq & Hasg);
    [by split|lia|done|done|]. cbn [c_slots requests_] in Hnq, Hasg.
  rewrite E. cbn [mbind result_bind returns fst snd]. rewrite !inserts_app, Hk, Ho2. cbn [app].
  destruct Hsend as [c1 ? E2 |l1 c1 response ins ? Hbok Hb' ? ? ? Hcs Hns]; cbn [c_conn c_slots] in *.
  - exists l, None. split_and!; [done|done|done|rewrite E2; simpl; lia|lia|done].
  - assert (k = c_conn c) as ->.
    { destruct Hbok as [Hst _]. unfold check_stop in Ek. destruct (_ && stop) eqn:Es; [|by injection Ek].
      apply andb_true_iff in Es as [_ ->]. injection Ek as <- _. done. }
    exists l1, (Some ins). rewrite inserts_to_queues. split_and!; [done|done|done|simpl; lia|lia|done].
Qed.

(** One event. *)
Lemma step_ok t filled l e es c :
  connect_ok -> 0 <= t -> client_ok t filled l c -> events_ok t filled (e :: es) ->
  assigned (c_slots c) + granted_by e < W64 -> num_enqueued_ (requests_ c) + inserted_by e < W64 ->
  returns (fun x => exists t' filled' l' sent, 0 <= t' /\ client_ok t' filled' l' x.1 /\
      events_ok t' filled' es /\ inserts x.2 = broadcast (c_conn c) sent /\ sent_ok (c_conn c) sent /\
      consumed (c_slots x.1) = consumed (c_slots c) + sent_slots sent /\
      assigned (c_slots x.1) <= assigned (c_slots c) + granted_by e /\
      num_enqueued_ (requests_ x.1) = num_enqueued_ (requests_ c) + inserted_by e)
    (step client_id shard_id failures estimate connect e c).
Proof.
  intros Hconn Ht Hok Hes Hg Hi. destruct e as [request b|request response|stop now ms]; cbn [events_ok granted_by inserted_by step] in *.
  - destruct Hok as [Hs Hq Hr Hm Hfl]. destruct Hes as [Hb Hes]. exists t, ({[request]} ∪ filled), l, None.
    split_and!; [done| |done|done|done|simpl; lia|simpl; lia|simpl; lia].
    split; simpl; [done|done|by apply requests_ok_insert|by apply map_Forall_insert_2|set_solver].
  - destruct Hok as [Hs Hq Hr Hm Hfl]. destruct Hes as [Hf Hes].
    assert (is_Some (buffers (c_memory c) !! request)) as [b Hb] by (apply elem_of_dom; set_solver).
    pose proof (Hm _ _ Hb) as Hbo. unfold Client.insert. rewrite Hb. cbn [deref mbind result_bind].
    rewrite (proj2 (Z.leb_le _ _)) by apply Hbo. cbn [zip_assert mbind result_bind returns fst snd].
    pose proof (qr_polled _ _ Hq). pose proof (qr_enqueued _ _ Hq).
    exists t, filled, (l ++ [(request, response)]), None.
    split_and!; [done| |done|done|done|simpl; lia|simpl; lia|simpl; by rewrite wrap64_small by lia].
    split; simpl; [done|by apply enqueue_rep|apply Forall_app; split; [by apply requests_ok_insert|]|by apply map_Forall_insert_2|set_solver].
    apply Forall_singleton. exists (with_client_id client_id b). simpl. by rewrite lookup_insert_eq.
  - destruct Hes as (Hnow & Hms & Hes).
    destruct (ended (c_conn c)).
    { exists now, filled, l, None. pose proof (granted_nonneg _ Hms).
      split_and!; [lia| |done|done|done|simpl; lia|simpl; lia|simpl; lia].
      destruct Hok as [Hs Hq Hr Hm Hfl]. split; [by apply (slots_ok_mono t); [|lia]|done..]. }
    unfold round. eapply returns_bind; [apply (before_recv_ok stop t now filled l); [done|lia|lia|lia]|].
    intros [c1 out1] (l1 & sent & Hok1 & Ho1 & Hsent & Hc1 & Ha1 & Hn1). cbn [fst snd] in *.
    destruct (recv_batch_ok now filled l1 ms c1 [] Hconn Hok1 Hms ltac:(lia)) as (c2 & out2 & E2 & Hok2 & Ho2 & Hq2 & Hc2 & Ha2).
    unfold recv_batch. rewrite E2. cbn [mbind result_bind returns fst snd].
    exists now, filled, l1, sent. rewrite inserts_app, Ho2, app_nil_r. split_and!; [lia|done|done|done|done|lia|lia|rewrite Hq2; lia].
Qed.

(** What is sent along a run: every event sends what [sent] says to the replicas that are connected
    when it happens. *)
Fixpoint broadcasts (es : list event) (sent : list (option storage_insert)) (c : client) : Prop :=
  match es, sent with
  | [], [] => True
  | e :: es, x :: sent =>
    exists c' out, step client_id shard_id failures estimate connect e c = Ok (c', out) /\
      inserts out = broadcast (c_conn c) x /\ sent_ok (c_conn c) x /\
      consumed (c_slots c') = consumed (c_slots c) + sent_slots x /\ broadcasts es sent c'
  | _, _ => False
  end.

(** Every sequence of events. *)
Lemma client_run_ok t filled l es c :
  connect_ok -> 0 <= t -> client_ok t filled l c -> events_ok t filled es ->
  assigned (c_slots c) + zsum (granted_by <$> es) < W64 -> num_enqueued_ (requests_ c) + zsum (inserted_by <$> es) < W64 ->
  returns (fun x => exists t' filled' l' sent, client_ok t' filled' l' x.1 /\ broadcasts es sent c /\
      consumed (c_slots x.1) = consumed (c_slots c) + zsum (sent_slots <$> sent) /\
      assigned (c_slots x.1) <= assigned (c_slots c) + zsum (granted_by <$> es))
    (run client_id shard_id failures estimate connect es c).
Proof.
  intros Hconn. revert t filled l c. induction es as [|e es IH]; intros t filled l c Ht Hok Hes Hg Hi.
  { exists t, filled, l, []. split_and!; [done|done|simpl; lia|simpl; lia]. }
  rewrite zsum_fmap_cons in *. assert (0 <= zsum (inserted_by <$> es)) by apply inserted_by_nonneg.
  assert (0 <= zsum (granted_by <$> es)).
  { destruct e; cbn [events_ok] in Hes; [destruct Hes as (_ & ?)..|destruct Hes as (_ & _ & ?)]; by eapply granted_by_nonneg. }
  cbn [run]. destruct (step _ _ _ _ _ e c) as [[c1 out1]|f] eqn:E;
    (pose proof (step_ok t filled l e es c Hconn Ht Hok Hes ltac:(lia) ltac:(lia)) as H1; rewrite E in H1); [|exact H1].
  destruct H1 as (t1 & filled1 & l1 & x & Ht1 & Hok1 & Hes1 & Ho1 & Hb1 & Hc1 & Ha1 & Hn1). cbn [fst snd mbind result_bind] in *.
  eapply returns_bind; [apply (IH t1 filled1 l1 c1); [done|done|done|lia|lia]|].
  intros [c2 out2] (t2 & filled2 & l2 & sent & Hok2 & Hb2 & Hc2 & Ha2). cbn [fst snd returns] in *.
  exists t2, filled2, l2, (x :: sent). rewrite zsum_fmap_cons. split_and!; [done| |lia|lia].
  cbn [broadcasts]. by exists c1, out1.
Qed.
End events.

Lemma init_ok u : client_ok 0 ∅ [] (loop_init u (Memory ∅ ∅)).
Proof.
  split; simpl; [|by split|constructor|apply map_Forall_empty|set_solver].
  split; simpl; [by left|by split; simpl|done|lia|lia].
Qed.

(** ** The schedule *)

(** C14: a client keeps to the slots it was assigned.  In every run of a correct application
    under a clock that does not go back, whatever is received (from storage servers with a client
    thread, and epochs of at most 2^48 slots) and however the rate is estimated, each event sends
    no insert, or the same one to every replica that is connected when it happens, which are more
    than [failures], and advances by the slots of this insert, at least one; all of them together
    advance by [consumed], which never exceeds the end of the current epoch nor the slots the
    ordering server has assigned. *)
Theorem client_keeps_to_slots client_id shard_id failures estimate connect u es c out :
  connect_ok connect -> events_ok 0 ∅ es ->
  zsum (granted_by <$> es) < W64 -> zsum (inserted_by <$> es) < W64 ->
  run client_id shard_id failures estimate connect es (loop_init u (Memory ∅ ∅)) = Ok (c, out) ->
  exists sent, broadcasts client_id shard_id failures estimate connect es sent (loop_init u (Memory ∅ ∅)) /\
    zsum (sent_slots <$> sent) = consumed (c_slots c) /\
    consumed (c_slots c) <= e_last (current (c_slots c)) <= assigned (c_slots c) /\
    assigned (c_slots c) <= zsum (granted_by <$> es).
Proof.
  intros Hconn Hes Hg Hi Hr.
  pose proof (client_run_ok client_id shard_id failures estimate connect 0 ∅ [] es _ Hconn ltac:(lia) (init_ok u) Hes Hg Hi) as H.
  rewrite Hr in H. destruct H as (t & filled & l & sent & Hok & Hb & Hc & Ha).
  exists sent. pose proof (co_slots _ _ _ _ Hok) as [_ _ Hch Hu _]. pose proof (chain_le _ _ _ Hch). simpl in Hc, Ha.
  split_and!; [done|lia|simpl in Hu; lia|done|done].
Qed.

(** C20: the client's thread never faults.  With a fixed rate every run of a correct application
    returns, if the clock does not go back, the storage servers have a client thread, and there are
    less than 2^64 slots and requests, with at most 2^48 slots in an epoch; and its final state is
    well formed: the epochs follow each other without a gap, the queue holds buffers with a
    payload that fits, and the client is inside its epoch.  (If the clock goes back it can be
    outside: [clock_back_overruns].) *)
Theorem client_never_faults client_id shard_id failures connect u es :
  connect_ok connect -> events_ok 0 ∅ es ->
  zsum (granted_by <$> es) < W64 -> zsum (inserted_by <$> es) < W64 ->
  exists c out t filled l, run client_id shard_id failures None connect es (loop_init u (Memory ∅ ∅)) = Ok (c, out) /\
    client_ok t filled l c.
Proof.
  intros Hconn Hes Hg Hi.
  pose proof (client_run_ok client_id shard_id failures None connect 0 ∅ [] es _ Hconn ltac:(lia) (init_ok u) Hes Hg Hi) as H.
  destruct (run _ _ _ _ _ _ _) as [[c out]|f]; [|by destruct H].
  destruct H as (t & filled & l & sent & Hok & _). by exists c, out, t, filled, l.
Qed.

(** An iteration sends what the schedule asks for.  When the client is behind, a request
    of the application is taken from the queue, or a no-op is sent if nothing is outstanding; it
    goes to every replica, and it advances the client exactly to where the schedule of the epoch
    says it should be at that moment. *)
Theorem send_on_schedule client_id failures t now filled l c :
  client_ok t filled l c -> 0 <= t <= now -> now < I64 -> num_enqueued_ (requests_ c) < W64 ->
  exists c' out l', send_requests client_id failures now c = Ok (c', out) /\ sends failures now l c l' c' out.
Proof.
  intros Hok Ht Hn Hb. destruct (send_requests_ok client_id failures t now filled l c Hok Ht Hn Hb) as (c' & out & l' & ? & _ & ? & _).
  by exists c', out, l'.
Qed.

(** ** Witnesses *)
Definition example_server (a : sockaddr_in) : option (message * Z) :=
  Some (MStorageIntro (StorageIntro 0 (sin_port a) 2 0), message_length (MStorageIntro (StorageIntro 0 (sin_port a) 2 0))).
Definition example_address (rid : Z) : sockaddr_in := SockaddrIn 2 rid 0 0.
Definition example_info : message := MClientStorageInfo (ClientStorageInfo 2 [example_address 0; example_address 1]).
Definition example_insert : storage_insert := StorageInsert 0 0 2 [Byte.x01; Byte.x02].

(** Two replicas are connected and an epoch of 500 slots begins at 10 ms; one request is sent
    after 1 ms of it and a no-op after 2 ms, when the request has been answered. *)
Definition example_events : list event := [
  Round false 0 [example_info; MClientNewEpoch (ClientNewEpoch 10000000 500)];
  Fill 7 example_insert;
  Insert 7 70;
  Round false 11000000 [MClientInsertAck (ClientInsertAck 0 40); MClientInsertAck (ClientInsertAck 1 40)];
  Round false 12000000 []].

Lemma example_connect_ok : connect_ok example_server.
Proof. intros a intro n [= <- _]. by simpl. Qed.

Lemma example_events_ok : events_ok 0 ∅ example_events.
Proof.
  cbn [example_events events_ok]. unfold buffer_ok. change MAX_PAYLOAD with 1992.
  split_and!; try lia; try done; try set_solver; try by repeat constructor.
Qed.

Definition outcome (r : result (client * outputs)) : client * outputs :=
  match r with Ok x => x | Err _ => (loop_init 0 (Memory ∅ ∅), []) end.
Definition example_run : client * outputs := outcome (run 5 0 1 None example_server example_events (loop_init 0 (Memory ∅ ∅))).

Lemma client_keeps_to_slots_witness :
  exists sent, broadcasts 5 0 1 None example_server example_events sent (loop_init 0 (Memory ∅ ∅)) /\
    zsum (sent_slots <$> sent) = consumed (c_slots example_run.1) /\
    consumed (c_slots example_run.1) <= e_last (current (c_slots example_run.1)) <= assigned (c_slots example_run.1) /\
    assigned (c_slots example_run.1) <= zsum (granted_by <$> example_events).
Proof.
  apply (client_keeps_to_slots 5 0 1 None example_server 0 example_events example_run.1 example_run.2).
  - exact example_connect_ok.
  - exact example_events_ok.
  - reflexivity.
  - reflexivity.
  - vm_compute. reflexivity.
Defined.

Example example_sent : inserts example_run.2 =
  [(ToStorage 1 2, StorageInsert 5 100 2 [Byte.x01; Byte.x02]); (ToStorage 0 2, StorageInsert 5 100 2 [Byte.x01; Byte.x02]);
   (ToStorage 1 2, StorageInsert 5 100 0 []); (ToStorage 0 2, StorageInsert 5 100 0 [])].
Proof. vm_compute. reflexivity. Qed.

Lemma client_never_faults_witness :
  exists c out t filled l, run 5 0 1 None example_server example_events (loop_init 0 (Memory ∅ ∅)) = Ok (c, out) /\
    client_ok t filled l c.
Proof.
  apply (client_never_faults 5 0 1 example_server 0 example_events).
  - exact example_connect_ok.
  - exact example_events_ok.
  - reflexivity.
  - reflexivity.
Defined.

(** The two replicas are connected and the epoch has begun. *)
Definition example_client : client :=
  Client (Connections {[0; 1]} 2 2 false false) (Slots 0 500 (Epoch 10000000 0 500) [])
    (c_rates (loop_init 0 (Memory ∅ ∅))) (Acks UINT64_MAX []) (Memory ∅ ∅) queue_init.

Lemma example_client_ok : client_ok 10000000 ∅ [] example_client.
Proof.
  split; simpl; [|by split|constructor|apply map_Forall_empty|set_solver].
  split; simpl; [right; lia|split; simpl; [lia|unfold EPOCH_SLOTS; lia|lia]|done|lia|lia].
Qed.

Lemma send_on_schedule_witness :
  exists c' out l', send_requests 5 1 11000000 example_client = Ok (c', out) /\
    sends 1 11000000 [] example_client l' c' out.
Proof. apply (send_on_schedule 5 1 10000000 11000000 ∅ []); [exact example_client_ok|lia|reflexivity|reflexivity]. Defined.

(** ** A clock that goes back

    [high_resolution_clock] is the wall clock on this platform, which can be set back.  When it is
    before the beginning of the epoch, the elapsed time is negative, its conversion to
    [unsigned long] wraps around, the guard [now - current.begin <= EPOCH_DURATION] holds, and the
    client takes slots far beyond those it was assigned. *)
Lemma clock_back_overruns :
  exists c out, send_requests 5 1 9999999 example_client = Ok (c, out) /\ assigned (c_slots c) = 500 /\
    consumed (c_slots c) = 0 /\
  exists c out, send_requests 5 1 9000000 example_client = Ok (c, out) /\ assigned (c_slots c) = 500 /\
    consumed (c_slots c) = 3689348814741810.
Proof.
  eexists _, _. split; [vm_compute; reflexivity|]. split; [reflexivity|]. split; [reflexivity|].
  eexists _, _. split; [vm_compute; reflexivity|]. split; reflexivity.
Qed.

(** Rounding up the rate of a client: enough slots for it in an epoch, and less than one unit
    too many. *)
Lemma fixed_num_slots_covers rate :
  0 <= rate < 2 ^ 60 ->
  fixed_num_slots rate `mod` MIN_SLOTS = 0 /\ MIN_SLOTS <= fixed_num_slots rate /\
  rate * 5 / 1000 <= fixed_num_slots rate < Z.max 1 (rate * 5 / 1000) + MIN_SLOTS.
Proof.
  intros Hr. unfold fixed_num_slots. change (EPOCH_DURATION / 1000000) with 5. change (2 ^ 60) with 1152921504606846976 in Hr.
  rewrite (wrap64_small (rate * 5)) by lia.
  set (v := Z.max 1 (rate * 5 / 1000)). pose proof (Z.div_pos (rate * 5) 1000 ltac:(lia) ltac:(lia)).
  pose proof (Z.div_le_upper_bound (rate * 5) 1000 (rate * 5) ltac:(lia) ltac:(lia)).
  assert (1 <= v <= rate * 5 + 1) as Hv by lia.
  change MIN_SLOTS with 100.
  assert (align_any 100 v = round_up 100 v) as ->.
  { unfold align_any, round_up. pose proof (round_up_bounds 100 v ltac:(lia)) as [? _]. unfold round_up in *.
    rewrite (wrap64_small (v + 100)), (wrap64_small (v + 100 - 1)), wrap64_small by lia. done. }
  pose proof (round_up_bounds 100 v ltac:(lia)) as [? Hm]. split; [done|]. split; [|lia].
  apply Z.mod_divide in Hm as [q Hq]; [|lia]. lia.
Qed.
