(* ===== verification/ClientAckSpec.v ===== *)
(** * The acknowledgements and the end of the client

    Counting acknowledgements implements a quorum: an abstract machine that answers a request
    when more than [failures] replicas have acknowledged it.  Then the protocol by which the
    client's loop ends. *)
From S2P Require Import Prelude Consts Util Api Client ClientSpec.

(** ** The abstract machine

    The requests that were sent, with the location of their response; the number of
    acknowledgements of every replica; and the responses the application sees. *)
Record quorum := Quorum {
  q_sent : list (option Z);
  q_acked : gmap Z nat;
  q_responses : gmap Z Z }.

(** What happens to it: a call of [insert], a broadcast, and an acknowledgement. *)
Inductive label :=
| Called (response : Z)
| Sent (response : option Z)
| Acked (replica gsn : Z).

(** The replicas that have acknowledged the [k]-th request: every replica acknowledges the
    requests in order. *)
Definition ackers (k : nat) (acked : gmap Z nat) : nat := size (filter (fun x => (k < x.2)%nat) acked).

Definition q_step (failures : Z) (x : label) (q : quorum) : quorum :=
  match x with
  | Called response => Quorum (q_sent q) (q_acked q) (<[response := UINT64_MAX]> (q_responses q))
  | Sent response => Quorum (q_sent q ++ [response]) (q_acked q) (q_responses q)
  | Acked replica gsn =>
    let k := default 0%nat (q_acked q !! replica) in
    let acked := <[replica := S k]> (q_acked q) in
    Quorum (q_sent q) acked
      (match q_sent q !! k with
       | Some (Some response) =>
         if Z.of_nat (ackers k acked) =? failures + 1 then <[response := gsn]> (q_responses q) else q_responses q
       | _ => q_responses q
       end)
  end.

Definition q_run (failures : Z) (xs : list label) (q : quorum) : quorum := foldl (fun q x => q_step failures x q) q xs.

(** The replicas acknowledge the requests that were sent, in order, with the GSNs in [G]. *)
Fixpoint causal (G : list Z) (sent : nat) (acked : gmap Z nat) (xs : list label) : Prop :=
  match xs with
  | [] => True
  | Called _ :: xs => causal G sent acked xs
  | Sent _ :: xs => causal G (S sent) acked xs
  | Acked replica gsn :: xs =>
    let k := default 0%nat (acked !! replica) in
    (k < sent)%nat /\ G !! k = Some gsn /\ causal G sent (<[replica := S k]> acked) xs
  end.

Lemma ackers_insert j k r acked :
  default 0%nat (acked !! r) = k ->
  ackers j (<[r := S k]> acked) = if decide (j = k) then S (ackers j acked) else ackers j acked.
Proof.
  intros Hk. unfold ackers.
  assert (filter (fun x : Z * nat => (j < x.2)%nat) acked !! r = if decide (j < k)%nat then Some k else None) as Hr.
  { destruct (acked !! r) as [n|] eqn:Er; simpl in Hk; subst; case_decide as Hj.
    - apply map_lookup_filter_Some_2; [done|simpl; lia].
    - apply map_lookup_filter_None. right. intros x. rewrite Er. intros [= <-]. simpl. lia.
    - lia.
    - apply map_lookup_filter_None. by left. }
  destruct (decide (j < S k)%nat) as [Hlt|Hge].
  - rewrite map_filter_insert_True by done. rewrite map_size_insert, Hr. repeat case_decide; simpl; lia.
  - rewrite map_filter_insert_not'; [by rewrite decide_False by lia|simpl; lia|].
    intros y Hy. rewrite Hy in Hk. simpl in *. lia.
Qed.

Lemma ackers_mono j k acked : (j <= k)%nat -> (ackers k acked <= ackers j acked)%nat.
Proof.
  intros Hjk. unfold ackers. apply map_subseteq_size, map_filter_subseteq_ext. intros i x _. simpl. lia.
Qed.

Lemma ackers_pos j r acked : (j < default 0%nat (acked !! r))%nat -> (0 < ackers j acked)%nat.
Proof.
  intros Hj. unfold ackers. destruct (acked !! r) as [n|] eqn:Er; simpl in Hj; [|lia].
  destruct (size _) eqn:Hs; [|lia]. apply map_size_empty_iff in Hs.
  assert (filter (fun x : Z * nat => (j < x.2)%nat) acked !! r = Some n) as Hl by (apply map_lookup_filter_Some_2; [done|simpl; lia]).
  by rewrite Hs in Hl.
Qed.

(** ** The client implements it *)

Lemma find_ack_split gsn l1 it l2 :
  Forall (fun x => (o_gsn x =? UINT64_MAX) || (gsn =? o_gsn x) = false) l1 ->
  (o_gsn it =? UINT64_MAX) || (gsn =? o_gsn it) = true ->
  find_ack gsn (l1 ++ it :: l2) = Some (l1, it, l2).
Proof.
  intros Hl1 Hit. induction Hl1 as [|x l1 Hx Hl1 IH]; cbn [app find_ack]; [by rewrite Hit|]. by rewrite Hx, IH.
Qed.

Section refinement.
Variable failures : Z.
Hypothesis failures_range : 0 <= failures < UINT64_MAX.

(** The GSNs of the requests: increasing, and none is the value that means "none". *)
Variable G : list Z.
Hypothesis G_increasing : forall i j a b, (i < j)%nat -> G !! i = Some a -> G !! j = Some b -> a < b.
Hypothesis G_range : Forall (fun g => 0 <= g < UINT64_MAX) G.

(** What the client knows of the [k]-th request while it is outstanding. *)
Definition known (q : quorum) (k : nat) : outstanding :=
  Outstanding (default None (q_sent q !! k)) (if decide (ackers k (q_acked q) = 0%nat) then UINT64_MAX else G !!! k)
    (Z.of_nat (ackers k (q_acked q))).

(** The first [d] requests have been answered. *)
Record acks_rel (d : nat) (q : quorum) (a : acks) : Prop := {
  ar_le : (d <= length (q_sent q))%nat;
  ar_answered : forall k, (k < d)%nat -> failures < Z.of_nat (ackers k (q_acked q));
  ar_waiting : forall k, (d <= k)%nat -> Z.of_nat (ackers k (q_acked q)) <= failures;
  ar_latest : latest_gsn a = if decide (d = 0%nat) then UINT64_MAX else G !!! pred d;
  ar_outstandings : outstandings a = known q <$> seq d (length (q_sent q) - d);
  ar_prefix : forall k, (k < d)%nat -> is_Some (G !! k) }.

Lemma G_total k : is_Some (G !! k) -> G !! k = Some (G !!! k) /\ 0 <= G !!! k < UINT64_MAX.
Proof.
  intros [g Hg]. rewrite (list_lookup_total_correct _ _ _ Hg). split; [done|].
  by apply (Forall_lookup_1 (fun g => 0 <= g < UINT64_MAX) G k).
Qed.

Lemma G_lt i j : (i < j)%nat -> is_Some (G !! i) -> is_Some (G !! j) -> G !!! i < G !!! j.
Proof. intros Hij [Hi _]%G_total [Hj _]%G_total. eauto. Qed.

Lemma known_insert q r k j gsn :
  default 0%nat (q_acked q !! r) = k -> j <> k -> known (q_step failures (Acked r gsn) q) j = known q j.
Proof. intros Hk Hj. unfold known. cbn [q_step q_sent q_acked]. rewrite Hk, (ackers_insert j k) by done. by rewrite (decide_False (P := j = k)). Qed.

(** An acknowledgement of a request that was answered. *)
Lemma ack_answered d q a m r k gsn :
  acks_rel d q a -> responses m = q_responses q -> default 0%nat (q_acked q !! r) = k -> (k < d)%nat -> G !! k = Some gsn ->
  on_client_insert_ack failures (ClientInsertAck r gsn) a m = (a, m) /\
  acks_rel d (q_step failures (Acked r gsn) q) a /\ responses m = q_responses (q_step failures (Acked r gsn) q).
Proof.
  intros [H1 H2 H3 H4 H5 H6] Hm Hk Hd Hg. split; [|split].
  - unfold on_client_insert_ack. rewrite H4, decide_False by lia. cbn [ack_gsn].
    destruct (G_total (pred d) ltac:(apply H6; lia)) as [Hp Hpr].
    assert (gsn <= G !!! pred d) as Hle.
    { rewrite <- (list_lookup_total_correct _ _ _ Hg). destruct (decide (k = pred d)) as [->|]; [lia|].
      apply Z.lt_le_incl, G_lt; [lia|by apply H6|apply H6; lia]. }
    rewrite (proj2 (Z.eqb_neq _ _)) by lia. by rewrite (proj2 (Z.leb_le _ _)).
  - split; [done| | |done| |done].
    + intros j Hj. cbn [q_step q_acked]. rewrite Hk, (ackers_insert j k) by done. specialize (H2 j Hj). destruct (decide (j = k)); lia.
    + intros j Hj. cbn [q_step q_acked]. rewrite Hk, (ackers_insert j k), decide_False by (done || lia). by apply H3.
    + rewrite H5. cbn [q_step q_sent]. apply list_fmap_ext. intros i j Hj. apply lookup_seq in Hj as [-> Hj].
      symmetry. eapply known_insert; [done|lia].
  - rewrite Hm. cbn [q_step q_responses]. rewrite Hk, (ackers_insert k k), decide_True by done.
    specialize (H2 k Hd). destruct (q_sent q !! k) as [[x|]|]; [|done..]. by rewrite (proj2 (Z.eqb_neq _ _)) by lia.
Qed.

Lemma seq_split d k n : (d <= k < n)%nat -> seq d (n - d) = seq d (k - d) ++ k :: seq (S k) (n - S k).
Proof.
  intros Hk. replace (n - d)%nat with ((k - d) + S (n - S k))%nat by lia. rewrite seq_app. f_equal.
  replace (d + (k - d))%nat with k by lia. done.
Qed.

(** The requests before the one a replica acknowledges have been acknowledged by it. *)
Lemma known_before d q r k :
  is_Some (G !! k) -> default 0%nat (q_acked q !! r) = k ->
  Forall (fun x => (o_gsn x =? UINT64_MAX) || (G !!! k =? o_gsn x) = false) (known q <$> seq d (k - d)).
Proof.
  intros Hsk Hk. apply Forall_fmap, Forall_forall. intros j Hj. apply elem_of_seq in Hj. cbn [known o_gsn compose].
  pose proof (ackers_pos j r (q_acked q) ltac:(lia)). rewrite decide_False by lia.
  assert (is_Some (G !! j)) as Hsj.
  { apply lookup_lt_is_Some. apply lookup_lt_is_Some in Hsk. lia. }
  destruct (G_total j Hsj) as [_ ?]. pose proof (G_lt j k ltac:(lia) Hsj Hsk).
  apply orb_false_iff. rewrite !Z.eqb_neq. lia.
Qed.

Lemma known_matches q k : (o_gsn (known q k) =? UINT64_MAX) || (G !!! k =? o_gsn (known q k)) = true.
Proof. cbn [known o_gsn]. case_decide; [done|]. rewrite Z.eqb_refl. apply orb_true_r. Qed.

(** An acknowledgement of a request that is outstanding. *)
Lemma ack_outstanding d q a m r k gsn :
  acks_rel d q a -> responses m = q_responses q -> default 0%nat (q_acked q !! r) = k ->
  (d <= k < length (q_sent q))%nat -> G !! k = Some gsn ->
  exists d' a' m', on_client_insert_ack failures (ClientInsertAck r gsn) a m = (a', m') /\
  acks_rel d' (q_step failures (Acked r gsn) q) a' /\ responses m' = q_responses (q_step failures (Acked r gsn) q).
Proof.
  intros Hrel Hm Hk Hd Hg. pose proof Hrel as [H1 H2 H3 H4 H5 H6].
  destruct (G_total k ltac:(by eexists)) as [Hg' Hgr]. assert (gsn = G !!! k) as -> by congruence.
  unfold on_client_insert_ack. cbn [ack_gsn].
  assert (negb (latest_gsn a =? UINT64_MAX) && (G !!! k <=? latest_gsn a) = false) as ->.
  { rewrite H4. case_decide; [done|]. assert (G !!! pred d < G !!! k) by (apply G_lt; [lia|apply H6; lia|by eexists]).
    rewrite (proj2 (Z.leb_gt _ _)) by done. apply andb_false_r. }
  rewrite (seq_split d k) in H5 by done. rewrite fmap_app, fmap_cons in H5. rewrite H5.
  assert (0 <= Z.of_nat (ackers k (q_acked q)) <= failures) as Hak by (split; [lia|apply H3; lia]).
  rewrite find_ack_split; [|by apply (known_before d q r k); [eexists|]|by apply known_matches].
  cbn [known o_num_acks o_gsn o_response]. rewrite wrap64_small by (change UINT64_MAX with 18446744073709551615 in *; lia).
  assert ((if (if decide (ackers k (q_acked q) = 0%nat) then UINT64_MAX else G !!! k) =? UINT64_MAX then G !!! k
           else if decide (ackers k (q_acked q) = 0%nat) then UINT64_MAX else G !!! k) = G !!! k) as ->.
  { destruct (decide (ackers k (q_acked q) = 0%nat)); [done|]. by rewrite (proj2 (Z.eqb_neq _ _)) by lia. }
  set (q' := q_step failures (Acked r (G !!! k)) q).
  assert (forall j, ackers j (q_acked q') = if decide (j = k) then S (ackers j (q_acked q)) else ackers j (q_acked q)) as Hq'.
  { intros j. unfold q'. cbn [q_step q_acked]. rewrite Hk. by apply ackers_insert. }
  assert (forall j, j <> k -> known q' j = known q j) as Hkn by (intros j; by apply known_insert).
  assert (q_sent q' = q_sent q) as Hs by done.
  assert (q_responses q' = match q_sent q !! k with
    | Some (Some x) => if Z.of_nat (ackers k (q_acked q')) =? failures + 1 then <[x := G !!! k]> (q_responses q) else q_responses q
    | _ => q_responses q end) as Hr'.
  { unfold q'. cbn [q_step q_responses q_acked]. by rewrite Hk. }
  clearbody q'. rewrite (Hq' k), decide_True in Hr' by done.
  destruct (Z.ltb_spec failures (Z.of_nat (ackers k (q_acked q)) + 1)) as [Hlt|Hge].
  - assert (k = d) as ->.
    { destruct (decide (k = d)) as [|Hne]; [done|]. pose proof (H3 d ltac:(lia)).
      pose proof (ackers_mono d k (<[r := S k]> (q_acked q)) ltac:(lia)) as Hmono.
      rewrite (ackers_insert d k), (ackers_insert k k), decide_True, decide_False in Hmono by (done || lia). lia. }
    rewrite Nat.sub_diag. eexists (S d), _, _. split; [done|]. split.
    + split; cbn [latest_gsn outstandings]; rewrite ?Hs.
      * lia.
      * intros j Hj. rewrite Hq'. destruct (decide (j = d)); [subst; lia|]. apply H2. lia.
      * intros j Hj. rewrite Hq', decide_False by lia. apply H3. lia.
      * done.
      * cbn [seq fmap list_fmap app]. apply list_fmap_ext. intros i j Hj. apply lookup_seq in Hj as [-> Hj]. symmetry. apply Hkn. lia.
      * intros j Hj. destruct (decide (j = d)) as [->|]; [by eexists|]. apply H6. lia.
    + rewrite Hr', (proj2 (Z.eqb_eq _ _)) by lia. destruct (q_sent q !! d) as [[x|]|]; simpl; by rewrite ?Hm.
  - eexists d, _, _. split; [done|]. split.
    + split; cbn [latest_gsn outstandings]; rewrite ?Hs; [done| | |done| |done].
      * intros j Hj. rewrite Hq'. specialize (H2 j Hj). destruct (decide (j = k)); lia.
      * intros j Hj. rewrite Hq'. specialize (H3 j Hj). destruct (decide (j = k)) as [->|]; lia.
      * rewrite (seq_split d k (length (q_sent q))), fmap_app, fmap_cons by lia. f_equal; [|f_equal].
        -- apply list_fmap_ext. intros i j Hj. apply lookup_seq in Hj as [-> Hj]. symmetry. apply Hkn. lia.
        -- unfold known. rewrite Hs, Hq', (decide_True (P := k = k)) by done. rewrite (decide_False (P := S _ = 0%nat)) by lia. f_equal. lia.
        -- apply list_fmap_ext. intros i j Hj. apply lookup_seq in Hj as [-> Hj]. symmetry. apply Hkn. lia.
    + rewrite Hr', (proj2 (Z.eqb_neq _ _)) by lia. rewrite Hm. by destruct (q_sent q !! k) as [[x|]|].
Qed.

Lemma ackers_zero k acked : (forall r, (default 0%nat (acked !! r) <= k)%nat) -> ackers k acked = 0%nat.
Proof.
  intros Hb. unfold ackers. apply map_size_empty_iff, map_empty. intros r. apply map_lookup_filter_None. right. intros n Hr.
  specialize (Hb r). rewrite Hr in Hb. simpl in *. lia.
Qed.

(** The client and the abstract machine are related: the application sees the same responses, the
    outstanding requests are those that wait for a quorum, and what follows is causal. *)
Definition refines (q : quorum) (a : acks) (m : memory) (xs : list label) : Prop :=
  (exists d, acks_rel d q a) /\ responses m = q_responses q /\
  (forall r, (default 0%nat (q_acked q !! r) <= length (q_sent q))%nat) /\
  causal G (length (q_sent q)) (q_acked q) xs.

Lemma refines_ack q a m r gsn xs a' m' :
  refines q a m (Acked r gsn :: xs) -> on_client_insert_ack failures (ClientInsertAck r gsn) a m = (a', m') ->
  refines (q_step failures (Acked r gsn) q) a' m' xs.
Proof.
  intros ((d & Hrel) & Hm & Hb & Hk & Hg & Hc) E. set (k := default 0%nat (q_acked q !! r)) in *.
  assert ((exists d', acks_rel d' (q_step failures (Acked r gsn) q) a') /\ responses m' = q_responses (q_step failures (Acked r gsn) q)) as [? ?].
  { destruct (decide (k < d)%nat) as [Hlt|Hge].
    - destruct (ack_answered d q a m r k gsn Hrel Hm eq_refl Hlt Hg) as (E' & ? & ?). rewrite E in E'. injection E' as -> ->. eauto.
    - destruct (ack_outstanding d q a m r k gsn Hrel Hm eq_refl ltac:(lia) Hg) as (d' & a2 & m2 & E' & ? & ?).
      rewrite E in E'. injection E' as -> ->. eauto. }
  split; [done|]. split; [done|]. split; [|done]. intros r'. cbn [q_step q_acked q_sent].
  destruct (decide (r = r')) as [<-|Hne]; [rewrite lookup_insert_eq; simpl; fold k; lia|by rewrite lookup_insert_ne].
Qed.

Lemma refines_sent q a m response xs :
  refines q a m (Sent response :: xs) ->
  refines (q_step failures (Sent response) q) (Acks (latest_gsn a) (outstandings a ++ [Outstanding response UINT64_MAX 0])) m xs.
Proof.
  intros ((d & [H1 H2 H3 H4 H5 H6]) & Hm & Hb & Hc). split; [exists d|].
  - split; cbn [q_step q_sent q_acked latest_gsn outstandings]; [rewrite length_app; lia|done|done|done| |done].
    rewrite length_app. simpl (length [response]). rewrite Nat.add_1_r, Nat.sub_succ_l by done.
    rewrite seq_S, fmap_app, H5. f_equal.
    + apply list_fmap_ext. intros i j Hj. apply lookup_seq in Hj as [-> Hj]. unfold known. cbn [q_sent q_acked].
      by rewrite lookup_app_l by lia.
    + simpl. f_equal. unfold known. cbn [q_sent q_acked]. replace (d + (length (q_sent q) - d))%nat with (length (q_sent q)) by lia.
      rewrite lookup_app_r, Nat.sub_diag by lia. by rewrite ackers_zero, decide_True.
  - split; [done|]. cbn [q_step q_sent q_acked]. rewrite length_app, Nat.add_1_r. split; [|done].
    intros r. specialize (Hb r). lia.
Qed.

Lemma refines_called q a m response xs mem :
  refines q a m (Called response :: xs) -> responses mem = <[response := UINT64_MAX]> (responses m) ->
  refines (q_step failures (Called response) q) a mem xs.
Proof.
  intros ((d & [H1 H2 H3 H4 H5 H6]) & Hm & Hb & Hc) Hmem. split; [by exists d; split|].
  split; [by rewrite Hmem, Hm|done].
Qed.
End refinement.

(** ** What a run does to the abstract machine *)

(** The requests that an iteration has sent: those that are now outstanding. *)
Definition new_requests (c c' : client) : list label :=
  (fun it => Sent (o_response it)) <$> drop (length (outstandings (c_acks c))) (outstandings (c_acks c')).

Definition acked_label (m : message) : option label :=
  match m with MClientInsertAck ack => Some (Acked (ack_replica_id ack) (ack_gsn ack)) | _ => None end.

Section trace.
Variables client_id shard_id failures : Z.
Variable estimate : option pid.
Variable connect : sockaddr_in -> option (message * Z).

Definition labels (e : event) (c : client) : list label :=
  match e with
  | Fill _ _ => []
  | Insert _ response => [Called response]
  | Round stop now ms =>
    if ended (c_conn c) then [] else
    match before_recv client_id failures estimate stop now c with
    | Ok (c', _) => new_requests c c' ++ omap acked_label ms
    | Err _ => []
    end
  end.

Fixpoint trace (es : list event) (c : client) : list label :=
  match es with
  | [] => []
  | e :: es => labels e c ++ match step client_id shard_id failures estimate connect e c with
                             | Ok (c', _) => trace es c'
                             | Err _ => []
                             end
  end.

(** An iteration appends at most one request to those outstanding. *)
Lemma before_recv_acks stop now c c' out :
  before_recv client_id failures estimate stop now c = Ok (c', out) ->
  c_acks c' = c_acks c /\ responses (c_memory c') = responses (c_memory c) \/
  exists response, c_acks c' = Acks (latest_gsn (c_acks c)) (outstandings (c_acks c) ++ [Outstanding response UINT64_MAX 0]) /\
    responses (c_memory c') = responses (c_memory c).
Proof.
  unfold before_recv. destruct (check_stop client_id stop (c_conn c)) as [k out1]. intros H. inv_result.
  revert E0. unfold send_requests. destruct (can_send _ _ _); [|by intros [= <- <-]; left].
  intros H. inv_result. destruct o as [[request response]|].
  - inv_result. right. by exists (Some response).
  - cbn [c_acks] in H. destruct (decide (outstandings (c_acks c) = [])) as [Ho|Ho]; inv_result; [|by left].
    right. exists None. by rewrite Ho.
Qed.

Lemma client_recv_acks m c c' out :
  client_recv client_id shard_id failures connect m c = Ok (c', out) ->
  match m with
  | MClientInsertAck ack => on_client_insert_ack failures ack (c_acks c) (c_memory c) = (c_acks c', c_memory c')
  | _ => c_acks c' = c_acks c /\ c_memory c' = c_memory c
  end.
Proof.
  destruct m; cbn [client_recv]; intros H; try by inv_result.
  - destruct (on_storage_finished _ _ _ _). by inv_result.
  - destruct (on_client_insert_ack _ _ _ _) as [a mem]. by inv_result.
Qed.

Section refinement.
Hypothesis failures_range : 0 <= failures < UINT64_MAX.
Variable G : list Z.
Hypothesis G_increasing : forall i j a b, (i < j)%nat -> G !! i = Some a -> G !! j = Some b -> a < b.
Hypothesis G_range : Forall (fun g => 0 <= g < UINT64_MAX) G.

Abbreviation rel q c xs := (refines failures G q (c_acks c) (c_memory c) xs).

Lemma recv_batch_refines ms q c out c' out' xs :
  rel q c (omap acked_label ms ++ xs) ->
  mfold (fun m '(c, out) => '(c, o) ← client_recv client_id shard_id failures connect m c; Ok (c, out ++ o)) ms (c, out) = Ok (c', out') ->
  rel (q_run failures (omap acked_label ms) q) c' xs.
Proof.
  revert q c out. induction ms as [|m ms IH]; intros q c out Hrel H; cbn [mfold] in H; [by injection H as -> ->|].
  inv_result. apply client_recv_acks in E0.
  destruct m as [| | | | | | | | |ack| | | | | | | | | | | | | |]; try (destruct E0 as [Ea Em]; eapply IH; [|exact H]; by rewrite Ea, Em).
  simpl in Hrel |- *. eapply IH; [|exact H]. destruct ack as [r g]. by eapply refines_ack.
Qed.

Lemma step_refines e c c' out q xs :
  rel q c (labels e c ++ xs) -> step client_id shard_id failures estimate connect e c = Ok (c', out) ->
  rel (q_run failures (labels e c) q) c' xs.
Proof.
  intros Hrel H. destruct e as [request b|request response|stop now ms]; cbn [labels step] in *.
  - by injection H as <- <-.
  - unfold Client.insert in H. inv_result. simpl. by eapply refines_called.
  - destruct (ended (c_conn c)); [by injection H as <- <-|]. unfold round in H.
    destruct (before_recv _ _ _ _ _ _) as [[c1 out1]|] eqn:E; [|done]. cbn [mbind result_bind] in H. unfold recv_batch in H. inv_result.
    unfold q_run. rewrite foldl_app. rewrite <- app_assoc in Hrel. fold (q_run failures (new_requests c c1) q).
    eapply recv_batch_refines; [|exact E0]. unfold new_requests in *. apply before_recv_acks in E as [[Ea Em]|(response & Ea & Em)].
    + rewrite Ea, drop_all in *. simpl in Hrel |- *. unfold refines in *. by rewrite Em.
    + rewrite Ea in *. cbn [outstandings] in *. rewrite drop_app_length in *. simpl in Hrel |- *.
      apply (refines_sent failures) in Hrel. unfold refines in *. by rewrite Em.
Qed.

Lemma run_refines es c c' out q :
  rel q c (trace es c) -> run client_id shard_id failures estimate connect es c = Ok (c', out) ->
  rel (q_run failures (trace es c) q) c' [].
Proof.
  revert q c out. induction es as [|e es IH]; intros q c out Hrel H; cbn [run trace] in *; [by injection H as <- <-|].
  destruct (step _ _ _ _ _ e c) as [[c1 out1]|] eqn:E; [|done]. cbn [mbind result_bind] in H. inv_result.
  unfold q_run. rewrite foldl_app. eapply IH; [|exact E0]. by eapply step_refines.
Qed.

End refinement.
End trace.


(** A replica acknowledges three requests before another acknowledges the first two. *)
Definition example_ack (r g : Z) : message := MClientInsertAck (ClientInsertAck r g).
Definition example_ack_events : list event := [
  Round false 0 [example_info; MClientNewEpoch (ClientNewEpoch 10000000 500)];
  Fill 7 example_insert; Insert 7 70; Fill 8 example_insert; Insert 8 80; Fill 9 example_insert; Insert 9 90;
  Round false 11000000 [];
  Round false 12000000 [example_ack 0 40];
  Round false 13000000 [example_ack 0 47; example_ack 0 55; example_ack 1 40; example_ack 1 47];
  Round false 14000000 []].
Definition example_ack_run : client * outputs := outcome (run 5 0 1 None example_server example_ack_events (loop_init 0 (Memory ∅ ∅))).


Example example_ack_responses : responses (c_memory example_ack_run.1) = {[70 := 40; 80 := 47; 90 := UINT64_MAX]}.
Proof. vm_compute. reflexivity. Qed.

(** ** The end of the loop *)

(** The client IDs of the [client_finished] messages to the ordering server, and the replicas
    such a message was sent to. *)
Definition order_notified (out : outputs) : list Z :=
  omap (fun x => match x with (ToOrder, MClientFinished f) => Some (cf_client_id f) | _ => None end) out.
Definition replicas_notified (out : outputs) : list Z :=
  omap (fun x => match x with (ToStorage rid _, MClientFinished _) => Some rid | _ => None end) out.

Lemma difference_empty_iff (Q g : gset Z) : Q ∖ g = ∅ <-> Q ⊆ g.
Proof. split; [intros H x Hx|intros H; apply set_eq; intros x; set_solver]. destruct (decide (x ∈ g)); [done|]. assert (x ∈ Q ∖ g) by set_solver. set_solver. Qed.

Section ending.
Variables client_id shard_id failures : Z.
Variable estimate : option pid.
Variable connect : sockaddr_in -> option (message * Z).

(** The replica that takes its leave. *)
Definition bye (m : message) : gset Z :=
  match m with MStorageFinished b => if sf_shard_id b =? shard_id then {[sf_replica_id b]} else ∅ | _ => ∅ end.

(** A message that neither connects new replicas nor ends the loop. *)
Definition quiet (m : message) : Prop :=
  match m with MClientStorageInfo _ | MOrderFinished => False | _ => True end.

Definition messages (e : event) : list message := match e with Round _ _ ms => ms | _ => [] end.

(** The message to the ordering server when the last of the replicas in [Q] has gone. *)
Definition last_bye (Q Q' : gset Z) : list Z := if decide (Q <> ∅ /\ Q' = ∅) then [client_id] else [].

Lemma last_bye_app Q Q1 Q2 : Q1 ⊆ Q -> Q2 ⊆ Q1 -> last_bye Q Q1 ++ last_bye Q1 Q2 = last_bye Q Q2.
Proof.
  intros H1 H2. unfold last_bye. destruct (decide (Q1 = ∅)) as [->|Hne].
  - rewrite (decide_False (P := (∅ : gset Z) <> ∅ /\ Q2 = ∅)) by tauto. rewrite app_nil_r.
    destruct (decide (Q = ∅)) as [->|]; [by rewrite !decide_False by tauto|]. by rewrite !decide_True by (split; [done|set_solver]).
  - rewrite (decide_False (P := Q <> ∅ /\ Q1 = ∅)) by tauto.
    destruct (decide (Q2 = ∅)); [by rewrite !decide_True by (split; [set_solver|done])|by rewrite !decide_False by tauto].
Qed.

(** What the calls do to the connections. *)
Definition leaves (gone : gset Z) (x y : client) (out : outputs) : Prop :=
  queues (c_conn y) = queues (c_conn x) ∖ gone /\ ended (c_conn y) = ended (c_conn x) /\
  order_notified out = last_bye (queues (c_conn x)) (queues (c_conn y)).

Lemma leaves_trans g1 g2 x y z out1 out2 : leaves g1 x y out1 -> leaves g2 y z out2 -> leaves (g1 ∪ g2) x z (out1 ++ out2).
Proof.
  intros (H1 & H2 & H3) (H4 & H5 & H6). split; [set_solver|]. split; [congruence|].
  unfold order_notified in *. rewrite omap_app, H3, H6. apply last_bye_app; set_solver.
Qed.

Lemma leaves_same x y out :
  queues (c_conn y) = queues (c_conn x) -> ended (c_conn y) = ended (c_conn x) -> order_notified out = [] -> leaves ∅ x y out.
Proof.
  intros Hq He Ho. split; [set_solver|]. split; [done|]. rewrite Ho, Hq. unfold last_bye. by rewrite decide_False by tauto.
Qed.

Lemma leaves_gone g g' x y out : g ≡ g' -> leaves g x y out -> leaves g' x y out.
Proof. intros Hg. unfold leaves. fold_leibniz. by subst. Qed.

Lemma notified_to_queues k m : order_notified (to_queues k m) = [].
Proof. unfold order_notified, to_queues. by induction (elements (queues k)). Qed.

Lemma client_recv_leaves m c c' out :
  quiet m -> client_recv client_id shard_id failures connect m c = Ok (c', out) ->
  leaves (bye m) c c' out /\ stopped (c_conn c') = stopped (c_conn c) /\ replicas_notified out = [].
Proof.
  intros Hm H. destruct m; cbn [client_recv quiet bye] in *; try done;
    try by (injection H as <- <-; split; [by apply leaves_same|]).
  2:{ destruct (on_client_insert_ack _ _ _ _) as [a mem]. injection H as <- <-. split; [by apply leaves_same|done]. }
  destruct (on_storage_finished _ _ _ _) as [k o] eqn:E. injection H as <- <-. revert E. unfold on_storage_finished.
  destruct (Z.eqb_spec (sf_shard_id m) shard_id) as [_|_]; cbn [negb orb]; [|intros [= <- <-]; by split; [apply leaves_same|]].
  case_bool_decide as Hin; intros [= <- <-].
  - split; [|done]. destruct (leaves_same c (with_conn (c_conn c) c) []) as (H1 & H2 & H3); [done..|].
    split; [|done]. simpl in *. set_solver.
  - split; [|split; [done|]]; [|by case_decide]. split; [done|]. split; [done|]. cbn [with_conn c_conn queues]. unfold last_bye.
    destruct (decide (queues (c_conn c) ∖ {[sf_replica_id m]} = ∅)) as [Hd|Hd]; simpl.
    + rewrite decide_True; [done|]. split; [set_solver|done].
    + by rewrite decide_False by tauto.
Qed.

Definition gone (ms : list message) : gset Z := foldr (fun m g => bye m ∪ g) ∅ ms.

Lemma gone_app ms1 ms2 : gone (ms1 ++ ms2) ≡ gone ms1 ∪ gone ms2.
Proof. induction ms1 as [|m ms1 IH]; simpl; [set_solver|]. rewrite IH. set_solver. Qed.

Lemma recv_batch_leaves ms c out c' out' :
  Forall quiet ms ->
  mfold (fun m '(c, out) => '(c, o) ← client_recv client_id shard_id failures connect m c; Ok (c, out ++ o)) ms (c, out) = Ok (c', out') ->
  exists o, out' = out ++ o /\ leaves (gone ms) c c' o /\ stopped (c_conn c') = stopped (c_conn c) /\ replicas_notified o = [].
Proof.
  intros Hms. revert c out. induction Hms as [|m ms Hm Hms IH]; intros c out H; cbn [mfold] in H.
  { injection H as <- <-. exists []. rewrite app_nil_r. by split_and!; [|apply leaves_same| |]. }
  inv_result. destruct (client_recv_leaves _ _ _ _ Hm E0) as (H1 & H2 & H3). destruct (IH _ _ H) as (o2 & -> & H4 & H5 & H6).
  eexists. rewrite <- app_assoc. split; [done|]. split; [by apply leaves_trans with c0|]. split; [congruence|].
  unfold replicas_notified in *. by rewrite omap_app, H3, H6.
Qed.

Lemma before_recv_leaves stop now c c' out :
  before_recv client_id failures estimate stop now c = Ok (c', out) ->
  leaves ∅ c c' out /\ stopped (c_conn c') = stopped (c_conn c) || stop /\
  replicas_notified out = if negb (stopped (c_conn c)) && stop then elements (queues (c_conn c)) else [].
Proof.
  unfold before_recv. destruct (check_stop client_id stop (c_conn c)) as [k out1] eqn:Ek. intros H. inv_result.
  assert (queues k = queues (c_conn c) /\ ended k = ended (c_conn c) /\ stopped k = stopped (c_conn c) || stop /\
    order_notified out1 = [] /\ replicas_notified out1 = if negb (stopped (c_conn c)) && stop then elements (queues (c_conn c)) else [])
    as (Hq & He & Hs & Ho & Hn).
  { revert Ek. unfold check_stop. destruct (stopped (c_conn c)) eqn:Hst, stop; simpl; intros [= <- <-]; rewrite ?Hst; try done.
    split_and!; [done..|apply notified_to_queues|]. unfold replicas_notified, to_queues.
    induction (elements (queues (c_conn c))) as [|rid qs IHq]; simpl; [done|]. f_equal. exact IHq. }
  assert (order_notified l = [] /\ replicas_notified l = []) as [Ho1 Hn1].
  { revert E. unfold switch_epoch. destruct (epochs _) as [|next rest]; [by intros [= <- <- <-]|].
    destruct (_ <=? _); [|by intros [= <- <- <-]]. intros H. inv_result. revert E.
    destruct estimate as [p|]; [|intros Hx; by simplify_eq].
    destruct (negb (e_begin (current (c_slots c)) =? e_begin FIRST_EPOCH)); [|intros Hx; by simplify_eq].
    unfold update_rate. intros Hx. inv_result. destruct (negb (SpecFloat.SFeqb _ _)); inv_result; done. }
  assert (c_conn c' = k /\ order_notified l0 = [] /\ replicas_notified l0 = []) as (Hc' & Ho2 & Hn2).
  { assert (forall k i, replicas_notified (to_queues k (MStorageInsert i)) = []) as Hins.
    { intros k' i. unfold replicas_notified, to_queues. by induction (elements (queues k')). }
    revert E0. unfold send_requests. destruct (can_send _ _ _); [|by intros [= <- <-]]. intros H. inv_result.
    destruct o as [[request response]|]; [unfold send_all in H; inv_result; by rewrite notified_to_queues, Hins|].
    cbn [c_acks] in H. destruct (decide _); inv_result; [by rewrite notified_to_queues, Hins|done]. }
  split; [apply leaves_same; [by rewrite Hc'|by rewrite Hc'|]|].
  - unfold order_notified in *. by rewrite !omap_app, Ho, Ho1, Ho2.
  - rewrite Hc'. split; [done|]. unfold replicas_notified in *. by rewrite !omap_app, Hn, Hn1, Hn2, !app_nil_r.
Qed.

Lemma step_leaves e c c' out :
  ended (c_conn c) = false -> Forall quiet (messages e) -> step client_id shard_id failures estimate connect e c = Ok (c', out) ->
  leaves (gone (messages e)) c c' out /\
  stopped (c_conn c') = stopped (c_conn c) || (match e with Round stop _ _ => stop | _ => false end) /\
  replicas_notified out = match e with
                          | Round stop _ _ => if negb (stopped (c_conn c)) && stop then elements (queues (c_conn c)) else []
                          | _ => []
                          end.
Proof.
  intros He Hms H. destruct e as [request b|request response|stop now ms]; cbn [step messages gone foldr] in *.
  - injection H as <- <-. by split; [apply leaves_same|split; [rewrite orb_false_r|]].
  - unfold Client.insert in H. inv_result. by split; [apply leaves_same|split; [rewrite orb_false_r|]].
  - rewrite He in H. unfold round, recv_batch in H. inv_result.
    apply before_recv_leaves in E as (H1 & H2 & H3). apply recv_batch_leaves in E0 as (o2 & -> & H4 & H5 & H6); [|done].
    split; [|split; [congruence|]].
    + eapply leaves_gone; [|by eapply leaves_trans]. set_solver.
    + unfold replicas_notified in *. simpl. by rewrite omap_app, H3, H6, app_nil_r.
Qed.

Lemma run_leaves es c c' out :
  ended (c_conn c) = false -> Forall (fun e => Forall quiet (messages e)) es ->
  run client_id shard_id failures estimate connect es c = Ok (c', out) ->
  leaves (gone (es ≫= messages)) c c' out /\ (stopped (c_conn c) = true -> replicas_notified out = []).
Proof.
  intros He Hes. revert c out He. induction Hes as [|e es Hms Hes IH]; intros c out He H; cbn [run] in H.
  { injection H as <- <-. by split; [apply leaves_same|]. }
  inv_result. destruct (step_leaves _ _ _ _ He Hms E) as (H1 & H2 & H3).
  destruct (IH c0 _ ltac:(destruct H1 as (_ & -> & _); done) E0) as (H4 & H5). split.
  - eapply leaves_gone; [|by eapply leaves_trans]. by rewrite bind_cons, gone_app.
  - intros Hst. unfold replicas_notified in *. rewrite omap_app, H5 by (by rewrite H2, Hst).
    rewrite H3, Hst. by destruct e.
Qed.
End ending.

(** C22: stopping ends the loop.  In an iteration that reads [stop_] a client takes leave of
    every replica it is connected to, once.  Whatever it receives afterwards (short of new
    connections), it takes leave of the ordering server exactly once, when the last of them has
    answered, and not before; and the ordering server's answer ends the loop.  A client without
    replicas never takes leave of the ordering server, so that [client::stop] does not return. *)
Theorem client_stop_ends client_id shard_id failures estimate connect now ms es c c' out :
  ended (c_conn c) = false -> stopped (c_conn c) = false ->
  Forall quiet ms -> Forall (fun e => Forall quiet (messages e)) es ->
  run client_id shard_id failures estimate connect (Round true now ms :: es) c = Ok (c', out) ->
  let Q := queues (c_conn c) in
  replicas_notified out = elements Q /\
  order_notified out = (if decide (Q <> ∅ /\ Q ⊆ gone shard_id (ms ++ (es ≫= messages))) then [client_id] else []) /\
  ended (c_conn c') = false /\
  forall stop now' c'' out', step client_id shard_id failures estimate connect (Round stop now' [MOrderFinished]) c' = Ok (c'', out') ->
    ended (c_conn c'') = true.
Proof.
  intros He Hst Hms Hes H Q.
  assert (Forall (fun e => Forall quiet (messages e)) (Round true now ms :: es)) as Hall by by constructor.
  destruct (run_leaves client_id shard_id failures estimate connect _ _ _ _ He Hall H) as ((Hq & He' & Ho) & _).
  cbn [run] in H. inv_result.
  destruct (step_leaves client_id shard_id failures estimate connect (Round true now ms) c c0 l He Hms E) as ((Hq1 & He1 & _) & Hs1 & Hn1).
  destruct (run_leaves client_id shard_id failures estimate connect es c0 c' l0 ltac:(congruence) Hes E0) as (_ & Hn2).
  assert (ended (c_conn c') = false) as Hend by congruence. split_and!; [| |done|].
  - unfold replicas_notified in *. rewrite omap_app, Hn1, Hn2, Hst by (by rewrite Hs1, orb_true_r). by rewrite app_nil_r.
  - rewrite Ho. unfold last_bye. fold Q in Hq |- *. rewrite bind_cons in Hq. cbn [messages] in Hq.
    apply decide_ext. rewrite Hq. by rewrite difference_empty_iff.
  - intros stop now' c'' out' Hend'. cbn [step] in Hend'. rewrite Hend in Hend'. unfold round, recv_batch in Hend'.
    inv_result. simpl in E2. by injection E2 as <- <-.
Qed.

(** The two replicas of the example answer in two iterations. *)
Definition example_bye (rid : Z) : message := MStorageFinished (StorageFinished 0 rid).
Definition example_stop_events : list event := [Round true 13000000 [example_bye 1]; Round true 14000000 [example_bye 0]].
Definition example_stopped : client * outputs := outcome (run 5 0 1 None example_server example_stop_events example_client).

Lemma client_stop_ends_witness :
  replicas_notified example_stopped.2 = elements ({[0; 1]} : gset Z) /\
  order_notified example_stopped.2 =
    (if decide (({[0; 1]} : gset Z) <> ∅ /\ {[0; 1]} ⊆ gone 0 ([example_bye 1] ++ ([Round true 14000000 [example_bye 0]] ≫= messages))) then [5] else []) /\
  ended (c_conn example_stopped.1) = false /\
  forall stop now' c'' out', step 5 0 1 None example_server (Round stop now' [MOrderFinished]) example_stopped.1 = Ok (c'', out') ->
    ended (c_conn c'') = true.
Proof.
  apply (client_stop_ends 5 0 1 None example_server 13000000 [example_bye 1] [Round true 14000000 [example_bye 0]] example_client);
    [reflexivity|reflexivity|by repeat constructor|by repeat constructor|vm_compute; reflexivity].
Defined.

Example example_order_notified : order_notified example_stopped.2 = [5].
Proof. vm_compute. reflexivity. Qed.
