(* ===== verification/LockService.v ===== *)
(** * The lock service ([src/lock_service/lock_service.h], [src/lock_service/lock_service.cpp])

    A lock is a list of requests per key, replicated by delivering the same log to every process:
    [acquire] and [release] insert a [LockRequest] with the client library and spin until the
    callback, which the subscriber calls for every entry of the log, sets the flag [done] that
    lives in the frame of the call.  The flags of a process are modelled as its live addresses.

    [callback] reads the first element of a list through a reference after removing it, which the
    language does not define: what these reads give is an argument, which may differ from one
    delivery to the next, be the removed element, be anything else, or be a fault ([None]). *)
From S2P Require Import Prelude Consts Util Api Client.

Inductive LockAction := Lock | Unlock.

#[export] Instance LockAction_eq_dec : EqDecision LockAction.
Proof. solve_decision. Defined.

(** [LockRequest]; [done] is an address. *)
Record LockRequest := Request { l_action : LockAction; l_client : Z; l_lock_key : Z; l_done : Z }.

#[export] Instance LockRequest_eq_dec : EqDecision LockRequest.
Proof. solve_decision. Defined.

(** ** The payload of an entry

    The struct in memory: the enumerator in four bytes, four bytes of padding, three words. *)
Definition SIZEOF_LOCK_REQUEST : Z := 32.

Definition action_value (a : LockAction) : Z := match a with Lock => 0 | Unlock => 1 end.
Definition action_of (n : Z) : LockAction := if n =? 0 then Lock else Unlock.

Definition encode_request (padding : Z) (r : LockRequest) : list Byte.byte :=
  put_all [(4%nat, action_value (l_action r)); (4%nat, padding); (8%nat, l_client r); (8%nat, l_lock_key r); (8%nat, l_done r)].

(** [*reinterpret_cast<LockRequest*>(entry.data)]. *)
Definition decode_request (data : list Byte.byte) : result LockRequest :=
  '(a, bs) ← get 4 data; '(_, bs) ← get 4 bs; '(c, bs) ← get 8 bs; '(k, bs) ← get 8 bs; '(d, _) ← get 8 bs;
  Ok (Request (action_of a) c k d).

(** ** The class [lock_service] *)
Record lock_service := LockService {
  cid_ : Z;
  lock_queue_ : list (list LockRequest);
  buffer_idx_ : Z;
  flags : gmap Z bool }.

(** [kNumBuffers]. *)
Definition kNumBuffers : Z := 10.

(** The constructor: an empty list for every key. *)
Definition lock_service_init (num_keys : nat) (cid : Z) : lock_service :=
  LockService cid (replicate num_keys []) 0 ∅.

(** Storing through [done], which has to be alive. *)
Definition set_done (address : Z) (s : lock_service) : result lock_service :=
  match flags s !! address with
  | Some _ => Ok (LockService (cid_ s) (lock_queue_ s) (buffer_idx_ s) (<[address := true]> (flags s)))
  | None => Err Undefined
  end.

Definition with_queue (key : Z) (q : list LockRequest) (s : lock_service) : lock_service :=
  LockService (cid_ s) (<[Z.to_nat key := q]> (lock_queue_ s)) (buffer_idx_ s) (flags s).

(** [lock_service::callback], after the cast; [freed] is what is read through the reference to the
    removed element. *)
Definition callback_request (freed : option LockRequest) (req : LockRequest) (s : lock_service) : result lock_service :=
  let key := l_lock_key req in
  _ ← zip_assert (key <? Z.of_nat (length (lock_queue_ s)));
  queue ← deref (lock_queue_ s !! Z.to_nat key);
  match l_action req with
  | Lock =>
    s ← (if decide (queue = []) then if l_client req =? cid_ s then set_done (l_done req) s else Ok s else Ok s);
    Ok (with_queue key (queue ++ [req]) s)
  | Unlock =>
    _ ← assert_not_null (head queue);
    let queue := tail queue in
    top ← deref freed;
    _ ← zip_assert (bool_decide (l_action top = Lock));
    _ ← zip_assert (l_client top =? l_client req);
    _ ← zip_assert (l_lock_key top =? key);
    s ← (if l_client top =? cid_ s then set_done (l_done top) s else Ok s);
    s ← (match queue with
         | next :: _ => if l_client next =? cid_ s then set_done (l_done next) s else Ok s
         | [] => Ok s
         end);
    Ok (with_queue key queue s)
  end.

Definition callback (freed : option LockRequest) (entry : subscriber_log_entry) (s : lock_service) : result lock_service :=
  req ← decode_request (sle_data entry);
  callback_request freed req s.

(** [lock_service::request] up to the call of [insert]: the flag is allocated at [done], and the
    next of the ten buffers is filled. *)
Definition request_begin (padding done client lock_key : Z) (action : LockAction) (old : storage_insert) (s : lock_service)
  : Z * storage_insert * lock_service :=
  (buffer_idx_ s,
   StorageInsert (ins_client_id old) (ins_num_slots old) SIZEOF_LOCK_REQUEST (encode_request padding (Request action client lock_key done)),
   LockService (cid_ s) (lock_queue_ s) ((buffer_idx_ s + 1) `mod` kNumBuffers) (<[done := false]> (flags s))).

(** The whole of it up to the loop, with the client library; [response] is a local variable, too. *)
Definition submit (padding done response client lock_key : Z) (action : LockAction) (s : lock_service) (c : Client.client)
  : result (lock_service * Client.client) :=
  old ← deref (buffers (c_memory c) !! buffer_idx_ s);
  let '(buffer, contents, s) := request_begin padding done client lock_key action old s in
  c ← Client.insert (cid_ s) buffer response (fill buffer contents c);
  Ok (s, c).

(** The loop [while (!done.load())] ends when the flag is set; then the frame is gone. *)
Definition request_end (done : Z) (s : lock_service) : option lock_service :=
  match flags s !! done with
  | Some true => Some (LockService (cid_ s) (lock_queue_ s) (buffer_idx_ s) (delete done (flags s)))
  | _ => None
  end.

(** ** A system of lock services

    Processes that deliver the same log, each at its own pace, with one thread each that acquires
    and releases locks: the state of that thread, the number of entries that were delivered, and
    the lock service. *)
Inductive thread :=
| Idle
| Requested (r : LockRequest)
| Waiting (r : LockRequest)
| Holding (key : Z).

Record process := Process { p_thread : thread; p_read : nat; p_service : lock_service }.
Record system := System { the_log : list LockRequest; processes : gmap Z process }.

(** A thread calls [acquire] or [release], its request is appended to the log, a process delivers
    the next entry (where a release reads [freed] through the dangling reference), and a call
    returns. *)
Inductive action :=
| Acquire (p key done : Z)
| Release (p done : Z)
| Append (p : Z)
| Deliver (p : Z) (freed : option LockRequest)
| Return (p : Z).

Definition with_process (p : Z) (x : process) (s : system) : system := System (the_log s) (<[p := x]> (processes s)).

(** The insert that carries the payload is not needed here. *)
Definition begin_call (r : LockRequest) (x : process) : process :=
  Process (Requested r) (p_read x)
    (request_begin 0 (l_done r) (l_client r) (l_lock_key r) (l_action r) (StorageInsert 0 0 0 []) (p_service x)).2.

(** An action that is not enabled changes nothing. *)
Definition act (a : action) (s : system) : result system :=
  match a with
  | Acquire p key done =>
    match processes s !! p with
    | Some x => match p_thread x with
                | Idle => Ok (with_process p (begin_call (Request Lock p key done) x) s)
                | _ => Ok s
                end
    | None => Ok s
    end
  | Release p done =>
    match processes s !! p with
    | Some x => match p_thread x with
                | Holding key => Ok (with_process p (begin_call (Request Unlock p key done) x) s)
                | _ => Ok s
                end
    | None => Ok s
    end
  | Append p =>
    match processes s !! p with
    | Some x => match p_thread x with
                | Requested r => Ok (System (the_log s ++ [r]) (<[p := Process (Waiting r) (p_read x) (p_service x)]> (processes s)))
                | _ => Ok s
                end
    | None => Ok s
    end
  | Deliver p freed =>
    match processes s !! p with
    | Some x => match the_log s !! p_read x with
                | Some r => service ← callback_request freed r (p_service x);
                            Ok (with_process p (Process (p_thread x) (S (p_read x)) service) s)
                | None => Ok s
                end
    | None => Ok s
    end
  | Return p =>
    match processes s !! p with
    | Some x => match p_thread x with
                | Waiting r =>
                  match request_end (l_done r) (p_service x) with
                  | Some service =>
                    Ok (with_process p (Process (match l_action r with Lock => Holding (l_lock_key r) | Unlock => Idle end)
                                          (p_read x) service) s)
                  | None => Ok s
                  end
                | _ => Ok s
                end
    | None => Ok s
    end
  end.

Definition acts (l : list action) (s : system) : result system := mfold act l s.

Definition system_init (num_keys : nat) (cids : list Z) : system :=
  System [] (list_to_map ((fun cid => (cid, Process Idle 0 (lock_service_init num_keys cid))) <$> cids)).
