(* ===== verification/LockSpec.v ===== *)
(** * Properties of the lock service

    The processes implement an abstract lock: per key, the list of the requests that wait, in the
    order of the log, whose first element holds the lock.  Every process computes this list from
    the prefix of the log that it has delivered; a thread holds a lock only while it is first in
    the list of the whole log. *)
From S2P Require Import Prelude Consts Util Api Client LockService.

(** ** The abstract lock *)

Definition wait (key : Z) (q : list LockRequest) (r : LockRequest) : list LockRequest :=
  if decide (l_lock_key r = key) then match l_action r with Lock => q ++ [r] | Unlock => tail q end else q.

(** The requests for a key that wait after a prefix of the log. *)
Definition waiters (l : list LockRequest) (key : Z) : list LockRequest := foldl (wait key) [] l.

Lemma waiters_snoc l r key : waiters (l ++ [r]) key = wait key (waiters l key) r.
Proof. unfold waiters. by rewrite foldl_app. Qed.

Lemma waiters_take l n r key : l !! n = Some r -> waiters (take (S n) l) key = wait key (waiters (take n l) key) r.
Proof. intros Hn. by rewrite (take_S_r _ _ r), waiters_snoc by done. Qed.

Lemma waiters_elem l key r : r ∈ waiters l key -> l_action r = Lock /\ l_lock_key r = key.
Proof.
  induction l as [|e l IH] using rev_ind; [by intros ?%elem_of_nil|]. rewrite waiters_snoc. unfold wait.
  destruct (decide (l_lock_key e = key)); [|done]. destruct (l_action e) eqn:He.
  - rewrite elem_of_app, list_elem_of_singleton. intros [?| ->]; auto.
  - intros Hr. apply IH. destruct (waiters l key); [done|]. by right.
Qed.

(** Every release in the log is by the process that holds the lock. *)
Definition valid_log (l : list LockRequest) : Prop :=
  forall i r, l !! i = Some r -> l_action r = Unlock ->
    exists f, head (waiters (take i l) (l_lock_key r)) = Some f /\ l_client f = l_client r.

(** Whoever is first stays first until its release is in the log. *)
Lemma first_stays l n key f :
  valid_log l -> head (waiters (take n l) key) = Some f ->
  filter (fun r => l_client r = l_client f) (drop n l) = [] -> head (waiters l key) = Some f.
Proof.
  intros Hv Hh Hd.
  assert (forall m, (n + m <= length l)%nat -> head (waiters (take (n + m) l) key) = Some f) as Hm.
  { induction m as [|m IH]; intros Hm; [by rewrite Nat.add_0_r|]. specialize (IH ltac:(lia)).
    destruct (lookup_lt_is_Some_2 l (n + m)) as [r Hr]; [lia|].
    rewrite Nat.add_succ_r, (waiters_take _ _ r) by done. unfold wait.
    destruct (decide (l_lock_key r = key)) as [<-|]; [|done]. destruct (l_action r) eqn:Ha.
    - revert IH. by destruct (waiters (take (n + m) l) (l_lock_key r)).
    - destruct (Hv _ _ Hr Ha) as (f' & Hf' & Hc). rewrite IH in Hf'. injection Hf' as <-. exfalso.
      assert (r ∈ filter (fun r => l_client r = l_client f) (drop n l)) as Hin.
      { apply list_elem_of_filter. split; [done|]. apply list_elem_of_lookup. exists m. by rewrite lookup_drop. }
      rewrite Hd in Hin. by apply elem_of_nil in Hin. }
  destruct (decide (n <= length l)%nat).
  - specialize (Hm (length l - n)%nat ltac:(lia)). by rewrite take_ge in Hm by lia.
  - by rewrite take_ge in Hh by lia.
Qed.

(** ** One process

    Nothing is assumed of what is read of a removed element, nor of where the calls keep their
    flags: what is proved is about callbacks that return, and those that do not are found. *)
Section process.
Variable num_keys : nat.

(** The lists of a process, by key. *)
Definition view (V : Z -> list LockRequest) : list (list LockRequest) := (fun i => V (Z.of_nat i)) <$> seq 0 num_keys.

Lemma view_lookup V key : 0 <= key < Z.of_nat num_keys -> view V !! Z.to_nat key = Some (V key).
Proof. intros Hk. unfold view. rewrite list_lookup_fmap, lookup_seq_lt by lia. simpl. by rewrite Z2Nat.id by lia. Qed.

Lemma view_insert V key q :
  0 <= key < Z.of_nat num_keys -> <[Z.to_nat key := q]> (view V) = view (fun k => if decide (k = key) then q else V k).
Proof.
  intros Hk. apply list_eq. intros i. unfold view. destruct (decide (i < num_keys)%nat) as [Hi|Hi].
  - rewrite list_lookup_fmap, lookup_seq_lt by done. simpl. destruct (decide (Z.of_nat i = key)) as [<-|Hne].
    + rewrite Nat2Z.id. apply list_lookup_insert_eq. by rewrite length_fmap, length_seq.
    + rewrite list_lookup_insert_ne by lia. by rewrite list_lookup_fmap, lookup_seq_lt.
  - rewrite !lookup_ge_None_2; [done|rewrite length_fmap, length_seq; lia|rewrite length_insert, length_fmap, length_seq; lia].
Qed.

(** The requests of [p] whose calls the delivery of [r] lets return, when [q] waits: the first
    request, a release and its lock, and the next in line. *)
Definition notified (p : Z) (q : list LockRequest) (r : LockRequest) : list LockRequest :=
  filter (fun x => l_client x = p)
    (match l_action r with Lock => match q with [] => [r] | _ => [] end | Unlock => take 2 q end).

(** A process has one call at a time, so at most one flag. *)
Definition one_flag (fs : gmap Z bool) : Prop := fs = ∅ \/ exists a b, fs = {[a := b]}.

(** Storing through the flags of [xs]. *)
Definition set_flags (xs : list LockRequest) (fs : gmap Z bool) : gmap Z bool :=
  if decide (xs = []) then fs else (fun _ => true) <$> fs.

Definition with_flags (fs : gmap Z bool) (s : lock_service) : lock_service :=
  LockService (cid_ s) (lock_queue_ s) (buffer_idx_ s) fs.

(** A store that does not fault is to the flag of the current call. *)
Lemma set_done_flag a s s' : one_flag (flags s) -> set_done a s = Ok s' -> s' = with_flags ((fun _ => true) <$> flags s) s.
Proof.
  unfold set_done. intros [Hf|(d & b & Hf)]; rewrite Hf; [by rewrite lookup_empty|].
  destruct ({[d := b]} !! a) eqn:Ha; [|done]. apply lookup_singleton_Some in Ha as [-> _]. intros [= <-].
  unfold with_flags. by rewrite insert_singleton_eq, map_fmap_singleton.
Qed.

Lemma notify_flag x s s' :
  one_flag (flags s) -> (if l_client x =? cid_ s then set_done (l_done x) s else Ok s) = Ok s' ->
  s' = with_flags (set_flags (filter (fun x => l_client x = cid_ s) [x]) (flags s)) s.
Proof.
  intros Hf. rewrite filter_cons. destruct (Z.eqb_spec (l_client x) (cid_ s)) as [He|He].
  - rewrite decide_True by done. apply (set_done_flag _ _ _ Hf).
  - rewrite decide_False by done. intros [= <-]. by destruct s.
Qed.

Lemma set_flags_one xs fs : one_flag fs -> one_flag (set_flags xs fs).
Proof.
  unfold set_flags. case_decide; [done|]. intros [->|(a & b & ->)]; [left; apply fmap_empty|right].
  exists a, true. apply map_fmap_singleton.
Qed.

Lemma filter_client x y p : l_client x = l_client y ->
  set_flags (filter (fun x => l_client x = p) [x]) = set_flags (filter (fun x => l_client x = p) [y]).
Proof. intros Hc. rewrite !filter_cons, Hc. by destruct (decide _). Qed.

Lemma set_flags_app xs ys fs : set_flags ys (set_flags xs fs) = set_flags (xs ++ ys) fs.
Proof.
  unfold set_flags. destruct xs as [|x xs]; [done|]. simpl. destruct ys; simpl; [done|].
  rewrite <- map_fmap_compose. done.
Qed.

Lemma view_wait V r q :
  0 <= l_lock_key r < Z.of_nat num_keys -> wait (l_lock_key r) (V (l_lock_key r)) r = q ->
  <[Z.to_nat (l_lock_key r) := q]> (view V) = view (fun k => wait k (V k) r).
Proof.
  intros Hk <-. rewrite view_insert by done. unfold view. apply list_fmap_ext. intros i x Hx.
  destruct (decide (Z.of_nat x = l_lock_key r)) as [->|Hne]; [done|]. unfold wait. by rewrite decide_False.
Qed.

Lemma view_key V r : 0 <= l_lock_key r < Z.of_nat num_keys -> (l_lock_key r <? Z.of_nat (length (view V))) = true.
Proof. intros Hk. unfold view. rewrite length_fmap, length_seq. apply Z.ltb_lt. lia. Qed.

(** A release is by the first in line. *)
Definition delivery_ok (V : Z -> list LockRequest) (r : LockRequest) : Prop :=
  l_action r = Unlock -> exists f, head (V (l_lock_key r)) = Some f /\ l_client f = l_client r.

(** What a callback that returns has done, whatever it has read of the removed element. *)
Lemma callback_ok freed V r s s' :
  one_flag (flags s) -> lock_queue_ s = view V -> 0 <= l_lock_key r < Z.of_nat num_keys -> delivery_ok V r ->
  callback_request freed r s = Ok s' ->
  s' = LockService (cid_ s) (view (fun k => wait k (V k) r)) (buffer_idx_ s) (set_flags (notified (cid_ s) (V (l_lock_key r)) r) (flags s)).
Proof.
  intros Hf Hs Hk Hun. unfold callback_request. rewrite Hs, view_key, view_lookup by done. cbn [zip_assert deref mbind result_bind].
  pose proof (fun q => view_wait V r q Hk) as Hview. unfold wait in Hview at 1. rewrite decide_True in Hview by done.
  unfold notified. destruct (l_action r) eqn:Ha.
  - destruct (V (l_lock_key r)) as [|f q] eqn:HV.
    + rewrite decide_True by done. destruct (if _ =? _ then _ else _) as [s1|] eqn:E; [|done]. apply notify_flag in E as ->; [|done].
      cbn [mbind result_bind]. intros [= <-]. unfold with_queue, with_flags. cbn [cid_ lock_queue_ buffer_idx_ flags app]. by rewrite Hs, (Hview [r]).
    + rewrite decide_False by done. cbn [mbind result_bind app]. intros [= <-]. unfold with_queue. rewrite Hs. by rewrite (Hview (f :: q ++ [r])).
  - destruct Hun as (f & Hhf & Hc); [done|]. destruct (V (l_lock_key r)) as [|f' q] eqn:HV; [done|]. injection Hhf as ->.
    cbn [head tail assert_not_null mbind result_bind]. destruct freed as [top|]; [|done]. cbn [deref mbind result_bind]. intros E.
    apply bind_inv in E as (? & _ & E). apply bind_inv in E as (? & Ht%zip_assert_inv%Z.eqb_eq & E). apply bind_inv in E as (? & _ & E).
    apply bind_inv in E as (s1 & E1 & E). apply notify_flag in E1 as ->; [|done]. rewrite (filter_client top f) in E by congruence.
    cbn [take]. destruct q as [|next q].
    + injection E as <-. unfold with_queue, with_flags. cbn [cid_ lock_queue_ buffer_idx_ flags]. by rewrite Hs, (Hview []).
    + apply bind_inv in E as (s2 & E2 & E). apply notify_flag in E2 as ->; [|by apply set_flags_one]. injection E as <-.
      unfold with_queue, with_flags. cbn [cid_ lock_queue_ buffer_idx_ flags]. by rewrite Hs, (Hview (next :: q)), set_flags_app, <- filter_app.
Qed.

(** The requests of [p] that wait: none, or [o] alone. *)
Definition pending (p : Z) (V : Z -> list LockRequest) (o : option LockRequest) : Prop :=
  forall key, filter (fun r => l_client r = p) (V key) =
    match o with Some r => if decide (l_lock_key r = key) then [r] else [] | None => [] end.

(** [p] is first in line for a key. *)
Definition first (p : Z) (V : Z -> list LockRequest) (key : Z) : Prop :=
  exists f, head (V key) = Some f /\ pending p V (Some f) /\ l_lock_key f = key.

Definition request_ok (p : Z) (r : LockRequest) : Prop :=
  l_client r = p /\ 0 <= l_lock_key r < Z.of_nat num_keys.

(** The state of a thread, the flags of its process, what it has delivered, [V], and its own
    requests among those it has not, [unread]. *)
Definition thread_ok (p : Z) (V : Z -> list LockRequest) (unread : list LockRequest) (fs : gmap Z bool) (t : thread) : Prop :=
  match t with
  | Idle => unread = [] /\ fs = ∅ /\ pending p V None
  | Requested r =>
    request_ok p r /\ unread = [] /\ fs = {[l_done r := false]} /\
    match l_action r with Lock => pending p V None | Unlock => first p V (l_lock_key r) end
  | Waiting r =>
    request_ok p r /\
    ((unread = [r] /\ fs = {[l_done r := false]} /\
      match l_action r with Lock => pending p V None | Unlock => first p V (l_lock_key r) end) \/
     (unread = [] /\
      match l_action r with
      | Lock => pending p V (Some r) /\ fs = {[l_done r := bool_decide (head (V (l_lock_key r)) = Some r)]}
      | Unlock => pending p V None /\ fs = {[l_done r := true]}
      end))
  | Holding key => unread = [] /\ fs = ∅ /\ first p V key /\ 0 <= key < Z.of_nat num_keys
  end.

(** Someone else's request is delivered: [p]'s own requests stay as they are, and if one of them
    becomes the first in line its flag is set. *)
Lemma pending_other p V r o :
  (l_action r = Unlock -> exists f, head (V (l_lock_key r)) = Some f /\ l_client f = l_client r) ->
  l_client r <> p -> pending p V o -> pending p (fun k => wait k (V k) r) o.
Proof.
  intros Hun Hne Hp key. rewrite <- (Hp key). unfold wait. destruct (decide (l_lock_key r = key)) as [<-|]; [|done].
  destruct (l_action r).
  - by rewrite filter_app, filter_cons, decide_False, app_nil_r by done.
  - destruct Hun as (f & Hf & Hc); [done|]. destruct (V (l_lock_key r)) as [|f' q]; [done|]. injection Hf as ->.
    simpl. by rewrite filter_cons, decide_False by congruence.
Qed.

Lemma first_other p V r key :
  (l_action r = Unlock -> exists f, head (V (l_lock_key r)) = Some f /\ l_client f = l_client r) ->
  l_client r <> p -> first p V key -> first p (fun k => wait k (V k) r) key.
Proof.
  intros Hun Hne (f & Hf & Hp & Hk). exists f. split; [|split; [by apply pending_other|done]].
  unfold wait. destruct (decide (l_lock_key r = key)) as [<-|]; [|done]. destruct (l_action r).
  - by destruct (V (l_lock_key r)).
  - destruct Hun as (f' & Hf' & Hc); [done|]. rewrite Hf in Hf'. injection Hf' as <-. exfalso. apply Hne.
    specialize (Hp (l_lock_key r)). cbn beta iota in Hp. rewrite decide_True in Hp by done.
    assert (f ∈ filter (fun r => l_client r = p) (V (l_lock_key r))) as Hin by (rewrite Hp; by left).
    apply list_elem_of_filter in Hin as [? _]. congruence.
Qed.

Lemma pending_client p V f : pending p V (Some f) -> l_client f = p /\ f ∈ V (l_lock_key f).
Proof.
  intros Hp. specialize (Hp (l_lock_key f)). cbn beta iota in Hp. rewrite decide_True in Hp by done.
  assert (f ∈ filter (fun r => l_client r = p) (V (l_lock_key f))) as Hin by (rewrite Hp; by left).
  by apply list_elem_of_filter in Hin.
Qed.

(** Who is notified of someone else's request: only a request of [p] that waits, next in line. *)
Lemma notified_other p V r :
  (l_action r = Unlock -> exists f, head (V (l_lock_key r)) = Some f /\ l_client f = l_client r) -> l_client r <> p ->
  notified p (V (l_lock_key r)) r = [] /\ (l_action r = Lock \/ forall f, pending p V (Some f) -> head (wait (l_lock_key r) (V (l_lock_key r)) r) <> Some f) \/
  exists f rest, l_action r = Unlock /\ wait (l_lock_key r) (V (l_lock_key r)) r = f :: rest /\ l_client f = p /\
    notified p (V (l_lock_key r)) r = [f].
Proof.
  intros Hun Hne. unfold notified, wait. rewrite decide_True by done. destruct (l_action r) eqn:Ha.
  - left. split; [|by left]. destruct (V (l_lock_key r)); [|done]. by rewrite filter_cons, decide_False.
  - destruct Hun as (f & Hf & Hc); [done|]. destruct (V (l_lock_key r)) as [|f' q] eqn:HV; [done|]. injection Hf as ->.
    cbn [tail take]. rewrite filter_cons, decide_False by congruence. destruct q as [|g q].
    + left. split; [done|]. right. by intros.
    + cbn [take]. rewrite filter_cons. destruct (decide (l_client g = p)) as [Hg|Hg].
      * right. by exists g, q.
      * left. split; [done|]. right. intros x Hx. simpl. intros [= ->]. by apply pending_client in Hx as [? _].
Qed.

Lemma pending_unique p V r0 f key : pending p V (Some r0) -> f ∈ V key -> l_client f = p -> f = r0 /\ key = l_lock_key r0.
Proof.
  intros Hp Hf Hc. specialize (Hp key). assert (f ∈ filter (fun r => l_client r = p) (V key)) as Hin by by apply list_elem_of_filter.
  rewrite Hp in Hin. cbn beta iota in Hin. destruct (decide (l_lock_key r0 = key)) as [<-|]; [|by apply elem_of_nil in Hin].
  by apply list_elem_of_singleton in Hin.
Qed.

Lemma pending_none p V f key : pending p V None -> f ∈ V key -> l_client f <> p.
Proof.
  intros Hp Hf Hc. specialize (Hp key). assert (f ∈ filter (fun r => l_client r = p) (V key)) as Hin by by apply list_elem_of_filter.
  rewrite Hp in Hin. by apply elem_of_nil in Hin.
Qed.

Lemma notified_nil p V r :
  delivery_ok V r -> l_client r <> p -> (pending p V None \/ exists key, first p V key) -> notified p (V (l_lock_key r)) r = [].
Proof.
  intros Hun Hne Hst. destruct (notified_other p V r Hun Hne) as [[? _]|(f & rest & Ha & Hw & Hc & _)]; [done|exfalso].
  assert (f ∈ (fun k => wait k (V k) r) (l_lock_key r)) as Hin by (cbv beta; rewrite Hw; by left).
  destruct Hst as [Hp|[key (f0 & Hf0 & Hp & Hk)]].
  - by apply (pending_none p (fun k => wait k (V k) r) f (l_lock_key r)); [apply pending_other| |].
  - destruct (pending_unique p (fun k => wait k (V k) r) f0 f (l_lock_key r)) as [-> Hk']; [by apply pending_other|done..|].
    destruct (Hun Ha) as (f' & Hf' & Hc'). rewrite Hk', Hk, Hf0 in Hf'. injection Hf' as <-. congruence.
Qed.

Lemma thread_one_flag p V unread fs t : thread_ok p V unread fs t -> one_flag fs.
Proof.
  destruct t as [|r|r|key]; cbn [thread_ok].
  - intros (_ & -> & _). by left.
  - intros (_ & _ & -> & _). right. by eexists _, _.
  - intros (_ & [(_ & -> & _)|(_ & H)]); [right; by eexists _, _|]. destruct (l_action r), H as [_ ->]; right; by eexists _, _.
  - intros (_ & -> & _). by left.
Qed.

Lemma thread_ok_other p V r unread fs t :
  delivery_ok V r -> l_client r <> p -> thread_ok p V unread fs t ->
  thread_ok p (fun k => wait k (V k) r) unread (set_flags (notified p (V (l_lock_key r)) r) fs) t.
Proof.
  intros Hun Hne Ht. destruct t as [|r0|r0|key]; cbn [thread_ok] in *.
  - destruct Ht as (Hu & Hf & Hp). rewrite notified_nil by eauto. by split_and!; [| |apply pending_other].
  - destruct Ht as (Hr & Hu & Hf & Hp). rewrite notified_nil by (destruct (l_action r0); eauto).
    split_and!; [done..|]. destruct (l_action r0); [by apply pending_other|by apply first_other].
  - destruct Ht as (Hr & [(Hu & Hf & Hp)|(Hu & Hp)]).
    { rewrite notified_nil by (destruct (l_action r0); eauto). split; [done|]. left.
      split_and!; [done..|]. destruct (l_action r0); [by apply pending_other|by apply first_other]. }
    destruct (l_action r0) eqn:Ha0; destruct Hp as [Hp Hfs].
    2:{ rewrite notified_nil by eauto. split; [done|]. right. by split_and!; [|apply pending_other|]. }
    destruct (notified_other p V r Hun Hne) as [[-> Hn]|(f & rest & Ha & Hw & Hc & ->)].
    + split; [done|]. right. split; [done|]. split; [by apply pending_other|].
      unfold set_flags. rewrite decide_True by done. rewrite Hfs. f_equal. apply bool_decide_ext.
      unfold wait. destruct (decide (l_lock_key r = l_lock_key r0)) as [Hk|Hk]; [|done].
      destruct (pending_client _ _ _ Hp) as [Hc0 Hin0]. destruct (l_action r) eqn:Ha.
      * destruct (V (l_lock_key r0)); [by apply elem_of_nil in Hin0|done].
      * destruct Hn as [?|Hn]; [done|]. specialize (Hn r0 Hp). unfold wait in Hn. rewrite decide_True, Ha, Hk in Hn by done.
        destruct (Hun Ha) as (f' & Hf' & Hc'). rewrite Hk in Hf'. rewrite Hf'. split; [intros [= ->]; congruence|done].
    + destruct (pending_unique p (fun k => wait k (V k) r) r0 f (l_lock_key r)) as [-> Hk].
      { by apply pending_other. } { cbv beta. rewrite Hw. by left. } { done. }
      split; [done|]. right. split; [done|]. split; [by apply pending_other|].
      unfold set_flags. rewrite decide_False by done. rewrite Hfs, map_fmap_singleton, <- Hk, Hw. by rewrite bool_decide_eq_true_2.
  - destruct Ht as (Hu & Hf & Hp & Hk). rewrite notified_nil by eauto. split; [done|]. split; [done|]. split; [by apply first_other|exact Hk].
Qed.

(** Its own request is delivered: a request for a free lock and a release set the flag. *)
Lemma thread_ok_own p V r unread fs t :
  delivery_ok V r -> l_client r = p -> thread_ok p V (r :: unread) fs t ->
  thread_ok p (fun k => wait k (V k) r) unread (set_flags (notified p (V (l_lock_key r)) r) fs) t.
Proof.
  intros Hun Hc Ht. destruct t as [|r0|r0|key]; cbn [thread_ok] in *; [by destruct Ht as [? _]|by destruct Ht as (_ & ? & _)| |by destruct Ht as [? _]].
  destruct Ht as (Hr & [(Hu & Hf & Hp)|(Hu & _)]); [|done]. injection Hu as <- ->.
  unfold notified. destruct (l_action r) eqn:Ha.
  - destruct (V (l_lock_key r)) as [|f q] eqn:HV.
    + rewrite filter_cons, decide_True by done. split; [done|]. right. split; [done|]. split.
      * intros key. unfold wait. destruct (decide (l_lock_key r = key)) as [<-|]; [|apply Hp].
        by rewrite Ha, HV, filter_app, filter_cons, decide_True.
      * unfold wait. rewrite decide_True, Ha, ?HV by done. unfold set_flags. rewrite decide_False by done. by rewrite Hf, map_fmap_singleton, bool_decide_eq_true_2.
    + split; [done|]. right. split; [done|]. split.
      * intros key. unfold wait. destruct (decide (l_lock_key r = key)) as [<-|]; [|apply Hp].
        rewrite Ha, filter_app, (Hp (l_lock_key r)). by rewrite filter_cons, decide_True.
      * unfold set_flags, wait. rewrite !decide_True, Ha, ?HV by done. rewrite Hf. f_equal.
        rewrite bool_decide_eq_false_2; [done|]. simpl. intros [= ->].
        by apply (pending_none p V r (l_lock_key r)) in Hp; [|rewrite HV; left].
  - destruct Hp as (f & Hhf & Hp & Hk). destruct (pending_client _ _ _ Hp) as [Hcf _].
    destruct (V (l_lock_key r)) as [|f' q] eqn:HV; [done|]. injection Hhf as ->.
    split; [done|]. right. split; [done|]. split.
    + intros key. unfold wait. destruct (decide (l_lock_key r = key)) as [<-|Hne].
      * rewrite Ha, HV. cbn [tail]. specialize (Hp (l_lock_key r)). rewrite HV, filter_cons, decide_True in Hp by done.
        cbn beta iota in Hp. rewrite decide_True in Hp by done. by injection Hp.
      * rewrite (Hp key). by rewrite decide_False by congruence.
    + unfold set_flags. rewrite decide_False. 2:{ cbn [take]. by rewrite filter_cons, decide_True. }
      by rewrite Hf, map_fmap_singleton.
Qed.

(** ** Faults *)

(** A request of the process that waits is first in line, the only one, or its call still waits for it. *)
Lemma own_alive p V unread fs t x :
  thread_ok p V unread fs t -> x ∈ V (l_lock_key x) -> l_client x = p ->
  (head (V (l_lock_key x)) = Some x /\ filter (fun r => l_client r = p) (V (l_lock_key x)) = [x]) \/ is_Some (fs !! l_done x).
Proof.
  intros Ht Hx Hc.
  assert (forall k, first p V k -> head (V (l_lock_key x)) = Some x /\ filter (fun r => l_client r = p) (V (l_lock_key x)) = [x]) as Hfirst.
  { intros k (f & Hf & Hp & <-). destruct (pending_unique p V f x (l_lock_key x)) as [-> _]; [done..|].
    split; [done|]. rewrite (Hp (l_lock_key f)). by rewrite decide_True. }
  assert (pending p V None -> False) as Hnone by (intros Hp; by apply (pending_none p V x (l_lock_key x)) in Hp).
  destruct t as [|r|r|key]; cbn [thread_ok] in Ht.
  - by destruct Ht as (_ & _ & ?%Hnone).
  - destruct Ht as (_ & _ & _ & Ht). destruct (l_action r); [by apply Hnone in Ht|left; by eapply Hfirst].
  - destruct Ht as (_ & [(_ & _ & Ht)|(_ & Ht)]); destruct (l_action r).
    + by apply Hnone in Ht.
    + left. by eapply Hfirst.
    + right. destruct Ht as [Hp ->]. destruct (pending_unique p V r x (l_lock_key x)) as [-> _]; [done..|].
      rewrite lookup_singleton_eq. by eexists.
    + by destruct Ht as [?%Hnone _].
  - left. destruct Ht as (_ & _ & Ht & _). by eapply Hfirst.
Qed.

Lemma notify_alive x s : (l_client x = cid_ s -> is_Some (flags s !! l_done x)) ->
  exists s', (if l_client x =? cid_ s then set_done (l_done x) s else Ok s) = Ok s'.
Proof.
  intros Hx. destruct (Z.eqb_spec (l_client x) (cid_ s)) as [He|]; [|by eexists]. unfold set_done.
  destruct (Hx He) as [b ->]. by eexists.
Qed.

Lemma set_flags_alive a xs fs : is_Some (fs !! a) -> is_Some (set_flags xs fs !! a).
Proof. unfold set_flags. case_decide; [done|]. intros [b Hb]. rewrite lookup_fmap, Hb. by eexists. Qed.

(** A callback returns if the removed element, as far as there is one, is read intact, and its
    flag is alive if it is the process's own. *)
Lemma callback_returns freed V r rest s t :
  lock_queue_ s = view V -> 0 <= l_lock_key r < Z.of_nat num_keys -> delivery_ok V r ->
  (forall k x, x ∈ V k -> l_action x = Lock /\ l_lock_key x = k) ->
  thread_ok (cid_ s) V (filter (fun y => l_client y = cid_ s) (r :: rest)) (flags s) t ->
  (l_action r = Unlock -> forall f, head (V (l_lock_key r)) = Some f ->
     freed = Some f /\ (l_client f = cid_ s -> is_Some (flags s !! l_done f))) ->
  exists s', callback_request freed r s = Ok s'.
Proof.
  intros Hs Hk Hun HV Ht Hfr. unfold callback_request. rewrite Hs, view_key, view_lookup by done. cbn [zip_assert deref mbind result_bind].
  pose proof (thread_one_flag _ _ _ _ _ Ht) as Hone. destruct (l_action r) eqn:Ha.
  - case_decide; [|by eexists]. destruct (notify_alive r s) as [s' ->]; [|by eexists]. intros Hc.
    rewrite filter_cons, decide_True in Ht by done. destruct t as [|r0|r0|key]; cbn [thread_ok] in Ht;
      [by destruct Ht as [? _]|by destruct Ht as (_ & ? & _)| |by destruct Ht as [? _]].
    destruct Ht as (_ & [([= -> _] & -> & _)|[? _]]); [|done]. rewrite lookup_singleton_eq. by eexists.
  - destruct Hun as (f & Hf & Hc); [done|]. destruct (Hfr eq_refl f Hf) as [-> Hfl].
    destruct (HV (l_lock_key r) f) as [Hfa Hfk]; [destruct (V (l_lock_key r)); [done|]; injection Hf as ->; by left|].
    destruct (V (l_lock_key r)) as [|f' q] eqn:Eq; [done|]. injection Hf as ->.
    cbn [head tail assert_not_null deref mbind result_bind]. rewrite bool_decide_eq_true_2 by done.
    rewrite Hfk, (proj2 (Z.eqb_eq (l_client f) (l_client r)) Hc), Z.eqb_refl. cbn [zip_assert mbind result_bind].
    destruct (notify_alive f s Hfl) as [s1 E1]. rewrite E1. cbn [mbind result_bind]. apply notify_flag in E1 as ->; [|done].
    destruct q as [|next q]; [by eexists|].
    match goal with |- context [if l_client next =? cid_ ?s1 then _ else _] => destruct (notify_alive next s1) as [s2 E2] end.
    2:{ rewrite E2. by eexists. }
    intros Hn. cbn [with_flags cid_ flags] in *. apply set_flags_alive.
    destruct (HV (l_lock_key r) next) as [_ Hnk]; [rewrite Eq; right; by left|].
    destruct (own_alive _ _ _ _ _ next Ht) as [[Hh Hfil]|?]; [rewrite Hnk, Eq; right; by left|done| |done].
    exfalso. rewrite Hnk, Eq in Hh, Hfil. injection Hh as ->. by rewrite !filter_cons, !decide_True in Hfil by done.
Qed.

(** So it faults only where it reads through the dangling reference, or stores through the pointer
    to the flag of an [acquire] that has returned. *)
Definition dangles (freed : option LockRequest) (V : Z -> list LockRequest) (r : LockRequest) (s : lock_service) : Prop :=
  l_action r = Unlock /\ exists f, head (V (l_lock_key r)) = Some f /\
    (freed <> Some f \/ (l_client f = cid_ s /\ flags s !! l_done f = None)).

Lemma callback_faults freed V r rest s t e :
  lock_queue_ s = view V -> 0 <= l_lock_key r < Z.of_nat num_keys -> delivery_ok V r ->
  (forall k x, x ∈ V k -> l_action x = Lock /\ l_lock_key x = k) ->
  thread_ok (cid_ s) V (filter (fun y => l_client y = cid_ s) (r :: rest)) (flags s) t ->
  callback_request freed r s = Err e -> dangles freed V r s.
Proof.
  intros Hs Hk Hun HV Ht E.
  assert (~ (l_action r = Unlock -> forall f, head (V (l_lock_key r)) = Some f ->
     freed = Some f /\ (l_client f = cid_ s -> is_Some (flags s !! l_done f)))) as Hn.
  { intros Hfr. destruct (callback_returns freed V r rest s t Hs Hk Hun HV Ht Hfr) as [s' E']. congruence. }
  destruct (l_action r) eqn:Ha; [by destruct Hn|]. split; [done|]. destruct (Hun Ha) as (f & Hf & Hc). exists f. split; [done|].
  destruct (decide (freed = Some f)) as [->|]; [right|by left].
  destruct (decide (l_client f = cid_ s)) as [Hcf|Hcf]; [|exfalso; apply Hn; intros _ f' [= <-]%(eq_trans (eq_sym Hf)); tauto].
  destruct (flags s !! l_done f) eqn:Hd; [|done]. exfalso. apply Hn. intros _ f' Hf'. rewrite Hf in Hf'. injection Hf' as <-.
  split; [done|]. intros _. rewrite Hd. by eexists.
Qed.

Lemma thread_ok_ext p V V' unread fs t :
  (forall k, V k = V' k) -> thread_ok p V unread fs t -> thread_ok p V' unread fs t.
Proof.
  intros HV.
  assert (forall o, pending p V o -> pending p V' o) as Hp by (intros o Ho k; by rewrite <- HV).
  assert (forall k, first p V k -> first p V' k) as Hf.
  { intros k (f & H1 & H2 & H3). exists f. rewrite <- HV. split_and!; [done|by apply Hp|apply H3..]. }
  destruct t as [|r|r|key]; cbn [thread_ok]; [naive_solver| | |naive_solver]; destruct (l_action r); rewrite <- ?HV; naive_solver.
Qed.

(** ** The system *)

(** A process, when the log is [l]. *)
Record process_ok (l : list LockRequest) (p : Z) (x : process) : Prop := {
  po_cid : cid_ (p_service x) = p;
  po_queue : lock_queue_ (p_service x) = view (waiters (take (p_read x) l));
  po_read : (p_read x <= length l)%nat;
  po_thread : thread_ok p (waiters (take (p_read x) l)) (filter (fun r => l_client r = p) (drop (p_read x) l))
                (flags (p_service x)) (p_thread x) }.

Record system_ok (s : system) : Prop := {
  sy_valid : valid_log (the_log s);
  sy_range : Forall (fun r => 0 <= l_lock_key r < Z.of_nat num_keys) (the_log s);
  sy_processes : map_Forall (process_ok (the_log s)) (processes s) }.

(** Keys are in range. *)
Definition action_ok (a : action) : Prop :=
  match a with Acquire _ key _ => 0 <= key < Z.of_nat num_keys | _ => True end.

Lemma with_process_ok s p x : system_ok s -> process_ok (the_log s) p x -> system_ok (with_process p x s).
Proof. intros [H1 H2 H3] Hx. split; [done|done|]. by apply map_Forall_insert_2. Qed.

(** A first in line is first in the list of the whole log, too. *)
Lemma first_in_log l p n key :
  valid_log l -> first p (waiters (take n l)) key -> filter (fun r => l_client r = p) (drop n l) = [] ->
  exists f, head (waiters l key) = Some f /\ l_client f = p.
Proof.
  intros Hv (f & Hf & Hp & Hk) Hd. apply pending_client in Hp as [Hc _]. exists f. split; [|done].
  apply (first_stays _ n); [done|done|by rewrite Hc].
Qed.

(** What a process has delivered, and its own requests that it has not. *)
Lemma deliver_view s p x r :
  system_ok s -> processes s !! p = Some x -> the_log s !! p_read x = Some r ->
  let V := waiters (take (p_read x) (the_log s)) in
  0 <= l_lock_key r < Z.of_nat num_keys /\ delivery_ok V r /\
  thread_ok p V (filter (fun y => l_client y = p) (r :: drop (S (p_read x)) (the_log s))) (flags (p_service x)) (p_thread x).
Proof.
  intros [Hv Hrg Hps] Hx Hr V. destruct (Hps _ _ Hx) as [H1 H2 H3 H4]. split; [exact (Forall_lookup_1 _ _ _ _ Hrg Hr)|].
  split; [intros Ha; by apply Hv|]. by rewrite <- (drop_S _ _ _ Hr).
Qed.

Lemma deliver_ok s p x r freed service :
  system_ok s -> processes s !! p = Some x -> the_log s !! p_read x = Some r ->
  callback_request freed r (p_service x) = Ok service ->
  process_ok (the_log s) p (Process (p_thread x) (S (p_read x)) service).
Proof.
  intros Hs Hx Hr E. destruct (deliver_view s p x r Hs Hx Hr) as (Hk & Hdel & Ht). destruct Hs as [Hv Hrg Hps].
  destruct (Hps _ _ Hx) as [H1 H2 H3 H4]. set (V := waiters (take (p_read x) (the_log s))) in *.
  apply (callback_ok freed V) in E as ->; [|by eapply thread_one_flag|done..].
  assert (forall k, wait k (V k) r = waiters (take (S (p_read x)) (the_log s)) k) as HV by (intros k; symmetry; by apply waiters_take).
  apply lookup_lt_Some in Hr. split; cbn [p_service p_read p_thread cid_ lock_queue_ flags]; [done| |lia|].
  - unfold view. apply list_fmap_ext. intros i j _. apply HV.
  - rewrite H1. apply (thread_ok_ext _ _ _ _ _ _ HV). rewrite filter_cons in Ht.
    destruct (decide (l_client r = p)); [by apply thread_ok_own|by apply thread_ok_other].
Qed.

Lemma deliver_faults s p x r freed e :
  system_ok s -> processes s !! p = Some x -> the_log s !! p_read x = Some r ->
  callback_request freed r (p_service x) = Err e ->
  dangles freed (waiters (take (p_read x) (the_log s))) r (p_service x).
Proof.
  intros Hs Hx Hr E. destruct (deliver_view s p x r Hs Hx Hr) as (Hk & Hdel & Ht).
  destruct (sy_processes _ Hs _ _ Hx) as [H1 H2 H3 H4]. rewrite <- H1 in Ht.
  eapply callback_faults; [done|done|done|apply waiters_elem|done|done].
Qed.

Lemma append_ok s p x r :
  system_ok s -> processes s !! p = Some x -> p_thread x = Requested r ->
  system_ok (System (the_log s ++ [r]) (<[p := Process (Waiting r) (p_read x) (p_service x)]> (processes s))).
Proof.
  intros Hs Hx Hth. destruct Hs as [Hv Hrg Hps]. pose proof (Hps _ _ Hx) as [H1 H2 H3 H4].
  rewrite Hth in H4. destruct H4 as ((Hc & Hd & Hk) & Hun & Hfl & Hst).
  split; cbn [the_log processes].
  - intros i r' Hi Ha. apply lookup_snoc_Some in Hi as [[Hlt Hi]|[-> <-]].
    + rewrite take_app_le by lia. by apply Hv.
    + rewrite take_app_length. rewrite Ha in Hst. rewrite Hc. by apply (first_in_log _ _ (p_read x)).
  - apply Forall_app. split; [done|]. by apply Forall_singleton.
  - intros q y Hy. destruct (decide (q = p)) as [->|Hne].
    + rewrite lookup_insert_eq in Hy. injection Hy as <-.
      split; cbn [p_service p_read p_thread]; rewrite ?take_app_le, ?drop_app_le by lia; [done|done|rewrite length_app; lia|].
      rewrite filter_app, Hun, filter_cons, decide_True by done. cbn [thread_ok]. split; [by split|]. left. by split_and!.
    + rewrite lookup_insert_ne in Hy by done. destruct (Hps _ _ Hy) as [G1 G2 G3 G4].
      split; rewrite ?take_app_le, ?drop_app_le by lia; [done|done|rewrite length_app; lia|].
      by rewrite filter_app, filter_cons, decide_False, app_nil_r by congruence.
Qed.

(** An action keeps the invariant, or it is a delivery that reads or stores through a dangling
    reference or pointer. *)
Lemma lock_act_ok a s : action_ok a -> system_ok s ->
  match act a s with
  | Ok s' => system_ok s'
  | Err _ => exists p freed x r, a = Deliver p freed /\ processes s !! p = Some x /\ the_log s !! p_read x = Some r /\
      dangles freed (waiters (take (p_read x) (the_log s))) r (p_service x)
  end.
Proof.
  intros Ha Hs. destruct a as [p key d|p d|p|p freed|p]; cbn [act];
    (destruct (processes s !! p) as [x|] eqn:Hx; [|done]); pose proof (sy_processes _ Hs _ _ Hx) as [H1 H2 H3 H4].
  - destruct (p_thread x) eqn:Hth; try done. apply with_process_ok; [done|].
    destruct H4 as (Hu & Hf & Hp). split; [done|done|done|].
    cbn [begin_call request_begin snd p_thread p_service flags p_read thread_ok l_action l_client l_lock_key l_done]. rewrite Hf, insert_empty. by split_and!.
  - destruct (p_thread x) eqn:Hth; try done. apply with_process_ok; [done|].
    destruct H4 as (Hu & Hf & Hp & Hk). split; [done|done|done|].
    cbn [begin_call request_begin snd p_thread p_service flags p_read thread_ok l_action l_client l_lock_key l_done]. rewrite Hf, insert_empty. by split_and!.
  - destruct (p_thread x) eqn:Hth; try done. by apply append_ok.
  - destruct (the_log s !! p_read x) as [r|] eqn:Hr; [|done].
    destruct (callback_request freed r (p_service x)) as [service|e] eqn:E; cbn [mbind result_bind].
    + apply with_process_ok; [done|]. by eapply deliver_ok.
    + exists p, freed, x, r. split_and!; [done..|]. by eapply deliver_faults.
  - destruct (p_thread x) as [|r0|r|key] eqn:Hth; try done. unfold request_end.
    destruct H4 as ((Hc & Hk) & Hst). destruct (flags (p_service x) !! l_done r) as [[]|] eqn:Hfl; try done. apply with_process_ok; [done|].
    destruct Hst as [(_ & Hf & _)|(Hu & Hst)]; [by rewrite Hf, lookup_singleton_eq in Hfl|].
    split; [done|done|done|]. cbn [p_thread p_service flags p_read]. destruct (l_action r).
    + destruct Hst as [Hp Hf]. rewrite Hf, lookup_singleton_eq in Hfl. injection Hfl as Hfl. apply bool_decide_eq_true_1 in Hfl.
      cbn [thread_ok]. rewrite Hf, delete_singleton_eq. split_and!; [done|done|exists r; by split_and!|lia|lia].
    + destruct Hst as [Hp Hf]. cbn [thread_ok]. rewrite Hf, delete_singleton_eq. by split_and!.
Qed.

Lemma lock_acts_ok l s s' : Forall action_ok l -> system_ok s -> acts l s = Ok s' -> system_ok s'.
Proof.
  intros Hl. revert s. induction Hl as [|a l Ha Hl IH]; intros s Hs; cbn [acts mfold]; [by intros [= <-]|].
  pose proof (lock_act_ok a s Ha Hs) as H1. destruct (act a s) as [s1|] eqn:E; [|done]. by apply IH.
Qed.

Lemma locks_init_ok cids : system_ok (system_init num_keys cids).
Proof.
  split; cbn [system_init the_log processes]; [by intros i r Hi; rewrite lookup_nil in Hi|constructor|].
  intros p x Hx. apply elem_of_list_to_map_2 in Hx. apply list_elem_of_fmap in Hx as (cid & [= -> ->] & _).
  split; cbn [p_service p_read p_thread lock_service_init cid_ lock_queue_ flags]; [done| |simpl; lia|by split_and!].
  unfold view. apply list_eq. intros i. destruct (decide (i < num_keys)%nat).
  - by rewrite lookup_replicate_2, list_lookup_fmap, lookup_seq_lt by done.
  - rewrite !lookup_ge_None_2; [done|rewrite length_fmap, length_seq; lia|rewrite length_replicate; lia].
Qed.
End process.

(** ** Properties *)

(** C13: mutual exclusion.  In every state that the system reaches without a fault (calls,
    appends to the log and deliveries interleave in any way, the processes lag behind the log as
    they like, the calls keep their flags at any addresses, and the reads through the reference to
    a removed element give anything), whoever holds a lock is first in the list that the whole log
    defines for its key, and so no two processes hold the same lock.  And the only step that can
    fault is the delivery of a release, when it reads something else than the removed element
    through that reference, or stores through the pointer to the flag of an own [acquire] that has
    returned. *)
Theorem lock_mutual_exclusion num_keys cids l s :
  Forall (action_ok num_keys) l -> acts l (system_init num_keys cids) = Ok s ->
  (forall p x key, processes s !! p = Some x -> p_thread x = Holding key ->
     exists f, head (waiters (the_log s) key) = Some f /\ l_client f = p) /\
  (forall p q x y key, processes s !! p = Some x -> processes s !! q = Some y ->
     p_thread x = Holding key -> p_thread y = Holding key -> p = q) /\
  (forall a e, action_ok num_keys a -> act a s = Err e ->
     exists p freed x r, a = Deliver p freed /\ processes s !! p = Some x /\ the_log s !! p_read x = Some r /\
       dangles freed (waiters (take (p_read x) (the_log s))) r (p_service x)).
Proof.
  intros Hl Hs. pose proof (lock_acts_ok num_keys l _ s Hl (locks_init_ok num_keys cids) Hs) as Hok.
  assert (forall p x key, processes s !! p = Some x -> p_thread x = Holding key ->
       exists f, head (waiters (the_log s) key) = Some f /\ l_client f = p) as Hfirst.
  { intros p x key Hx Hth. destruct (sy_processes _ _ Hok _ _ Hx) as [_ _ _ Ht]. rewrite Hth in Ht.
    destruct Ht as (Hu & _ & Hf & _). by apply (first_in_log _ p (p_read x)); [apply (sy_valid _ _ Hok)| |]. }
  split; [done|]. split.
  - intros p q x y key Hx Hy Hpx Hpy.
    destruct (Hfirst p x key Hx Hpx) as (f & Hf & <-). destruct (Hfirst q y key Hy Hpy) as (g & Hg & <-). congruence.
  - intros a e Ha E. pose proof (lock_act_ok num_keys a s Ha Hok) as H. by rewrite E in H.
Qed.

(** C21: the lock is granted in the order of the log, and no call waits in vain.  In every state
    that the system reaches without a fault, whatever is read of removed elements and wherever the
    calls keep their flags, a process that has delivered the whole log returns from [release], and
    it returns from [acquire] exactly when its request is the first in line for its key.  (The
    faults are those of [dangles], at the delivery of a release; without them the run goes on.) *)
Theorem lock_served_in_order num_keys cids l s p x r :
  Forall (action_ok num_keys) l -> acts l (system_init num_keys cids) = Ok s ->
  processes s !! p = Some x -> p_thread x = Waiting r -> p_read x = length (the_log s) ->
  is_Some (request_end (l_done r) (p_service x)) <->
    (l_action r = Unlock \/ head (waiters (the_log s) (l_lock_key r)) = Some r).
Proof.
  intros Hl Hs Hx Hth Hread. pose proof (lock_acts_ok num_keys l _ s Hl (locks_init_ok num_keys cids) Hs) as Hok.
  destruct (sy_processes _ _ Hok _ _ Hx) as [_ _ _ Ht].
  rewrite Hth, Hread, drop_all, firstn_all in Ht. destruct Ht as ((Hc & Hk) & [(Hu & _)|(_ & Ht)]); [done|].
  unfold request_end. destruct (l_action r) eqn:Ha; destruct Ht as [Hp ->]; rewrite lookup_singleton_eq.
  - case_bool_decide as Hh; [|split; [by intros []|intros [?|?]; done]]. split; [by right|by eexists].
  - split; [by left|by eexists].
Qed.

(** A release writes through the pointer of the acquire.  When a process delivers its own
    release, the flag it sets is the one of the request that is removed from the list, which lived
    in the call of [acquire] that has returned: unless the call of [release] happens to keep its
    own flag at the same address, the store is to a dead object, and the flag [release] waits for
    is never set.  And before that the removed element itself has been read after it was freed. *)
Theorem release_stores_to_dead_flag freed r f rest s :
  l_action r = Unlock -> 0 <= l_lock_key r < Z.of_nat (length (lock_queue_ s)) ->
  lock_queue_ s !! Z.to_nat (l_lock_key r) = Some (f :: rest) ->
  l_action f = Lock -> l_client f = cid_ s -> l_client r = cid_ s -> l_lock_key f = l_lock_key r ->
  flags s !! l_done f = None ->
  (freed = Some f \/ freed = None) -> callback_request freed r s = Err Undefined.
Proof.
  intros Ha Hk Hq Hfa Hfc Hrc Hfk Hfl Hrf. unfold callback_request. rewrite (proj2 (Z.ltb_lt _ _)), Hq, Ha by lia.
  cbn [zip_assert deref mbind result_bind head tail assert_not_null]. destruct Hrf as [->| ->]; [|done].
  cbn [deref mbind result_bind]. rewrite bool_decide_eq_true_2, Hfc, Hrc, Hfk, !Z.eqb_refl by done.
  cbn [zip_assert mbind result_bind]. unfold set_done. by rewrite Hfl.
Qed.

(** ** Witnesses *)

(** Two processes that want the same lock; the second delivers the log late.  The calls of a
    process have their flag at the same address, and removed elements are read as they were. *)
Definition example_actions : list action := [
  Acquire 1 0 100; Append 1; Acquire 2 0 200; Append 2; Deliver 1 None; Return 1; Deliver 2 None; Deliver 1 None; Release 1 100;
  Append 1; Deliver 1 (Some (Request Lock 1 0 100)); Return 1; Deliver 2 None; Deliver 2 (Some (Request Lock 1 0 100)); Return 2].

Lemma example_locking_ok : Forall (action_ok 4) example_actions.
Proof. repeat constructor; simpl; done || lia. Qed.

Definition system_of (r : result system) : system := match r with Ok s => s | Err _ => system_init 0 [] end.
Definition example_locked : system := system_of (acts example_actions (system_init 4 [1; 2])).

Example example_holds : p_thread <$> processes example_locked = {[1 := Idle; 2 := Holding 0]}.
Proof. vm_compute. reflexivity. Qed.

Lemma lock_mutual_exclusion_witness :
  (forall p x key, processes example_locked !! p = Some x -> p_thread x = Holding key ->
     exists f, head (waiters (the_log example_locked) key) = Some f /\ l_client f = p) /\
  (forall p q x y key, processes example_locked !! p = Some x -> processes example_locked !! q = Some y ->
     p_thread x = Holding key -> p_thread y = Holding key -> p = q) /\
  (forall a e, action_ok 4 a -> act a example_locked = Err e ->
     exists p freed x r, a = Deliver p freed /\ processes example_locked !! p = Some x /\ the_log example_locked !! p_read x = Some r /\
       dangles freed (waiters (take (p_read x) (the_log example_locked))) r (p_service x)).
Proof.
  apply (lock_mutual_exclusion 4 [1; 2] example_actions example_locked); [exact example_locking_ok|vm_compute; reflexivity].
Defined.

(** The second process has delivered everything before the first releases the lock. *)
Definition example_waiting : list action := take 8 example_actions ++ [Deliver 2 None].
Definition example_state : system := system_of (acts example_waiting (system_init 4 [1; 2])).
Definition example_process : process := default (Process Idle 0 (lock_service_init 0 0)) (processes example_state !! 2).

Lemma lock_served_in_order_witness :
  is_Some (request_end 200 (p_service example_process)) <->
    (Lock = Unlock \/ head (waiters (the_log example_state) 0) = Some (Request Lock 2 0 200)).
Proof.
  apply (lock_served_in_order 4 [1; 2] example_waiting example_state 2 example_process (Request Lock 2 0 200)).
  - repeat constructor; simpl; done || lia.
  - vm_compute. reflexivity.
  - vm_compute. reflexivity.
  - vm_compute. reflexivity.
  - vm_compute. reflexivity.
Defined.

Lemma release_stores_to_dead_flag_witness :
  callback_request (Some (Request Lock 7 0 200)) (Request Unlock 7 0 300) (LockService 7 [[Request Lock 7 0 200]] 0 {[300 := false]}) = Err Undefined.
Proof.
  apply (release_stores_to_dead_flag (Some (Request Lock 7 0 200)) (Request Unlock 7 0 300) (Request Lock 7 0 200) []
           (LockService 7 [[Request Lock 7 0 200]] 0 {[300 := false]})); try reflexivity; [simpl; lia|by left].
Defined.

(** The whole run with two different frames, although the removed element is read intact. *)
Example frames_differ :
  acts [Acquire 1 0 100; Append 1; Deliver 1 None; Return 1; Release 1 101; Append 1; Deliver 1 (Some (Request Lock 1 0 100))]
    (system_init 4 [1]) = Err Undefined.
Proof. vm_compute. reflexivity. Qed.

(** What is read may also be taken for the element itself, with the flag of the release that is
    being delivered; then nothing faults, and the release returns. *)
Example read_as_the_release :
  acts [Acquire 1 0 100; Append 1; Deliver 1 None; Return 1; Release 1 101; Append 1; Deliver 1 (Some (Request Lock 1 0 101)); Return 1]
    (system_init 4 [1]) = Ok (System [Request Lock 1 0 100; Request Unlock 1 0 101]
      {[1 := Process Idle 2 (LockService 1 [[]; []; []; []] 2 ∅)]}).
Proof. vm_compute. reflexivity. Qed.

(** ** The payload *)

(** What [request] writes into the buffer is what [callback] reads from the entry. *)
Lemma decode_encode_request padding r :
  0 <= padding < 2 ^ 32 -> is_u64 (l_client r) -> is_u64 (l_lock_key r) -> is_u64 (l_done r) ->
  decode_request (encode_request padding r) = Ok r /\ Z.of_nat (length (encode_request padding r)) = SIZEOF_LOCK_REQUEST.
Proof.
  intros Hp Hc Hk Hd. destruct r as [a c k d]. simpl in Hc, Hk, Hd. split.
  - unfold decode_request, encode_request, put_all. cbn [fmap list_fmap concat l_action l_client l_lock_key l_done].
    unfold is_u64 in *. rewrite !get_put by (unfold fits; simpl; destruct a; simpl; lia).
    do 4 (cbn [mbind result_bind]; rewrite get_put by (unfold fits; simpl; lia)). cbn [mbind result_bind]. by destruct a.
  - reflexivity.
Qed.
