(* ===== verification/System.v ===== *)
(** * A client and the replicas of its shard

    The composition of one client ([src/client/client.cpp]), the storage servers of its shard
    ([src/storage/storage.cpp]) and the epochs that the ordering server sends them: the client's
    broadcasts and the servers' acknowledgements travel through queues that keep their order and
    delay them without bound; everything else that a server handles (other clients,
    subscribers, failures, recovery) and everything else that the client receives may happen at
    any time. *)
From S2P Require Import Prelude Consts Util Api StorageLog LogInv Storage StorageSpec Order EpochSpec Client.

#[export] Instance byte_eq_dec : EqDecision Byte.byte := Byte.byte_eq_dec.
#[export] Instance storage_insert_eq_dec : EqDecision storage_insert.
Proof. solve_decision. Defined.
#[export] Instance assignment_eq_dec : EqDecision assignment.
Proof. solve_decision. Defined.
#[export] Instance storage_slots_eq_dec : EqDecision storage_slots.
Proof. solve_decision. Defined.

(** ** State *)

(** A replica, and what is on the way to it and back to the client.  [ln_acked] is a history
    variable: how many acknowledgements it has sent. *)
Record link := Link {
  ln_server : storage;
  ln_epochs : list storage_slots;
  ln_requests : list storage_insert;
  ln_answers : list client_insert_ack;
  ln_acked : nat }.

(** [sy_sent] is a history variable: the requests the client has sent, each with the location of
    its response. *)
Record system := System {
  sy_client : client;
  sy_links : gmap Z link;
  sy_sent : list (option Z * storage_insert) }.

Inductive sys_event :=
| AtClient (e : Client.event)
| AtServer (rid : Z) (e : Storage.event).

(** The inserts among the messages that were sent, and those for one replica. *)
Definition requests (out : Client.outputs) : list storage_insert :=
  omap (fun x => match x.2 with MStorageInsert i => Some i | _ => None end) out.

Definition sent_to (rid : Z) (out : Client.outputs) : list storage_insert :=
  omap (fun x => match x with (ToStorage r _, MStorageInsert i) => if r =? rid then Some i else None | _ => None end) out.

(** The acknowledgements for the client. *)
Definition answers (c : Z) (out : Storage.outputs) : list client_insert_ack :=
  omap (fun x => match x with
    | (Storage.ToClient c', MClientInsertAck a) => if c' =? c then Some a else None
    | _ => None
    end) out.

Definition post (rid : Z) (out : Client.outputs) (ln : link) : link :=
  Link (ln_server ln) (ln_epochs ln) (ln_requests ln ++ sent_to rid out) (ln_answers ln) (ln_acked ln).

Definition post_all (out : Client.outputs) (L : gmap Z link) : gmap Z link :=
  map_imap (fun rid ln => Some (post rid out ln)) L.

(** The acknowledgements a client receives are the next ones of the replicas they come from. *)
Fixpoint collect (ms : list message) (L : gmap Z link) : option (gmap Z link) :=
  match ms with
  | [] => Some L
  | MClientInsertAck a :: ms =>
    ln ← L !! ack_replica_id a;
    match ln_answers ln with
    | a' :: rest =>
      if (ack_replica_id a' =? ack_replica_id a) && (ack_gsn a' =? ack_gsn a) then
        collect ms (<[ack_replica_id a := Link (ln_server ln) (ln_epochs ln) (ln_requests ln) rest (ln_acked ln)]> L)
      else None
    | [] => None
    end
  | _ :: ms => collect ms L
  end.

Section system.
Variables client_id shard_id failures : Z.
Variable estimate : option pid.
Variable connect : sockaddr_in -> option (message * Z).

(** The request that an iteration of the client sends: it is the one that becomes outstanding. *)
Definition new_sent (e : Client.event) (c : client) : list (option Z * storage_insert) :=
  match e with
  | Round stop now _ =>
    if ended (c_conn c) then [] else
    match before_recv client_id failures estimate stop now c with
    | Ok (c', out) =>
      zip (o_response <$> drop (length (outstandings (c_acks c))) (outstandings (c_acks c'))) (requests out)
    | Err _ => []
    end
  | _ => []
  end.

Definition received (e : Client.event) (c : client) : list message :=
  match e with Round _ _ ms => if ended (c_conn c) then [] else ms | _ => [] end.

Definition client_step (e : Client.event) (x : system) : option system :=
  let c := sy_client x in
  match step client_id shard_id failures estimate connect e c with
  | Ok (c', out) =>
    L ← collect (received e c) (sy_links x);
    Some (System c' (post_all out L) (sy_sent x ++ new_sent e c))
  | Err _ => None
  end.

(** What a server handles: the next insert of the client, the next epoch, or anything else. *)
Definition take_event (e : Storage.event) (ln : link) : option link :=
  match e with
  | EClient _ (MStorageInsert req) =>
    if ins_client_id req =? client_id then
      match ln_requests ln with
      | req' :: rest =>
        if decide (req' = req) then Some (Link (ln_server ln) (ln_epochs ln) rest (ln_answers ln) (ln_acked ln)) else None
      | [] => None
      end
    else Some ln
  | EControl _ (MStorageSlots slots) =>
    match ln_epochs ln with
    | slots' :: rest =>
      if decide (slots' = slots) then Some (Link (ln_server ln) rest (ln_requests ln) (ln_answers ln) (ln_acked ln)) else None
    | [] => None
    end
  | _ => Some ln
  end.

Definition server_step (rid : Z) (e : Storage.event) (x : system) : option system :=
  ln ← sy_links x !! rid;
  ln ← take_event e ln;
  match Storage.handle e (ln_server ln) with
  | Ok (s, out) =>
    let acks := answers client_id out in
    let ln := Link s (ln_epochs ln) (ln_requests ln) (ln_answers ln ++ acks) (ln_acked ln + length acks) in
    Some (System (sy_client x) (<[rid := ln]> (sy_links x)) (sy_sent x))
  | Err _ => None
  end.

Definition sys_step (e : sys_event) (x : system) : option system :=
  match e with
  | AtClient e => client_step e x
  | AtServer rid e => server_step rid e x
  end.

Fixpoint sys_run (es : list sys_event) (x : system) : option system :=
  match es with
  | [] => Some x
  | e :: es => x ← sys_step e x; sys_run es x
  end.

(** ** The environment *)

(** The buffers that wait in the client's queue. *)
Definition waiting {T} (q : queue T) : list T := if decide (q_num_polled_ q = 0) then queue_ q else tail (queue_ q).

(** The handlers of the recovery are for clients that are disconnected. *)
Definition recovers_last (e : Storage.event) (s : storage) : Prop :=
  match e with
  | EControl _ (MStorageClientPatch m) => scp_client_id m = client_id -> s_disconnected (client_of s client_id) = true
  | EControl _ (MStorageClientFinalize m) => scfin_client_id m = client_id -> s_disconnected (client_of s client_id) = true
  | _ => True
  end.

(** The application fills a buffer with a payload of the length it says, and not while the buffer
    waits to be sent; the client is told of the storage servers once; the integers of the
    messages are words, and only the frozen are recovered. *)
Definition sys_event_ok (e : sys_event) (x : system) : Prop :=
  match e with
  | AtClient (Fill request b) =>
    ins_data_length b = Z.of_nat (length (ins_data b)) /\ request ∉ (waiting (requests_ (sy_client x))).*1
  | AtClient (Insert _ _) => True
  | AtClient (Round _ _ ms) =>
    Forall (fun m => match m with
      | MClientStorageInfo _ => sy_sent x = [] /\ queues (c_conn (sy_client x)) = ∅
      | _ => True
      end) ms
  | AtServer rid e => words_ok e /\ forall ln, sy_links x !! rid = Some ln -> recovers_last e (ln_server ln)
  end.

Fixpoint sys_events_ok (es : list sys_event) (x : system) : Prop :=
  match es with
  | [] => True
  | e :: es => sys_event_ok e x /\ match sys_step e x with Some x => sys_events_ok es x | None => True end
  end.
End system.

(** Whether the environment behaves in a run can be decided. *)
#[export] Instance words_ok_dec e : Decision (words_ok e).
Proof. destruct e as [? []|? []| | |]; cbn [words_ok]; unfold is_u64; apply _. Defined.

#[export] Instance recovers_last_dec c e s : Decision (recovers_last c e s).
Proof. destruct e as [? []|? []| | |]; cbn [recovers_last]; apply _. Defined.

#[export] Instance sys_event_ok_dec c e x : Decision (sys_event_ok c e x).
Proof.
  destruct e as [[request b|request response|stop now ms]|rid e]; cbn [sys_event_ok]; try apply _.
  - apply Forall_dec. intros []; apply _.
  - apply and_dec; [apply _|]. destruct (sy_links x !! rid) as [ln|].
    + destruct (decide (recovers_last c e (ln_server ln))) as [H|H]; [left|right; by auto]. by intros ? [= <-].
    + left. done.
Defined.

#[export] Instance sys_events_ok_dec c shard_id failures estimate connect es x :
  Decision (sys_events_ok c shard_id failures estimate connect es x).
Proof.
  revert x. induction es as [|e es IH]; intros x; cbn [sys_events_ok]; [left; exact I|].
  apply and_dec; [apply _|]. destruct (sys_step _ _ _ _ _ e x); [apply IH|left; exact I].
Defined.

(** The client's thread starts, and the servers [servers] of its shard, the epochs for each of
    them being those that the ordering server sends in its run. *)
Definition sys_init (shard_id uninitialized : Z) (servers : gmap Z storage) (order_out : Order.outputs) : system :=
  System (loop_init uninitialized (Memory ∅ ∅))
    (map_imap (fun rid s => Some (Link s (slots_sent shard_id rid order_out) [] [] 0)) servers) [].
