(* ===== verification/SystemSpec.v ===== *)
(** * Responses are durable on a quorum

    The end-to-end property of the composed system: whatever the interleaving of the client, the
    replicas, the ordering server's epochs, other clients, failures and recovery, a response
    that the application reads is a GSN at which more than [failures] replicas have the
    request's payload set in their logs. *)
From S2P Require Import Prelude Consts Util Api StorageLog Interleave LogInv StorageLogSpec Storage StorageSpec Order OrderSpec EpochSpec Client ClientSpec ClientAckSpec System.

#[local] Opaque NUM_ENTRIES_PER_BLOCK NUM_SHARDS.

(** ** What a server's handlers do to a client *)

(** [c] stays disconnected, and while it is connected its cursor stays. *)
Definition kept (c : Z) (s s' : storage) : Prop :=
  (s_disconnected (client_of s c) = true -> s_disconnected (client_of s' c) = true) /\
  (s_disconnected (client_of s' c) = false -> s_position (client_of s' c) = s_position (client_of s c)).

Lemma kept_untouched c s s' : untouched c s s' -> kept c s s'.
Proof. intros [Hp Hd]. split; [by rewrite Hd|done]. Qed.

Lemma kept_disconnect c s s1 : same_server s s1 -> kept c s (with_client c (disconnect (client_of s c)) s1).
Proof.
  intros _. unfold kept. rewrite client_of_with_client, decide_True by done. split; [intros _; apply disconnect_disconnected|].
  by rewrite disconnect_disconnected.
Qed.

Lemma kept_same c s s' : same_server s s' -> kept c s s'.
Proof. intros Hs. by apply kept_untouched, untouched_same. Qed.

(** Its recovery leaves it disconnected. *)
Lemma kept_recovered c s s' cs p l :
  s_disconnected (client_of s c) = true -> cs = client_of s c -> kept c s (with_log l (with_client c (with_position p cs) s')).
Proof.
  intros Hd ->. unfold kept. rewrite client_of_with_log, client_of_with_client, decide_True by done. simpl. by rewrite Hd.
Qed.

(** A handler that does not handle an insert of [c] sends it no acknowledgement. *)
Lemma handle_kept c e s s' out :
  Storage.handle e s = Ok (s', out) -> insert_of c e = None -> recovers_last c e s ->
  kept c s s' /\ StorageSpec.acks c out = [].
Proof.
  intros E Hi Hr.
  assert (undisturbed c e -> kept c s s' /\ StorageSpec.acks c out = []) as Hu.
  { intros Hu. destruct (handle_untouched _ _ _ _ _ E Hu Hi). by split; [apply kept_untouched|]. }
  destruct e as [stale m|stale m|i|c'|sid n]; try (by apply Hu).
  - destruct m; try (by apply Hu); cbn [undisturbed recovers_last] in *; unfold Storage.handle in E; cbn [control_recv] in E.
    + destruct (decide (scfin_client_id m = c)) as [<-|]; [|by apply Hu].
      unfold on_storage_client_finalize in E. inv_result. use_client Hs.
      split; [apply kept_recovered; [by apply Hr|done]|done].
    + destruct (decide (scf_client_id m = c)) as [<-|]; [|by apply Hu].
      unfold on_storage_client_freeze in E. inv_result. use_client Hs.
      split; [by apply kept_disconnect|done].
    + destruct (decide (scp_client_id m = c)) as [<-|]; [|by apply Hu].
      unfold on_storage_client_patch in E. inv_result. use_client Hs.
      destruct (_ <? _); inv_result; (split; [|done]); [apply kept_recovered; [by apply Hr|done]|by apply kept_same].
  - destruct m; try (by apply Hu). cbn [undisturbed] in Hu. unfold Storage.handle in E; cbn [Storage.client_recv] in E.
    destruct (decide (cf_client_id m = c)) as [<-|]; [|by apply Hu].
    unfold Storage.on_client_finished in E. inv_result. use_client Hs.
    destruct (s_disconnected (client_of s (_ m))); inv_result; (split; [|done]); [by apply kept_same|by apply kept_disconnect].
  - cbn [undisturbed] in Hu. unfold Storage.handle in E. destruct (decide (ci_client_id i = c)) as [<-|]; [|by apply Hu].
    unfold Storage.on_client_failure in E. inv_result. use_client Hs. split; [by apply kept_disconnect|done].
Qed.

(** The acknowledgements name the server that sends them. *)
Lemma answers_none c out : StorageSpec.acks c out = [] -> answers c out = [].
Proof.
  unfold StorageSpec.acks, answers. induction out as [|[d m] out IH]; [done|]. cbn [omap list_omap ack_of].
  destruct d; try done; destruct m; try done. by destruct (_ =? _).
Qed.

(** What a handler leaves as it is: the identity of the server, its threads and, unless
    subscribers come or go, the bag of changes. *)
Definition same_host (e : Storage.event) (s s' : storage) : Prop :=
  st_shard_id_ s' = st_shard_id_ s /\ st_replica_id_ s' = st_replica_id_ s /\
  st_subscriber_threads_ s' = st_subscriber_threads_ s /\
  (bag_list_ (st_subscriber_changes_ s') = bag_list_ (st_subscriber_changes_ s) \/
   exists c, bag_list_ (st_subscriber_changes_ s') = bag_list_ (st_subscriber_changes_ s) ++ [c] /\
     match c with Added sid n => e = EAddSubscriber sid n | Removed _ => True end).

Definition fixed_host (s s' : storage) : Prop :=
  st_shard_id_ s' = st_shard_id_ s /\ st_replica_id_ s' = st_replica_id_ s /\
  st_subscriber_threads_ s' = st_subscriber_threads_ s /\ st_subscriber_changes_ s' = st_subscriber_changes_ s.

Lemma same_server_fixed s s' : same_server s s' -> fixed_host s s'.
Proof. intros (_ & _ & H1 & H2 & _ & H3 & H4). by split_and!. Qed.

Lemma fixed_same_host e s s' : fixed_host s s' -> same_host e s s'.
Proof. intros (H1 & H2 & H3 & H4). unfold same_host. rewrite H4. auto. Qed.

Lemma handle_host e s s' out : Storage.handle e s = Ok (s', out) -> same_host e s s'.
Proof.
  intros E. destruct e as [stale m|stale m|i|c'|sid n]; unfold Storage.handle in E.
  - destruct m; cbn [control_recv] in E; try (inv_result; by apply fixed_same_host).
    + unfold Storage.on_subscriber_finished in E. case_decide; inv_result; [|by apply fixed_same_host].
      split_and!; try done. right. by exists (Removed (sbf_subscriber_id m)).
    + unfold on_storage_slots in E. destruct (_ <? _); inv_result; by apply fixed_same_host.
    + unfold on_storage_client_finalize in E. inv_result. use_client Hs. apply same_server_fixed in Hs. by apply fixed_same_host.
    + unfold on_storage_client_freeze in E. inv_result. use_client Hs. apply same_server_fixed in Hs. by apply fixed_same_host.
    + unfold on_storage_client_cut in E. inv_result. use_client Hs. by apply fixed_same_host, same_server_fixed.
    + unfold on_storage_client_patch in E. inv_result. use_client Hs. apply same_server_fixed in Hs. apply fixed_same_host. destruct (_ <? _); by inv_result.
  - destruct m; cbn [Storage.client_recv] in E; try (inv_result; by apply fixed_same_host).
    + unfold Storage.on_client_finished in E. inv_result. use_client Hs. apply same_server_fixed in Hs. apply fixed_same_host. destruct (s_disconnected (client_of s (_ m))); by inv_result.
    + unfold on_storage_insert in E. inv_result. use_client Hs. apply same_server_fixed in Hs. apply fixed_same_host. destruct (s_disconnected (client_of s (_ m))); by inv_result.
  - unfold Storage.on_client_failure in E. inv_result. use_client Hs. apply same_server_fixed in Hs. by apply fixed_same_host.
  - inv_result. unfold Storage.add_client in E0. apply fixed_same_host. destruct (_ <=? _); [by inv_result|]. inv_result. use_client Hs.
    apply same_server_fixed in Hs. destruct (s_connected _); by inv_result.
  - inv_result. unfold Storage.add_subscriber in E0. case_decide; [inv_result; by apply fixed_same_host|]. destruct (_ =? 0); inv_result.
    split_and!; try done. right. by exists (Added sid n).
Qed.

Lemma handle_replica e s s' out : Storage.handle e s = Ok (s', out) -> st_replica_id_ s' = st_replica_id_ s.
Proof. intros E. apply (handle_host _ _ _ _ E). Qed.

(** ** The GSNs a client's requests get *)

(** The GSNs of requests that take [ks] slots, as far as the slots [sl] go, when the client has
    used [n] slots before. *)
Fixpoint promised (c : Z) (sl : list (Z * Z)) (n : nat) (ks : list Z) : list Z :=
  match ks with
  | [] => []
  | k :: ks =>
    if 0 <? k then
      match client_gsn c sl (n + Z.to_nat k - 1) with
      | Some g => g :: promised c sl (n + Z.to_nat k) ks
      | None => []
      end
    else []
  end.

(** The slots of the first requests. *)
Definition upto (ks : list Z) : nat := foldr (fun k n => (Z.to_nat k + n)%nat) 0%nat ks.

Lemma upto_snoc ks k : upto (ks ++ [k]) = (upto ks + Z.to_nat k)%nat.
Proof. induction ks as [|k' ks IH]; simpl; [lia|]. unfold upto in *. lia. Qed.

(** The next one is determined when its last slot is there. *)
Lemma promised_lookup c sl n ks h k g :
  (h <= length (promised c sl n ks))%nat -> ks !! h = Some k -> 0 < k ->
  client_gsn c sl (n + upto (take h ks) + Z.to_nat k - 1) = Some g -> promised c sl n ks !! h = Some g.
Proof.
  revert n h. induction ks as [|k' ks IH]; intros n h Hh Hk Hpos Hg; [done|]. cbn [promised] in *. destruct h as [|h].
  - injection Hk as ->. simpl in Hg. rewrite Nat.add_0_r in Hg. by rewrite (proj2 (Z.ltb_lt _ _)), Hg.
  - destruct (0 <? k'); [|simpl in Hh; lia]. destruct (client_gsn c sl (n + Z.to_nat k' - 1)) as [g'|]; [|simpl in Hh; lia].
    simpl. apply IH; [simpl in Hh; lia|done|done|]. simpl in Hg. rewrite <- Hg. f_equal. unfold upto. lia.
Qed.

(** They are GSNs of the client's slots, at the end of the request. *)
Lemma promised_inv c sl n ks i g :
  promised c sl n ks !! i = Some g ->
  exists m, (n <= m)%nat /\ client_gsn c sl m = Some g /\
    forall j g', (i < j)%nat -> promised c sl n ks !! j = Some g' -> exists m', (m < m')%nat /\ client_gsn c sl m' = Some g'.
Proof.
  revert n i g. induction ks as [|k ks IH]; intros n i g Hi; [done|]. cbn [promised] in *.
  destruct (Z.ltb_spec 0 k); [|done]. destruct (client_gsn c sl (n + Z.to_nat k - 1)) as [g0|] eqn:Hg; [|done].
  destruct i as [|i].
  - injection Hi as ->. exists (n + Z.to_nat k - 1)%nat. split; [lia|]. split; [done|].
    intros [|j] g' Hj Hg'; [lia|]. simpl in Hg'. destruct (IH _ _ _ Hg') as (m & ? & ? & _). exists m. split; [lia|done].
  - destruct (IH _ _ _ Hi) as (m & ? & ? & Hn). exists m. split; [lia|]. split; [done|].
    intros [|j] g' Hj Hg'; [lia|]. simpl in Hg'. apply (Hn j); [lia|done].
Qed.

Lemma client_gsn_increasing c sl i j a b :
  gsns_increasing sl -> (i < j)%nat -> client_gsn c sl i = Some a -> client_gsn c sl j = Some b -> a < b.
Proof.
  intros H Hij (p & Hp & Ha)%client_gsn_lookup (q & Hq & Hb)%client_gsn_lookup.
  apply (H p q (c, a) (c, b)); [done|done|]. by eapply positions_increasing.
Qed.

Lemma promised_increasing c sl n ks i j a b :
  gsns_increasing sl -> (i < j)%nat -> promised c sl n ks !! i = Some a -> promised c sl n ks !! j = Some b -> a < b.
Proof.
  intros H Hij (m & _ & Hm & Hn)%promised_inv Hb. destruct (Hn _ _ Hij Hb) as (m' & Hlt & Hm').
  by eapply client_gsn_increasing.
Qed.

(** ** The slots of a shard *)

Definition slots_of_epochs (ms : list storage_slots) : list (Z * Z) := (epoch_event <$> ms) ≫= StorageSpec.new_slots.

Lemma slots_of_epochs_cons m ms : slots_of_epochs (m :: ms) = StorageSpec.new_slots (epoch_event m) ++ slots_of_epochs ms.
Proof. done. Qed.

Lemma slots_of_epochs_bounds base ms x : epochs_from base ms -> x ∈ slots_of_epochs ms -> base <= x.2 < UINT64_MAX.
Proof.
  revert base. induction ms as [|m ms IH]; intros base Hms; [by intros ?%elem_of_nil|].
  rewrite slots_of_epochs_cons, elem_of_app. pose proof Hms as (_ & _ & Ht & Hw & _ & _ & _ & Hms'). unfold UINT64_MAX in *.
  intros [Hx|Hx]; [apply (new_slots_bounds base m ms) in Hx; [lia|done]|]. apply (IH _ Hms') in Hx. lia.
Qed.

Lemma new_slots_increasing e : gsns_increasing (StorageSpec.new_slots e).
Proof.
  destruct e as [stale []|stale []| | |]; cbn [StorageSpec.new_slots]; try done.
  destruct (0 <? _); [|done]. destruct (StorageLog.schedule _ _); [apply assigned_increasing|done].
Qed.

Lemma slots_of_epochs_increasing base ms : epochs_from base ms -> gsns_increasing (slots_of_epochs ms).
Proof.
  revert base. induction ms as [|m ms IH]; intros base Hms; [done|]. rewrite slots_of_epochs_cons.
  pose proof Hms as (_ & _ & _ & _ & _ & _ & _ & Hms'). apply gsns_increasing_app; [apply new_slots_increasing|by eapply IH|].
  intros x y Hx Hy. apply (new_slots_bounds base m ms) in Hx; [|done]. apply (slots_of_epochs_bounds _ _ _ Hms') in Hy. lia.
Qed.

(** ** The invariant of a replica *)

(** The log of the server holds the slots [sl]; the epochs on the way, from GSN [base] on, bring
    it to [SL]. *)
Record log_ok (SL sl : list (Z * Z)) (base : Z) (s : storage) (ms : list storage_slots) : Prop := {
  lg_server : server_ok s sl;
  lg_epochs : epochs_from base ms;
  lg_below : Forall (fun x => x.2 < base) sl;
  lg_length : Z.of_nat (length sl) <= base;
  lg_total : sl ++ slots_of_epochs ms = SL }.

(** The server itself is as it was when it takes an event. *)
Lemma take_event_server c e ln ln1 : take_event c e ln = Some ln1 -> ln_server ln1 = ln_server ln.
Proof.
  intros Ht. destruct e as [? []|? []| | |]; cbn [take_event] in Ht; try (by injection Ht as <-).
  - destruct (ln_epochs ln); [done|]. case_decide; by simplify_eq.
  - destruct (_ =? _); [|by simplify_eq]. destruct (ln_requests ln); [done|]. case_decide; by simplify_eq.
Qed.

Section link.
Variable c : Z.

(** The slots of the shard, and the requests of the client in the end. *)
Variable SL : list (Z * Z).
Variable final : list (option Z * storage_insert).

Definition gsns : list Z := promised c SL 0 (ins_num_slots <$> final.*2).

(** The [i]-th request is in the log, with its GSN. *)
Definition holds_request (H : list (option Z * storage_insert)) (s : storage) (sl : list (Z * Z)) (i : nat) : Prop :=
  exists response req g k stale, H !! i = Some (response, req) /\ gsns !! i = Some g /\ sl !! k = Some (c, g) /\
    StorageSpec.consumed s sl k /\ stored s k (alloc_copy (ins_data req ++ stale) (ins_data_length req)) (ins_data_length req).

(** The server has handled [h] of the requests [H] and acknowledged [a]; the client has received
    [r] acknowledgements, and is connected to the replicas [Q]. *)
Record link_ok (H : list (option Z * storage_insert)) (Q : gset Z) (rid : Z) (r : nat) (ln : link)
    (sl : list (Z * Z)) (base : Z) (h a : nat) : Prop := {
  lo_log : log_ok SL sl base (ln_server ln) (ln_epochs ln);
  lo_replica : st_replica_id_ (ln_server ln) = rid;
  lo_acked : ln_acked ln = a;
  lo_prefix : ln_requests ln `prefix_of` drop h H.*2;
  lo_all : rid ∈ Q -> ln_requests ln = drop h H.*2;
  lo_handled : (r <= a)%nat /\ (a <= h)%nat /\ (h <= length H)%nat /\ (a <= length gsns)%nat;
  lo_connected : s_disconnected (client_of (ln_server ln) c) = false ->
    a = h /\ cursor (s_position (client_of (ln_server ln) c)) c sl (upto (ins_num_slots <$> take h H.*2));
  lo_answers : ln_answers ln = ClientInsertAck rid <$> take (a - r) (drop r gsns);
  lo_stored i : (i < a)%nat -> holds_request H (ln_server ln) sl i }.

Lemma take_event_ok sl base ln ln1 e :
  log_ok SL sl base (ln_server ln) (ln_epochs ln) -> words_ok e -> take_event c e ln = Some ln1 ->
  StorageSpec.event_ok sl e /\ (ln_answers ln1 = ln_answers ln /\ ln_acked ln1 = ln_acked ln) /\ (insert_of c e = None -> ln_requests ln1 = ln_requests ln) /\
  (forall s, server_ok s (sl ++ StorageSpec.new_slots e) ->
     exists base', log_ok SL (sl ++ StorageSpec.new_slots e) base' s (ln_epochs ln1)).
Proof.
  intros [Hs He Hb Hl Ht] Hw E. destruct (epoch_of e) as [m|] eqn:Hm.
  - destruct e as [stale []|stale []| | |]; try discriminate Hm. injection Hm as ->. cbn [take_event] in E.
    destruct (ln_epochs ln) as [|m' ms] eqn:Hms; [done|]. case_decide; [|done]. injection E as <-. subst m'.
    change (StorageSpec.new_slots (EControl stale (MStorageSlots m))) with (StorageSpec.new_slots (epoch_event m)).
    split_and!; [|done|done|done|].
    { apply (epochs_accepted_ok sl base (m :: ms) [EControl stale (MStorageSlots m)]); try done; [by eexists|by constructor]. }
    intros s Hs'. exists (base + total_slots (ss_assignments m)). pose proof (new_slots_length base m ms He).
    pose proof He as (_ & _ & ? & _ & _ & _ & _ & He'). split; cbn [ln_server ln_epochs]; [done|done| |rewrite length_app; lia|].
    + apply Forall_app_2; [eapply Forall_impl; [exact Hb|simpl; lia]|]. apply Forall_forall. intros x Hx.
      by apply (new_slots_bounds base m ms).
    + by rewrite <- app_assoc, <- slots_of_epochs_cons.
  - rewrite new_slots_none, app_nil_r by done.
    assert (ln_epochs ln1 = ln_epochs ln /\ (ln_answers ln1 = ln_answers ln /\ ln_acked ln1 = ln_acked ln) /\ (insert_of c e = None -> ln_requests ln1 = ln_requests ln)) as (-> & Ha & Hr).
    { destruct e as [stale []|stale []| | |]; try discriminate Hm; cbn [take_event insert_of] in *; try (by injection E as <-).
      destruct (_ =? _); [|by injection E as <-]. destruct (ln_requests ln) as [|req' rest]; [done|]. case_decide; [|done].
      by injection E as <-. }
    split; [by destruct e as [stale []|stale []| | |]|]. split; [exact Ha|]. split; [done|]. intros s Hs'. by exists base.
Qed.

Lemma holds_request_effect H s sl s' new i :
  server_ok s sl -> effect s sl s' new -> holds_request H s sl i -> holds_request H s' (sl ++ new) i.
Proof.
  intros Hs He (response & req & g & k & stale & ? & ? & Hk & Hc & Hst).
  destruct (effect_consumed _ _ _ _ _ _ _ Hs He Hc Hst). exists response, req, g, k, stale.
  split_and!; [done|done|by apply lookup_app_l_Some|done|done].
Qed.

(** An event that is not an insert of the client. *)
Lemma link_quiet H Q rid r ln sl base h a e ln1 s out :
  link_ok H Q rid r ln sl base h a -> insert_of c e = None -> words_ok e -> recovers_last c e (ln_server ln) ->
  take_event c e ln = Some ln1 -> Storage.handle e (ln_server ln) = Ok (s, out) ->
  exists sl' base', link_ok H Q rid r (Link s (ln_epochs ln1) (ln_requests ln1) (ln_answers ln1 ++ answers c out) (ln_acked ln1 + length (answers c out))) sl' base' h a.
Proof.
  intros [Hl Hrep Hak Hp Hall Hh Hc Ha Hst] Hi Hw Hrec Ht E.
  destruct (take_event_ok _ _ _ _ _ Hl Hw Ht) as (Hok & [-> ->] & Hreq & Hlog). rewrite (Hreq Hi).
  pose proof (handle_effect _ _ _ _ _ (lg_server _ _ _ _ _ Hl) Hok E) as He.
  destruct (handle_kept _ _ _ _ _ E Hi Hrec) as [[Hk1 Hk2] Hn].
  destruct (Hlog s) as [base' Hlog']; [by eapply effect_ok; [apply Hl|]|].
  exists (sl ++ StorageSpec.new_slots e), base'. rewrite (answers_none _ _ Hn), app_nil_r, Nat.add_0_r.
  split; cbn [ln_server ln_epochs ln_requests ln_answers ln_acked]; try done.
  - by rewrite (handle_replica _ _ _ _ E).
  - intros Hd. rewrite Hk2 by done. destruct (s_disconnected (client_of (ln_server ln) c)); [by rewrite Hk1 in Hd|].
    destruct Hc as [-> Hc]; [done|]. split; [done|]. by apply cursor_app.
  - intros i Hia. eapply holds_request_effect; [apply Hl|done|by apply Hst].
Qed.
Lemma answers_of_insert rid g : answers c [(Storage.ToClient c, MClientInsertAck (ClientInsertAck rid g))] = [ClientInsertAck rid g].
Proof. unfold answers. cbn [omap list_omap]. by rewrite Z.eqb_refl. Qed.

Lemma take_insert stale req ln ln1 :
  take_event c (EClient stale (MStorageInsert req)) ln = Some ln1 -> ins_client_id req = c ->
  ln_requests ln = req :: ln_requests ln1 /\ ln_answers ln1 = ln_answers ln /\ ln_acked ln1 = ln_acked ln.
Proof.
  intros E Hc. cbn [take_event] in E. rewrite Hc, Z.eqb_refl in E.
  destruct (ln_requests ln) as [|req' rest]; [done|]. case_decide; [|done]. injection E as <-. by subst.
Qed.

Lemma drop_cons_lookup {A} (l : list A) h x rest : drop h l = x :: rest -> l !! h = Some x /\ drop (S h) l = rest.
Proof.
  intros E. split; [rewrite <- (Nat.add_0_r h), <- lookup_drop; by rewrite E|].
  rewrite <- Nat.add_1_r, <- drop_drop, E. done.
Qed.

(** The GSN of the next request, when its slots are in the log. *)
Lemma gsns_next (H : list (option Z * storage_insert)) h req g :
  H `prefix_of` final -> H.*2 !! h = Some req -> (h <= length gsns)%nat -> 0 < ins_num_slots req ->
  client_gsn c SL (upto (ins_num_slots <$> take h H.*2) + Z.to_nat (ins_num_slots req) - 1) = Some g ->
  gsns !! h = Some g.
Proof.
  intros [new Hf] Hh Hlen Hpos Hg. unfold gsns in *. rewrite Hf, !fmap_app in Hlen |- *.
  apply (promised_lookup _ _ _ _ _ (ins_num_slots req)); [done| |done|].
  - apply lookup_app_l_Some. by rewrite list_lookup_fmap, Hh.
  - rewrite <- Hg, fmap_take, take_app_le; [done|]. rewrite length_fmap. apply lookup_lt_Some in Hh. lia.
Qed.

Lemma upto_next (H : list (option Z * storage_insert)) h req :
  H.*2 !! h = Some req ->
  upto (ins_num_slots <$> take (S h) H.*2) = (upto (ins_num_slots <$> take h H.*2) + Z.to_nat (ins_num_slots req))%nat.
Proof. intros Hh. rewrite (take_S_r _ _ _ Hh), fmap_app. apply upto_snoc. Qed.

(** The next insert of the client: it is handled, and acknowledged with the next GSN if the client
    is connected. *)
Lemma link_insert H Q rid r ln sl base h a stale req ln1 s out :
  link_ok H Q rid r ln sl base h a -> H `prefix_of` final -> ins_client_id req = c -> is_u64 (ins_num_slots req) ->
  take_event c (EClient stale (MStorageInsert req)) ln = Some ln1 ->
  Storage.handle (EClient stale (MStorageInsert req)) (ln_server ln) = Ok (s, out) ->
  exists base' a', link_ok H Q rid r (Link s (ln_epochs ln1) (ln_requests ln1) (ln_answers ln1 ++ answers c out) (ln_acked ln1 + length (answers c out))) sl base' (S h) a'.
Proof.
  intros [Hl Hrep Hak Hp Hall Hh Hc Ha Hst] Hf Hid Hw Ht E. pose proof (handle_replica _ _ _ _ E) as Hrep'.
  destruct (take_event_ok _ _ _ _ (EClient stale (MStorageInsert req)) Hl Hw Ht) as (Hok & _ & _ & Hlog). cbn [StorageSpec.new_slots] in Hlog.
  pose proof (handle_effect _ _ _ _ _ (lg_server _ _ _ _ _ Hl) Hok E) as He. cbn [StorageSpec.new_slots] in He.
  assert (exists base', log_ok SL sl base' s (ln_epochs ln1)) as [base' Hlog'].
  { rewrite app_nil_r in Hlog. apply Hlog. rewrite <- (app_nil_r sl). by eapply effect_ok; [apply Hl|]. }
  destruct (take_insert _ _ _ _ Ht Hid) as (Hreq & -> & ->). rewrite Hreq in Hp, Hall.
  destruct Hp as [rest Hp]. cbn [app] in Hp. destruct (drop_cons_lookup _ _ _ _ Hp) as [Hh1 Hdrop].
  pose proof (lookup_lt_Some _ _ _ Hh1) as Hlt. rewrite length_fmap in Hlt.
  assert (ln_requests ln1 `prefix_of` drop (S h) H.*2) as Hp' by (rewrite Hdrop; by eexists).
  assert (rid ∈ Q -> ln_requests ln1 = drop (S h) H.*2) as Hall'.
  { intros Hin. specialize (Hall Hin). rewrite Hp in Hall. injection Hall as Hall. by rewrite Hdrop. }
  assert (forall i, (i < a)%nat -> holds_request H s sl i) as Hst'.
  { intros i Hi. rewrite <- (app_nil_r sl). eapply holds_request_effect; [apply Hl|done|by apply Hst]. }
  cbn [Storage.handle Storage.client_recv] in E.
  destruct (on_storage_insert_inv _ _ _ _ _ _ (lg_server _ _ _ _ _ Hl) Hw E)
    as (_ & [(Hd & -> & Hs)|(n & g & k & Hd & Hn & Hn' & Hpos & _ & _ & _ & _ & _ & _ & Hk & Hkg & Hset & Hdata & Hlen & ->)]);
    rewrite Hid in *.
  - exists base', a. cbn [answers omap list_omap]. rewrite app_nil_r, Nat.add_0_r. split; cbn [ln_server ln_epochs ln_requests ln_answers ln_acked]; try done.
    + by rewrite Hrep'.
    + lia.
    + rewrite (proj1 (proj2 Hs)). by rewrite Hd.
  - destruct Hc as [-> Hc]; [done|]. pose proof (cursor_fun _ _ _ _ _ Hc Hn) as <-.
    assert (gsns !! h = Some g) as Hg.
    { apply (gsns_next H h req); [done|done|lia|done|]. rewrite <- (lg_total _ _ _ _ _ Hl).
      apply client_gsn_app, client_gsn_lookup. eauto. }
    pose proof (lookup_lt_Some _ _ _ Hg) as Hlt'. rewrite Hrep, answers_of_insert.
    exists base', (S h). split; cbn [ln_server ln_epochs ln_requests ln_answers ln_acked]; try done.
    + by rewrite Hrep'.
    + rewrite Hak. simpl. lia.
    + lia.
    + intros _. split; [done|]. by rewrite (upto_next _ _ _ Hh1).
    + rewrite Ha. replace (S h - r)%nat with (S (h - r)) by lia. rewrite (take_S_r (drop r gsns) (h - r) g), fmap_app; [done|].
      rewrite lookup_drop. by replace (r + (h - r))%nat with h by lia.
    + intros i Hi. destruct (decide (i = h)) as [->|]; [|apply Hst'; lia].
      destruct (H !! h) as [[response req']|] eqn:HH; [|rewrite list_lookup_fmap, HH in Hh1; done].
      rewrite list_lookup_fmap, HH in Hh1. injection Hh1 as ->. exists response, req, g, k, stale.
      split_and!; [done..| |done]. eexists c, _, _. split; [done|]. split; [done|lia].
Qed.
End link.

(** ** What the client sends *)

Definition sized (b : storage_insert) : Prop := ins_data_length b = Z.of_nat (length (ins_data b)).

Lemma waiting_rep {T} (q : queue T) l : queue_rep q l -> waiting q = l.
Proof. intros [Hl _ _]. unfold waiting. case_decide; [done|]. by destruct Hl as (_ & x & ->). Qed.

Lemma sent_to_app rid o1 o2 : sent_to rid (o1 ++ o2) = sent_to rid o1 ++ sent_to rid o2.
Proof. apply omap_app. Qed.

Lemma requests_app o1 o2 : requests (o1 ++ o2) = requests o1 ++ requests o2.
Proof. apply omap_app. Qed.

Lemma sent_to_none rid out : requests out = [] -> sent_to rid out = [].
Proof.
  unfold requests, sent_to. induction out as [|[t m] out IH]; [done|]. cbn [omap list_omap snd].
  destruct m; try done; destruct t; done.
Qed.

Lemma requests_to_queues k m : (forall i, m <> MStorageInsert i) -> requests (to_queues k m) = [].
Proof.
  intros Hm. unfold requests, to_queues. induction (elements (queues k)) as [|r rs IH]; [done|].
  cbn [fmap list_fmap omap list_omap snd]. destruct m; naive_solver.
Qed.

(** A broadcast reaches every replica once. *)
Lemma sent_to_queues rid k i : sent_to rid (to_queues k (MStorageInsert i)) = if decide (rid ∈ queues k) then [i] else [].
Proof.
  unfold to_queues. pose proof (NoDup_elements (queues k)) as Hnd.
  rewrite (decide_ext _ (rid ∈ elements (queues k))) by (symmetry; apply elem_of_elements).
  induction Hnd as [|r rs Hr _ IH]; [done|]. cbn [fmap list_fmap]. change (?x :: ?l) with ([x] ++ l) at 1.
  rewrite sent_to_app, IH. unfold sent_to at 1. cbn [omap list_omap]. destruct (Z.eqb_spec r rid) as [->|Hne].
  - rewrite decide_False by done. by rewrite decide_True by set_solver.
  - apply decide_ext. set_solver.
Qed.

Lemma requests_broadcast k i : queues k <> ∅ -> exists rest, requests (to_queues k (MStorageInsert i)) = i :: rest.
Proof.
  intros Hk. unfold requests, to_queues. destruct (elements (queues k)) as [|r rs] eqn:E; [|by eexists].
  by apply elements_empty_iff in E; fold_leibniz.
Qed.

Section client.
Variables client_id shard_id failures : Z.
Variable estimate : option pid.
Variable connect : sockaddr_in -> option (message * Z).
Hypothesis failures_range : 0 <= failures < UINT64_MAX.

(** The requests [l] wait in the queue, in buffers that say whose they are, and the payloads
    of all buffers have the length they say. *)
Record app_ok (l : list (Z * Z)) (c : client) : Prop := {
  ap_queue : queue_rep (requests_ c) l;
  ap_requests : Forall (fun x => exists b, buffers (c_memory c) !! x.1 = Some b /\ ins_client_id b = client_id) l;
  ap_memory : map_Forall (fun _ => sized) (buffers (c_memory c)) }.

(** What is known of a request that was sent. *)
Definition sent_ok (x : option Z * storage_insert) : Prop :=
  ins_client_id x.2 = client_id /\ sized x.2 /\ is_u64 (ins_num_slots x.2).

(** An iteration has sent nothing, or one request to all replicas. *)
Definition sent_new (Q : gset Z) (new : list (option Z * storage_insert)) (out : Client.outputs) : Prop :=
  new = [] /\ requests out = [] \/
  Q <> ∅ /\ exists x, new = [x] /\ sent_ok x /\ forall rid, sent_to rid out = if decide (rid ∈ Q) then [x.2] else [].

Lemma switch_epoch_requests now s r s' r' out :
  switch_epoch client_id estimate now s r = Ok (s', r', out) -> requests out = [].
Proof.
  unfold switch_epoch. destruct (epochs s) as [|next rest]; [by intros [= <- <- <-]|].
  destruct (_ <=? _); [|by intros [= <- <- <-]]. intros H. inv_result. revert E.
  destruct estimate as [p|]; [|intros Hx; by simplify_eq].
  destruct (negb (e_begin (current s) =? e_begin FIRST_EPOCH)); [|intros Hx; by simplify_eq].
  unfold update_rate. intros Hx. inv_result. destruct (negb (SpecFloat.SFeqb _ _)); by inv_result.
Qed.

Lemma check_stop_requests stop k : requests (check_stop client_id stop k).2 = [] /\ queues (check_stop client_id stop k).1 = queues k.
Proof. unfold check_stop. destruct (_ && _); [|done]. split; [by apply requests_to_queues|done]. Qed.

Definition new_of (c c' : client) (out : Client.outputs) : list (option Z * storage_insert) :=
  zip (o_response <$> drop (length (outstandings (c_acks c))) (outstandings (c_acks c'))) (requests out).

Lemma send_requests_sent now l c c' out :
  app_ok l c -> num_enqueued_ (requests_ c) < W64 -> send_requests client_id failures now c = Ok (c', out) ->
  queues (c_conn c') = queues (c_conn c) /\ num_enqueued_ (requests_ c') = num_enqueued_ (requests_ c) /\
  (exists l', app_ok l' c') /\ sent_new (queues (c_conn c)) (new_of c c' out) out /\
  new_requests c c' = (fun x => Sent x.1) <$> new_of c c' out.
Proof.
  intros [Hq Hr Hm] Hb. unfold send_requests, new_of, new_requests. destruct (can_send failures now c) eqn:Hc.
  2:{ intros [= <- <-]. rewrite drop_all. split_and!; [done|done|by exists l|by left|done]. }
  assert (queues (c_conn c) <> ∅) as Hne.
  { unfold can_send in Hc. rewrite !andb_true_iff, Z.ltb_lt in Hc. destruct Hc as [[[_ Hsz] _] _].
    apply Z.ltb_lt in Hsz. intros He. rewrite He, size_empty in Hsz. simpl in Hsz. lia. }
  set (n := wrap64 _). assert (is_u64 n) as Hn by apply wrap64_range. clearbody n.
  destruct (dequeue_rep _ _ Hq Hb) as (q' & -> & Hq' & Hnq). cbn [mbind result_bind].
  destruct l as [|[request response] l]; cbn [head tail] in *.
  - destruct (decide (outstandings (c_acks c) = [])) as [Ho|]; intros [= <- <-]; cbn [c_conn c_acks outstandings requests_].
    + destruct (requests_broadcast (c_conn c) (nop client_id n) Hne) as [rest Hrest]. rewrite Ho, Hrest. simpl.
      split_and!; [done|done|by exists []| |by destruct rest]. right. split; [done|]. exists (None, nop client_id n).
      split; [by destruct rest|]. split; [done|]. intros rid. apply sent_to_queues.
    + rewrite drop_all. split_and!; [done|done|by exists []|by left|done].
  - apply Forall_cons in Hr as [(b & Hl & Hid) Hr]. cbn [fst] in Hl. rewrite Hl. cbn [deref mbind result_bind]. intros H. inv_result.
    unfold send_all in E. inv_result. cbn [c_conn c_acks outstandings requests_].
    destruct (requests_broadcast (c_conn c) (with_num_slots n b) Hne) as [rest Hrest]. rewrite drop_app_length, Hrest. simpl.
    split_and!; [done|done| | |by destruct rest].
    + exists l. split; cbn [requests_ c_memory buffers]; [done| |].
      * eapply Forall_impl; [exact Hr|]. intros x (b' & Hx & Hid'). destruct (decide (request = x.1)) as [->|].
        -- exists (with_num_slots n b). by rewrite lookup_insert_eq.
        -- exists b'. by rewrite lookup_insert_ne.
      * apply map_Forall_insert_2; [exact (Hm request b Hl)|done].
    + right. split; [done|]. exists (Some response, with_num_slots n b). split; [by destruct rest|].
      split; [split; [done|split; [exact (Hm request b Hl)|done]]|]. intros rid. apply sent_to_queues.
Qed.

Lemma before_recv_sent stop now l c c' out :
  app_ok l c -> num_enqueued_ (requests_ c) < W64 -> before_recv client_id failures estimate stop now c = Ok (c', out) ->
  queues (c_conn c') = queues (c_conn c) /\ num_enqueued_ (requests_ c') = num_enqueued_ (requests_ c) /\
  (exists l', app_ok l' c') /\ sent_new (queues (c_conn c)) (new_of c c' out) out /\
  new_requests c c' = (fun x => Sent x.1) <$> new_of c c' out.
Proof.
  intros [Hq Hr Hm] Hb. unfold before_recv. destruct (check_stop_requests stop (c_conn c)) as [H1 Hqs].
  destruct (check_stop client_id stop (c_conn c)) as [k out1]. cbn [fst snd] in *. intros H. inv_result.
  apply switch_epoch_requests in E. destruct (send_requests_sent now l (Client k s r (c_acks c) (c_memory c) (requests_ c)) _ _ ltac:(by split) Hb E0) as (Hq1 & Hn1 & Hl1 & Hs & Hr1).
  unfold new_of, new_requests, sent_new in *. cbn [c_conn c_acks requests_] in *. rewrite !requests_app, H1, E. cbn [app].
  rewrite Hqs in *. split_and!; [done|done|done| |done]. destruct Hs as [Hs|(? & x & Hx & Hok & Hs)]; [by left|right].
  split; [done|]. exists x. split; [done|]. split; [done|]. intros rid. rewrite !sent_to_app, (sent_to_none rid out1), (sent_to_none rid l0) by done. apply Hs.
Qed.

(** Receiving sends no request and keeps the application's side. *)
Definition received_ok (c c' : client) (out : Client.outputs) : Prop :=
  requests out = [] /\ requests_ c' = requests_ c /\ buffers (c_memory c') = buffers (c_memory c).

Definition not_info (m : message) : Prop := match m with MClientStorageInfo _ => False | _ => True end.

#[export] Instance not_info_dec m : Decision (not_info m).
Proof. destruct m; (left; exact I) || (right; intros []). Defined.

Lemma client_recv_received m c c' out :
  Client.client_recv client_id shard_id failures connect m c = Ok (c', out) ->
  received_ok c c' out /\ (not_info m -> queues (c_conn c') ⊆ queues (c_conn c)).
Proof.
  intros H. destruct m; cbn [Client.client_recv not_info] in *; try (by injection H as <- <-); try by inv_result.
  - destruct (on_storage_finished client_id shard_id _ (c_conn c)) as [k o] eqn:E. injection H as <- <-.
    revert E. unfold on_storage_finished. destruct (_ || _); intros [= <- <-]; [done|].
    split; [|intros _; simpl; set_solver]. by case_decide.
  - unfold on_client_insert_ack in H. destruct (_ && _); [by injection H as <- <-|].
    destruct (find_ack _ _) as [[[b it] af]|]; [|by injection H as <- <-].
    destruct (_ <? _); [|by injection H as <- <-]. by destruct (o_response it); injection H as <- <-.
Qed.

Lemma recv_batch_received ms c out c' out' :
  mfold (fun m '(c, out) => '(c, o) ← Client.client_recv client_id shard_id failures connect m c; Ok (c, out ++ o)) ms (c, out) = Ok (c', out') ->
  exists o, out' = out ++ o /\ received_ok c c' o /\ (Forall not_info ms -> queues (c_conn c') ⊆ queues (c_conn c)).
Proof.
  revert c out. induction ms as [|m ms IH]; intros c out H; cbn [mfold] in H.
  { injection H as <- <-. exists []. by rewrite app_nil_r. }
  inv_result. destruct (client_recv_received _ _ _ _ E0) as ((H1 & H2 & H3) & Hq). destruct (IH _ _ H) as (o2 & -> & (H4 & H5 & H6) & Hqs).
  eexists. rewrite <- app_assoc. split; [done|]. split.
  - split_and!; [by rewrite requests_app, H1, H4|congruence|congruence].
  - intros [Hm Hms]%Forall_cons. etrans; [by apply Hqs|by apply Hq].
Qed.

(** One event of the client. *)
Lemma step_sent e l c c' out :
  app_ok l c -> num_enqueued_ (requests_ c) + 1 < W64 ->
  match e with Fill request b => sized b /\ request ∉ l.*1 | _ => True end ->
  step client_id shard_id failures estimate connect e c = Ok (c', out) ->
  (exists l', app_ok l' c') /\ num_enqueued_ (requests_ c') <= num_enqueued_ (requests_ c) + 1 /\
  sent_new (queues (c_conn c)) (new_sent client_id failures estimate e c) out /\
  (Forall not_info (received e c) -> queues (c_conn c') ⊆ queues (c_conn c)) /\
  labels client_id failures estimate e c =
    match e with Insert _ response => [Called response] | _ => [] end ++
    ((fun x => Sent x.1) <$> new_sent client_id failures estimate e c) ++ omap acked_label (received e c).
Proof.
  intros Hok Hb He H. pose proof Hok as [Hq Hr Hm]. destruct e as [request b|request response|stop now ms]; cbn [step labels new_sent received] in *.
  - injection H as <- <-. split_and!; [|simpl; lia|by left|done|done]. exists l. split; simpl; [done| |by apply map_Forall_insert_2; [apply He|]].
    apply Forall_forall. intros x Hx. rewrite Forall_forall in Hr. destruct (Hr x Hx) as (b' & Hb' & Hid). exists b'.
    rewrite lookup_insert_ne; [done|]. intros ->. apply He. by apply list_elem_of_fmap_2.
  - unfold Client.insert in H. inv_result. cbn [c_conn requests_ enqueue num_enqueued_ app].
    pose proof (qr_polled _ _ Hq). pose proof (qr_enqueued _ _ Hq).
    split_and!; [|rewrite wrap64_small; lia|by left|done|done]. exists (l ++ [(request, response)]). split; cbn [requests_ c_memory buffers].
    + by apply enqueue_rep.
    + assert (forall x : Z * Z, x.1 = request \/ (exists b, buffers (c_memory c) !! x.1 = Some b /\ ins_client_id b = client_id) ->
        exists b, <[request := with_client_id client_id r]> (buffers (c_memory c)) !! x.1 = Some b /\ ins_client_id b = client_id) as Hins.
      { intros x Hx. destruct (decide (request = x.1)) as [->|Hne].
        - exists (with_client_id client_id r). by rewrite lookup_insert_eq.
        - destruct Hx as [<-|(b & Hx & Hid)]; [done|]. exists b. by rewrite lookup_insert_ne. }
      apply Forall_app_2; [|apply Forall_singleton; apply Hins; by left]. eapply Forall_impl; [exact Hr|]. intros x Hx. apply Hins. by right.
    + apply map_Forall_insert_2; [exact (Hm request r E0)|done].
  - destruct (ended (c_conn c)).
    { injection H as <- <-. split_and!; [by exists l|lia|by left|done|done]. }
    unfold round, recv_batch in H. inv_result. fold (new_of c c0 l0).
    destruct (before_recv_sent stop now l c c0 l0 Hok ltac:(lia) E) as (Hqs & Hn & (l' & Hl') & Hs & Hnew).
    destruct (recv_batch_received _ _ _ _ _ E0) as (o & -> & (Ho & Hrq & Hbuf) & Hsub). cbn [app].
    rewrite E, Hnew. split_and!; [|rewrite Hrq; lia| |by rewrite <- Hqs|done].
    + exists l'. destruct Hl' as [? ? ?]. split; by rewrite ?Hrq, ?Hbuf.
    + destruct Hs as [[? Hs]|(? & x & ? & ? & Hs)]; [left|right]; [split; [done|by rewrite requests_app, Hs, Ho]|].
      split; [done|]. exists x. split; [done|]. split; [done|]. intros rid. by rewrite sent_to_app, Hs, (sent_to_none rid o), app_nil_r by done.
Qed.
End client.

(** ** The invariant of the system *)

(** The acknowledgements of every replica, counted. *)
Fixpoint count_acks (ms : list message) (acked : gmap Z nat) : gmap Z nat :=
  match ms with
  | [] => acked
  | MClientInsertAck a :: ms => count_acks ms (<[ack_replica_id a := S (default 0%nat (acked !! ack_replica_id a))]> acked)
  | _ :: ms => count_acks ms acked
  end.

Lemma q_run_app failures xs ys q : q_run failures (xs ++ ys) q = q_run failures ys (q_run failures xs q).
Proof. apply foldl_app. Qed.

Lemma q_run_acks failures ms q :
  q_acked (q_run failures (omap acked_label ms) q) = count_acks ms (q_acked q) /\
  q_sent (q_run failures (omap acked_label ms) q) = q_sent q.
Proof. revert q. induction ms as [|m ms IH]; intros q; [done|]. destruct m; cbn [omap list_omap acked_label count_acks]; try apply IH. exact (IH (q_step failures (Acked _ _) q)). Qed.

Lemma q_run_sent failures (new : list (option Z * storage_insert)) q :
  q_run failures ((fun x => Sent x.1) <$> new) q = Quorum (q_sent q ++ new.*1) (q_acked q) (q_responses q).
Proof.
  revert q. induction new as [|x new IH]; intros q; [rewrite app_nil_r; by destruct q|].
  cbn [fmap list_fmap]. unfold q_run in *. cbn [foldl]. rewrite IH. cbn [q_step q_sent q_acked q_responses]. by rewrite <- app_assoc.
Qed.

Section quorum.
Variable failures : Z.
Variable G : list Z.

(** The responses that are not pending have a quorum. *)
Definition answered (q : quorum) : Prop :=
  forall x g, q_responses q !! x = Some g -> g = UINT64_MAX \/
    exists k, q_sent q !! k = Some (Some x) /\ G !! k = Some g /\ failures < Z.of_nat (ackers k (q_acked q)).

Lemma ackers_step j k r acked :
  default 0%nat (acked !! r) = k -> (ackers j acked <= ackers j (<[r := S k]> acked))%nat.
Proof. intros Hk. rewrite (ackers_insert j k) by done. destruct (decide (j = k)); lia. Qed.

Lemma q_step_answered x xs q :
  causal G (length (q_sent q)) (q_acked q) (x :: xs) -> answered q ->
  answered (q_step failures x q) /\ causal G (length (q_sent (q_step failures x q))) (q_acked (q_step failures x q)) xs.
Proof.
  intros Hc Ha. destruct x as [response|response|r gsn]; cbn [causal q_step q_sent q_acked q_responses] in *.
  - split; [|done]. intros y g Hy. cbn [q_responses q_sent q_acked] in *.
    destruct (decide (response = y)) as [->|Hne]; [rewrite lookup_insert_eq in Hy; left; congruence|].
    rewrite lookup_insert_ne in Hy by done. by apply Ha.
  - split; [|by rewrite length_app, Nat.add_1_r]. intros y g Hy. destruct (Ha y g Hy) as [?|(k & Hk & ?)]; [by left|right].
    exists k. split; [by apply lookup_app_l_Some|done].
  - destruct Hc as (Hlt & Hg & Hc). set (k := default 0%nat (q_acked q !! r)) in *. split; [|done].
    assert (forall y g, q_responses q !! y = Some g -> g = UINT64_MAX \/
      exists j, q_sent q !! j = Some (Some y) /\ G !! j = Some g /\ failures < Z.of_nat (ackers j (<[r := S k]> (q_acked q)))) as Hold.
    { intros y g Hy. destruct (Ha y g Hy) as [?|(j & ? & ? & Hj)]; [by left|right]. exists j. split; [done|]. split; [done|].
      pose proof (ackers_step j k r (q_acked q) eq_refl). lia. }
    intros y g Hy. cbn [q_responses q_sent q_acked] in *. destruct (q_sent q !! k) as [[x|]|] eqn:Hk; try by apply Hold.
    destruct (Z.eqb_spec (Z.of_nat (ackers k (<[r := S k]> (q_acked q)))) (failures + 1)) as [He|]; [|by apply Hold].
    destruct (decide (x = y)) as [->|Hne]; [|rewrite lookup_insert_ne in Hy by done; by apply Hold].
    rewrite lookup_insert_eq in Hy. injection Hy as <-. right. exists k. split; [done|]. split; [done|]. lia.
Qed.

Lemma q_run_answered xs q :
  causal G (length (q_sent q)) (q_acked q) xs -> answered q -> answered (q_run failures xs q).
Proof.
  revert q. induction xs as [|x xs IH]; intros q Hc Ha; [done|]. destruct (q_step_answered _ _ _ Hc Ha) as [Ha' Hc'].
  by apply (IH (q_step failures x q)).
Qed.

Lemma causal_mono n n' acked xs : causal G n acked xs -> (n <= n')%nat -> causal G n' acked xs.
Proof.
  revert n n' acked. induction xs as [|x xs IH]; intros n n' acked; [done|]. destruct x; cbn [causal].
  - apply IH.
  - intros ? ?. eapply IH; [done|lia].
  - intros (? & ? & ?) ?. split; [lia|]. split; [done|]. by eapply IH.
Qed.

Lemma causal_sent n acked (new : list (option Z * storage_insert)) xs :
  causal G (n + length new) acked xs -> causal G n acked (((fun x => Sent x.1) <$> new) ++ xs).
Proof.
  revert n. induction new as [|x new IH]; intros n; [by rewrite Nat.add_0_r|]. intros H. cbn [fmap list_fmap app causal].
  apply IH. by rewrite Nat.add_succ_comm.
Qed.
End quorum.

Section system.
Variables client_id shard_id failures : Z.
Variable estimate : option pid.
Variable connect : sockaddr_in -> option (message * Z).
Hypothesis failures_range : 0 <= failures < UINT64_MAX.

Variable SL : list (Z * Z).
Hypothesis SL_increasing : gsns_increasing SL.
Hypothesis SL_range : forall x, x ∈ SL -> 0 <= x.2 < UINT64_MAX.
Variable final : list (option Z * storage_insert).

Abbreviation G := (gsns client_id SL final).

Lemma G_increasing i j a b : (i < j)%nat -> G !! i = Some a -> G !! j = Some b -> a < b.
Proof. intros Hij Ha Hb. by eapply promised_increasing. Qed.

Lemma G_range : Forall (fun g => 0 <= g < UINT64_MAX) G.
Proof.
  apply Forall_lookup. intros i g (m & _ & (k & _ & Hk)%client_gsn_lookup & _)%promised_inv.
  apply (SL_range (client_id, g)). by eapply list_elem_of_lookup_2.
Qed.

(** All replicas. *)
Definition links_ok (H : list (option Z * storage_insert)) (Q : gset Z) (acked : gmap Z nat) (L : gmap Z link) : Prop :=
  forall rid ln, L !! rid = Some ln ->
    exists sl base h a, link_ok client_id SL final H Q rid (default 0%nat (acked !! rid)) ln sl base h a.

(** Acknowledgements come from replicas. *)
Definition acked_ok (acked : gmap Z nat) (L : gmap Z link) : Prop := forall rid, is_Some (acked !! rid) -> is_Some (L !! rid).

(** What a client receives from a replica is the next acknowledgement. *)
Lemma link_received H Q rid r ln sl base h a ack rest :
  link_ok client_id SL final H Q rid r ln sl base h a -> ln_answers ln = ack :: rest ->
  (r < length H)%nat /\ ack_replica_id ack = rid /\ G !! r = Some (ack_gsn ack) /\
  link_ok client_id SL final H Q rid (S r) (Link (ln_server ln) (ln_epochs ln) (ln_requests ln) rest (ln_acked ln)) sl base h a.
Proof.
  intros [Hl Hrep Hak Hp Hall Hh Hc Ha Hst] E. rewrite E in Ha.
  destruct (a - r)%nat as [|n] eqn:Hn; [done|]. destruct (G !! r) as [g|] eqn:Hg.
  2:{ apply lookup_ge_None in Hg. by rewrite drop_ge in Ha by done. }
  rewrite (drop_S _ _ _ Hg) in Ha. cbn [take fmap list_fmap] in Ha. injection Ha as -> ->.
  split; [lia|]. split; [done|]. split; [done|].
  split; cbn [ln_server ln_epochs ln_requests ln_answers ln_acked]; try done; [lia|]. by replace (a - S r)%nat with n by lia.
Qed.

Lemma collect_ok ms H Q acked L L' :
  collect ms L = Some L' -> links_ok H Q acked L -> acked_ok acked L ->
  causal G (length H) acked (omap acked_label ms) /\ links_ok H Q (count_acks ms acked) L' /\ acked_ok (count_acks ms acked) L'.
Proof.
  revert acked L. induction ms as [|m ms IH]; intros acked L E HL Ha; [by injection E as <-|].
  destruct m; cbn [collect count_acks omap list_omap acked_label] in *; try by apply (IH acked L).
  rename m into ack. destruct (L !! ack_replica_id ack) as [ln|] eqn:Hln; [|done]. cbn [mbind option_bind] in E.
  destruct (ln_answers ln) as [|ack' rest] eqn:Hans; [done|].
  destruct (Z.eqb_spec (ack_replica_id ack') (ack_replica_id ack)) as [Hr|]; [|done].
  destruct (Z.eqb_spec (ack_gsn ack') (ack_gsn ack)) as [Hg|]; [|done]. cbn [andb] in E.
  destruct (HL _ _ Hln) as (sl & base & h & a & Hok).
  destruct (link_received _ _ _ _ _ _ _ _ _ _ _ Hok Hans) as (Hlt & _ & Hgsn & Hok'). rewrite Hg in Hgsn.
  destruct (IH (<[ack_replica_id ack := S (default 0%nat (acked !! ack_replica_id ack))]> acked) _ E) as (H1 & H2 & H3).
  - intros rid ln' Hl. destruct (decide (ack_replica_id ack = rid)) as [<-|Hne].
    + rewrite lookup_insert_eq in Hl. rewrite lookup_insert_eq. injection Hl as <-. cbn [default]. by exists sl, base, h, a.
    + rewrite lookup_insert_ne in Hl by done. rewrite lookup_insert_ne by done. by apply HL.
  - intros rid. destruct (decide (ack_replica_id ack = rid)) as [<-|Hne].
    + intros _. rewrite lookup_insert_eq. by eexists.
    + rewrite !lookup_insert_ne by done. apply Ha.
  - split; [|done]. by cbn [causal].
Qed.

(** The messages that the client sends are on the way. *)
Lemma post_ok H Q Q' acked L new out :
  links_ok H Q acked L -> sent_new client_id Q new out -> (Q' ⊆ Q \/ H = [] /\ new = []) ->
  links_ok (H ++ new) Q' acked (post_all out L).
Proof.
  intros HL Hnew HQ rid ln' Hl. unfold post_all in Hl. rewrite map_lookup_imap in Hl.
  destruct (L !! rid) as [ln|] eqn:Hln; [|done]. injection Hl as <-.
  destruct (HL _ _ Hln) as (sl & base & h & a & [Hlog Hrep Hak Hp Hall Hh Hc Ha Hst]). exists sl, base, h, a.
  assert (h <= length H.*2)%nat as Hh2 by (rewrite length_fmap; lia).
  split; cbn [post ln_server ln_epochs ln_requests ln_answers ln_acked]; try done.
  - destruct Hnew as [[-> Hn]|(_ & x & -> & _ & Hs)].
    + rewrite sent_to_none, !app_nil_r by done. done.
    + rewrite Hs, fmap_app, drop_app_le by done. case_decide as Hin; [by rewrite (Hall Hin)|].
      rewrite app_nil_r. by apply prefix_app_r.
  - intros Hin. destruct HQ as [HQ|[-> ->]].
    + destruct Hnew as [[-> Hn]|(_ & x & -> & _ & Hs)].
      * rewrite sent_to_none, !app_nil_r by done. apply Hall. set_solver.
      * rewrite Hs, fmap_app, drop_app_le, decide_True by set_solver. rewrite Hall by set_solver. done.
    + destruct Hnew as [[_ Hn]|(_ & x & ? & _)]; [|done]. rewrite sent_to_none, app_nil_r by done.
      simpl in Hp |- *. rewrite drop_nil in Hp |- *. by apply prefix_nil_inv in Hp.
  - rewrite length_app. lia.
  - intros Hd. destruct (Hc Hd) as [-> Hcur]. split; [done|]. by rewrite fmap_app, take_app_le.
  - intros i Hi. destruct (Hst i Hi) as (response & req & g & k & stale & HH & ?). exists response, req, g, k, stale.
    split; [by apply lookup_app_l_Some|done].
Qed.

(** The client's state, with the abstract machine [q] that answers by a quorum; the replicas;
    and the application's buffers. *)
Record sys_ok (x : system) (q : quorum) (l : list (Z * Z)) : Prop := {
  sk_refines : refines failures G q (c_acks (sy_client x)) (c_memory (sy_client x)) [];
  sk_sent : q_sent q = (sy_sent x).*1;
  sk_answered : answered failures G q;
  sk_links : links_ok (sy_sent x) (queues (c_conn (sy_client x))) (q_acked q) (sy_links x);
  sk_acked : acked_ok (q_acked q) (sy_links x);
  sk_app : app_ok client_id l (sy_client x);
  sk_history : Forall (sent_ok client_id) (sy_sent x) }.

Abbreviation sys_step := (System.sys_step client_id shard_id failures estimate connect).
Abbreviation sys_run := (System.sys_run client_id shard_id failures estimate connect).
Abbreviation sys_events_ok := (System.sys_events_ok client_id shard_id failures estimate connect).

Lemma server_step_ok rid e x q l x' :
  sys_ok x q l -> sy_sent x `prefix_of` final -> sys_event_ok client_id (AtServer rid e) x ->
  sys_step (AtServer rid e) x = Some x' ->
  sys_ok x' q l /\ sy_sent x' = sy_sent x /\ sy_client x' = sy_client x.
Proof.
  intros [H1 H2 H3 H4 H5 H6 H7] Hf [Hw Hrec] E. cbn [System.sys_step] in E. unfold server_step in E.
  destruct (sy_links x !! rid) as [ln|] eqn:Hln; [|done]. cbn [mbind option_bind] in E. specialize (Hrec _ eq_refl).
  destruct (take_event client_id e ln) as [ln1|] eqn:Ht; [|done]. cbn [mbind option_bind] in E.
  rewrite (take_event_server _ _ _ _ Ht) in E. destruct (Storage.handle e (ln_server ln)) as [[s out]|] eqn:Eh; [|done]. injection E as <-.
  split; [|done]. split; cbn [sy_client sy_links sy_sent]; try done.
  - intros rid' ln' Hl. destruct (decide (rid = rid')) as [<-|Hne]; [|rewrite lookup_insert_ne in Hl by done; by apply H4].
    rewrite lookup_insert_eq in Hl. injection Hl as <-. destruct (H4 _ _ Hln) as (sl & base & h & a & Hok).
    destruct (insert_of client_id e) as [req|] eqn:Hi.
    + destruct e as [|stale []| | |]; try discriminate Hi. cbn [insert_of] in Hi.
      destruct (Z.eqb_spec (ins_client_id m) client_id) as [Hid|]; [|done].
      destruct (link_insert _ _ _ _ _ _ _ _ _ _ _ _ _ _ _ _ _ Hok Hf Hid Hw Ht Eh) as (base' & a' & ?). eauto.
    + destruct (link_quiet _ _ _ _ _ _ _ _ _ _ _ _ _ _ _ _ Hok Hi Hw Hrec Ht Eh) as (sl' & base' & ?). eauto.
  - intros rid' Hr. destruct (decide (rid = rid')) as [<-|Hne]; [rewrite lookup_insert_eq; by eexists|].
    rewrite lookup_insert_ne by done. by apply H5.
Qed.

Lemma client_step_ok e x q l x' :
  sys_ok x q l -> num_enqueued_ (requests_ (sy_client x)) + 1 < W64 -> sys_event_ok client_id (AtClient e) x ->
  sys_step (AtClient e) x = Some x' ->
  exists q' l', sys_ok x' q' l' /\ sy_sent x `prefix_of` sy_sent x' /\
    num_enqueued_ (requests_ (sy_client x')) <= num_enqueued_ (requests_ (sy_client x)) + 1.
Proof.
  intros [H1 H2 H3 H4 H5 H6 H7] Hb He E. cbn [System.sys_step] in E. unfold client_step in E.
  destruct (step client_id shard_id failures estimate connect e (sy_client x)) as [[c' out]|] eqn:Es; [|done].
  destruct (collect (received e (sy_client x)) (sy_links x)) as [L|] eqn:Ec; [|done]. cbn [mbind option_bind] in E. injection E as <-.
  assert (match e with Fill request b => sized b /\ request ∉ l.*1 | _ => True end) as Hfill.
  { destruct e; try done. destruct He as [? Hw]. by rewrite (waiting_rep _ _ (ap_queue _ _ _ H6)) in Hw. }
  destruct (step_sent client_id shard_id failures estimate connect failures_range _ _ _ _ _ H6 Hb Hfill Es)
    as ((l' & Hl') & Hn & Hnew & Hsub & Hlab).
  set (new := new_sent client_id failures estimate e (sy_client x)) in *.
  destruct (collect_ok _ _ _ _ _ _ Ec H4 H5) as (Hc & HL & Ha).
  set (ms := received e (sy_client x)) in *.
  set (labs := labels client_id failures estimate e (sy_client x)) in *.
  assert (length (q_sent q) = length (sy_sent x)) as Hlen by (by rewrite H2, length_fmap).
  assert (causal G (length (q_sent q)) (q_acked q) labs) as Hcausal.
  { rewrite Hlab, Hlen. assert (causal G (length (sy_sent x)) (q_acked q) (((fun x => Sent x.1) <$> new) ++ omap acked_label ms)) as Hc'.
    { apply causal_sent. eapply causal_mono; [exact Hc|lia]. }
    destruct e; exact Hc'. }
  assert (q_sent (q_run failures labs q) = q_sent q ++ new.*1 /\ q_acked (q_run failures labs q) = count_acks ms (q_acked q)) as [Hqs Hqa].
  { rewrite Hlab, !q_run_app. destruct (q_run_acks failures ms (q_run failures
      ((fun x => Sent x.1) <$> new) (q_run failures (match e with Insert _ response => [Called response] | _ => [] end) q))) as [-> ->].
    rewrite q_run_sent. by destruct e. }
  exists (q_run failures labs q), l'. split; [|split; [by eexists|done]].
  split; cbn [sy_client sy_links sy_sent].
  - apply (step_refines client_id shard_id failures estimate connect failures_range G G_increasing G_range e (sy_client x) c' out q []); [|done].
    destruct H1 as (? & ? & ? & _). split; [done|]. split; [done|]. split; [done|]. by rewrite app_nil_r.
  - by rewrite Hqs, H2, fmap_app.
  - by apply q_run_answered.
  - rewrite Hqa. eapply post_ok; [exact HL|exact Hnew|].
    destruct (decide (Forall not_info ms)) as [Hms|Hms]; [left; by apply Hsub|right].
    assert (sy_sent x = [] /\ queues (c_conn (sy_client x)) = ∅) as [Hs HQ].
    { unfold ms, received in Hms. destruct e as [| |stop now ms']; try (by destruct Hms). destruct (ended _); [by destruct Hms|].
      apply not_Forall_Exists in Hms; [|apply _]. apply Exists_exists in Hms as (m & Hm & Hi). cbn [sys_event_ok] in He.
      rewrite Forall_forall in He. specialize (He m Hm). by destruct m. }
    split; [done|]. by destruct Hnew as [[-> _]|(Hne & _)].
  - rewrite Hqa. intros rid Hr. destruct (Ha rid Hr) as [ln Hln]. unfold post_all. rewrite map_lookup_imap, Hln. by eexists.
  - done.
  - apply Forall_app_2; [done|]. destruct Hnew as [[-> _]|(_ & y & -> & ? & _)]; [constructor|by apply Forall_singleton].
Qed.

Lemma sys_step_sent e x x' : sys_step e x = Some x' -> sy_sent x `prefix_of` sy_sent x'.
Proof.
  destruct e as [e|rid e]; cbn [System.sys_step].
  - unfold client_step. destruct (step _ _ _ _ _ _ _) as [[c' out]|]; [|done].
    destruct (collect _ _); [|done]. intros [= <-]. by eexists.
  - unfold server_step. destruct (sy_links x !! rid) as [ln|]; [|done]. cbn [mbind option_bind].
    destruct (take_event _ _ _) as [ln1|]; [|done]. cbn [mbind option_bind]. destruct (Storage.handle _ _) as [[s out]|]; [|done].
    by intros [= <-].
Qed.

Lemma sys_run_sent es x x' : sys_run es x = Some x' -> sy_sent x `prefix_of` sy_sent x'.
Proof.
  revert x. induction es as [|e es IH]; intros x E; cbn [System.sys_run] in E; [by injection E as <-|].
  destruct (sys_step e x) as [x1|] eqn:Es; [|done]. etrans; [by eapply sys_step_sent|by apply IH].
Qed.

Lemma sys_run_ok es x q l x' :
  sys_ok x q l -> num_enqueued_ (requests_ (sy_client x)) + Z.of_nat (length es) < W64 ->
  sys_events_ok es x -> sys_run es x = Some x' -> sy_sent x' `prefix_of` final -> exists q' l', sys_ok x' q' l'.
Proof.
  revert x q l. induction es as [|e es IH]; intros x q l H Hb He E Hf; cbn [System.sys_run System.sys_events_ok length] in *.
  { injection E as <-. eauto. }
  destruct He as [He Hes]. destruct (sys_step e x) as [x1|] eqn:Es; [|done]. cbn [mbind option_bind] in E.
  destruct e as [e|rid e].
  - destruct (client_step_ok _ _ _ _ _ H ltac:(lia) He Es) as (q' & l' & H' & _ & Hn). eapply IH; [exact H'|lia|done..].
  - assert (sy_sent x `prefix_of` final) as Hp.
    { etrans; [by eapply sys_step_sent|]. etrans; [by eapply sys_run_sent|done]. }
    destruct (server_step_ok _ _ _ _ _ _ H Hp He Es) as (H' & _ & Hc). eapply IH; [exact H'|rewrite Hc; lia|done..].
Qed.

(** The entry with GSN [g] belongs to client [c], is set, and reading it gives [data]. *)
Definition holds (c g : Z) (data : list Byte.byte) (s : storage) : Prop :=
  exists q, let e := get_entry (st_log_ s) q in
    e_client_id e = c /\ e_gsn e = g /\ e_set e = true /\ entry_payload e = Ok data.

Lemma link_holds H Q rid r ln sl base h a i :
  link_ok client_id SL final H Q rid r ln sl base h a -> Forall (sent_ok client_id) H -> (i < r)%nat ->
  exists response req g, H !! i = Some (response, req) /\ G !! i = Some g /\ holds client_id g (ins_data req) (ln_server ln).
Proof.
  intros Hok Hsent Hi. destruct (lo_stored _ _ _ _ _ _ _ _ _ _ _ _ Hok i) as (response & req & g & k & stale & HH & Hg & Hk & _ & Hset & Hd & Hl).
  { pose proof (lo_handled _ _ _ _ _ _ _ _ _ _ _ _ Hok). lia. }
  exists response, req, g. split; [done|]. split; [done|]. exists (addr k).
  destruct (rep_some _ _ (so_rep _ _ (lg_server _ _ _ _ _ (lo_log _ _ _ _ _ _ _ _ _ _ _ _ Hok))) _ _ _ Hk) as (_ & ? & ?).
  split; [done|]. split; [done|]. split; [done|]. eapply entry_payload_copy; [by rewrite Hd, Hl|]. rewrite Hl.
  by apply (Forall_lookup_1 _ _ _ _ Hsent HH).
Qed.

(** A response in the application's memory is a GSN at which a quorum holds the request. *)
Lemma sys_ok_durable x q l loc g :
  sys_ok x q l -> responses (c_memory (sy_client x)) !! loc = Some g -> g <> UINT64_MAX ->
  exists k req, sy_sent x !! k = Some (Some loc, req) /\ G !! k = Some g /\
    exists R : gset Z, failures < Z.of_nat (size R) /\
      forall rid, rid ∈ R -> exists ln, sy_links x !! rid = Some ln /\ holds client_id g (ins_data req) (ln_server ln).
Proof.
  intros [(_ & Hm & _) Hs Ha HL Hak _ Hh] Hr Hg. rewrite Hm in Hr. destruct (Ha _ _ Hr) as [?|(k & Hk & HG & Hq)]; [done|].
  rewrite Hs, list_lookup_fmap in Hk. destruct (sy_sent x !! k) as [[response req]|] eqn:HH; [|done]. injection Hk as ->.
  exists k, req. split; [done|]. split; [done|]. exists (dom (filter (fun x : Z * nat => (k < x.2)%nat) (q_acked q))).
  split; [by rewrite size_dom|]. intros rid [n Hn]%elem_of_dom. apply map_lookup_filter_Some in Hn as [Hn Hlt]. simpl in Hlt.
  destruct (Hak rid) as [ln Hln]; [by eexists|]. exists ln. split; [done|].
  destruct (HL _ _ Hln) as (sl & base & h & a & Hok). rewrite Hn in Hok.
  destruct (link_holds _ _ _ _ _ _ _ _ _ k Hok Hh Hlt) as (response' & req' & g' & HH' & HG' & Hold).
  rewrite HH in HH'. injection HH' as <- <-. rewrite HG in HG'. by injection HG' as <-.
Qed.
End system.

(** ** The property *)

Lemma server_link shard_id rid ct st sd s :
  storage_init shard_id rid ct st sd = Ok s -> st_replica_id_ s = rid /\ forall c, s_position (client_of s c) = position_init c.
Proof. unfold storage_init. intros E. by inv_result. Qed.

Lemma sys_init_ok client_id shard_id failures u oes o r servers final :
  0 <= failures -> order_ok o -> order_events_ok oes o -> order_exec oes o = Ok r ->
  Forall (fun e => ~ storage_intro_event e) oes -> 0 <= shard_id < NUM_SHARDS ->
  (forall rid s, servers !! rid = Some s ->
     rid ∈ replicas o shard_id /\ exists ct st sd, storage_init shard_id rid ct st sd = Ok s) ->
  sys_ok client_id failures (slots_of_epochs (EpochSpec.epochs shard_id oes o)) final
    (sys_init shard_id u servers r.2) (Quorum [] ∅ ∅) [].
Proof.
  intros Hf H Hok E Hs Hsid Hsv. split; cbn [sys_init sy_client sy_sent sy_links q_sent q_acked q_responses loop_init c_conn queues].
  - split; [|done]. exists 0%nat. split; cbn [q_sent q_acked]; [done|lia| |done|done|lia]. intros k _.
    rewrite ackers_zero; [lia|]. intros rid. rewrite lookup_empty. simpl. lia.
  - done.
  - intros x g Hx. cbn [q_responses] in Hx. by rewrite lookup_empty in Hx.
  - intros rid ln Hl. rewrite map_lookup_imap in Hl. destruct (servers !! rid) as [s|] eqn:Hsr; [|done].
    destruct (Hsv _ _ Hsr) as (Hr & ct & st & sd & Hi). destruct (server_link _ _ _ _ _ _ Hi) as [Hrep Hpos].
    injection Hl as <-. exists [], (gsn_base_ o), 0%nat, 0%nat. rewrite lookup_empty. cbn [default].
    rewrite (slots_sent_run oes o r) by done. split; cbn [ln_server ln_epochs ln_requests ln_answers ln_acked]; try done.
    + split; [by eapply server_ok_init|by apply (epochs_consecutive oes o r)|constructor|simpl; apply (ok_gsn _ H)|done].
    + split_and!; lia.
    + intros _. split; [done|]. rewrite Hpos. apply cursor_init.
    + intros i Hi'. lia.
  - intros rid [n Hn]. by rewrite lookup_empty in Hn.
  - split; simpl; [by split|constructor|apply map_Forall_empty].
  - constructor.
Qed.

(** The invariant holds after every run that begins with the epochs of a run of the ordering
    server; the slots of the shard are those of these epochs. *)
Definition run_slots (shard_id : Z) (oes : list Order.event) (o : order) : list (Z * Z) :=
  slots_of_epochs (EpochSpec.epochs shard_id oes o).

Lemma run_slots_ok shard_id oes o r :
  order_ok o -> order_events_ok oes o -> order_exec oes o = Ok r ->
  gsns_increasing (run_slots shard_id oes o) /\ forall y, y ∈ run_slots shard_id oes o -> 0 <= y.2 < UINT64_MAX.
Proof.
  intros H Hok E. pose proof (epochs_consecutive oes o r shard_id H Hok E) as Hc. pose proof (ok_gsn _ H) as Hg.
  split; [by eapply slots_of_epochs_increasing|]. intros y Hy. apply (slots_of_epochs_bounds _ _ _ Hc) in Hy. lia.
Qed.

Lemma sys_reached client_id shard_id failures estimate connect u oes o r servers es x :
  0 <= failures < UINT64_MAX -> order_ok o -> order_events_ok oes o -> order_exec oes o = Ok r ->
  Forall (fun e => ~ storage_intro_event e) oes -> 0 <= shard_id < NUM_SHARDS ->
  (forall rid s, servers !! rid = Some s ->
     rid ∈ replicas o shard_id /\ exists ct st sd, storage_init shard_id rid ct st sd = Ok s) ->
  let x0 := sys_init shard_id u servers r.2 in
  Z.of_nat (length es) < W64 -> sys_events_ok client_id shard_id failures estimate connect es x0 ->
  sys_run client_id shard_id failures estimate connect es x0 = Some x ->
  exists q l, sys_ok client_id failures (run_slots shard_id oes o) (sy_sent x) x q l.
Proof.
  intros Hf H Hok E Hs Hsid Hsv x0 Hlen He Hx. destruct (run_slots_ok shard_id oes o r H Hok E) as [Hinc Hrange].
  by apply (sys_run_ok client_id shard_id failures estimate connect Hf _ Hinc Hrange (sy_sent x) es x0 _ [] x
    (sys_init_ok client_id shard_id failures u oes o r servers (sy_sent x) (proj1 Hf) H Hok E Hs Hsid Hsv)).
Qed.

(** Responses are durable on a quorum.  A client and the storage servers of its shard run in
    any interleaving, with delayed messages between them, the epochs of any run of the ordering
    server, other clients, failures, recovery and subscribers.  Whenever the application reads a
    response that is not pending, it belongs to a request that the client has sent, more than
    [failures] replicas hold the request's payload at this GSN for this client, set and
    readable, and the GSNs increase in the order in which the requests were sent, whatever
    has happened in between. *)
Theorem responses_durable client_id shard_id failures estimate connect u oes o r servers es x :
  0 <= failures < UINT64_MAX -> order_ok o -> order_events_ok oes o -> order_exec oes o = Ok r ->
  Forall (fun e => ~ storage_intro_event e) oes -> 0 <= shard_id < NUM_SHARDS ->
  (forall rid s, servers !! rid = Some s ->
     rid ∈ replicas o shard_id /\ exists ct st sd, storage_init shard_id rid ct st sd = Ok s) ->
  let x0 := sys_init shard_id u servers r.2 in
  Z.of_nat (length es) < W64 -> sys_events_ok client_id shard_id failures estimate connect es x0 ->
  sys_run client_id shard_id failures estimate connect es x0 = Some x ->
  exists G : list Z, (forall i j a b, (i < j)%nat -> G !! i = Some a -> G !! j = Some b -> a < b) /\
    forall loc g, responses (c_memory (sy_client x)) !! loc = Some g -> g <> UINT64_MAX ->
    exists k req, sy_sent x !! k = Some (Some loc, req) /\ G !! k = Some g /\
      exists R : gset Z, failures < Z.of_nat (size R) /\
        forall rid, rid ∈ R -> exists ln, sy_links x !! rid = Some ln /\ holds client_id g (ins_data req) (ln_server ln).
Proof.
  intros Hf H Hok E Hs Hsid Hsv x0 Hlen He Hx. destruct (run_slots_ok shard_id oes o r H Hok E) as [Hinc Hrange].
  exists (gsns client_id (run_slots shard_id oes o) (sy_sent x)). split; [intros i j a b; by apply G_increasing|].
  destruct (sys_reached client_id shard_id failures estimate connect u oes o r servers es x) as (q & l & Hend); [done..|].
  intros loc g. by eapply sys_ok_durable.
Qed.

(** Client 3 and two replicas: a request is sent to both, each handles it at its own time (one of
    them before another client connects, the other after the second epoch), and it is answered
    when both have acknowledged it. *)
Definition example_request : storage_insert := StorageInsert 3 1 2 [Byte.x01; Byte.x02].

Definition example_epoch_at (n : nat) : Storage.event :=
  match EpochSpec.epochs 0 example_rounds example_connected !! n with Some m => epoch_event m | None => EAddClient 0 end.

Definition example_system_events : list sys_event := [
  AtServer 0 (EAddClient 3); AtServer 1 (EAddClient 3); AtServer 0 (example_epoch_at 0); AtServer 1 (example_epoch_at 0);
  AtClient (Round false 0 [example_info; MClientNewEpoch (ClientNewEpoch 10000000 5)]);
  AtClient (Fill 7 example_request);
  AtClient (Insert 7 70);
  AtClient (Round false 11000000 []);
  AtServer 1 (EClient [] (MStorageInsert example_request));
  AtServer 1 (EAddClient 5);
  AtClient (Round false 11000001 [MClientInsertAck (ClientInsertAck 1 0)]);
  AtServer 0 (example_epoch_at 1);
  AtServer 1 (Storage.EFailure (ClientIntro 3 0 0));
  AtServer 0 (EClient [] (MStorageInsert example_request));
  AtClient (Round false 11000002 [MClientInsertAck (ClientInsertAck 0 0)])].

Definition example_servers : gmap Z storage :=
  <[0 := StorageSpec.example_server 0]> (<[1 := StorageSpec.example_server 1]> ∅).

Lemma example_servers_threads rid s :
  example_servers !! rid = Some s ->
  rid ∈ replicas example_connected 0 /\ exists ct sd, storage_init 0 rid ct 1 sd = Ok s.
Proof.
  unfold example_servers. intros [[<- <-]|[_ [[<- <-]|[_ Hs]]%lookup_insert_Some]]%lookup_insert_Some.
  - split; [vm_compute; constructor 2; constructor|]. exists 1, 64. reflexivity.
  - split; [vm_compute; constructor|]. exists 1, 64. reflexivity.
  - by rewrite lookup_empty in Hs.
Qed.

Lemma example_servers_ok rid s :
  example_servers !! rid = Some s ->
  rid ∈ replicas example_connected 0 /\ exists ct st sd, storage_init 0 rid ct st sd = Ok s.
Proof. intros Hs. destruct (example_servers_threads _ _ Hs) as (? & ct & sd & ?). eauto. Qed.

Definition example_system_init : system :=
  sys_init 0 0 example_servers (example_order example_rounds example_connected).2.
