(* ===== verification/Cluster.v ===== *)
(** * A client, the storage servers of its shard and the ordering server

    The system of [System] together with the ordering server ([src/order/order.cpp]) and
    everything these three kinds of parties send to each other: the epochs and the messages of the
    recovery from the ordering server to the replicas, their answers, the farewells, and what the
    client and the ordering server tell each other.  Every pair has a queue that keeps its order
    and delays it without bound; what comes from other clients, shards and subscribers, the
    timers and failed connections may happen at any time. *)
From S2P Require Import Prelude Consts Util Api StorageLog LogInv Storage StorageSpec Order OrderSpec EpochSpec Client System.

#[export] Instance client_intro_eq_dec : EqDecision client_intro.
Proof. solve_decision. Defined.
#[export] Instance storage_intro_eq_dec : EqDecision storage_intro.
Proof. solve_decision. Defined.
#[export] Instance subscriber_intro_eq_dec : EqDecision subscriber_intro.
Proof. solve_decision. Defined.
#[export] Instance client_finished_eq_dec : EqDecision client_finished.
Proof. solve_decision. Defined.
#[export] Instance storage_finished_eq_dec : EqDecision storage_finished.
Proof. solve_decision. Defined.
#[export] Instance subscriber_finished_eq_dec : EqDecision subscriber_finished.
Proof. solve_decision. Defined.
#[export] Instance client_insert_ack_eq_dec : EqDecision client_insert_ack.
Proof. solve_decision. Defined.
#[export] Instance order_client_rate_eq_dec : EqDecision order_client_rate.
Proof. solve_decision. Defined.
#[export] Instance order_client_cut_eq_dec : EqDecision order_client_cut.
Proof. solve_decision. Defined.
#[export] Instance order_client_data_eq_dec : EqDecision order_client_data.
Proof. solve_decision. Defined.
#[export] Instance order_client_freeze_eq_dec : EqDecision order_client_freeze.
Proof. solve_decision. Defined.
#[export] Instance storage_client_finalize_eq_dec : EqDecision storage_client_finalize.
Proof. solve_decision. Defined.
#[export] Instance storage_client_freeze_eq_dec : EqDecision storage_client_freeze.
Proof. solve_decision. Defined.
#[export] Instance storage_client_cut_eq_dec : EqDecision storage_client_cut.
Proof. solve_decision. Defined.
#[export] Instance storage_client_patch_eq_dec : EqDecision storage_client_patch.
Proof. solve_decision. Defined.
#[export] Instance subscriber_log_entry_eq_dec : EqDecision subscriber_log_entry.
Proof. solve_decision. Defined.
#[export] Instance sockaddr_in_eq_dec : EqDecision sockaddr_in.
Proof. solve_decision. Defined.
#[export] Instance client_storage_info_eq_dec : EqDecision client_storage_info.
Proof. solve_decision. Defined.
#[export] Instance subscriber_storage_info_eq_dec : EqDecision subscriber_storage_info.
Proof. solve_decision. Defined.
#[export] Instance client_new_epoch_eq_dec : EqDecision client_new_epoch.
Proof. solve_decision. Defined.
#[export] Instance client_heartbeat_eq_dec : EqDecision client_heartbeat.
Proof. solve_decision. Defined.
#[export] Instance message_eq_dec : EqDecision message.
Proof. solve_decision. Defined.

(** ** State *)

(** What is on the way between a replica and the ordering server, in both directions, and how
    many STORAGE_FINISHED are on the way from the replica to the client. *)
Record wire := Wire {
  wi_control : list message;
  wi_replies : list message;
  wi_byes : nat }.

(** In [cl_system], the epochs on the way are also in [ln_epochs].  [cl_introduced] says whether
    the client has connected to the ordering server. *)
Record cluster := Cluster {
  cl_order : order;
  cl_system : system;
  cl_wires : gmap Z wire;
  cl_to_client : list message;
  cl_to_order : list message;
  cl_introduced : bool }.

(** The ordering server handles something from outside, the client's introduction, or the next
    message of the client or of a replica; a replica handles the next message of the ordering server; the client takes a
    step; a replica handles something else. *)
Inductive cluster_event :=
| AtOrder (e : Order.event)
| ClientConnects (num_slots : Z) (address : sockaddr_in)
| OrderFromClient
| OrderFromReplica (rid : Z)
| ReplicaFromOrder (rid : Z) (stale : list Byte.byte)
| ClientActs (e : Client.event)
| ReplicaActs (rid : Z) (e : Storage.event).

(** The messages for a replica of the shard, those for the client, and, of a replica or the
    client, those for the ordering server. *)
Definition control_sent (sid rid : Z) (out : Order.outputs) : list message :=
  omap (fun x => match x.1 with
    | Order.ToStorage s r => if bool_decide (s = sid /\ r = rid) then Some x.2 else None
    | _ => None
    end) out.

Definition told (c : Z) (out : Order.outputs) : list message :=
  omap (fun x => match x.1 with Order.ToClient c' => if c' =? c then Some x.2 else None | _ => None end) out.

Definition replies (out : Storage.outputs) : list message :=
  omap (fun x => match x.1 with Storage.ToOrder => Some x.2 | _ => None end) out.

Definition to_order (out : Client.outputs) : list message :=
  omap (fun x => match x.1 with ToOrder => Some x.2 | _ => None end) out.

(** The STORAGE_FINISHED for the client. *)
Definition farewells (c : Z) (out : Storage.outputs) : list storage_finished :=
  omap (fun x => match x with
    | (Storage.ToClient c', MStorageFinished bye) => if c' =? c then Some bye else None
    | _ => None
    end) out.

Definition post_control (sid : Z) (out : Order.outputs) (W : gmap Z wire) : gmap Z wire :=
  map_imap (fun rid w => Some (Wire (wi_control w ++ control_sent sid rid out) (wi_replies w) (wi_byes w))) W.

Definition post_epochs (sid : Z) (out : Order.outputs) (x : system) : system :=
  System (sy_client x)
    (map_imap (fun rid ln => Some (Link (ln_server ln) (ln_epochs ln ++ slots_sent sid rid out) (ln_requests ln)
                                     (ln_answers ln) (ln_acked ln))) (sy_links x))
    (sy_sent x).

(** A message that only the ordering server sends to a storage server. *)
Definition by_order (m : message) : bool :=
  match m with
  | MStorageSlots _ | MStorageClientFreeze _ | MStorageClientCut _ | MStorageClientPatch _ | MStorageClientFinalize _ => true
  | _ => false
  end.

Section cluster.
Variables client_id shard_id failures : Z.
Variable estimate : option pid.
Variable connect : sockaddr_in -> option (message * Z).

(** What the ordering server handles from outside: not the messages of this client and of the
    replicas of this shard, nor another introduction of the client. *)
Definition outside (e : Order.event) : bool :=
  match e with
  | ERecv (MOrderClientCut cut) => negb (cut_shard_id cut =? shard_id)
  | ERecv (MOrderClientData data) => negb (ocd_shard_id data =? shard_id)
  | ERecv (MClientFinished bye) => negb (cf_client_id bye =? client_id)
  | ERecv (MOrderClientRate rate) => negb (rate_client_id rate =? client_id)
  | EAccept (MClientIntro intro) _ => negb (ci_client_id intro =? client_id)
  | EAccept (MStorageIntro _) _ => false
  | _ => true
  end.

Definition order_round (e : Order.event) (K : cluster) : option cluster :=
  match Order.handle e (cl_order K) with
  | Ok (o, out) =>
    Some (Cluster o (post_epochs shard_id out (cl_system K)) (post_control shard_id out (cl_wires K))
            (cl_to_client K ++ told client_id out) (cl_to_order K) (cl_introduced K))
  | Err _ => None
  end.

Definition server_round (rid : Z) (e : Storage.event) (K : cluster) : option cluster :=
  ln ← sy_links (cl_system K) !! rid;
  w ← cl_wires K !! rid;
  x ← server_step client_id rid e (cl_system K);
  match Storage.handle e (ln_server ln) with
  | Ok (_, out) =>
    let w := Wire (wi_control w) (wi_replies w ++ replies out) (wi_byes w + length (farewells client_id out)) in
    Some (Cluster (cl_order K) x (<[rid := w]> (cl_wires K)) (cl_to_client K) (cl_to_order K) (cl_introduced K))
  | Err _ => None
  end.

(** The client receives what is on the way to it: from the ordering server in order, and the
    farewell of a replica after the replica has sent it. *)
Definition take_message (m : message) (q : list message * gmap Z wire) : option (list message * gmap Z wire) :=
  match m with
  | MStorageFinished bye =>
    if sf_shard_id bye =? shard_id then
      w ← q.2 !! sf_replica_id bye;
      match wi_byes w with
      | S n => Some (q.1, <[sf_replica_id bye := Wire (wi_control w) (wi_replies w) n]> q.2)
      | O => None
      end
    else Some q
  | MClientStorageInfo _ | MClientNewEpoch _ | MClientHeartbeat _ | MOrderFinished =>
    match q.1 with
    | m' :: rest => if decide (m' = m) then Some (rest, q.2) else None
    | [] => None
    end
  | _ => Some q
  end.

Fixpoint take_messages (ms : list message) (q : list message * gmap Z wire) : option (list message * gmap Z wire) :=
  match ms with
  | [] => Some q
  | m :: ms => q ← take_message m q; take_messages ms q
  end.

Definition client_round (e : Client.event) (K : cluster) : option cluster :=
  let c := sy_client (cl_system K) in
  x ← client_step client_id shard_id failures estimate connect e (cl_system K);
  q ← take_messages (received e c) (cl_to_client K, cl_wires K);
  match step client_id shard_id failures estimate connect e c with
  | Ok (_, out) => Some (Cluster (cl_order K) x q.2 q.1 (cl_to_order K ++ to_order out) (cl_introduced K))
  | Err _ => None
  end.

(** What an event makes the ordering server handle, with the message taken from its queue; and
    what it makes the other parties do. *)
Definition order_event (e : cluster_event) (K : cluster) : option (Order.event * cluster) :=
  match e with
  | AtOrder e => if outside e then Some (e, K) else None
  | ClientConnects num_slots address =>
    if cl_introduced K then None
    else Some (EAccept (MClientIntro (ClientIntro client_id shard_id num_slots)) address,
               Cluster (cl_order K) (cl_system K) (cl_wires K) (cl_to_client K) (cl_to_order K) true)
  | OrderFromClient =>
    match cl_to_order K with
    | m :: rest => Some (ERecv m, Cluster (cl_order K) (cl_system K) (cl_wires K) (cl_to_client K) rest (cl_introduced K))
    | [] => None
    end
  | OrderFromReplica rid =>
    w ← cl_wires K !! rid;
    match wi_replies w with
    | m :: rest =>
      Some (ERecv m, Cluster (cl_order K) (cl_system K) (<[rid := Wire (wi_control w) rest (wi_byes w)]> (cl_wires K))
                       (cl_to_client K) (cl_to_order K) (cl_introduced K))
    | [] => None
    end
  | _ => None
  end.

Definition server_event (e : cluster_event) (K : cluster) : option (Z * Storage.event * cluster) :=
  match e with
  | ReplicaFromOrder rid stale =>
    w ← cl_wires K !! rid;
    match wi_control w with
    | m :: rest =>
      Some (rid, EControl stale m,
            Cluster (cl_order K) (cl_system K) (<[rid := Wire rest (wi_replies w) (wi_byes w)]> (cl_wires K))
              (cl_to_client K) (cl_to_order K) (cl_introduced K))
    | [] => None
    end
  | ReplicaActs rid e =>
    match e with
    | EControl _ m => if by_order m then None else Some (rid, e, K)
    | _ => Some (rid, e, K)
    end
  | _ => None
  end.

Definition cluster_step (e : cluster_event) (K : cluster) : option cluster :=
  match e with
  | AtOrder _ | ClientConnects _ _ | OrderFromClient | OrderFromReplica _ => '(e, K) ← order_event e K; order_round e K
  | ReplicaFromOrder _ _ | ReplicaActs _ _ => '(rid, e, K) ← server_event e K; server_round rid e K
  | ClientActs e => client_round e K
  end.

Fixpoint cluster_run (es : list cluster_event) (K : cluster) : option cluster :=
  match es with
  | [] => Some K
  | e :: es => K ← cluster_step e K; cluster_run es K
  end.

(** ** The environment *)

(** The application fills a buffer with a payload of the length it says, and not while the buffer
    waits to be sent; the integers of the messages are words, and rates and GSNs are far from
    overflowing. *)
Definition cluster_event_ok (e : cluster_event) (K : cluster) : Prop :=
  match e with
  | ClientActs (Fill request b) =>
    ins_data_length b = Z.of_nat (length (ins_data b)) /\ request ∉ (waiting (requests_ (sy_client (cl_system K)))).*1
  | ClientActs _ => True
  | AtOrder _ | ClientConnects _ _ | OrderFromClient | OrderFromReplica _ =>
    match order_event e K with Some (e, K) => OrderSpec.event_ok (cl_order K) e | None => True end
  | ReplicaFromOrder _ _ | ReplicaActs _ _ =>
    match server_event e K with Some (_, e, _) => words_ok e | None => True end
  end.

Fixpoint cluster_events_ok (es : list cluster_event) (K : cluster) : Prop :=
  match es with
  | [] => True
  | e :: es => cluster_event_ok e K /\ match cluster_step e K with Some K => cluster_events_ok es K | None => True end
  end.

(** The start: [servers] are the storage servers of the shard, which are all that has connected
    to the ordering server. *)
Definition cluster_init (uninitialized : Z) (servers : gmap Z storage) (o : order) : cluster :=
  Cluster o (sys_init shard_id uninitialized servers []) (map_imap (fun _ _ => Some (Wire [] [] 0)) servers) [] [] false.
End cluster.

(** Whether the environment behaves in a run can be decided. *)
#[export] Instance order_event_ok_dec o e : Decision (OrderSpec.event_ok o e).
Proof. destruct e as [[]| | |[]]; cbn [OrderSpec.event_ok]; apply _. Defined.

#[export] Instance cluster_event_ok_dec c sid e K : Decision (cluster_event_ok c sid e K).
Proof.
  destruct e as [e|n a| |rid|rid stale|[]|rid e]; cbn [cluster_event_ok]; try apply _.
  - by destruct (order_event _ _ _ _) as [[]|]; apply _.
  - by destruct (order_event _ _ _ _) as [[]|]; apply _.
  - by destruct (order_event _ _ _ _) as [[]|]; apply _.
  - by destruct (order_event _ _ _ _) as [[]|]; apply _.
  - by destruct (server_event _ _) as [[[]]|]; apply _.
  - by destruct (server_event _ _) as [[[]]|]; apply _.
Defined.

#[export] Instance cluster_events_ok_dec c sid failures estimate connect es K :
  Decision (cluster_events_ok c sid failures estimate connect es K).
Proof.
  revert K. induction es as [|e es IH]; intros K; cbn [cluster_events_ok]; [left; exact I|].
  apply and_dec; [apply _|]. destruct (cluster_step _ _ _ _ _ e K); [apply IH|left; exact I].
Defined.
