(* ===== verification/ControlSpec.v ===== *)
(** * What the ordering server and the storage servers tell each other

    Where the cuts that the ordering server records come from, why it sends a storage server a
    message of the recovery, whom it tells of the storage servers, and what a storage server's
    answers say about its state: what the composition in [ClusterSpec] needs of the handlers. *)
From S2P Require Import Prelude Consts Util Api StorageLog LogInv Storage StorageSpec Order OrderSpec EpochSpec RecoverySpec.

#[local] Opaque NUM_ENTRIES_PER_BLOCK NUM_SHARDS.

(** ** What the ordering server records and sends *)

(** The messages that work on the log of client [c]. *)
Definition recovers (c : Z) (m : message) : Prop :=
  match m with
  | MStorageClientCut q => scc_client_id q = c
  | MStorageClientPatch p => scp_client_id p = c
  | MStorageClientFinalize q => scfin_client_id q = c
  | _ => False
  end.

(** A client's state but for its rate and its data. *)
Record same_recovery (st st' : Order.client_state) : Prop := {
  sr_shard : o_shard_id st' = o_shard_id st;
  sr_failed : o_failed st' = o_failed st;
  sr_requested : o_requested st' = o_requested st;
  sr_cuts : o_cuts st' = o_cuts st;
  sr_flushed : o_flushed st' = o_flushed st }.

Lemma same_recovery_refl st : same_recovery st st.
Proof. by split. Qed.

(** The event is not a cut or a flush of [c] that has not been recorded. *)
Definition heard (e : Order.event) (c : Z) (st : Order.client_state) : Prop :=
  match e with
  | ERecv (MOrderClientCut cut) => cut_client_id cut = c -> o_failed st = true -> cut_shard_id cut = o_shard_id st ->
      is_Some (smap_find (cut_replica_id cut) (o_cuts st))
  | ERecv (MOrderClientData data) => ocd_client_id data = c -> o_requested st = true -> ocd_shard_id data = o_shard_id st ->
      ocd_gsn data = UINT64_MAX -> ocd_replica_id data ∈ o_flushed st
  | _ => True
  end.

(** What has been received of a client's data: what was there, and what the event brings. *)
Definition stores (e : Order.event) (st st' : Order.client_state) : Prop :=
  forall g p, (g, p) ∈ o_data st' -> (g, p) ∈ o_data st \/
    exists data, e = ERecv (MOrderClientData data) /\ ocd_shard_id data = o_shard_id st' /\ ocd_gsn data = g.

Lemma stores_same e st st' : o_data st' = o_data st -> stores e st st'.
Proof. intros H g p Hin. left. by rewrite <- H. Qed.

(** What an event that leaves a client known does to its recovery, and what the replicas are
    sent: it is new; nothing changes; it fails; a cut is recorded, with which its data may be
    requested; or a replica has sent all its data. *)
Inductive advances (e : Order.event) (o : order) (out : Order.outputs) (c : Z) (st' : Order.client_state) : Prop :=
| Accepted intro a : e = EAccept (MClientIntro intro) a -> ci_client_id intro = c -> ci_shard_id intro = o_shard_id st' -> o_failed st' = false -> o_requested st' = false -> o_cuts st' = [] -> o_flushed st' = ∅ -> o_data st' = [] -> advances e o out c st'
| Kept st : client_state_ o !! c = Some st -> same_recovery st st' -> stores e st st' -> heard e c st -> advances e o out c st'
| Fails st : client_state_ o !! c = Some st -> o_failed st = false -> o_failed st' = true -> o_shard_id st' = o_shard_id st ->
    o_requested st' = o_requested st -> o_cuts st' = o_cuts st -> o_flushed st' = o_flushed st -> stores e st st' ->
    (forall rid, rid ∈ replicas o (o_shard_id st) ->
       (Order.ToStorage (o_shard_id st) rid, MStorageClientFreeze (StorageClientFreeze c)) ∈ out) ->
    advances e o out c st'
| Recorded st cut : client_state_ o !! c = Some st -> e = ERecv (MOrderClientCut cut) -> cut_client_id cut = c ->
    cut_shard_id cut = o_shard_id st -> smap_find (cut_replica_id cut) (o_cuts st) = None ->
    o_failed st = true -> o_failed st' = true -> o_shard_id st' = o_shard_id st -> o_flushed st' = o_flushed st ->
    o_cuts st' = smap_insert (cut_replica_id cut) (cut_latest_gsn cut) (o_cuts st) -> stores e st st' ->
    (o_requested st' = o_requested st /\
       (o_requested st = true \/ length (o_cuts st') <> length (replicas o (o_shard_id st))) \/
     o_requested st = false /\ o_requested st' = true /\ length (o_cuts st') = length (replicas o (o_shard_id st)) /\
       exists min, forall rid, rid ∈ replicas o (o_shard_id st) ->
         (Order.ToStorage (o_shard_id st) rid, MStorageClientCut (StorageClientCut c min)) ∈ out) ->
    advances e o out c st'
| Flushed st data : client_state_ o !! c = Some st -> e = ERecv (MOrderClientData data) -> ocd_client_id data = c ->
    ocd_shard_id data = o_shard_id st -> o_requested st = true -> o_failed st' = o_failed st -> o_requested st' = true ->
    o_shard_id st' = o_shard_id st -> o_cuts st' = o_cuts st -> o_flushed st' = {[ocd_replica_id data]} ∪ o_flushed st ->
    stores e st st' -> size (o_flushed st') <> length (replicas o (o_shard_id st)) -> advances e o out c st'.

Section advances.
Variable o : order.

Lemma advances_kept e out c st : client_state_ o !! c = Some st -> heard e c st -> advances e o out c st.
Proof. intros Hc Hh. by eapply Kept; [|apply same_recovery_refl|by apply stores_same|]. Qed.

(** An event that is no cut and no data and updates one client. *)
Definition routine (e : Order.event) : Prop :=
  match e with ERecv (MOrderClientCut _) | ERecv (MOrderClientData _) => False | _ => True end.

Lemma routine_kept e out c st : routine e -> client_state_ o !! c = Some st -> advances e o out c st.
Proof. intros He Hc. apply advances_kept; [done|]. by destruct e as [[]| | |]. Qed.

Lemma routine_update e out c0 st0 c st' :
  routine e -> advances e o out c0 st0 -> <[c0 := st0]> (client_state_ o) !! c = Some st' -> advances e o out c st'.
Proof. intros He H [[<- <-]|[_ Hc]]%lookup_insert_Some; [done|by apply routine_kept]. Qed.

Lemma routine_delete e out c0 c st' : routine e -> delete c0 (client_state_ o) !! c = Some st' -> advances e o out c st'.
Proof. intros He [_ Hc]%lookup_delete_Some. by apply routine_kept. Qed.

Lemma freeze_sent c sid :
  forall rid, rid ∈ replicas o sid ->
    (Order.ToStorage sid rid, MStorageClientFreeze (StorageClientFreeze c)) ∈ to_storage o sid (MStorageClientFreeze (StorageClientFreeze c)).
Proof. intros rid Hr. unfold to_storage. by apply list_elem_of_fmap_2'  with (x := rid). Qed.

Lemma failed_advances e c0 st c st' :
  routine e -> client_state_ o !! c0 = Some st -> o_failed st = false -> client_state_ (failed c0 st o).1 !! c = Some st' ->
  advances e o (failed c0 st o).2 c st'.
Proof.
  intros He Hc Hf Hc'. eapply routine_update; [done| |exact Hc']. eapply Fails; try done; [by apply stores_same|apply freeze_sent].
Qed.

(** The client is removed, after an update or not. *)
Lemma other_kept e out c0 c st st' :
  (forall st, c <> c0 -> heard e c st) -> delete c0 (<[c0 := st]> (client_state_ o)) !! c = Some st' -> advances e o out c st'.
Proof.
  intros Hh [Hne Hc]%lookup_delete_Some. rewrite lookup_insert_ne in Hc by done. apply advances_kept; [done|]. by apply Hh.
Qed.

Lemma cut_advances cut o' out c st' :
  on_order_client_cut cut o = Ok (o', out) -> client_state_ o' !! c = Some st' -> advances (ERecv (MOrderClientCut cut)) o out c st'.
Proof.
  intros E Hc'. assert (forall st, c <> cut_client_id cut -> heard (ERecv (MOrderClientCut cut)) c st) as Hother by (intros st Hne Heq; by destruct Hne).
  unfold on_order_client_cut in E. destruct (client_state_ o !! cut_client_id cut) as [st|] eqn:Hst.
  2:{ injection E as <- _. apply advances_kept; [done|]. apply Hother. congruence. }
  assert (forall st0, client_state_ o !! c = Some st0 -> (c = cut_client_id cut -> heard (ERecv (MOrderClientCut cut)) c st) ->
    advances (ERecv (MOrderClientCut cut)) o out c st0) as Hkept.
  { intros st0 Hc Hh. apply advances_kept; [done|]. destruct (decide (c = cut_client_id cut)) as [->|]; [|by apply Hother].
    assert (st0 = st) as -> by congruence. by apply Hh. }
  destruct (o_failed st) eqn:Hfl; cbn [negb] in E; [|injection E as <- _; apply Hkept; [done|cbn; congruence]].
  destruct (negb (o_shard_id st =? cut_shard_id cut) || _) eqn:Hg.
  { injection E as <- _. apply Hkept; [done|]. intros -> _ _ Hs. apply orb_true_iff in Hg as [Hg|Hg]; [|by apply bool_decide_eq_true in Hg].
    rewrite Hs, Z.eqb_refl in Hg. done. }
  apply orb_false_iff in Hg as [Hs Hf]. apply negb_false_iff, Z.eqb_eq in Hs. apply bool_decide_eq_false in Hf.
  rewrite <- eq_None_not_Some in Hf. cbn [o_requested o_cuts o_shard_id] in E.
  destruct (negb (o_requested st) && _) eqn:Hlast.
  - apply andb_true_iff in Hlast as [Hrq%negb_true_iff Hlast%bool_decide_eq_true]. destruct (min_max_cuts _) as [[mn mx]|]; [|done].
    cbn [mbind result_bind] in E. injection E as E. destruct (mn =? mx); injection E as <- <-; [eapply other_kept; [exact Hother|exact Hc']|].
    cbn [requested fst with_clients client_state_] in Hc'. rewrite insert_insert_eq in Hc'.
    apply lookup_insert_Some in Hc' as [[<- <-]|[Hne Hc']]; [|apply Hkept; [done|intros ->; done]].
    eapply Recorded; try done; [by apply stores_same|]. right. split_and!; try done. exists mn. intros rid Hr. unfold to_storage. by apply list_elem_of_fmap_2' with (x := rid).
  - injection E as <- <-. cbn [with_clients client_state_] in Hc'. apply lookup_insert_Some in Hc' as [[<- <-]|[Hne Hc']]; [|apply Hkept; [done|intros ->; done]].
    eapply Recorded; try done; [by apply stores_same|]. left. split; [done|]. apply andb_false_iff in Hlast as [Hrq|Hlast]; [left; by apply negb_false_iff|right].
    by apply bool_decide_eq_false in Hlast.
Qed.

Lemma data_advances data c st' :
  client_state_ (on_order_client_data data o).1 !! c = Some st' ->
  advances (ERecv (MOrderClientData data)) o (on_order_client_data data o).2 c st'.
Proof.
  assert (forall st, c <> ocd_client_id data -> heard (ERecv (MOrderClientData data)) c st) as Hother by (intros st Hne Heq; by destruct Hne).
  unfold on_order_client_data. destruct (client_state_ o !! ocd_client_id data) as [st|] eqn:Hst.
  2:{ cbn [fst snd]. intros Hc. apply advances_kept; [done|]. apply Hother. congruence. }
  assert (forall out st0, client_state_ o !! c = Some st0 -> (c = ocd_client_id data -> heard (ERecv (MOrderClientData data)) c st) ->
    advances (ERecv (MOrderClientData data)) o out c st0) as Hkept.
  { intros out st0 Hc Hh. apply advances_kept; [done|]. destruct (decide (c = ocd_client_id data)) as [->|]; [|by apply Hother].
    assert (st0 = st) as -> by congruence. by apply Hh. }
  destruct (o_requested st) eqn:Hrq; cbn [negb]; [|intros Hc; apply Hkept; [done|cbn; congruence]].
  destruct (negb (o_shard_id st =? ocd_shard_id data) || _) eqn:Hg.
  { intros Hc. apply Hkept; [done|]. intros -> _ _ Hs _. apply orb_true_iff in Hg as [Hg|Hg]; [|by apply bool_decide_eq_true in Hg].
    rewrite Hs, Z.eqb_refl in Hg. done. }
  apply orb_false_iff in Hg as [Hs _]. apply negb_false_iff, Z.eqb_eq in Hs.
  destruct (Z.eqb_spec (ocd_gsn data) UINT64_MAX) as [Hgsn|Hgsn].
  - cbn [o_flushed o_shard_id]. case_bool_decide as Hlast; [intros Hc; eapply other_kept; [exact Hother|exact Hc]|].
    cbn [fst snd with_clients client_state_]. intros [[<- <-]|[Hne Hc']]%lookup_insert_Some; [|apply Hkept; [done|intros ->; done]]. eapply Flushed; try done. by apply stores_same.
  - destruct (smap_find _ _) eqn:Hnone; [intros Hc; apply Hkept; [done|by intros _ _ _ _ ?]|].
    cbn [fst snd with_clients client_state_]. intros [[<- <-]|[Hne Hc']]%lookup_insert_Some; [|apply Hkept; [done|intros ->; done]].
    eapply Kept; [done|by split| |by intros _ _ _ ?]. intros g p [[= -> _]|Hin]%smap_insert_elem; [right; by exists data|by left|done].
Qed.

End advances.

Ltac as_before := let H := fresh in intros H; refine (routine_kept _ _ _ _ _ _ _); [done|exact H].

Lemma handle_advances e o o' out :
  Order.handle e o = Ok (o', out) -> forall c st', client_state_ o' !! c = Some st' -> advances e o out c st'.
Proof.
  intros E c st'. destruct e as [m|i|now|m a]; cbn [Order.handle] in E.
  - destruct m; cbn [order_recv] in E; try (injection E as <- _; as_before);
      try (injection E as E; pose proof (f_equal fst E) as E1; pose proof (f_equal snd E) as E2; cbn [fst snd] in E1, E2; subst o' out).
    + unfold Order.on_client_finished. destruct (client_state_ o !! _) as [st|]; [|as_before]. by apply routine_delete.
    + unfold Order.on_subscriber_finished. case_decide; as_before.
    + unfold on_order_client_rate. destruct (client_state_ o !! _) as [st|] eqn:Hst; [|as_before].
      apply routine_update; [done|]. eapply Kept; [done|by split|by apply stores_same|done].
    + by apply cut_advances.
    + by apply data_advances.
    + unfold on_order_client_freeze. destruct (client_state_ o !! _) as [st|] eqn:Hst; [|as_before].
      destruct (o_failed st) eqn:Hf; [as_before|by apply failed_advances].
  - injection E as E. pose proof (f_equal fst E) as E1; pose proof (f_equal snd E) as E2; cbn [fst snd] in E1, E2; subst o' out.
    unfold Order.on_client_failure. destruct (client_state_ o !! _) as [st|] eqn:Hst; [|as_before].
    destruct (o_failed st) eqn:Hf; [as_before|by apply failed_advances].
  - unfold timers in E. destruct (_ <? _); [injection E as <- _; as_before|].
    destruct (_ <? _); [|injection E as <- _; as_before]. unfold epoch_round in E. inv_result. as_before.
  - destruct m; cbn [on_accept] in E; try (injection E as <- _; as_before).
    + unfold Order.add_client in E. destruct (_ || _); inv_result; [as_before|]. apply routine_update; [done|by eapply Accepted].
    + unfold add_storage in E. destruct (_ || _); inv_result; as_before.
    + unfold Order.add_subscriber in E. case_decide; inv_result; as_before.
Qed.

(** Where the cuts of a client's state come from: it is new, or they are as before, or one is
    added, and the data is requested when that was the last one. *)
Definition carries (e : Order.event) (o : order) (c : Z) (st' : Order.client_state) : Prop :=
  (o_cuts st' = [] /\ o_requested st' = false) \/
  exists st, client_state_ o !! c = Some st /\ o_shard_id st' = o_shard_id st /\
    ((o_cuts st' = o_cuts st /\ o_requested st' = o_requested st) \/
     exists cut, e = ERecv (MOrderClientCut cut) /\ cut_client_id cut = c /\ cut_shard_id cut = o_shard_id st /\
       smap_find (cut_replica_id cut) (o_cuts st) = None /\
       o_cuts st' = smap_insert (cut_replica_id cut) (cut_latest_gsn cut) (o_cuts st) /\
       (o_requested st' = true -> o_requested st = true \/ length (o_cuts st') = length (replicas o (o_shard_id st)))).

Lemma handle_carries e o o' out :
  Order.handle e o = Ok (o', out) -> forall c st', client_state_ o' !! c = Some st' -> carries e o c st'.
Proof.
  intros E c st' Hc. destruct (handle_advances _ _ _ _ E _ _ Hc) as [intro a|st ? []|st|st cut|st data]; [by left|right; exists st; auto..| |].
  - right. exists st. split_and!; [done|done|right]. exists cut. split_and!; try done. intros Hr.
    match goal with H : _ \/ _ |- _ => destruct H as [[Hq _]|(_ & _ & Hl & _)] end; [left; congruence|by right].
  - right. exists st. split_and!; [done|done|left]. split; congruence.
Qed.

(** ** What it sends *)

Lemma to_storage_elem o sid m s r m' :
  (Order.ToStorage s r, m') ∈ to_storage o sid m <-> s = sid /\ m' = m /\ r ∈ replicas o sid.
Proof. unfold to_storage. rewrite list_elem_of_fmap. naive_solver. Qed.

(** Why the ordering server sends a message that works on a client's log: the client has taken
    leave, its data has been requested, or the cut of the last replica has come in. *)
Inductive reason (e : Order.event) (o : order) (c : Z) (st : Order.client_state) : Prop :=
| Left bye : e = ERecv (MClientFinished bye) -> cf_client_id bye = c -> reason e o c st
| Rolled : o_requested st = true -> reason e o c st
| Complete cut cuts : e = ERecv (MOrderClientCut cut) -> cut_client_id cut = c -> completes cut o st cuts -> reason e o c st.

(** A patch is one of those the client's state holds. *)
Definition held (m : message) (st : Order.client_state) : Prop :=
  match m with MStorageClientPatch p => (scp_gsn p, p) ∈ o_data st | _ => True end.

(** A message that works on a client's log goes to a replica of the client's shard and has a
    reason; a client that is frozen is known; a client is told of the storage servers when it is
    accepted, and of an epoch when that starts. *)
Definition justified (e : Order.event) (o : order) (x : Order.destination * message) : Prop :=
  match x with
  | (Order.ToStorage _ _, MStorageClientFreeze req) => is_Some (client_state_ o !! scf_client_id req)
  | (Order.ToStorage s r, m) => forall c, recovers c m ->
      exists st, client_state_ o !! c = Some st /\ o_shard_id st = s /\ r ∈ replicas o s /\ reason e o c st /\ held m st
  | (Order.ToClient _, MClientNewEpoch _) => starts_epoch e o = true
  | (Order.ToClient c, MClientStorageInfo _) => exists intro a, e = EAccept (MClientIntro intro) a /\ ci_client_id intro = c
  | _ => True
  end.

Lemma justified_to_storage e o o0 sid m :
  (forall c, ~ recovers c m) -> (forall req, m = MStorageClientFreeze req -> is_Some (client_state_ o !! scf_client_id req)) ->
  Forall (justified e o) (to_storage o0 sid m).
Proof. intros Hm Hf. apply Forall_fmap, Forall_true. intros r. destruct m; try (intros c Hc; by apply Hm in Hc). by apply Hf. Qed.

Lemma justified_finalized e o c st st0 o0 :
  (forall g p, (g, p) ∈ o_data st -> scp_client_id p = c /\ (scp_gsn p, p) ∈ o_data st0) -> storage_addresses_ o0 = storage_addresses_ o ->
  client_state_ o !! c = Some st0 -> o_shard_id st0 = o_shard_id st -> reason e o c st0 ->
  Forall (justified e o) (finalized c st o0).2.
Proof.
  intros Hp Ha Hc Hs Hr. assert (forall sid, replicas o0 sid = replicas o sid) as Hrep by (intros; unfold replicas; by rewrite Ha).
  apply Forall_forall. intros [[s r| |] m] Hin; [|exfalso..].
  - apply elem_of_app in Hin as [Hin|Hin].
    + destruct (o_requested st); [|by apply elem_of_nil in Hin].
      apply list_elem_of_bind in Hin as ([g p] & Hin & Hg). apply to_storage_elem in Hin as (-> & -> & ?).
      rewrite Hrep in *. intros c' Hm. cbn [recovers] in Hm. destruct (Hp _ _ Hg) as [<- Hin']. subst c'. by exists st0.
    + apply to_storage_elem in Hin as (-> & -> & ?). rewrite Hrep in *. intros c' Hm. cbn [recovers scfin_client_id] in Hm. subst c'. by exists st0.
  - apply elem_of_app in Hin as [Hin|Hin]; [|by apply to_storage_client in Hin]. destruct (o_requested st); [|by apply elem_of_nil in Hin].
    apply list_elem_of_bind in Hin as ([g p] & Hin & _). by apply to_storage_client in Hin.
  - apply elem_of_app in Hin as [Hin|Hin]; [destruct (o_requested st); [|by apply elem_of_nil in Hin]|].
    + apply list_elem_of_bind in Hin as ([g p] & (r & [=] & _)%list_elem_of_fmap & _).
    + by apply list_elem_of_fmap in Hin as (r & [=] & _).
Qed.

Section sends.
Variables (o : order) (H : order_ok o).

Lemma own_patches c st g p : client_state_ o !! c = Some st -> (g, p) ∈ o_data st -> scp_client_id p = c /\ (scp_gsn p, p) ∈ o_data st.
Proof. intros Hc Hp. pose proof (ck_patches _ _ (ok_clients _ H _ _ Hc) _ _ Hp) as [? <-]. done. Qed.

Lemma justified_cut cut o' out :
  on_order_client_cut cut o = Ok (o', out) -> Forall (justified (ERecv (MOrderClientCut cut)) o) out.
Proof.
  intros E. unfold on_order_client_cut in E. destruct (client_state_ o !! _) as [st|] eqn:Hst; [|by injection E as _ <-].
  destruct (o_failed st) eqn:Hfl; cbn [negb] in E; [|by injection E as _ <-].
  destruct (negb (o_shard_id st =? cut_shard_id cut) || _) eqn:Hg; [by injection E as _ <-|].
  apply orb_false_iff in Hg as [Hs Hf]. apply negb_false_iff, Z.eqb_eq in Hs. apply bool_decide_eq_false in Hf.
  rewrite <- eq_None_not_Some in Hf. destruct (o_requested st) eqn:Hrq; cbn [andb negb o_requested] in E; [by injection E as _ <-|].
  case_bool_decide as Hlast; [|by injection E as _ <-]. cbn [o_cuts o_shard_id] in *.
  destruct (min_max_cuts _) as [[mn mx]|]; [|done]. cbn [mbind result_bind] in E. injection E as E.
  assert (reason (ERecv (MOrderClientCut cut)) o (cut_client_id cut) st) as Hr.
  { eapply Complete; [reflexivity|reflexivity|]. by split_and!. }
  destruct (mn =? mx).
  - apply (f_equal snd) in E. cbn [snd] in E. rewrite <- E.
    by apply (justified_finalized _ _ _ _ st); [intros; by eapply own_patches|..].
  - injection E as _ <-. apply Forall_fmap. apply Forall_forall. intros r Hrep c Hm. cbn [recovers scc_client_id] in Hm. subst c. by exists st.
Qed.

Lemma justified_data data : Forall (justified (ERecv (MOrderClientData data)) o) (on_order_client_data data o).2.
Proof.
  unfold on_order_client_data. destruct (client_state_ o !! _) as [st|] eqn:Hst; [|done].
  destruct (o_requested st) eqn:Hrq; cbn [negb]; [|done]. destruct (_ || _); [done|].
  destruct (_ =? _); [|by destruct (smap_find _ _)]. destruct (bool_decide _); [|done].
  by apply (justified_finalized _ _ _ _ st); [intros; by eapply own_patches|..|apply Rolled].
Qed.

Lemma justified_freeze e c st : is_Some (client_state_ o !! c) -> Forall (justified e o) (failed c st o).2.
Proof. intros Hc. apply justified_to_storage; [by intros ? []|by intros ? [= <-]]. Qed.

Lemma handle_justified e o' out :
  OrderSpec.event_ok o e -> Order.handle e o = Ok (o', out) -> Forall (justified e o) out.
Proof.
  intros Hok E. destruct e as [m|i|now|m a]; cbn [Order.handle] in E.
  - destruct m; cbn [order_recv] in E; try (by injection E as _ <-); try (injection E as E; apply (f_equal snd) in E; cbn [snd] in E; subst out).
    + unfold Order.on_client_finished. destruct (client_state_ o !! _) as [st|] eqn:Hst; [|done].
      pose proof (justified_finalized (ERecv (MClientFinished m)) o (cf_client_id m) st st o) as Hf. destruct (finalized _ _ _).
      constructor; [done|]. apply Hf; try done; [intros; by eapply own_patches|by eapply Left].
    + unfold Order.on_subscriber_finished. case_decide; by repeat constructor.
    + unfold on_order_client_rate. by destruct (client_state_ o !! _).
    + by eapply justified_cut.
    + apply justified_data.
    + unfold on_order_client_freeze. destruct (client_state_ o !! _) as [st|] eqn:Hst; [|done].
      destruct (o_failed st); [done|apply justified_freeze; by eexists].
  - injection E as E. apply (f_equal snd) in E. cbn [snd] in E. subst out. unfold Order.on_client_failure.
    destruct (client_state_ o !! _) as [st|] eqn:Hst; [|done]. destruct (o_failed st); [done|apply justified_freeze; by eexists].
  - unfold timers in E. destruct (or_heartbeat o <? now) eqn:Ht; [injection E as _ <-|destruct (or_epoch o <? now) eqn:Hs; [|by injection E as _ <-]].
    + apply Forall_bind, Forall_true. intros c. simpl. case_decide; [done|by apply Forall_singleton].
    + rewrite (proj1 (epoch_round_ok now o H Hok)) in E. injection E as _ <-. apply Forall_app_2; apply Forall_bind, Forall_true.
      * intros [c st]. simpl. destruct (o_failed st); [done|apply Forall_singleton]. cbn [justified starts_epoch]. by rewrite Ht, Hs.
      * intros sid. simpl. apply justified_to_storage; [by intros ? []|done].
  - destruct m; cbn [on_accept] in E; try (by injection E as _ <-).
    + unfold Order.add_client in E. destruct (_ || _); inv_result; [done|]. apply Forall_singleton. by eexists _, a.
    + unfold add_storage in E. by destruct (_ || _); inv_result.
    + unfold Order.add_subscriber in E. case_decide; inv_result; by repeat constructor.
Qed.
End sends.

(** ** What a storage server answers *)

Lemma client_data_fold_shape s qs out0 out x :
  mfold (fun q out => d ← client_data s q; Ok (out ++ d)) qs out0 = Ok out -> x ∈ out ->
  x ∈ out0 \/ exists d, x = (Storage.ToOrder, MOrderClientData d) /\ ocd_shard_id d = st_shard_id_ s /\ ocd_replica_id d = st_replica_id_ s.
Proof.
  revert out0. induction qs as [|q qs IH]; intros out0 E Hx; cbn [mfold] in E; [injection E as <-; by left|].
  inv_result. destruct (IH _ E Hx) as [Hin|]; [|by right]. apply elem_of_app in Hin as [|Hin]; [by left|right].
  unfold client_data in E1. destruct (0 <? _); inv_result; [|by apply elem_of_nil in Hin]. apply list_elem_of_singleton in Hin. by eexists.
Qed.

(** The cut that a server reports is final, and the client that it takes leave of is disconnected. *)
Lemma handle_answers e s s' out d m :
  Storage.handle e s = Ok (s', out) -> (d, m) ∈ out ->
  match d, m with
  | Storage.ToOrder, MOrderClientCut cut =>
    cut_shard_id cut = st_shard_id_ s /\ cut_replica_id cut = st_replica_id_ s /\ frozen (cut_client_id cut) (cut_latest_gsn cut) s'
  | Storage.ToOrder, MOrderClientData data => ocd_shard_id data = st_shard_id_ s /\ ocd_replica_id data = st_replica_id_ s
  | Storage.ToOrder, MOrderClientFreeze _ => True
  | Storage.ToOrder, _ => False
  | Storage.ToClient c, MStorageFinished _ => s_disconnected (client_of s' c) = true
  | _, _ => True
  end.
Proof.
  intros E Hin. destruct e as [stale m0|stale m0|i|c'|sid n]; unfold Storage.handle in E.
  - destruct m0; cbn [control_recv] in E; try (inv_result; by apply elem_of_nil in Hin).
    + unfold Storage.on_subscriber_finished in E. case_decide; inv_result; by apply elem_of_nil in Hin.
    + unfold on_storage_slots in E. destruct (_ <? _); inv_result; by apply elem_of_nil in Hin.
    + unfold on_storage_client_finalize in E. inv_result. by apply elem_of_nil in Hin.
    + unfold on_storage_client_freeze in E. inv_result. use_client Hs. apply list_elem_of_singleton in Hin as [= -> ->].
      destruct Hs as (_ & _ & -> & -> & _). cbn. split_and!; [done|done|]. unfold frozen. rewrite client_of_with_client, decide_True by done.
      split; [apply disconnect_disconnected|done].
    + unfold on_storage_client_cut in E. inv_result. use_client Hs. destruct Hs as (_ & _ & Hsh & Hrep & _). apply elem_of_app in Hin as [Hin|Hin].
      * eapply client_data_fold_shape in Hin; [|done]. destruct Hin as [Hin|(dd & [= -> ->] & ? & ?)]; [by apply elem_of_nil in Hin|].
        split; congruence.
      * by apply list_elem_of_singleton in Hin as [= -> ->].
    + unfold on_storage_client_patch in E. inv_result. destruct (_ <? _); inv_result; by apply elem_of_nil in Hin.
  - destruct m0; cbn [Storage.client_recv] in E; try (inv_result; by apply elem_of_nil in Hin).
    + unfold Storage.on_client_finished in E. inv_result. destruct (s_disconnected _); inv_result; [by apply elem_of_nil in Hin|].
      apply list_elem_of_singleton in Hin as [= -> ->]. rewrite client_of_with_client, decide_True by done. apply disconnect_disconnected.
    + unfold on_storage_insert in E. inv_result. destruct (s_disconnected _); inv_result; [by apply elem_of_nil in Hin|].
      by apply list_elem_of_singleton in Hin as [= -> ->].
  - unfold Storage.on_client_failure in E. inv_result. by apply list_elem_of_singleton in Hin as [= -> ->].
  - inv_result. by apply elem_of_nil in Hin.
  - inv_result. by apply elem_of_nil in Hin.
Qed.

(** A freeze is answered with the client's cut, the request of its data with a flush after the
    data. *)
Lemma freeze_answered stale req s s' out :
  Storage.handle (EControl stale (MStorageClientFreeze req)) s = Ok (s', out) ->
  exists cut, cut_client_id cut = scf_client_id req /\ (Storage.ToOrder, MOrderClientCut cut) ∈ out.
Proof.
  cbn [Storage.handle control_recv]. unfold on_storage_client_freeze. intros E. inv_result.
  eexists. split; [|by apply list_elem_of_singleton]. done.
Qed.

Lemma request_answered stale req s s' out :
  Storage.handle (EControl stale (MStorageClientCut req)) s = Ok (s', out) ->
  exists data, ocd_client_id data = scc_client_id req /\ ocd_gsn data = UINT64_MAX /\ (Storage.ToOrder, MOrderClientData data) ∈ out.
Proof.
  cbn [Storage.handle control_recv]. unfold on_storage_client_cut. intros E. inv_result.
  eexists. split_and!; [| |apply elem_of_app; right; by apply list_elem_of_singleton]; done.
Qed.

(** A replica that a failed client has not reached waits for it: the control thread is stuck. *)
Lemma freeze_waits stale m s :
  scf_client_id m < MAX_CLIENTS -> s_connected (client_of s (scf_client_id m)) = false ->
  control_recv stale (MStorageClientFreeze m) s = Err Waits.
Proof.
  intros Hc Hs. cbn [control_recv]. unfold on_storage_client_freeze, get_client_state, get_client_state_cas.
  rewrite (proj2 (Z.ltb_lt _ _) Hc). cbn [negb]. unfold client_of in Hs. destruct (st_clients_ s !! _) as [cs|]; [|done].
  cbn [mbind result_bind]. simpl in Hs. unfold wait_connected. by rewrite Hs.
Qed.
