(* ===== verification/ClusterInv.v ===== *)
(** * The invariant of the cluster

    In every state of [Cluster]: the cuts that the ordering server has recorded, and those on the
    way to it, are final at their replicas; what it sends a replica for the recovery of the client
    is for a client that the replica has disconnected; the client takes its leave of the ordering
    server after all replicas; and it is connected to none of them or to all.  Every step
    preserves it. *)
From S2P Require Import Prelude Consts Util Api StorageLog Interleave LogInv StorageLogSpec Storage StorageSpec Order OrderSpec EpochSpec RecoverySpec ControlSpec Client ClientSpec ClientAckSpec System SystemSpec Cluster.

#[local] Opaque NUM_ENTRIES_PER_BLOCK NUM_SHARDS.

(** ** The invariant *)

Definition is_info (m : message) : Prop := match m with MClientStorageInfo _ => True | _ => False end.
#[export] Instance is_info_dec m : Decision (is_info m).
Proof. destruct m; apply _. Defined.

Definition infos (ms : list message) : list message := filter is_info ms.

(** A replica has been recorded for every place: distinct replicas, as many as there are. *)
Lemma all_recorded (cuts : list (Z * Z)) (reps : list Z) r :
  smap_sorted cuts -> NoDup reps -> (forall r g, (r, g) ∈ cuts -> r ∈ reps) -> length cuts = length reps -> r ∈ reps ->
  exists g, (r, g) ∈ cuts.
Proof.
  intros Hs Hnd Hin Hlen Hr. assert (NoDup cuts.*1) as Hnd' by by apply smap_sorted_NoDup.
  assert (cuts.*1 ≡ₚ reps) as Hp.
  { apply submseteq_length_Permutation; [|by rewrite length_fmap, Hlen]. apply NoDup_submseteq; [done|].
    intros x ([r' g] & -> & Hx)%list_elem_of_fmap. by eapply Hin. }
  rewrite <- Hp in Hr. apply list_elem_of_fmap in Hr as ([r' g] & -> & Hx). eauto.
Qed.

Section invariant.
Variables client_id shard_id failures : Z.
Variable estimate : option pid.
Variable connect : sockaddr_in -> option (message * Z).
Hypothesis failures_nonneg : 0 <= failures.

(** The storage servers that the ordering server knows; each tells a client who it is. *)
Variable A : gmap Z (gmap Z sockaddr_in).
Variable client_threads : Z.
Hypothesis A_connects : forall rid a, default ∅ (A !! shard_id) !! rid = Some a ->
  exists port, let intro := MStorageIntro (StorageIntro shard_id rid client_threads port) in
    connect a = Some (intro, message_length intro).

(** The replicas of the shard. *)
Definition R : gset Z := dom (default ∅ (A !! shard_id)).

Definition gone (s : storage) : Prop := s_disconnected (client_of s client_id) = true.

(** The replicas' states are all that the rest depends on. *)
Definition servers (x : system) : gmap Z storage := ln_server <$> sy_links x.

Definition all_gone (S : gmap Z storage) : Prop := forall rid s, S !! rid = Some s -> gone s.

(** What a replica tells the ordering server: a cut is final; cuts and data are its own. *)
Definition reply_ok (rid : Z) (s : storage) (m : message) : Prop :=
  match m with
  | MOrderClientCut cut =>
    cut_shard_id cut = shard_id /\ cut_replica_id cut = rid /\ frozen (cut_client_id cut) (cut_latest_gsn cut) s
  | MOrderClientData data => ocd_shard_id data = shard_id /\ ocd_replica_id data = rid
  | MOrderClientFreeze _ => True
  | _ => False
  end.

(** What a client tells the ordering server: it takes its leave after all replicas. *)
Definition says_ok (S : gmap Z storage) (m : message) : Prop :=
  match m with MOrderClientRate _ => True | MClientFinished _ => all_gone S | _ => False end.

Record wire_ok (rid : Z) (s : storage) (w : wire) : Prop := {
  wo_shard : st_shard_id_ s = shard_id;
  wo_replica : st_replica_id_ s = rid;
  wo_control m : m ∈ wi_control w -> recovers client_id m -> gone s;
  wo_replies m : m ∈ wi_replies w -> reply_ok rid s m;
  wo_byes : (0 < wi_byes w)%nat -> gone s }.

Definition wires_ok (S : gmap Z storage) (W : gmap Z wire) : Prop :=
  forall rid s w, S !! rid = Some s -> W !! rid = Some w -> wire_ok rid s w.

(** The cuts that the ordering server has recorded are final, and it requests the data of a
    client when it has the cuts of all replicas. *)
Definition cuts_final (c : Z) (st : Order.client_state) (S : gmap Z storage) : Prop :=
  forall r g, (r, g) ∈ o_cuts st -> exists s, S !! r = Some s /\ frozen c g s.

Definition cuts_ok (o : order) (S : gmap Z storage) : Prop :=
  forall c st, client_state_ o !! c = Some st -> o_shard_id st = shard_id ->
    cuts_final c st S /\ (o_requested st = true -> length (o_cuts st) = length (replicas o shard_id)).

(** The message connects the client to all replicas. *)
Definition reaches (m : message) : Prop :=
  match m with
  | MClientStorageInfo info => forall k k', queues k = ∅ -> on_client_storage_info client_id shard_id connect info k = Ok k' -> R ⊆ queues k'
  | _ => True
  end.

(** The client has not been told of the replicas yet, or it has been connected to all of them. *)
Definition greeted (introduced : bool) (S : gmap Z storage) (sent : list (option Z * storage_insert)) (ms : list message)
    (k : connections) : Prop :=
  (queues k = ∅ /\ sent = [] /\ Forall reaches ms /\ (length (infos ms) <= if introduced then 1 else 0)%nat) \/
  (introduced = true /\ infos ms = [] /\ forall rid s, S !! rid = Some s -> rid ∈ queues k \/ gone s).

Record cluster_ok (K : cluster) : Prop := {
  co_order : order_ok (cl_order K);
  co_addresses : storage_addresses_ (cl_order K) = A;
  co_servers : dom (servers (cl_system K)) = R;
  co_wired : dom (cl_wires K) = R;
  co_wires : wires_ok (servers (cl_system K)) (cl_wires K);
  co_cuts : cuts_ok (cl_order K) (servers (cl_system K));
  co_says : Forall (says_ok (servers (cl_system K))) (cl_to_order K);
  co_greeted : greeted (cl_introduced K) (servers (cl_system K)) (sy_sent (cl_system K)) (cl_to_client K) (c_conn (sy_client (cl_system K))) }.

(** ** A step of the ordering server *)

Lemma servers_post_epochs out x : servers (post_epochs shard_id out x) = servers x.
Proof.
  unfold servers, post_epochs. cbn [sy_links]. apply map_eq. intros rid. rewrite !lookup_fmap, map_lookup_imap.
  by destruct (sy_links x !! rid).
Qed.

Lemma control_sent_elem rid out m : m ∈ control_sent shard_id rid out <-> (Order.ToStorage shard_id rid, m) ∈ out.
Proof.
  unfold control_sent. rewrite list_elem_of_omap. split.
  - intros ([d m'] & Hin & Hd). cbn [fst snd] in Hd. destruct d as [s r| |]; try done.
    case_bool_decide as Hsr; [|done]. destruct Hsr as [-> ->]. by injection Hd as ->.
  - intros Hin. eexists. split; [exact Hin|]. cbn [fst snd]. by rewrite bool_decide_true.
Qed.

Lemma told_elem out m : m ∈ told client_id out -> (Order.ToClient client_id, m) ∈ out.
Proof.
  unfold told. rewrite list_elem_of_omap. intros ([d m'] & Hin & Hd). cbn [fst snd] in Hd. destruct d as [| c |]; try done.
  destruct (Z.eqb_spec c client_id) as [->|]; [|done]. by injection Hd as ->.
Qed.

(** What an event brings: a farewell of the client comes when all replicas have disconnected it,
    a cut of the shard is final, data of the shard comes from one of its replicas. *)
Definition brings (e : Order.event) (S : gmap Z storage) : Prop :=
  match e with
  | ERecv (MClientFinished bye) => cf_client_id bye = client_id -> all_gone S
  | ERecv (MOrderClientCut cut) => cut_shard_id cut = shard_id ->
      exists s, S !! cut_replica_id cut = Some s /\ frozen (cut_client_id cut) (cut_latest_gsn cut) s
  | ERecv (MOrderClientData data) => ocd_shard_id data = shard_id -> is_Some (S !! ocd_replica_id data)
  | EAccept (MStorageIntro _) _ => False
  | _ => True
  end.

(** The client's introduction, if the event is that, is its first. *)
Definition introduces (e : Order.event) (K : cluster) : Prop :=
  match e with
  | EAccept (MClientIntro intro) _ => ci_client_id intro = client_id ->
      ci_shard_id intro = shard_id /\ cl_introduced K = true /\ infos (cl_to_client K) = [] /\
      queues (c_conn (sy_client (cl_system K))) = ∅ /\ sy_sent (cl_system K) = []
  | _ => True
  end.

(** The addresses of the storage servers lead to all of them. *)
Lemma connects_all l k k' :
  (forall a, a ∈ l -> exists rid, default ∅ (A !! shard_id) !! rid = Some a) ->
  queues k = ∅ \/ client_queues k = client_threads -> mfold (connect_storage client_id shard_id connect) l k = Ok k' ->
  queues k ⊆ queues k' /\ forall rid a, default ∅ (A !! shard_id) !! rid = Some a -> a ∈ l -> rid ∈ queues k'.
Proof.
  revert k. induction l as [|a l IH]; intros k Hl Hk E; cbn [mfold] in E.
  { injection E as <-. split; [done|]. by intros rid a _ ?%elem_of_nil. }
  destruct (connect_storage client_id shard_id connect a k) as [k1|] eqn:Ek; [|done]. cbn [mbind result_bind] in E.
  assert (queues k ⊆ queues k1 /\ client_queues k1 = client_threads /\ forall rid, default ∅ (A !! shard_id) !! rid = Some a -> rid ∈ queues k1)
    as (Hsub & Hcq & Ha).
  { destruct (Hl a) as [rid0 Hrid0]; [constructor|]. destruct (A_connects _ _ Hrid0) as [port0 Hc0].
    assert (forall rid, default ∅ (A !! shard_id) !! rid = Some a -> rid = rid0) as Honly.
    { intros rid Hrid. destruct (A_connects _ _ Hrid) as [port Hc]. cbn zeta in Hc, Hc0. rewrite Hc in Hc0. by injection Hc0. }
    unfold connect_storage in Ek. cbn zeta in Hc0. rewrite Hc0 in Ek. cbn [si_shard_id si_replica_id si_client_queues] in Ek.
    rewrite !Z.eqb_refl in Ek. cbn [negb orb] in Ek. case_bool_decide as Hin; cbn [orb] in Ek.
    - injection Ek as <-. split; [done|]. split; [|by intros rid ->%Honly]. destruct Hk as [Hk|]; [set_solver|done].
    - replace (bool_decide (queues k = ∅) || (client_queues k =? client_threads)) with true in Ek.
      2:{ symmetry. apply orb_true_iff. destruct Hk as [Hk|Hk]; [left; by apply bool_decide_eq_true|right; by apply Z.eqb_eq]. }
      cbn [negb] in Ek. case_decide as Hq.
      + destruct (client_threads =? 0); [done|]. cbn [mbind result_bind] in Ek. injection Ek as <-. cbn [queues client_queues].
        split; [set_solver|]. split; [done|]. intros rid ->%Honly. set_solver.
      + cbn [mbind result_bind] in Ek. injection Ek as <-. cbn [queues client_queues]. destruct Hk as [Hk|Hk]; [done|].
        split; [set_solver|]. split; [done|]. intros rid ->%Honly. set_solver. }
  destruct (IH k1) as [Hs1 Hall]; [|by right|done|].
  { intros b Hb. apply Hl. by constructor. }
  split; [set_solver|]. intros rid b Hb [->|Hin]%elem_of_cons; [apply Hs1; by apply Ha|by eapply Hall].
Qed.

Lemma accepted_reaches o intro a o' out :
  storage_addresses_ o = A -> Order.handle (EAccept (MClientIntro intro) a) o = Ok (o', out) ->
  ci_shard_id intro = shard_id -> Forall reaches (told client_id out) /\ (length (told client_id out) <= 1)%nat.
Proof.
  intros HA E Hs. cbn [Order.handle on_accept] in E. unfold Order.add_client in E. destruct (_ || _); inv_result; [by split; [constructor|simpl; lia]|].
  cbn [told omap list_omap fst snd]. destruct (_ =? client_id); [|by split; [constructor|simpl; lia]]. split; [|simpl; lia].
  apply Forall_singleton. cbn [reaches]. intros k k' Hk Ek. unfold on_client_storage_info in Ek. cbn [csi_num_servers csi_addresses] in Ek.
  rewrite Hs, Nat2Z.id, take_ge in Ek by done. unfold addresses in Ek. rewrite HA in Ek.
  apply connects_all in Ek as [_ Hall]; [| |by left].
  2:{ intros x ([rid b] & -> & Hx%elem_of_map_to_list)%list_elem_of_fmap. by exists rid. }
  intros rid Hrid. unfold R in Hrid. apply elem_of_dom in Hrid as [b Hb]. apply (Hall _ b Hb).
  apply list_elem_of_fmap. exists (rid, b). split; [done|]. by apply elem_of_map_to_list.
Qed.

Section order.
Variables (o : order) (S : gmap Z storage).
Hypothesis o_ok : order_ok o.
Hypothesis o_replicas : forall rid, rid ∈ replicas o shard_id <-> rid ∈ R.
Hypothesis S_dom : dom S = R.
Hypothesis o_cuts_ok : cuts_ok o S.

Lemma cuts_from_replicas c st r g :
  client_state_ o !! c = Some st -> o_shard_id st = shard_id -> (r, g) ∈ o_cuts st -> r ∈ replicas o shard_id.
Proof.
  intros Hc Hs Hin. destruct (proj1 (o_cuts_ok c st Hc Hs) _ _ Hin) as (s & Hr & _).
  apply o_replicas. rewrite <- S_dom. by apply elem_of_dom_2 in Hr.
Qed.

(** A client whose cuts are complete is disconnected everywhere. *)
Lemma complete_gone cuts :
  smap_sorted cuts -> (forall r g, (r, g) ∈ cuts -> exists s, S !! r = Some s /\ frozen client_id g s) ->
  length cuts = length (replicas o shard_id) -> all_gone S.
Proof.
  intros Hs Hf Hlen rid s Hrid. destruct (all_recorded cuts (replicas o shard_id) rid Hs) as [g Hg]; [apply replicas_NoDup| |done| |].
  - intros r g Hin. destruct (Hf _ _ Hin) as (s' & Hr & _). apply o_replicas. rewrite <- S_dom. by apply elem_of_dom_2 in Hr.
  - apply o_replicas. rewrite <- S_dom. by apply elem_of_dom_2 in Hrid.
  - destruct (Hf _ _ Hg) as (s' & Hs' & [Hd _]). rewrite Hrid in Hs'. by injection Hs' as ->.
Qed.

(** The cuts with the one that has come. *)
Lemma with_cut cut st :
  client_state_ o !! cut_client_id cut = Some st -> cut_shard_id cut = o_shard_id st -> o_shard_id st = shard_id ->
  smap_find (cut_replica_id cut) (o_cuts st) = None -> brings (ERecv (MOrderClientCut cut)) S ->
  smap_sorted (smap_insert (cut_replica_id cut) (cut_latest_gsn cut) (o_cuts st)) /\
  forall r g, (r, g) ∈ smap_insert (cut_replica_id cut) (cut_latest_gsn cut) (o_cuts st) ->
    exists s, S !! r = Some s /\ frozen (cut_client_id cut) g s.
Proof.
  intros Hc Hcs Hs Hf Hb. pose proof (ck_cuts _ _ (ok_clients _ o_ok _ _ Hc)) as Hsort.
  split; [by apply smap_insert_sorted|]. intros r g [[= -> ->]|Hin]%smap_insert_elem; [| |done].
  - apply Hb. congruence.
  - by apply (o_cuts_ok _ st Hc Hs).
Qed.

Lemma reason_gone e st :
  brings e S -> client_state_ o !! client_id = Some st -> o_shard_id st = shard_id -> reason e o client_id st -> all_gone S.
Proof.
  intros Hb Hc Hs [bye -> Hbye|Hrq|cut cuts -> Hcut Hcomp].
  - by apply Hb.
  - destruct (o_cuts_ok _ _ Hc Hs) as [Hf Hlen]. apply (complete_gone (o_cuts st)); [by apply (ok_clients _ o_ok) in Hc as []|done|by apply Hlen].
  - destruct Hcomp as (Hc' & _ & _ & Hsh & Hnone & <- & Hlen).
    destruct (with_cut cut st Hc') as [H1 H2]; [done..|]. rewrite Hcut in H2. rewrite Hs in Hlen. by eapply complete_gone.
Qed.

Lemma cuts_step e o' out :
  brings e S -> Order.handle e o = Ok (o', out) -> storage_addresses_ o' = storage_addresses_ o -> cuts_ok o' S.
Proof.
  intros Hb E Ha c st' Hc' Hs'. assert (replicas o' shard_id = replicas o shard_id) as -> by (unfold replicas; by rewrite Ha).
  destruct (handle_carries _ _ _ _ E _ _ Hc') as [[Hcu Hrq]|(st & Hc & Hs & Hor)].
  { rewrite Hrq. split; [|done]. intros r g Hin. rewrite Hcu in Hin. by apply elem_of_nil in Hin. }
  rewrite Hs in Hs'. destruct (o_cuts_ok _ _ Hc Hs') as [Hf Hlen].
  destruct Hor as [[Hcu ->]|(cut & -> & <- & Hcs & Hnone & Hcu & Hrq)].
  { unfold cuts_final. by rewrite Hcu. }
  destruct (with_cut cut st Hc Hcs Hs' Hnone Hb) as [Hsort Hfin]. unfold cuts_final. rewrite Hcu. split; [done|].
  intros Hr. rewrite <- Hcu. destruct (Hrq Hr) as [Hold|Hl]; [|by rewrite Hl, Hs'].
  exfalso. destruct (Hb ltac:(congruence)) as (s & Hrs & _).
  destruct (all_recorded (o_cuts st) (replicas o shard_id) (cut_replica_id cut)) as [g Hg].
  - by apply (ok_clients _ o_ok) in Hc as [].
  - apply replicas_NoDup.
  - intros r g Hin. by eapply cuts_from_replicas.
  - by apply Hlen.
  - apply o_replicas. rewrite <- S_dom. by apply elem_of_dom_2 in Hrs.
  - apply smap_find_sorted in Hg; [congruence|]. by apply (ok_clients _ o_ok) in Hc as [].
Qed.
End order.

(** What the client is told after an event. *)
Lemma greeted_told e K o out :
  cluster_ok K -> OrderSpec.event_ok (cl_order K) e -> introduces e K -> Order.handle e (cl_order K) = Ok (o, out) ->
  greeted (cl_introduced K) (servers (cl_system K)) (sy_sent (cl_system K)) (cl_to_client K ++ told client_id out)
    (c_conn (sy_client (cl_system K))).
Proof.
  intros H Hok Hi E. pose proof (co_greeted _ H) as Hg. pose proof (handle_justified _ (co_order _ H) _ _ _ Hok E) as Hj.
  rewrite Forall_forall in Hj. destruct (decide (infos (told client_id out) = [])) as [Hnil|Hne].
  - assert (infos (cl_to_client K ++ told client_id out) = infos (cl_to_client K)) as Heq.
    { unfold infos in *. by rewrite filter_app, Hnil, app_nil_r. }
    destruct Hg as [(? & ? & Hr & ?)|(? & ? & ?)]; [left|right; by rewrite Heq].
    split; [done|]. split; [done|]. split; [|by rewrite Heq]. apply Forall_app_2; [done|].
    apply Forall_forall. intros m Hm. destruct m; try done. exfalso.
    assert (MClientStorageInfo m ∈ infos (told client_id out)) as Hin by by apply list_elem_of_filter.
    rewrite Hnil in Hin. by apply elem_of_nil in Hin.
  - destruct (infos (told client_id out)) as [|m ms] eqn:Hm; [done|].
    assert (m ∈ infos (told client_id out)) as Hin by (rewrite Hm; constructor). apply list_elem_of_filter in Hin as [Hmi Hin].
    destruct m; try done. apply told_elem, Hj in Hin as (intro & a & -> & Hid). destruct (Hi Hid) as (Hs & Hb & Hnone & Hq & Hsent).
    destruct (accepted_reaches _ _ _ _ _ (co_addresses _ H) E Hs) as [Hr Hl]. left. split_and!; [done|done| |].
    + apply Forall_app_2; [|done]. destruct Hg as [(_ & _ & ? & _)|(_ & _ & _)]; [done|].
      apply Forall_forall. intros x Hx. destruct x; try done. exfalso.
      assert (MClientStorageInfo m0 ∈ infos (cl_to_client K)) as Hin' by by apply list_elem_of_filter.
      rewrite Hnone in Hin'. by apply elem_of_nil in Hin'.
    + rewrite Hb. unfold infos in *. rewrite filter_app, Hnone. cbn [app]. etrans; [apply length_filter|done].
Qed.

Lemma replicas_R K rid : cluster_ok K -> rid ∈ replicas (cl_order K) shard_id <-> rid ∈ R.
Proof.
  intros H. unfold replicas, R. rewrite (co_addresses _ H), list_elem_of_fmap, elem_of_dom. split.
  - intros ([r x] & -> & Hx%elem_of_map_to_list). by eexists.
  - intros [x Hx]. exists (rid, x). split; [done|]. by apply elem_of_map_to_list.
Qed.

Lemma order_round_ok e K K' :
  cluster_ok K -> OrderSpec.event_ok (cl_order K) e -> brings e (servers (cl_system K)) -> introduces e K ->
  order_round client_id shard_id e K = Some K' -> cluster_ok K'.
Proof.
  intros H Hok Hb Hi E. pose proof H as [H1 H2 H3 H3' H4 H5 H6 H7]. unfold order_round in E.
  destruct (Order.handle e (cl_order K)) as [[o out]|] eqn:Eh; [|done]. injection E as <-.
  assert (storage_addresses_ o = storage_addresses_ (cl_order K)) as Ha.
  { apply (handle_storage _ _ _ _ Eh). intros Hst. by destruct e as [| | |[]]. }
  pose proof (fun rid => replicas_R K rid H) as HR.
  pose proof (handle_justified _ H1 _ _ _ Hok Eh) as Hj. rewrite Forall_forall in Hj.
  split; cbn [cl_order cl_system cl_wires cl_to_client cl_to_order cl_introduced]; rewrite ?servers_post_epochs; try done.
  - by eapply handle_ok.
  - by rewrite Ha.
  - apply set_eq. intros rid. unfold post_control. rewrite <- H3', !elem_of_dom, map_lookup_imap.
    destruct (cl_wires K !! rid); split; intros []; eauto; done.
  - intros rid s w' Hs Hw. unfold post_control in Hw. rewrite map_lookup_imap in Hw.
    destruct (cl_wires K !! rid) as [w|] eqn:Hw0; [|done]. injection Hw as <-. destruct (H4 _ _ _ Hs Hw0) as [? ? Hc ? ?].
    split; try done. cbn [wi_control]. intros m [Hm|Hm]%elem_of_app Hrec; [by eapply Hc|]. apply control_sent_elem, Hj in Hm.
    assert (exists st, client_state_ (cl_order K) !! client_id = Some st /\ o_shard_id st = shard_id /\ reason e (cl_order K) client_id st) as (st & Hst & Hsh & Hr).
    { destruct m; try done; destruct (Hm _ Hrec) as (st & ? & ? & _ & ? & _); by exists st. } by apply (reason_gone _ _ H1 HR H3 H5 _ _ Hb Hst Hsh Hr rid).
  - by eapply cuts_step.
  - cbn [post_epochs sy_client sy_sent]. by eapply greeted_told.
Qed.

(** ** A step of a replica *)

(** What is final stays so. *)
Definition later (s s' : storage) : Prop := forall c g, frozen c g s -> frozen c g s'.

Lemma later_gone s s' : later s s' -> gone s -> gone s'.
Proof. intros H Hg. by apply (H client_id (s_latest_gsn (client_of s client_id))). Qed.

Lemma handle_later e s s' out : Storage.handle e s = Ok (s', out) -> later s s'.
Proof. intros E c g Hf. by apply (handle_frozen _ _ _ _ _ _ E). Qed.

Section server.
Variables (S : gmap Z storage) (rid : Z) (s s' : storage).
Hypothesis S_rid : S !! rid = Some s.
Hypothesis s_later : later s s'.

Lemma all_gone_later : all_gone S -> all_gone (<[rid := s']> S).
Proof. intros H r t [[<- <-]|[_ Hr]]%lookup_insert_Some; [by eapply later_gone, H|by eapply H]. Qed.

Lemma frozen_later r c g : (exists t, S !! r = Some t /\ frozen c g t) -> exists t, <[rid := s']> S !! r = Some t /\ frozen c g t.
Proof.
  intros (t & Hr & Hf). destruct (decide (rid = r)) as [<-|Hne].
  - exists s'. rewrite lookup_insert_eq. split; [done|]. apply s_later. rewrite S_rid in Hr. by injection Hr as ->.
  - exists t. by rewrite lookup_insert_ne.
Qed.

Lemma cuts_ok_later o : cuts_ok o S -> cuts_ok o (<[rid := s']> S).
Proof.
  intros H c st Hc Hs. destruct (H c st Hc Hs) as [Hf Hl]. split; [|done]. intros r g Hin. by apply frozen_later, Hf.
Qed.

Lemma greeted_later b sent ms k : greeted b S sent ms k -> greeted b (<[rid := s']> S) sent ms k.
Proof.
  intros [H|(Hb & Hi & H)]; [by left|right]. split; [done|]. split; [done|]. intros r t [[<- <-]|[_ Hr]]%lookup_insert_Some; [|by apply H].
  destruct (H _ _ S_rid); [by left|right]. by eapply later_gone.
Qed.
End server.

Lemma servers_step rid e x x' ln s out :
  sy_links x !! rid = Some ln -> Storage.handle e (ln_server ln) = Ok (s, out) ->
  server_step client_id rid e x = Some x' ->
  servers x' = <[rid := s]> (servers x) /\ sy_client x' = sy_client x /\ sy_sent x' = sy_sent x.
Proof.
  intros Hl Eh E. unfold server_step in E. rewrite Hl in E. cbn [mbind option_bind] in E.
  destruct (take_event client_id e ln) as [ln1|] eqn:Ht; [|done]. cbn [mbind option_bind] in E.
  rewrite (take_event_server _ _ _ _ Ht), Eh in E. injection E as <-. split; [|done]. unfold servers. cbn [sy_links]. by rewrite fmap_insert.
Qed.

Lemma wire_ok_step rid e s s' out w :
  wire_ok rid s w -> Storage.handle e s = Ok (s', out) ->
  wire_ok rid s' (Wire (wi_control w) (wi_replies w ++ replies out) (wi_byes w + length (farewells client_id out))).
Proof.
  intros [H1 H2 H3 H4 H5] E. pose proof (handle_later _ _ _ _ E) as Hl. destruct (handle_host _ _ _ _ E) as (Hh1 & Hh2 & _).
  split; cbn [wi_control wi_replies wi_byes]; [congruence|congruence|..].
  - intros m Hm Hr. by eapply later_gone, H3.
  - intros m [Hin|Hin]%elem_of_app.
    + specialize (H4 _ Hin). destruct m; try done. destruct H4 as (? & ? & Hf). split_and!; [done|done|by apply Hl].
    + unfold replies in Hin. apply list_elem_of_omap in Hin as ([d m'] & Hin & Hd). cbn [fst snd] in Hd.
      destruct d; try done. injection Hd as ->. apply (handle_answers _ _ _ _ _ _ E) in Hin.
      destruct m; try done; destruct_and? Hin; split_and!; congruence || done.
  - intros Hb. destruct (wi_byes w) as [|n]; [|eapply later_gone, H5; [done|lia]].
    destruct (farewells client_id out) as [|b bs] eqn:Hfw; [simpl in Hb; lia|].
    assert (b ∈ farewells client_id out) as Hin by (rewrite Hfw; constructor). unfold farewells in Hin.
    apply list_elem_of_omap in Hin as ([d m] & Hin & Hd). destruct d as [|c|]; try done. destruct m; try done.
    destruct (Z.eqb_spec c client_id) as [->|]; [|done]. by apply (handle_answers _ _ _ _ _ _ E) in Hin.
Qed.

Lemma server_round_ok rid e K K' :
  cluster_ok K -> server_round client_id rid e K = Some K' -> cluster_ok K'.
Proof.
  intros [H1 H2 H3 H3' H4 H5 H6 H7] E. unfold server_round in E.
  destruct (sy_links (cl_system K) !! rid) as [ln|] eqn:Hln; [|done]. cbn [mbind option_bind] in E.
  destruct (cl_wires K !! rid) as [w|] eqn:Hw; [|done]. cbn [mbind option_bind] in E.
  destruct (server_step client_id rid e (cl_system K)) as [x|] eqn:Es; [|done]. cbn [mbind option_bind] in E.
  destruct (Storage.handle e (ln_server ln)) as [[s out]|] eqn:Eh; [|done]. injection E as <-.
  destruct (servers_step _ _ _ _ _ _ _ Hln Eh Es) as (Hsv & Hcl & Hsent). pose proof (handle_later _ _ _ _ Eh) as Hl.
  assert (servers (cl_system K) !! rid = Some (ln_server ln)) as Hrid by (unfold servers; by rewrite lookup_fmap, Hln).
  split; cbn [cl_order cl_system cl_wires cl_to_client cl_to_order]; rewrite ?Hsv, ?Hcl, ?Hsent.
  - done.
  - done.
  - rewrite dom_insert_lookup_L; [done|]. by eexists.
  - rewrite dom_insert_lookup_L; [done|]. by eexists.
  - intros r t wr [[<- <-]|[Hne Hr]]%lookup_insert_Some Hwr.
    + rewrite lookup_insert_eq in Hwr. injection Hwr as <-. eapply wire_ok_step; [by apply H4|done].
    + rewrite lookup_insert_ne in Hwr by done. by apply H4.
  - by eapply cuts_ok_later.
  - eapply Forall_impl; [exact H6|]. intros m Hm. destruct m; try done. by eapply all_gone_later.
  - by eapply greeted_later.
Qed.

(** ** A step of the client *)

Lemma collect_servers ms L L' : collect ms L = Some L' -> ln_server <$> L' = ln_server <$> L.
Proof.
  revert L. induction ms as [|m ms IH]; intros L E; [by injection E as <-|]. destruct m; cbn [collect] in E; try by apply IH.
  destruct (L !! ack_replica_id m) as [ln|] eqn:Hl; [|done]. cbn [mbind option_bind] in E.
  destruct (ln_answers ln) as [|a rest]; [done|]. destruct (_ && _); [|done]. rewrite (IH _ E), fmap_insert. cbn [ln_server].
  apply insert_id. by rewrite lookup_fmap, Hl.
Qed.

Lemma post_all_servers out L : ln_server <$> post_all out L = ln_server <$> L.
Proof. apply map_eq. intros rid. unfold post_all. rewrite !lookup_fmap, map_lookup_imap. by destruct (L !! rid). Qed.

Section client.
Variable introduced : bool.
Variable S : gmap Z storage.
Hypothesis S_dom : dom S = R.
Variable sent : list (option Z * storage_insert).

Abbreviation take_message := (Cluster.take_message shard_id).
Abbreviation client_recv := (Client.client_recv client_id shard_id failures connect).

(** The connections and what is on the way to the client. *)
Definition receiving (q : list message * gmap Z wire) (k : connections) : Prop :=
  greeted introduced S sent q.1 k /\ wires_ok S q.2.

(** A message of the ordering server that is none of the storage servers. *)
Lemma greeted_next m rest k : ~ is_info m -> greeted introduced S sent (m :: rest) k -> greeted introduced S sent rest k.
Proof.
  intros Hm [(Hq & Hs & Hr & Hl)|(Hb & Hi & Hc)]; unfold infos in *; rewrite filter_cons_False in * by done; [left|by right].
  apply Forall_cons in Hr as [_ Hr]. by split_and!.
Qed.

Lemma greeted_queues ms k k' : queues k' = queues k -> greeted introduced S sent ms k -> greeted introduced S sent ms k'.
Proof. unfold greeted. by intros ->. Qed.

Lemma greeted_info m rest k k' info :
  m = MClientStorageInfo info -> greeted introduced S sent (m :: rest) k -> on_client_storage_info client_id shard_id connect info k = Ok k' ->
  greeted introduced S sent rest k'.
Proof.
  intros -> [(Hq & Hs & Hr & Hl)|(_ & Hi & _)] E; unfold infos in *; rewrite filter_cons_True in * by done; [|done].
  apply Forall_cons in Hr as [Hr _]. destruct introduced; simpl in Hl; [|lia]. right. split; [done|].
  split; [unfold infos; destruct (filter is_info rest); [done|simpl in Hl; lia]|].
  intros rid s Hrid. left. apply (Hr _ _ Hq E). rewrite <- S_dom. by apply elem_of_dom_2 in Hrid.
Qed.

(** The replica that takes its leave has disconnected the client. *)
Lemma greeted_bye bye ms k :
  greeted introduced S sent ms k -> (sf_shard_id bye = shard_id -> forall s, S !! sf_replica_id bye = Some s -> gone s) ->
  let '(k', out) := on_storage_finished client_id shard_id bye k in
  greeted introduced S sent ms k' /\ (order_notified out <> [] -> all_gone S).
Proof.
  intros H Hg. unfold on_storage_finished. destruct (Z.eqb_spec (sf_shard_id bye) shard_id) as [Hs|]; [|done].
  case_bool_decide as Hin; [done|]. cbn [negb orb]. destruct (decide (sf_replica_id bye ∈ queues k)) as [Hin'|]; [|done].
  destruct H as [(Hq & _)|(Hb & Hi & Hc)]; [rewrite Hq in Hin'; set_solver|].
  assert (forall rid s, S !! rid = Some s -> rid ∈ queues k ∖ {[sf_replica_id bye]} \/ gone s) as Hc'.
  { intros rid s Hrid. destruct (Hc _ _ Hrid) as [Hq|]; [|by right]. destruct (decide (rid = sf_replica_id bye)) as [->|Hne].
    - right. by eapply Hg.
    - left. set_solver. }
  split; [by right|]. case_decide as He; [|done]. intros _ rid s Hrid. destruct (Hc' _ _ Hrid) as [Hq|]; [|done]. set_solver.
Qed.

Lemma take_bye bye q q' s :
  sf_shard_id bye = shard_id -> take_message (MStorageFinished bye) q = Some q' -> wires_ok S q.2 ->
  S !! sf_replica_id bye = Some s -> gone s.
Proof.
  intros Hs E Hw Hrid. cbn [Cluster.take_message] in E. rewrite Hs, Z.eqb_refl in E.
  destruct (q.2 !! sf_replica_id bye) as [w|] eqn:Hwr; [|done]. cbn [mbind option_bind] in E.
  destruct (wi_byes w) as [|n] eqn:Hb; [done|]. apply (wo_byes _ _ _ (Hw _ _ _ Hrid Hwr)). lia.
Qed.

Lemma take_wires m q q' : take_message m q = Some q' -> wires_ok S q.2 -> wires_ok S q'.2.
Proof.
  intros E Hw. destruct m; cbn [Cluster.take_message] in E; try (by injection E as <-);
    try (destruct q.1 as [|m' rest]; [done|]; case_decide; [|done]; by injection E as <-).
  destruct (_ =? _); [|by injection E as <-]. destruct (q.2 !! sf_replica_id m) as [w|] eqn:Hwr; [|done]. cbn [mbind option_bind] in E.
  destruct (wi_byes w) as [|n] eqn:Hb; [done|]. injection E as <-. cbn [snd]. intros rid s wr Hrid [[<- <-]|[_ Hr]]%lookup_insert_Some; [|by apply Hw].
  destruct (Hw _ _ _ Hrid Hwr) as [? ? ? ? Hby]. split; try done. cbn [wi_byes]. intros _. apply Hby. lia.
Qed.

Lemma client_recv_receiving m c c' out q q' :
  receiving q (c_conn c) -> client_recv m c = Ok (c', out) -> take_message m q = Some q' ->
  receiving q' (c_conn c') /\ (order_notified out <> [] -> all_gone S).
Proof.
  intros [Hg Hw] E Et. pose proof (take_wires _ _ _ Et Hw) as Hw'. unfold receiving.
  enough (greeted introduced S sent q'.1 (c_conn c') /\ (order_notified out <> [] -> all_gone S)) by tauto.
  destruct m; cbn [Client.client_recv] in E; try (cbn [Cluster.take_message] in Et; injection Et as <-; by injection E as <- <-).
  - cbn [Cluster.take_message] in Et. destruct q.1 as [|m' rest] eqn:Hq; [done|]. case_decide; [|done]. subst m'.
    injection Et as <-. injection E as <- <-. split; [|done]. cbn [fst]. eapply greeted_queues; [|eapply greeted_next; [|exact Hg]]; [done|by intros []].
  - destruct (on_storage_finished client_id shard_id m (c_conn c)) as [k o] eqn:Eb. injection E as <- <-.
    pose proof (greeted_bye m q.1 (c_conn c) Hg (fun Hs s => take_bye m q q' s Hs Et Hw)) as Hb. rewrite Eb in Hb.
    replace q'.1 with q.1; [done|]. cbn [Cluster.take_message] in Et. destruct (_ =? _); [|by injection Et as <-].
    destruct (q.2 !! sf_replica_id m) as [w|]; [|done]. cbn [mbind option_bind] in Et. destruct (wi_byes w); [done|]. by injection Et as <-.
  - cbn [Cluster.take_message] in Et. injection Et as <-. destruct (on_client_insert_ack _ _ _ _). by injection E as <- <-.
  - cbn [Cluster.take_message] in Et. destruct q.1 as [|m' rest] eqn:Hq; [done|]. case_decide; [|done]. subst m'. injection Et as <-.
    inv_result. split; [|done]. cbn [fst with_conn c_conn]. by eapply greeted_info.
  - cbn [Cluster.take_message] in Et. destruct q.1 as [|m' rest] eqn:Hq; [done|]. case_decide; [|done]. subst m'.
    injection Et as <-. injection E as <- <-. split; [|done]. cbn [fst]. eapply greeted_next; [|exact Hg]. by intros [].
  - cbn [Cluster.take_message] in Et. destruct q.1 as [|m' rest] eqn:Hq; [done|]. case_decide; [|done]. subst m'.
    injection Et as <-. injection E as <- <-. split; [|done]. cbn [fst]. eapply greeted_next; [|exact Hg]. by intros [].
Qed.

Lemma recv_batch_receiving ms c out0 c' out q q' :
  receiving q (c_conn c) ->
  mfold (fun m '(c, out) => '(c, o) ← client_recv m c; Ok (c, out ++ o)) ms (c, out0) = Ok (c', out) ->
  take_messages shard_id ms q = Some q' ->
  receiving q' (c_conn c') /\ exists o, out = out0 ++ o /\ (order_notified o <> [] -> all_gone S).
Proof.
  revert c out0 q. induction ms as [|m ms IH]; intros c out0 q H E Et; cbn [mfold take_messages] in *.
  { injection E as <- <-. injection Et as <-. split; [done|]. exists []. by rewrite app_nil_r. }
  destruct (take_message m q) as [q1|] eqn:Eq; [|done]. inv_result. cbn [mbind option_bind] in Et.
  destruct (client_recv_receiving _ _ _ _ _ _ H E1 Eq) as [H1 Hn]. destruct (IH _ _ _ H1 E Et) as (H2 & o2 & -> & Hn2).
  split; [done|]. eexists. rewrite <- app_assoc. split; [done|]. replace (order_notified (l0 ++ o2)) with (order_notified l0 ++ order_notified o2) by (symmetry; apply omap_app).
  destruct (order_notified l0) as [|x xs]; [exact Hn2|intros _; by apply Hn].
Qed.
End client.

(** A client that has not been told of the replicas sends nothing. *)
Lemma idle_sends_nothing stop now c c' out :
  queues (c_conn c) = ∅ -> before_recv client_id failures estimate stop now c = Ok (c', out) -> requests out = [].
Proof.
  intros Hq E. unfold before_recv in E. destruct (check_stop client_id stop (c_conn c)) as [k out1] eqn:Ek. inv_result.
  assert (queues k = ∅ /\ requests out1 = []) as [Hk H1].
  { revert Ek. unfold check_stop, to_queues. rewrite Hq. destruct (negb _ && _); by intros [= <- <-]. }
  assert (requests l = []) as H2.
  { revert E0. unfold switch_epoch. destruct (epochs _) as [|next rest]; [by intros [= <- <- <-]|].
    destruct (_ <=? _); [|by intros [= <- <- <-]]. intros H. inv_result. revert E.
    destruct estimate as [p|]; [|intros Hx; by simplify_eq].
    destruct (negb (e_begin (current (c_slots c)) =? e_begin FIRST_EPOCH)); [|intros Hx; by simplify_eq].
    unfold update_rate. intros Hx. inv_result. destruct (negb (SpecFloat.SFeqb _ _)); inv_result; done. }
  assert (l0 = []) as ->.
  { unfold send_requests in E1. replace (can_send _ _ _) with false in E1; [by injection E1 as _ <-|]. unfold can_send. cbn [c_conn]. rewrite Hk.
    rewrite size_empty. symmetry. rewrite !andb_false_iff. left. left. right. apply Z.ltb_ge. lia. }
  unfold requests in *. by rewrite !omap_app, H1, H2.
Qed.

Lemma idle_new_sent e c : queues (c_conn c) = ∅ -> new_sent client_id failures estimate e c = [].
Proof.
  intros Hq. destruct e as [| |stop now ms]; try done. cbn [new_sent]. destruct (ended _); [done|].
  destruct (before_recv _ _ _ _ _ _) as [[c' out]|] eqn:E; [|done]. rewrite (idle_sends_nothing _ _ _ _ _ Hq E).
  by destruct (o_response <$> _).
Qed.

Lemma greeted_sent b S sent ms k new : greeted b S sent ms k -> (queues k = ∅ -> new = []) -> greeted b S (sent ++ new) ms k.
Proof. intros [(Hq & -> & Hr & Hl)|H] Hn; [left|by right]. by rewrite Hn. Qed.

Lemma step_receiving b S sent e c c' out q q' :
  dom S = R -> receiving b S sent q (c_conn c) -> step client_id shard_id failures estimate connect e c = Ok (c', out) ->
  take_messages shard_id (received e c) q = Some q' ->
  receiving b S (sent ++ new_sent client_id failures estimate e c) q' (c_conn c') /\ (order_notified out <> [] -> all_gone S).
Proof.
  intros Hdom [Hg Hw] E Et. destruct q as [told W], q' as [told' W']. apply (greeted_sent _ _ _ _ _ (new_sent client_id failures estimate e c)) in Hg; [|by apply idle_new_sent].
  assert (receiving b S (sent ++ new_sent client_id failures estimate e c) (told, W) (c_conn c)) as H by done. revert H. clear Hg.
  generalize (sent ++ new_sent client_id failures estimate e c). intros sent' H.
  destruct e as [request buf|request response|stop now ms]; cbn [step received take_messages] in *.
  - injection E as <- <-. injection Et as <- <-. by split; [exact H|].
  - unfold Client.insert in E. inv_result. injection Et as <- <-. by split; [exact H|].
  - destruct (ended (c_conn c)) eqn:He; cbn [take_messages] in Et; [injection E as <- <-; injection Et as <- <-; by split; [exact H|]|].
    unfold round, recv_batch in E. inv_result. apply before_recv_leaves in E0 as ((Hq & _ & Hn) & _).
    assert (queues (c_conn c0) = queues (c_conn c)) as Hq0 by set_solver.
    assert (order_notified l = []) as Hn0 by (rewrite Hn, Hq0; unfold last_bye; by rewrite decide_False by tauto).
    destruct (recv_batch_receiving b S Hdom sent' ms c0 [] c' l0 (told, W) (told', W')) as (Hr & o & -> & Ho); [|done|done|].
    { destruct H as [Hg _]. split; [|done]. by eapply greeted_queues. }
    split; [done|]. unfold order_notified in *. by rewrite omap_app, Hn0.
Qed.

(** What a client tells the ordering server. *)
Definition says (x : target * message) : Prop :=
  match x with (ToOrder, MOrderClientRate _) | (ToOrder, MClientFinished _) | (ToStorage _ _, _) => True | _ => False end.

Lemma says_to_queues k m : Forall says (to_queues k m).
Proof. apply Forall_fmap, Forall_true. done. Qed.

Lemma before_recv_says stop now c c' out : before_recv client_id failures estimate stop now c = Ok (c', out) -> Forall says out.
Proof.
  intros E. unfold before_recv in E. destruct (check_stop client_id stop (c_conn c)) as [k out1] eqn:Ek. inv_result.
  apply Forall_app_2; [|apply Forall_app_2].
  - revert Ek. unfold check_stop. destruct (negb _ && _); intros [= <- <-]; [apply says_to_queues|done].
  - revert E0. unfold switch_epoch. destruct (epochs _) as [|next rest]; [by intros [= <- <- <-]|].
    destruct (_ <=? _); [|by intros [= <- <- <-]]. intros H. inv_result. revert E.
    destruct estimate as [p|]; [|intros Hx; by simplify_eq].
    destruct (negb (e_begin (current (c_slots c)) =? e_begin FIRST_EPOCH)); [|intros Hx; by simplify_eq].
    unfold update_rate. intros Hx. inv_result. destruct (negb (SpecFloat.SFeqb _ _)); inv_result; [by apply Forall_singleton|done].
  - revert E1. unfold send_requests. destruct (can_send _ _ _); [|by intros [= _ <-]]. intros H. inv_result.
    destruct o as [[request response]|]; [unfold send_all in H; inv_result; apply says_to_queues|].
    destruct (decide _); inv_result; [apply says_to_queues|done].
Qed.

Lemma client_recv_says m c c' out : Client.client_recv client_id shard_id failures connect m c = Ok (c', out) -> Forall says out.
Proof.
  intros E. destruct m; cbn [Client.client_recv] in E; try by injection E as _ <-.
  - destruct (on_storage_finished _ _ _ _) as [k o] eqn:Eb. injection E as _ <-. revert Eb. unfold on_storage_finished.
    destruct (_ || _); intros [= _ <-]; [done|]. case_decide; [by apply Forall_singleton|done].
  - destruct (on_client_insert_ack _ _ _ _). by injection E as _ <-.
  - by inv_result.
Qed.

Lemma recv_batch_says ms c out0 c' out :
  mfold (fun m '(c, out) => '(c, o) ← Client.client_recv client_id shard_id failures connect m c; Ok (c, out ++ o)) ms (c, out0) = Ok (c', out) ->
  Forall says out0 -> Forall says out.
Proof.
  revert c out0. induction ms as [|m ms IH]; intros c out0 E H; cbn [mfold] in E; [by injection E as _ <-|].
  inv_result. eapply IH; [exact E|]. apply Forall_app_2; [done|by eapply client_recv_says].
Qed.

Lemma step_says e c c' out : step client_id shard_id failures estimate connect e c = Ok (c', out) -> Forall says out.
Proof.
  intros E. destruct e as [request b|request response|stop now ms]; cbn [step] in E; [by injection E as _ <-|by inv_result|].
  destruct (ended _); [by injection E as _ <-|]. unfold round, recv_batch in E. inv_result.
  apply Forall_app_2; [by eapply before_recv_says|]. by eapply recv_batch_says.
Qed.

Lemma to_order_notified out b : MClientFinished b ∈ to_order out -> order_notified out <> [].
Proof.
  intros Hin E. unfold to_order in Hin. apply list_elem_of_omap in Hin as ([d m] & Hin & Hd). destruct d; [|done]. injection Hd as ->.
  enough (cf_client_id b ∈ order_notified out) as Hb by (rewrite E in Hb; by apply elem_of_nil in Hb).
  apply list_elem_of_omap. by exists (ToOrder, MClientFinished b).
Qed.

Lemma take_messages_dom ms q q' : take_messages shard_id ms q = Some q' -> dom q'.2 = dom q.2.
Proof.
  revert q. induction ms as [|m ms IH]; intros q E; cbn [take_messages] in E; [by injection E as <-|].
  destruct (take_message shard_id m q) as [q1|] eqn:Eq; [|done]. rewrite (IH _ E). clear IH E.
  destruct m; cbn [take_message] in Eq; try (by injection Eq as <-);
    try (destruct q.1 as [|m' rest]; [done|]; case_decide; [|done]; by injection Eq as <-).
  destruct (_ =? _); [|by injection Eq as <-]. destruct (q.2 !! sf_replica_id m) as [w|] eqn:Hw; [|done]. cbn [mbind option_bind] in Eq.
  destruct (wi_byes w) as [|n]; [done|]. injection Eq as <-. cbn [snd]. apply dom_insert_lookup_L. by eexists.
Qed.

Lemma client_round_ok e K K' :
  cluster_ok K -> client_round client_id shard_id failures estimate connect e K = Some K' -> cluster_ok K'.
Proof.
  intros [H1 H2 H3 H3' H4 H5 H6 H7] E. unfold client_round, client_step in E.
  destruct (step client_id shard_id failures estimate connect e (sy_client (cl_system K))) as [[c' out]|] eqn:Es; [|done].
  destruct (collect _ _) as [L|] eqn:Ec; [|done]. cbn [mbind option_bind] in E.
  destruct (take_messages _ _ _) as [q|] eqn:Et; [|done]. cbn [mbind option_bind] in E. injection E as <-.
  apply collect_servers in Ec.
  assert (servers (System c' (post_all out L) (sy_sent (cl_system K) ++
            new_sent client_id failures estimate e (sy_client (cl_system K)))) = servers (cl_system K)) as Hsv.
  { unfold servers. cbn [sy_links]. by rewrite post_all_servers. }
  destruct (step_receiving (cl_introduced K) (servers (cl_system K)) (sy_sent (cl_system K)) e _ _ _ (_, _) _ H3 (conj H7 H4) Es Et) as [[Hg Hw] Hn].
  split; cbn [cl_order cl_system cl_wires cl_to_client cl_to_order sy_client sy_sent]; rewrite ?Hsv; try done.
  { by rewrite (take_messages_dom _ _ _ Et). }
  apply Forall_app_2; [done|]. apply Forall_forall. intros m Hin. pose proof (step_says _ _ _ _ Es) as Hsay.
  rewrite Forall_forall in Hsay. pose proof Hin as Hin'. unfold to_order in Hin. apply list_elem_of_omap in Hin as ([d m'] & Hin & Hd).
  destruct d; [|done]. injection Hd as ->. apply Hsay in Hin. destruct m; try done. by apply Hn, (to_order_notified _ m).
Qed.

(** ** Every step *)

(** A message that is taken from a replica's queue. *)
Lemma cluster_ok_wire K rid w w' :
  cluster_ok K -> cl_wires K !! rid = Some w ->
  (forall m, m ∈ wi_control w' -> m ∈ wi_control w) -> (forall m, m ∈ wi_replies w' -> m ∈ wi_replies w) -> wi_byes w' = wi_byes w ->
  cluster_ok (Cluster (cl_order K) (cl_system K) (<[rid := w']> (cl_wires K)) (cl_to_client K) (cl_to_order K) (cl_introduced K)).
Proof.
  intros [H1 H2 H3 H3' H4 H5 H6 H7] Hw Hc Hr Hb. split; cbn [cl_order cl_system cl_wires cl_to_client cl_to_order]; try done.
  - rewrite dom_insert_lookup_L; [done|]. by eexists.
  - intros r s wr Hs [[<- <-]|[_ Hwr]]%lookup_insert_Some; [|by apply H4]. destruct (H4 _ _ _ Hs Hw) as [? ? Hwc Hwr Hwb].
    split; [done|done|intros m Hm; apply Hwc; auto|intros m Hm; apply Hwr; auto|by rewrite Hb].
Qed.

Lemma order_event_ok e K oe K1 :
  cluster_ok K -> order_event client_id shard_id e K = Some (oe, K1) ->
  cluster_ok K1 /\ cl_order K1 = cl_order K /\ cl_system K1 = cl_system K /\
  brings oe (servers (cl_system K)) /\ introduces oe K1.
Proof.
  intros H E. pose proof H as [H1 H2 H3 H3' H4 H5 H6 H7]. destruct e as [e|n a| |rid| | |]; cbn [order_event] in E; try done.
  - destruct (outside client_id shard_id e) eqn:Ho; [|done]. injection E as <- <-. split_and!; try done.
    + destruct e as [[]| | |[]]; cbn [outside] in Ho; try done; cbn [brings]; apply negb_true_iff, Z.eqb_neq in Ho; tauto.
    + destruct e as [| | |[]]; cbn [outside] in Ho; try done. apply negb_true_iff, Z.eqb_neq in Ho. by intros ?.
  - destruct (cl_introduced K) eqn:Hi; [done|]. injection E as <- <-. destruct H7 as [(Hq & Hs & Hr & Hl)|(? & _)]; [|congruence].
    assert (infos (cl_to_client K) = []) as Hn by (apply length_zero_iff_nil; lia). split_and!; try done.
    split; try assumption. cbn [cl_introduced cl_system cl_to_client]. left. split_and!; [done..|lia].
  - destruct (cl_to_order K) as [|m rest] eqn:Ht; [done|]. injection E as <- <-. apply Forall_cons in H6 as [Hm H6].
    split_and!; [split; assumption|done|done| |done]. destruct m; try done. intros _. exact Hm.
  - destruct (cl_wires K !! rid) as [w|] eqn:Hw; [|done]. cbn [mbind option_bind] in E.
    destruct (wi_replies w) as [|m rest] eqn:Hr; [done|]. injection E as <- <-. split_and!; try done.
    + eapply cluster_ok_wire; [exact H|exact Hw|done| |done]. cbn [wi_replies]. intros m' Hm'. rewrite Hr. by constructor.
    + assert (is_Some (servers (cl_system K) !! rid)) as [s Hs].
      { apply elem_of_dom. rewrite H3, <- H3'. by apply elem_of_dom_2 in Hw. }
      pose proof (wo_replies _ _ _ (H4 _ _ _ Hs Hw) m) as Hm. rewrite Hr in Hm. specialize (Hm ltac:(constructor)).
      destruct m; try done; [destruct Hm as (_ & <- & Hf); intros _; eauto|]. destruct Hm as [_ <-]. by intros _.
Qed.

(** What a replica handles of the ordering server is for a client that it has disconnected. *)
Lemma server_event_ok e K rid se K1 :
  cluster_ok K -> server_event e K = Some (rid, se, K1) ->
  cluster_ok K1 /\ cl_order K1 = cl_order K /\ cl_system K1 = cl_system K /\
  forall ln, sy_links (cl_system K) !! rid = Some ln -> recovers_last client_id se (ln_server ln).
Proof.
  intros H E. pose proof H as [H1 H2 H3 H3' H4 H5 H6 H7]. destruct e as [| | | |r stale| |r e]; cbn [server_event] in E; try done.
  - destruct (cl_wires K !! r) as [w|] eqn:Hw; [|done]. cbn [mbind option_bind] in E.
    destruct (wi_control w) as [|m rest] eqn:Hc; [done|]. injection E as <- <- <-. split_and!; try done.
    + eapply cluster_ok_wire; [exact H|exact Hw| |done|done]. cbn [wi_control]. intros m' Hm'. rewrite Hc. by constructor.
    + intros ln Hln. assert (servers (cl_system K) !! r = Some (ln_server ln)) as Hs by (unfold servers; by rewrite lookup_fmap, Hln).
      pose proof (wo_control _ _ _ (H4 _ _ _ Hs Hw) m) as Hm. rewrite Hc in Hm. specialize (Hm ltac:(constructor)). by destruct m.
  - destruct e as [stale m|? []| | |]; try (by injection E as <- <- <-).
    destruct (by_order m) eqn:Hb; [done|]. injection E as <- <- <-. split_and!; try done. by destruct m.
Qed.

Lemma cluster_step_ok e K K' :
  cluster_ok K -> cluster_event_ok client_id shard_id e K ->
  cluster_step client_id shard_id failures estimate connect e K = Some K' -> cluster_ok K'.
Proof.
  intros H He E.
  assert (match order_event client_id shard_id e K with Some (e, K) => OrderSpec.event_ok (cl_order K) e | None => True end ->
    ('(e, K) ← order_event client_id shard_id e K; order_round client_id shard_id e K) = Some K' -> cluster_ok K') as Ho.
  { destruct (order_event client_id shard_id e K) as [[oe K1]|] eqn:Eo; [|done]. cbn [mbind option_bind]. intros Hok Er.
    destruct (order_event_ok _ _ _ _ H Eo) as (HK1 & Ho & Hsy & Hb & Hi). eapply order_round_ok; [exact HK1|exact Hok|by rewrite Hsy|exact Hi|exact Er]. }
  assert (('(rid, e, K) ← server_event e K; server_round client_id rid e K) = Some K' -> cluster_ok K') as Hs.
  { destruct (server_event e K) as [[[rid se] K1]|] eqn:Ev; [|done]. cbn [mbind option_bind].
    apply server_round_ok. by apply (server_event_ok _ _ _ _ _ H Ev). }
  destruct e; cbn [cluster_step cluster_event_ok] in *; [by apply Ho..|by apply Hs|by eapply client_round_ok|by apply Hs].
Qed.

Lemma cluster_run_ok es K K' :
  cluster_ok K -> cluster_events_ok client_id shard_id failures estimate connect es K ->
  cluster_run client_id shard_id failures estimate connect es K = Some K' -> cluster_ok K'.
Proof.
  revert K. induction es as [|e es IH]; intros K H He E; cbn [cluster_run cluster_events_ok] in *; [by injection E as <-|].
  destruct He as [He Hes]. destruct (cluster_step _ _ _ _ _ e K) as [K1|] eqn:Es; [|done]. cbn [mbind option_bind] in E.
  eapply IH; [by eapply cluster_step_ok|done|done].
Qed.

Lemma servers_init u sv : servers (sys_init shard_id u sv []) = sv.
Proof.
  apply map_eq. intros rid. unfold servers, sys_init. cbn [sy_links]. rewrite lookup_fmap, map_lookup_imap. by destruct (sv !! rid).
Qed.

Lemma cluster_init_ok u sv o :
  order_ok o -> client_state_ o = ∅ -> storage_addresses_ o = A -> dom sv = R ->
  (forall rid s, sv !! rid = Some s -> exists ct st sd, storage_init shard_id rid ct st sd = Ok s) ->
  cluster_ok (cluster_init shard_id u sv o).
Proof.
  intros Ho Hc Ha Hd Hsv. unfold cluster_init. split; cbn [cl_order cl_system cl_wires cl_to_client cl_to_order cl_introduced]; rewrite ?servers_init; try done.
  - rewrite <- Hd. apply set_eq. intros rid. rewrite !elem_of_dom, map_lookup_imap. destruct (sv !! rid); split; intros []; eauto; done.
  - intros rid s w Hs Hw. rewrite map_lookup_imap, Hs in Hw. injection Hw as <-. destruct (Hsv _ _ Hs) as (ct & st & sd & Hi).
    unfold storage_init in Hi. inv_result. by split; cbn; [| |intros ? ?%elem_of_nil|intros ? ?%elem_of_nil|lia].
  - intros c st Hst. by rewrite Hc, lookup_empty in Hst.
  - left. split_and!; [done|done|constructor|simpl; lia].
Qed.
End invariant.
