(* ===== verification/ClusterSpec.v ===== *)
(** * Recovery end to end

    What the composition of [Cluster] guarantees: the cuts the ordering server goes by are final
    at their replicas, its recovery messages reach a replica only after the replica has
    disconnected the client, and the responses the application reads are durable on a quorum
    whatever fails and is recovered. *)
From S2P Require Import Prelude Consts Util Api StorageLog Interleave LogInv StorageLogSpec Storage StorageSpec Order OrderSpec EpochSpec RecoverySpec ControlSpec Client ClientSpec ClientAckSpec System SystemSpec Cluster ClusterInv.

#[local] Opaque NUM_ENTRIES_PER_BLOCK NUM_SHARDS.

Section within.
Variables client_id shard_id failures : Z.
Variable estimate : option pid.
Variable connect : sockaddr_in -> option (message * Z).
Hypothesis failures_nonneg : 0 <= failures.
Variable A : gmap Z (gmap Z sockaddr_in).
Variable client_threads : Z.
Hypothesis A_connects : forall rid a, default ∅ (A !! shard_id) !! rid = Some a ->
  exists port, let intro := MStorageIntro (StorageIntro shard_id rid client_threads port) in
    connect a = Some (intro, message_length intro).

Abbreviation cluster_ok := (ClusterInv.cluster_ok client_id shard_id connect A).

(** ** The system within *)

(** With the epochs that are still to come, a run of the cluster is a run of [System]. *)
Abbreviation ahead := (post_epochs shard_id).

Lemma ahead_nil x : ahead [] x = x.
Proof.
  destruct x as [c L h]. unfold post_epochs. cbn [sy_client sy_links sy_sent]. f_equal. apply map_eq. intros rid.
  rewrite map_lookup_imap. destruct (L !! rid) as [[s e r a n]|]; [|done]. cbn. by rewrite app_nil_r.
Qed.

Lemma ahead_app out fut x : ahead (out ++ fut) x = ahead fut (ahead out x).
Proof.
  destruct x as [c L h]. unfold post_epochs. cbn [sy_client sy_links sy_sent]. f_equal. apply map_eq. intros rid.
  rewrite !map_lookup_imap. destruct (L !! rid) as [[s e r a n]|]; [|done]. cbn. by rewrite slots_sent_app, app_assoc.
Qed.

Definition link_ahead (fut : Order.outputs) (rid : Z) (ln : link) : link :=
  Link (ln_server ln) (ln_epochs ln ++ slots_sent shard_id rid fut) (ln_requests ln) (ln_answers ln) (ln_acked ln).

Lemma ahead_links fut x rid : sy_links (ahead fut x) !! rid = link_ahead fut rid <$> sy_links x !! rid.
Proof. unfold post_epochs. cbn [sy_links]. rewrite map_lookup_imap. by destruct (sy_links x !! rid). Qed.

Lemma links_ahead_insert fut rid ln (L : gmap Z link) :
  map_imap (fun rid ln => Some (link_ahead fut rid ln)) (<[rid := ln]> L) =
  <[rid := link_ahead fut rid ln]> (map_imap (fun rid ln => Some (link_ahead fut rid ln)) L).
Proof.
  apply map_eq. intros r. rewrite map_lookup_imap. destruct (decide (rid = r)) as [->|Hne].
  - by rewrite !lookup_insert_eq.
  - by rewrite !lookup_insert_ne, map_lookup_imap by done.
Qed.

Lemma take_event_ahead fut rid e ln ln1 :
  take_event client_id e ln = Some ln1 -> take_event client_id e (link_ahead fut rid ln) = Some (link_ahead fut rid ln1).
Proof.
  intros E. destruct e as [? []|? []| | |]; cbn [take_event] in *; try (by injection E as <-).
  - cbn [link_ahead ln_epochs]. destruct (ln_epochs ln) as [|m' rest]; [done|]. cbn [app]. case_decide; [|done]. by injection E as <-.
  - destruct (_ =? _); [|by injection E as <-]. cbn [link_ahead ln_requests]. destruct (ln_requests ln); [done|].
    case_decide; [|done]. by injection E as <-.
Qed.

Lemma server_step_ahead fut rid e x x' :
  server_step client_id rid e x = Some x' -> server_step client_id rid e (ahead fut x) = Some (ahead fut x').
Proof.
  intros E. unfold server_step in *. rewrite ahead_links. destruct (sy_links x !! rid) as [ln|]; [|done]. cbn [fmap option_fmap option_map mbind option_bind] in *.
  destruct (take_event client_id e ln) as [ln1|] eqn:Ht; [|done]. rewrite (take_event_ahead _ _ _ _ _ Ht). cbn [mbind option_bind] in *.
  cbn [link_ahead ln_server]. destruct (Storage.handle e (ln_server ln1)) as [[s out]|]; [|done]. injection E as <-.
  unfold post_epochs. cbn [sy_client sy_links sy_sent]. do 2 f_equal. symmetry. apply (links_ahead_insert fut).
Qed.

Lemma collect_ahead fut ms L L' :
  collect ms L = Some L' ->
  collect ms (map_imap (fun rid ln => Some (link_ahead fut rid ln)) L) = Some (map_imap (fun rid ln => Some (link_ahead fut rid ln)) L').
Proof.
  revert L. induction ms as [|m ms IH]; intros L E; [by injection E as <-|]. destruct m; cbn [collect] in *; try by apply IH.
  rewrite map_lookup_imap. destruct (L !! ack_replica_id m) as [ln|]; [|done]. cbn [mbind option_bind] in *. cbn [link_ahead ln_answers].
  destruct (ln_answers ln) as [|a rest]; [done|]. destruct (_ && _); [|done]. rewrite <- (IH _ E), links_ahead_insert. done.
Qed.

Lemma post_all_ahead fut out L :
  post_all out (map_imap (fun rid ln => Some (link_ahead fut rid ln)) L) = map_imap (fun rid ln => Some (link_ahead fut rid ln)) (post_all out L).
Proof. apply map_eq. intros rid. unfold post_all. rewrite !map_lookup_imap. by destruct (L !! rid). Qed.

Lemma client_step_ahead fut e x x' :
  client_step client_id shard_id failures estimate connect e x = Some x' ->
  client_step client_id shard_id failures estimate connect e (ahead fut x) = Some (ahead fut x').
Proof.
  intros E. unfold client_step, post_epochs in *. cbn [sy_client sy_links sy_sent] in *.
  destruct (step _ _ _ _ _ _ _) as [[c' out]|]; [|done]. destruct (collect _ (sy_links x)) as [L|] eqn:Ec; [|done].
  apply (collect_ahead fut) in Ec. unfold link_ahead in Ec at 1. rewrite Ec. cbn [mbind option_bind] in *. injection E as <-. cbn [sy_client sy_links sy_sent].
  by rewrite post_all_ahead.
Qed.

Abbreviation sys_step := (System.sys_step client_id shard_id failures estimate connect).
Abbreviation sys_run := (System.sys_run client_id shard_id failures estimate connect).
Abbreviation sys_events_ok := (System.sys_events_ok client_id shard_id failures estimate connect).

Lemma taken_info ms q q' m : take_messages shard_id ms q = Some q' -> m ∈ ms -> is_info m -> m ∈ q.1.
Proof.
  revert q. induction ms as [|m' ms IH]; intros q E Hin Hi; [by apply elem_of_nil in Hin|]. cbn [take_messages] in E.
  destruct (take_message shard_id m' q) as [q1|] eqn:Eq; [|done]. cbn [mbind option_bind] in E. apply elem_of_cons in Hin as [<-|Hin].
  - destruct m; try done. cbn [take_message] in Eq. destruct q.1 as [|m' rest]; [done|]. case_decide; [|done]. subst m'. constructor.
  - specialize (IH _ E Hin Hi). clear E. destruct m'; cbn [take_message] in Eq; try (by injection Eq as <-);
      try (destruct q.1 as [|m'' rest]; [done|]; case_decide; [|done]; injection Eq as <-; by constructor).
    destruct (_ =? _); [|by injection Eq as <-]. destruct (q.2 !! _) as [w|]; [|done]. cbn [mbind option_bind] in Eq.
    destruct (wi_byes w); [done|]. by injection Eq as <-.
Qed.

(** What the system's environment promises about the client's steps. *)
Lemma client_event_ok e K q fut :
  cluster_ok K -> cluster_event_ok client_id shard_id (ClientActs e) K -> ended (c_conn (sy_client (cl_system K))) = false ->
  take_messages shard_id (received e (sy_client (cl_system K))) (cl_to_client K, cl_wires K) = Some q ->
  sys_event_ok client_id (AtClient e) (ahead fut (cl_system K)).
Proof.
  intros H He Hend Et. destruct e as [request b|request response|stop now ms]; [exact He|done|].
  cbn [sys_event_ok received] in *. rewrite Hend in Et. apply Forall_forall. intros m Hm. destruct m; try done.
  assert (MClientStorageInfo m ∈ infos (cl_to_client K)) as Hin.
  { apply list_elem_of_filter. split; [done|]. by apply (taken_info _ _ _ _ Et Hm). }
  destruct (co_greeted _ _ _ _ _ H) as [(Hq & Hs & _)|(_ & Hn & _)]; [done|]. rewrite Hn in Hin. by apply elem_of_nil in Hin.
Qed.

(** Every step of the cluster is one of the ordering server or one of the system, or nothing. *)
Lemma cluster_step_within e K K' :
  cluster_ok K -> cluster_event_ok client_id shard_id e K ->
  cluster_step client_id shard_id failures estimate connect e K = Some K' ->
  (exists oe out, Order.handle oe (cl_order K) = Ok (cl_order K', out) /\ OrderSpec.event_ok (cl_order K) oe /\
     ~ storage_intro_event oe /\ cl_system K' = ahead out (cl_system K)) \/
  (cl_order K' = cl_order K /\ (cl_system K' = cl_system K \/ exists se, forall fut,
     sys_event_ok client_id se (ahead fut (cl_system K)) /\ sys_step se (ahead fut (cl_system K)) = Some (ahead fut (cl_system K')))).
Proof.
  intros H He E.
  assert (match order_event client_id shard_id e K with Some (e, K) => OrderSpec.event_ok (cl_order K) e | None => True end ->
    ('(e, K) ← order_event client_id shard_id e K; order_round client_id shard_id e K) = Some K' ->
    exists oe out, Order.handle oe (cl_order K) = Ok (cl_order K', out) /\ OrderSpec.event_ok (cl_order K) oe /\
     ~ storage_intro_event oe /\ cl_system K' = ahead out (cl_system K)) as Ho.
  { destruct (order_event client_id shard_id e K) as [[oe K1]|] eqn:Eo; [|done]. cbn [mbind option_bind]. intros Hok Er.
    destruct (order_event_ok client_id shard_id connect A _ _ _ _ H Eo) as (_ & Ho & Hsy & Hb & _). unfold order_round in Er. rewrite Ho in Er, Hok.
    destruct (Order.handle oe (cl_order K)) as [[o out]|] eqn:Eh; [|done]. injection Er as <-. exists oe, out. cbn [cl_order cl_system].
    rewrite Hsy. split_and!; try done. intros Hst. by destruct oe as [| | |[]]. }
  assert (match server_event e K with Some (_, e, _) => words_ok e | None => True end ->
    ('(rid, e, K) ← server_event e K; server_round client_id rid e K) = Some K' ->
    cl_order K' = cl_order K /\ exists se, forall fut,
      sys_event_ok client_id se (ahead fut (cl_system K)) /\ sys_step se (ahead fut (cl_system K)) = Some (ahead fut (cl_system K'))) as Hs.
  { destruct (server_event e K) as [[[rid se] K1]|] eqn:Ev; [|done]. cbn [mbind option_bind]. intros Hw Er.
    destruct (server_event_ok client_id shard_id connect A _ _ _ _ _ H Ev) as (_ & Hord & Hsy & Hrec). unfold server_round in Er. rewrite Hsy in Er.
    destruct (sy_links (cl_system K) !! rid) as [ln|] eqn:Hln; [|done]. cbn [mbind option_bind] in Er.
    destruct (cl_wires K1 !! rid) as [w|]; [|done]. cbn [mbind option_bind] in Er.
    destruct (server_step client_id rid se (cl_system K)) as [x|] eqn:Es; [|done]. cbn [mbind option_bind] in Er.
    destruct (Storage.handle se (ln_server ln)) as [[s out]|]; [|done]. injection Er as <-. cbn [cl_order cl_system].
    split; [done|]. exists (AtServer rid se). intros fut. split; [|by apply server_step_ahead].
    split; [done|]. intros ln' Hl. rewrite ahead_links, Hln in Hl. injection Hl as <-. exact (Hrec ln eq_refl). }
  destruct e as [oe|n a| |rid|rid stale|ce|rid se]; cbn [cluster_step cluster_event_ok] in *;
    [left; by apply Ho..|right; by destruct (Hs He E) as [? ?]; eauto| |right; by destruct (Hs He E) as [? ?]; eauto].
  right. unfold client_round in E. destruct (client_step _ _ _ _ _ _ _) as [x|] eqn:Es; [|done]. cbn [mbind option_bind] in E.
  destruct (take_messages _ _ _) as [q|] eqn:Et; [|done]. cbn [mbind option_bind] in E.
  destruct (step _ _ _ _ _ _ _) as [[c' out]|] eqn:Ec; [|done]. injection E as <-. cbn [cl_order cl_system]. split; [done|].
  destruct (ended (c_conn (sy_client (cl_system K)))) eqn:Hend.
  - destruct ce as [request b|request response|stop now ms].
    + right. exists (AtClient (Fill request b)). intros fut. split; [exact He|by apply client_step_ahead].
    + right. exists (AtClient (Insert request response)). intros fut. split; [done|by apply client_step_ahead].
    + left. unfold client_step in Es. cbn [step received new_sent] in Es. rewrite Hend in Es. cbn [collect mbind option_bind] in Es.
      injection Es as <-. rewrite app_nil_r. destruct (cl_system K) as [c L h]. cbn [sy_client sy_links sy_sent]. f_equal.
      apply map_eq. intros rid. unfold post_all. rewrite map_lookup_imap. destruct (L !! rid) as [[]|]; [|done]. cbn. unfold post. cbn. by rewrite app_nil_r.
  - right. exists (AtClient ce). intros fut. split; [by eapply client_event_ok|by apply client_step_ahead].
Qed.

Lemma cluster_run_within es K K' :
  cluster_ok K -> cluster_events_ok client_id shard_id failures estimate connect es K ->
  cluster_run client_id shard_id failures estimate connect es K = Some K' ->
  exists oes out ses, order_exec oes (cl_order K) = Ok (cl_order K', out) /\ order_events_ok oes (cl_order K) /\
    Forall (fun e => ~ storage_intro_event e) oes /\ (length ses <= length es)%nat /\
    forall fut, sys_events_ok ses (ahead (out ++ fut) (cl_system K)) /\
      sys_run ses (ahead (out ++ fut) (cl_system K)) = Some (ahead fut (cl_system K')).
Proof.
  revert K. induction es as [|e es IH]; intros K H He E; cbn [cluster_run cluster_events_ok] in *.
  { injection E as <-. exists [], [], []. split_and!; [done|done|constructor|done|]. intros fut. by split. }
  destruct He as [He Hes]. destruct (cluster_step _ _ _ _ _ e K) as [K1|] eqn:Es; [|done]. cbn [mbind option_bind] in E.
  destruct (IH K1) as (oes & out & ses & H1 & H2 & H3 & H4 & H5); [by eapply (cluster_step_ok client_id shard_id failures estimate connect failures_nonneg A client_threads)|done|done|].
  destruct (cluster_step_within _ _ _ H He Es) as [(oe & out1 & Hh & Hok & Hst & Hsy)|[Ho Hor]].
  - exists (oe :: oes), (out1 ++ out), ses. cbn [order_exec order_events_ok]. rewrite Hh. cbn [mbind result_bind]. rewrite H1. cbn [mbind result_bind].
    split_and!; [done|done|done|by constructor|simpl; lia|]. intros fut. rewrite <- app_assoc, ahead_app, <- Hsy. apply H5.
  - rewrite <- Ho in *. destruct Hor as [Hsy|(se & Hse)].
    + exists oes, out, ses. rewrite <- Hsy. split_and!; [done..|simpl; lia|done].
    + exists oes, out, (se :: ses). split_and!; [done..|simpl; lia|]. intros fut. destruct (Hse (out ++ fut)) as [Hok Hstep].
      cbn [System.sys_run System.sys_events_ok]. rewrite Hstep. cbn [mbind option_bind]. destruct (H5 fut) as [? ?]. by split; [split|].
Qed.

(** Taking a message from a queue leaves the system alone. *)
Lemma order_event_system e K oe K1 : order_event client_id shard_id e K = Some (oe, K1) -> cl_system K1 = cl_system K.
Proof.
  intros Eo. destruct e as [oe'|n a| |r| | |]; cbn [order_event] in Eo; try done.
  - destruct (outside _ _ _); [|done]. by injection Eo as <- <-.
  - destruct (cl_introduced K); [done|]. by injection Eo as <- <-.
  - destruct (cl_to_order K); [done|]. by injection Eo as <- <-.
  - destruct (cl_wires K !! r) as [w|]; [|done]. cbn [mbind option_bind] in Eo. destruct (wi_replies w); [done|]. by injection Eo as <- <-.
Qed.

Lemma server_event_system e K r se K1 : server_event e K = Some (r, se, K1) -> cl_system K1 = cl_system K.
Proof.
  intros Ev. destruct e as [| | | |r' stale| |r' e']; cbn [server_event] in Ev; try done.
  - destruct (cl_wires K !! r') as [w|]; [|done]. cbn [mbind option_bind] in Ev. destruct (wi_control w); [done|]. by injection Ev as _ _ <-.
  - destruct e' as [? m| | | |]; try (by injection Ev as _ _ <-). destruct (by_order m); [done|]. by injection Ev as _ _ <-.
Qed.

Lemma server_round_later r se K K' rid s :
  server_round client_id r se K = Some K' -> servers (cl_system K) !! rid = Some s ->
  exists s', servers (cl_system K') !! rid = Some s' /\ later s s'.
Proof.
  intros Er Hs. unfold server_round in Er. destruct (sy_links (cl_system K) !! r) as [ln|] eqn:Hln; [|done]. cbn [mbind option_bind] in Er.
  destruct (cl_wires K !! r) as [w|]; [|done]. cbn [mbind option_bind] in Er.
  destruct (server_step client_id r se (cl_system K)) as [x|] eqn:Es; [|done]. cbn [mbind option_bind] in Er.
  destruct (Storage.handle se (ln_server ln)) as [[t out]|] eqn:Eh; [|done]. injection Er as <-. cbn [cl_system].
  destruct (servers_step client_id _ _ _ _ _ _ _ Hln Eh Es) as [-> _]. destruct (decide (r = rid)) as [<-|Hne].
  - rewrite lookup_insert_eq. exists t. split; [done|]. unfold servers in Hs. rewrite lookup_fmap, Hln in Hs. injection Hs as <-.
    by eapply handle_later.
  - rewrite lookup_insert_ne by done. exists s. split; [done|]. by intros c g.
Qed.

(** What is final at a replica stays so in every run. *)
Lemma cluster_step_later e K K' rid s :
  cluster_step client_id shard_id failures estimate connect e K = Some K' -> servers (cl_system K) !! rid = Some s ->
  exists s', servers (cl_system K') !! rid = Some s' /\ later s s'.
Proof.
  intros E Hs.
  assert (servers (cl_system K') = servers (cl_system K) -> exists s', servers (cl_system K') !! rid = Some s' /\ later s s') as Hsame.
  { intros ->. exists s. split; [done|]. by intros c g. }
  destruct e as [oe|n a| |r|r stale|ce|r se]; cbn [cluster_step] in E.
  1-4: destruct (order_event _ _ _ _) as [[oe' K1]|] eqn:Eo; [|done]; apply Hsame; rewrite <- (order_event_system _ _ _ _ Eo);
    cbn [mbind option_bind] in E; unfold order_round in E; destruct (Order.handle _ _) as [[o out]|]; [|done];
    injection E as <-; apply servers_post_epochs.
  1, 3: destruct (server_event _ _) as [[[r' se'] K1]|] eqn:Ev; [|done]; rewrite <- (server_event_system _ _ _ _ _ Ev) in Hs;
    by eapply server_round_later.
  apply Hsame. unfold client_round, client_step in E. destruct (step _ _ _ _ _ _ _) as [[c' out]|]; [|done].
  destruct (collect _ _) as [L|] eqn:Ec; [|done]. cbn [mbind option_bind] in E. destruct (take_messages _ _ _); [|done].
  cbn [mbind option_bind] in E. injection E as <-. unfold servers. cbn [cl_system sy_links]. rewrite post_all_servers. by eapply collect_servers.
Qed.

Lemma cluster_run_later es K K' rid s :
  cluster_run client_id shard_id failures estimate connect es K = Some K' -> servers (cl_system K) !! rid = Some s ->
  exists s', servers (cl_system K') !! rid = Some s' /\ later s s'.
Proof.
  revert K s. induction es as [|e es IH]; intros K s E Hs; cbn [cluster_run] in E.
  { injection E as <-. exists s. split; [done|]. by intros c g. }
  destruct (cluster_step _ _ _ _ _ e K) as [K1|] eqn:Es; [|done]. cbn [mbind option_bind] in E.
  destruct (cluster_step_later _ _ _ _ _ Es Hs) as (s1 & Hs1 & Hl1). destruct (IH _ _ E Hs1) as (s2 & Hs2 & Hl2).
  exists s2. split; [done|]. intros c g Hf. by apply Hl2, Hl1.
Qed.
End within.

(** ** The properties *)

(** The parties at the start: the storage servers of the shard, which the ordering server knows and
    which tell a client that connects who they are; no client has connected. *)
Record start_ok (shard_id client_threads : Z) (connect : sockaddr_in -> option (message * Z)) (sv : gmap Z storage) (o : order) : Prop := {
  sa_order : order_ok o;
  sa_shard : 0 <= shard_id < NUM_SHARDS;
  sa_clients : client_state_ o = ∅;
  sa_connect rid a : default ∅ (storage_addresses_ o !! shard_id) !! rid = Some a ->
    exists port, let intro := MStorageIntro (StorageIntro shard_id rid client_threads port) in connect a = Some (intro, message_length intro);
  sa_servers : dom sv = dom (default ∅ (storage_addresses_ o !! shard_id));
  sa_init rid s : sv !! rid = Some s -> exists st sd, storage_init shard_id rid client_threads st sd = Ok s }.

Lemma start_cluster_ok client_id shard_id client_threads connect sv o u :
  start_ok shard_id client_threads connect sv o ->
  cluster_ok client_id shard_id connect (storage_addresses_ o) (cluster_init shard_id u sv o).
Proof.
  intros [H1 H2 H3 H4 H5 H6]. apply cluster_init_ok; try done. intros rid s Hs. destruct (H6 _ _ Hs) as (st & sd & ?). eauto.
Qed.

(** A run of the cluster contains a run of the system, with the epochs of a run of the ordering
    server. *)
Lemma cluster_system_run client_id shard_id failures estimate connect client_threads u sv o es K :
  0 <= failures -> start_ok shard_id client_threads connect sv o ->
  let K0 := cluster_init shard_id u sv o in
  cluster_events_ok client_id shard_id failures estimate connect es K0 ->
  cluster_run client_id shard_id failures estimate connect es K0 = Some K ->
  exists oes out ses, order_exec oes o = Ok (cl_order K, out) /\ order_events_ok oes o /\
    Forall (fun e => ~ storage_intro_event e) oes /\ (length ses <= length es)%nat /\
    sys_events_ok client_id shard_id failures estimate connect ses (sys_init shard_id u sv out) /\
    sys_run client_id shard_id failures estimate connect ses (sys_init shard_id u sv out) = Some (cl_system K) /\
    forall rid s, sv !! rid = Some s -> rid ∈ replicas o shard_id /\ exists ct st sd, storage_init shard_id rid ct st sd = Ok s.
Proof.
  intros Hf Hst K0 He E. pose proof (start_cluster_ok client_id _ _ _ _ _ u Hst) as H0. destruct Hst as [H1 H2 H3 H4 H5 H6].
  destruct (cluster_run_within client_id shard_id failures estimate connect Hf _ client_threads H4 es K0 K H0 He E)
    as (oes & out & ses & Ho & Hok & Hs & Hl & Hw). destruct (Hw []) as [Hses Hrun]. rewrite app_nil_r, ahead_nil in *.
  assert (post_epochs shard_id out (cl_system K0) = sys_init shard_id u sv out) as Hinit.
  { unfold K0, cluster_init, sys_init, post_epochs. cbn [cl_system sy_client sy_links sy_sent]. f_equal. apply map_eq. intros rid.
    rewrite !map_lookup_imap. by destruct (sv !! rid). }
  rewrite Hinit in *. exists oes, out, ses. split_and!; try done.
  intros rid s Hs'. destruct (H6 _ _ Hs') as (st & sd & ?). split; [|eauto].
  unfold replicas. apply elem_of_dom_2 in Hs'. rewrite H5 in Hs'. apply elem_of_dom in Hs' as [a Ha].
  apply list_elem_of_fmap. exists (rid, a). split; [done|]. by apply elem_of_map_to_list.
Qed.

(** C1: responses are durable on a quorum, end to end.  A client, the storage servers of its
    shard and the ordering server run in any interleaving, with delayed messages between them,
    other clients, failures of connections, recovery and farewells.  Whenever the application
    reads a response that is not pending, it belongs to a request that the client has sent, more
    than [failures] replicas hold the request's payload at this GSN for this client, set and
    readable, and the GSNs increase in the order in which the requests were sent, whatever has
    happened in between. *)
Theorem cluster_durable client_id shard_id failures estimate connect client_threads u sv o es K :
  0 <= failures < UINT64_MAX -> start_ok shard_id client_threads connect sv o ->
  let K0 := cluster_init shard_id u sv o in
  Z.of_nat (length es) < W64 -> cluster_events_ok client_id shard_id failures estimate connect es K0 ->
  cluster_run client_id shard_id failures estimate connect es K0 = Some K ->
  exists G : list Z, (forall i j a b, (i < j)%nat -> G !! i = Some a -> G !! j = Some b -> a < b) /\
    forall loc g, responses (c_memory (sy_client (cl_system K))) !! loc = Some g -> g <> UINT64_MAX ->
    exists k req, sy_sent (cl_system K) !! k = Some (Some loc, req) /\ G !! k = Some g /\
      exists R : gset Z, failures < Z.of_nat (size R) /\
        forall rid, rid ∈ R -> exists ln, sy_links (cl_system K) !! rid = Some ln /\ holds client_id g (ins_data req) (ln_server ln).
Proof.
  intros Hf Hst K0 Hlen He E.
  destruct (cluster_system_run _ _ _ _ _ _ _ _ _ _ _ (proj1 Hf) Hst He E) as (oes & out & ses & Ho & Hok & Hs & Hl & Hses & Hrun & Hsv).
  destruct Hst as [H1 H2 _ _ _ _].
  apply (responses_durable client_id shard_id failures estimate connect u oes o (cl_order K, out) sv ses (cl_system K)); try done. lia.
Qed.

(** C4: recovery goes by what is final.  In every run of the same parties, a cut that the
    ordering server has recorded for a client of the shard is that of a replica which has
    disconnected the client, with the GSN of the last insert it has acknowledged, now and for
    ever after; the data of a client is requested when the cuts of all replicas have been
    recorded; and a request for data, a patch or a FINALIZE for the client is on the way to a
    replica only after the replica has disconnected the client. *)
Theorem recovery_final client_id shard_id failures estimate connect client_threads u sv o es1 es2 K1 K2 :
  0 <= failures -> start_ok shard_id client_threads connect sv o ->
  let K0 := cluster_init shard_id u sv o in
  cluster_events_ok client_id shard_id failures estimate connect es1 K0 ->
  cluster_run client_id shard_id failures estimate connect es1 K0 = Some K1 ->
  cluster_run client_id shard_id failures estimate connect es2 K1 = Some K2 ->
  (forall c st, client_state_ (cl_order K1) !! c = Some st -> o_shard_id st = shard_id ->
     (forall rid g, (rid, g) ∈ o_cuts st -> exists ln, sy_links (cl_system K2) !! rid = Some ln /\
        s_disconnected (client_of (ln_server ln) c) = true /\ s_latest_gsn (client_of (ln_server ln) c) = g) /\
     (o_requested st = true -> forall rid, rid ∈ replicas (cl_order K1) shard_id -> exists g, (rid, g) ∈ o_cuts st)) /\
  (forall rid ln w m, sy_links (cl_system K1) !! rid = Some ln -> cl_wires K1 !! rid = Some w ->
     m ∈ wi_control w -> recovers client_id m -> s_disconnected (client_of (ln_server ln) client_id) = true).
Proof.
  intros Hf Hst K0 He E1 E2. pose proof (start_cluster_ok client_id _ _ _ _ _ u Hst) as H0. destruct Hst as [_ _ _ Hconn _ _].
  pose proof (cluster_run_ok client_id shard_id failures estimate connect Hf _ client_threads Hconn es1 K0 K1 H0 He E1) as H.
  destruct H as [H1 H2 H3 _ H4 H5 _ _]. split.
  - intros c st Hc Hs. destruct (H5 c st Hc Hs) as [Hcuts Hall]. split.
    + intros rid g Hin. destruct (Hcuts _ _ Hin) as (s & Hs1 & Hfr).
      destruct (cluster_run_later _ _ _ _ _ _ _ _ _ _ E2 Hs1) as (s2 & Hs2 & Hl). destruct (Hl _ _ Hfr) as [Hd Hg].
      unfold servers in Hs2. rewrite lookup_fmap in Hs2. destruct (sy_links (cl_system K2) !! rid) as [ln|]; [|done].
      injection Hs2 as <-. by exists ln.
    + intros Hr rid Hrid. apply (all_recorded (o_cuts st) (replicas (cl_order K1) shard_id)); try done.
      * by apply (ok_clients _ H1) in Hc as [].
      * apply replicas_NoDup.
      * intros r g Hin. destruct (Hcuts _ _ Hin) as (s & Hs1 & _). apply elem_of_dom_2 in Hs1. rewrite H3 in Hs1. unfold R in Hs1.
        apply elem_of_dom in Hs1 as [a Ha]. unfold replicas. rewrite H2. apply list_elem_of_fmap. exists (r, a).
        split; [done|]. by apply elem_of_map_to_list.
      * by apply Hall.
  - intros rid ln w m Hln Hw Hm Hrec. apply (wo_control _ _ _ _ _ (H4 rid (ln_server ln) w ltac:(unfold servers; by rewrite lookup_fmap, Hln) Hw) m Hm Hrec).
Qed.

(** ** An example

    Client 3 and two replicas.  Its request is acknowledged by replica 1; the ordering server then
    loses the connection and freezes the client; replica 0 handles the request before it is told so.
    The application gets its response, and the client is finalized at both. *)
Definition example_reach (a : sockaddr_in) : option (message * Z) :=
  let intro := MStorageIntro (StorageIntro 0 (if sin_port a =? htons 1000 then 0 else 1) 1 0) in Some (intro, message_length intro).

Definition example_begin : list cluster_event := [
  ClientConnects 5 EpochSpec.example_address; AtOrder (ETimers 0); AtOrder (ETimers 1);
  ReplicaActs 0 (EAddClient 3); ReplicaActs 1 (EAddClient 3); ReplicaFromOrder 0 []; ReplicaFromOrder 1 [];
  ClientActs (Round false 0 [MClientStorageInfo (ClientStorageInfo 2 (addresses example_connected 0));
    MClientHeartbeat (ClientHeartbeat 0); MClientNewEpoch (ClientNewEpoch 5000001 5)]);
  ClientActs (Fill 7 example_request); ClientActs (Insert 7 70); ClientActs (Round false 6000001 []);
  ReplicaActs 1 (EClient [] (MStorageInsert example_request)); AtOrder (Order.EFailure (ClientIntro 3 0 5));
  ReplicaActs 0 (EClient [] (MStorageInsert example_request)); ReplicaFromOrder 0 []; OrderFromReplica 0].

Definition example_end : list cluster_event := [
  ClientActs (Round false 6000002 [MClientInsertAck (ClientInsertAck 1 0); MClientInsertAck (ClientInsertAck 0 0)]);
  ReplicaFromOrder 1 []; OrderFromReplica 1; ReplicaFromOrder 1 []; ReplicaFromOrder 0 []].

Definition example_start : cluster := cluster_init 0 0 example_servers example_connected.

Abbreviation example_run := (Cluster.cluster_run 3 0 1 None example_reach).

Definition example_outcome (r : option cluster) : cluster := default example_start r.

Definition example_middle : cluster := example_outcome (example_run example_begin example_start).
Definition example_final : cluster := example_outcome (example_run (example_begin ++ example_end) example_start).

Lemma example_outcome_some r : is_Some r -> r = Some (example_outcome r).
Proof. by intros [K ->]. Qed.

Lemma example_start_ok : start_ok 0 1 example_reach example_servers example_connected.
Proof.
  assert (default ∅ (storage_addresses_ example_connected !! 0) =
    <[0 := SockaddrIn 2 (htons 1000) 0 0]> (<[1 := SockaddrIn 2 (htons 1001) 0 0]> ∅)) as Ha by (vm_compute; reflexivity).
  split.
  - exact example_connected_ok.
  - split; discriminate || reflexivity.
  - vm_compute. reflexivity.
  - intros rid a. rewrite Ha. intros [[<- <-]|[_ [[<- <-]|[_ Hn]]%lookup_insert_Some]]%lookup_insert_Some; [by exists 0|by exists 0|].
    by rewrite lookup_empty in Hn.
  - rewrite Ha. unfold example_servers. by rewrite !dom_insert_L, !dom_empty_L.
  - intros rid s Hs. destruct (example_servers_threads _ _ Hs) as (_ & ct & sd & Hi). exists 1, 64.
    unfold example_servers in Hs. apply lookup_insert_Some in Hs as [[<- <-]|[_ [[<- <-]|[_ Hn]]%lookup_insert_Some]]; [reflexivity|reflexivity|].
    by rewrite lookup_empty in Hn.
Qed.

Lemma cluster_durable_witness :
  let K := example_final in responses (c_memory (sy_client (cl_system K))) !! 70 = Some 0 /\
  exists G : list Z, (forall i j a b, (i < j)%nat -> G !! i = Some a -> G !! j = Some b -> a < b) /\
    forall loc g, responses (c_memory (sy_client (cl_system K))) !! loc = Some g -> g <> UINT64_MAX ->
    exists k req, sy_sent (cl_system K) !! k = Some (Some loc, req) /\ G !! k = Some g /\
      exists R : gset Z, 1 < Z.of_nat (size R) /\
        forall rid, rid ∈ R -> exists ln, sy_links (cl_system K) !! rid = Some ln /\ holds 3 g (ins_data req) (ln_server ln).
Proof.
  intros K. split; [vm_compute; reflexivity|].
  apply (cluster_durable 3 0 1 None example_reach 1 0 example_servers example_connected (example_begin ++ example_end) K).
  - split; discriminate || reflexivity.
  - exact example_start_ok.
  - reflexivity.
  - refine (bool_decide_unpack _ _). vm_compute. exact I.
  - apply example_outcome_some. refine (bool_decide_unpack _ _). vm_compute. exact I.
Defined.

Lemma recovery_final_witness :
  (exists st, client_state_ (cl_order example_middle) !! 3 = Some st /\ o_cuts st = [(0, 0)]) /\
  (forall c st, client_state_ (cl_order example_middle) !! c = Some st -> o_shard_id st = 0 ->
     (forall rid g, (rid, g) ∈ o_cuts st -> exists ln, sy_links (cl_system (example_outcome (example_run example_end example_middle))) !! rid = Some ln /\
        s_disconnected (client_of (ln_server ln) c) = true /\ s_latest_gsn (client_of (ln_server ln) c) = g) /\
     (o_requested st = true -> forall rid, rid ∈ replicas (cl_order example_middle) 0 -> exists g, (rid, g) ∈ o_cuts st)) /\
  (forall rid ln w m, sy_links (cl_system example_middle) !! rid = Some ln -> cl_wires example_middle !! rid = Some w ->
     m ∈ wi_control w -> recovers 3 m -> s_disconnected (client_of (ln_server ln) 3) = true).
Proof.
  split; [eexists; split; vm_compute; reflexivity|].
  apply (recovery_final 3 0 1 None example_reach 1 0 example_servers example_connected example_begin example_end).
  - discriminate.
  - exact example_start_ok.
  - refine (bool_decide_unpack _ _). vm_compute. exact I.
  - apply example_outcome_some. refine (bool_decide_unpack _ _). vm_compute. exact I.
  - apply example_outcome_some. refine (bool_decide_unpack _ _). vm_compute. exact I.
Defined.
