(* ===== verification/ClusterLive.v ===== *)
(** * The recovery of a client goes on

    While the ordering server suspects a client of the shard, every replica whose cut or data it
    lacks has been asked for it or has answered: in every state of [Cluster], the question or the
    answer is on the way.  What the ordering server sends is also such that a replica handles it,
    but for two messages: a FREEZE of a client that it waits for, and a patch. *)
From S2P Require Import Prelude Consts Util Api StorageLog Interleave LogInv StorageLogSpec Storage StorageSpec Order OrderSpec EpochSpec RecoverySpec ControlSpec Client ClientSpec System SystemSpec Cluster ClusterInv ClusterSpec.

#[local] Opaque NUM_ENTRIES_PER_BLOCK NUM_SHARDS.

(** ** What is awaited *)

(** The question to a replica about a client, its FREEZE or the request for its data; and the
    answer. *)
Definition asks (c : Z) (requested : bool) (m : message) : Prop :=
  match m with
  | MStorageClientFreeze req => requested = false /\ scf_client_id req = c
  | MStorageClientCut req => requested = true /\ scc_client_id req = c
  | _ => False
  end.

Definition replies_to (c : Z) (requested : bool) (m : message) : Prop :=
  match m with
  | MOrderClientCut cut => requested = false /\ cut_client_id cut = c
  | MOrderClientData data => requested = true /\ ocd_client_id data = c /\ ocd_gsn data = UINT64_MAX
  | _ => False
  end.

Definition awaited (c : Z) (requested : bool) (w : wire) : Prop :=
  (exists m, m ∈ wi_control w /\ asks c requested m) \/ (exists m, m ∈ wi_replies w /\ replies_to c requested m).

#[export] Instance asks_dec c req m : Decision (asks c req m).
Proof. destruct m; apply _. Defined.
#[export] Instance replies_to_dec c req m : Decision (replies_to c req m).
Proof. destruct m; apply _. Defined.
#[export] Instance awaited_dec c req w : Decision (awaited c req w).
Proof.
  refine (cast_if (decide (Exists (asks c req) (wi_control w) \/ Exists (replies_to c req) (wi_replies w))));
    unfold awaited; by rewrite <- !Exists_exists.
Defined.

Definition recorded (rid : Z) (st : Order.client_state) : Prop :=
  if o_requested st then rid ∈ o_flushed st else exists g, (rid, g) ∈ o_cuts st.

(** The recovery of a suspected client: every replica's answer is recorded or awaited, and not all
    are recorded. *)
Record recovering (W : gmap Z wire) (c : Z) (st : Order.client_state) : Prop := {
  rc_replica rid w : W !! rid = Some w -> recorded rid st \/ awaited c (o_requested st) w;
  rc_flushed : o_flushed st ⊆ dom W;
  rc_unflushed : o_requested st = false -> o_flushed st = ∅;
  rc_open : if o_requested st then size (o_flushed st) <> size (dom W) else length (o_cuts st) <> size (dom W) }.

Record idle (st : Order.client_state) : Prop := {
  id_requested : o_requested st = false;
  id_cuts : o_cuts st = [];
  id_flushed : o_flushed st = ∅ }.

Lemma awaited_weaken c req w w' :
  (forall m, m ∈ wi_control w -> m ∈ wi_control w') -> (forall m, m ∈ wi_replies w -> m ∈ wi_replies w') ->
  awaited c req w -> awaited c req w'.
Proof. intros Hc Hr [(m & ? & ?)|(m & ? & ?)]; [left|right]; eauto. Qed.

(** What the event has taken from a replica's answers. *)
Definition taken (e : Order.event) (w w' : wire) : Prop :=
  wi_control w' = wi_control w /\
  (wi_replies w' = wi_replies w \/ exists m, wi_replies w = m :: wi_replies w' /\ e = ERecv m).

Section live.
Variables client_id shard_id failures : Z.
Variable estimate : option pid.
Variable connect : sockaddr_in -> option (message * Z).
Hypothesis failures_nonneg : 0 <= failures.
Variable A : gmap Z (gmap Z sockaddr_in).
Variable client_threads : Z.
Hypothesis A_connects : forall rid a, default ∅ (A !! shard_id) !! rid = Some a ->
  exists port, let intro := MStorageIntro (StorageIntro shard_id rid client_threads port) in
    connect a = Some (intro, message_length intro).

Abbreviation cluster_ok := (ClusterInv.cluster_ok client_id shard_id connect A).
Abbreviation order_event := (Cluster.order_event client_id shard_id).

Definition live (o : order) (W : gmap Z wire) : Prop :=
  forall c st, client_state_ o !! c = Some st -> o_shard_id st = shard_id ->
    if o_failed st then recovering W c st else idle st.

(** Nothing that is on the way gets lost. *)
Lemma live_wires o W W' :
  live o W -> dom W' = dom W ->
  (forall rid w', W' !! rid = Some w' -> exists w, W !! rid = Some w /\ forall c req, awaited c req w -> awaited c req w') ->
  live o W'.
Proof.
  intros H Hd Hw c st Hc Hs. specialize (H c st Hc Hs). destruct (o_failed st); [|done]. destruct H as [H1 H2 H3 H4].
  split; rewrite ?Hd; try done. intros rid w' Hrid. destruct (Hw _ _ Hrid) as (w & Hrid' & Hq).
  destruct (H1 _ _ Hrid'); [by left|right]. by apply Hq.
Qed.

(** ** A step of the ordering server *)

Lemma order_event_wires e K oe K1 :
  order_event e K = Some (oe, K1) ->
  dom (cl_wires K1) = dom (cl_wires K) /\
  forall rid w', cl_wires K1 !! rid = Some w' -> exists w, cl_wires K !! rid = Some w /\ taken oe w w'.
Proof.
  assert (forall rid w, cl_wires K !! rid = Some w -> exists w', cl_wires K !! rid = Some w' /\ taken oe w' w) as Hrefl.
  { intros rid w Hw. exists w. repeat split; [done|]. by left. }
  intros E. destruct e as [e|n a| |rid| | |]; cbn [Cluster.order_event] in E; try done.
  - destruct (outside _ _ e); [|done]. by injection E as <- <-.
  - destruct (cl_introduced K); [done|]. by injection E as <- <-.
  - destruct (cl_to_order K); [done|]. by injection E as <- <-.
  - destruct (cl_wires K !! rid) as [w|] eqn:Hw; [|done]. cbn [mbind option_bind] in E.
    destruct (wi_replies w) as [|m rest] eqn:Hr; [done|]. injection E as <- <-. cbn [cl_wires]. split.
    { apply dom_insert_lookup_L. by eexists. }
    intros r w' [[<- <-]|[_ Hr']]%lookup_insert_Some; [|by apply Hrefl]. exists w. split; [done|]. split; [done|]. right. by exists m.
Qed.

Lemma awaited_taken c req e out rid w w' :
  awaited c req w -> taken e w w' ->
  awaited c req (Wire (wi_control w' ++ control_sent shard_id rid out) (wi_replies w') (wi_byes w')) \/
  exists m, e = ERecv m /\ m ∈ wi_replies w /\ replies_to c req m.
Proof.
  intros [(m & Hm & Ha)|(m & Hm & Ha)] [Hc Hr].
  - left. left. exists m. split; [|done]. cbn [wi_control]. rewrite Hc. apply elem_of_app. by left.
  - destruct Hr as [Hr|(m' & Hr & ->)]; [left; right; exists m; split; [cbn [wi_replies]; by rewrite Hr|done]|].
    rewrite Hr in Hm. apply elem_of_cons in Hm as [->|Hm].
    + right. exists m'. rewrite Hr. split_and!; [done|constructor|done].
    + left. right. by exists m.
Qed.

Section order.
Variables (K K1 : cluster) (oe : Order.event) (o' : order) (out : Order.outputs).
Hypothesis K_ok : cluster_ok K.
Hypothesis K_wires : dom (cl_wires K1) = dom (cl_wires K).
Hypothesis K_taken : forall rid w', cl_wires K1 !! rid = Some w' -> exists w, cl_wires K !! rid = Some w /\ taken oe w w'.
Hypothesis K_brings : brings client_id shard_id oe (servers (cl_system K)).
Hypothesis K_nonempty : dom (cl_wires K) <> ∅.
Hypothesis K_handles : Order.handle oe (cl_order K) = Ok (o', out).

Abbreviation W' := (post_control shard_id out (cl_wires K1)).

Lemma post_dom : dom W' = dom (cl_wires K).
Proof.
  rewrite <- K_wires. apply set_eq. intros rid. unfold post_control. rewrite !elem_of_dom, map_lookup_imap.
  destruct (cl_wires K1 !! rid); split; intros []; eauto; done.
Qed.

Lemma post_lookup rid w' :
  W' !! rid = Some w' ->
  exists w w1, cl_wires K !! rid = Some w /\ taken oe w w1 /\ w' = Wire (wi_control w1 ++ control_sent shard_id rid out) (wi_replies w1) (wi_byes w1).
Proof.
  unfold post_control. rewrite map_lookup_imap. destruct (cl_wires K1 !! rid) as [w1|] eqn:Hw1; [|done]. intros [= <-].
  destruct (K_taken _ _ Hw1) as (w & ? & ?). eauto.
Qed.

(** What has been asked of every replica. *)
Lemma asked c req m :
  asks c req m -> (forall rid, rid ∈ replicas (cl_order K) shard_id -> (Order.ToStorage shard_id rid, m) ∈ out) ->
  forall rid w', W' !! rid = Some w' -> awaited c req w'.
Proof.
  intros Ha Hsent rid w' Hw'. destruct (post_lookup _ _ Hw') as (w & w1 & Hw & _ & ->). left. exists m. split; [|done].
  cbn [wi_control]. apply elem_of_app. right. apply control_sent_elem, Hsent.
  apply elem_of_dom_2 in Hw. rewrite (co_wired _ _ _ _ _ K_ok) in Hw. by apply (replicas_R client_id shard_id connect A K rid K_ok).
Qed.

(** An answer that is taken is the replica's own. *)
Lemma answer_own rid w m :
  cl_wires K !! rid = Some w -> m ∈ wi_replies w ->
  match m with
  | MOrderClientCut cut => cut_shard_id cut = shard_id /\ cut_replica_id cut = rid
  | MOrderClientData data => ocd_shard_id data = shard_id /\ ocd_replica_id data = rid
  | _ => True
  end.
Proof.
  intros Hw Hm. assert (is_Some (servers (cl_system K) !! rid)) as [s Hs].
  { apply elem_of_dom. apply elem_of_dom_2 in Hw. by rewrite (co_servers _ _ _ _ _ K_ok), <- (co_wired _ _ _ _ _ K_ok). }
  pose proof (wo_replies _ _ _ _ _ (co_wires _ _ _ _ _ K_ok _ _ _ Hs Hw) _ Hm) as Ho. destruct m; try done. by destruct Ho as (? & ? & _).
Qed.

Lemma replicas_length : length (replicas (cl_order K) shard_id) = size (dom (cl_wires K)).
Proof.
  rewrite (co_wired _ _ _ _ _ K_ok). unfold replicas, R. rewrite (co_addresses _ _ _ _ _ K_ok), length_fmap, size_dom.
  apply length_map_to_list.
Qed.

(** What was recorded or awaited is so after the event, if an answer that is taken is recorded. *)
Lemma still_awaited c st st' :
  client_state_ (cl_order K) !! c = Some st -> o_shard_id st = shard_id -> o_requested st' = o_requested st ->
  (forall rid, recorded rid st -> recorded rid st') ->
  (forall m rid, oe = ERecv m -> replies_to c (o_requested st) m ->
     match m with
     | MOrderClientCut cut => cut_shard_id cut = shard_id /\ cut_replica_id cut = rid
     | MOrderClientData data => ocd_shard_id data = shard_id /\ ocd_replica_id data = rid
     | _ => True
     end -> recorded rid st') ->
  recovering (cl_wires K) c st ->
  forall rid w', W' !! rid = Some w' -> recorded rid st' \/ awaited c (o_requested st') w'.
Proof.
  intros Hc Hs Hreq Hmono Hnew H rid w' Hw'. destruct (post_lookup _ _ Hw') as (w & w1 & Hw & Ht & ->). rewrite Hreq.
  destruct (rc_replica _ _ _ H _ _ Hw) as [Hr|Hawait]; [left; by apply Hmono|].
  destruct (awaited_taken _ _ _ out rid _ _ Hawait Ht) as [|(m & -> & Hm & Ha)]; [by right|left].
  apply (Hnew m); [done|done|by eapply answer_own].
Qed.

Lemma live_order : live (cl_order K) (cl_wires K) -> live o' W'.
Proof.
  intros HL c st' Hc' Hs'. pose proof replicas_length as Hlen. pose proof post_dom as Hd.
  assert (size (dom (cl_wires K)) <> 0%nat) as Hne by (rewrite size_empty_iff; set_solver).
  destruct (handle_advances _ _ _ _ K_handles _ _ Hc')
    as [intro a _ _ _ Hf Hr Hcu Hfl _|st Hc Hsame _ Hh|st Hc Hf Hf' Hs Hr Hcu Hfl _ Hall|st cut Hc He Hid Hcs Hnone Hf Hf' Hs Hfl Hcu _ Hor|st data Hc He Hid Hds Hrq Hf Hr Hs Hcu Hfl _ Hsz].
  - rewrite Hf. by split.
  - destruct Hsame as [Hs Hf Hr Hcu Hfl]. rewrite Hs in Hs'. specialize (HL _ _ Hc Hs'). rewrite Hf. destruct (o_failed st) eqn:Hfst.
    2:{ destruct HL. split; congruence. }
    split; rewrite ?Hd, ?Hfl, ?Hr, ?Hcu; try apply HL. rewrite <- Hr. apply (still_awaited _ st); try done.
    + intros rid. unfold recorded. by rewrite Hr, Hfl, Hcu.
    + intros m rid -> Ha Hown. unfold recorded. rewrite Hr, Hfl, Hcu. destruct m; try done; cbn [heard replies_to] in *.
      * destruct Ha as [-> Ha], Hown as [Hsh <-]. destruct Hh as [g Hg]; [done|done|congruence|]. exists g. by apply smap_find_sorted; [apply (ok_clients _ (co_order _ _ _ _ _ K_ok)) in Hc as []|].
      * destruct Ha as (Hq & Ha & Hg), Hown as [Hsh <-]. rewrite Hq. apply Hh; congruence.
  - rewrite Hs in Hs'. specialize (HL _ _ Hc Hs'). rewrite Hf in HL. destruct HL as [Hid1 Hid2 Hid3]. rewrite Hf'.
    split; rewrite ?Hd, ?Hr, ?Hfl, ?Hcu, ?Hid1, ?Hid2, ?Hid3; [|set_solver|done|done].
    intros rid w' Hw'. right. eapply asked; [|rewrite Hs' in Hall; exact Hall|exact Hw']. by split.
  - rewrite Hs in Hs'. specialize (HL _ _ Hc Hs'). rewrite Hf in HL. rewrite Hf'. subst c. rewrite Hs' in *. destruct Hor as [[Hr Hopen]|(Hr & Hr' & _ & mn & Hall)].
    + split; rewrite ?Hd, ?Hfl, ?Hr; try apply HL.
      * rewrite <- Hr. apply (still_awaited _ st); try done.
        -- intros rid. unfold recorded. rewrite Hr, Hfl, Hcu. destruct (o_requested st); [done|]. intros [g Hg]. exists g.
           apply smap_insert_elem; [done|]. by right.
        -- intros m rid -> Ha Hown. injection He as ->. destruct Ha as [Ha _], Hown as [_ <-]. unfold recorded. rewrite Hr, Ha, Hcu.
           eexists. apply smap_insert_elem; [done|]. by left.
      * destruct HL as [_ _ _ Ho]. destruct (o_requested st); [done|]. destruct Hopen as [|Hopen]; [done|]. by rewrite <- Hlen.
    + destruct HL as [_ _ Hun _]. specialize (Hun Hr). split; rewrite ?Hd, ?Hfl, ?Hr', ?Hun, ?size_empty; [|set_solver|done|done].
      intros rid w' Hw'. right. eapply asked; [|exact Hall|exact Hw']. by split.
  - rewrite Hs in Hs'. specialize (HL _ _ Hc Hs'). rewrite Hf. subst c. rewrite Hs' in *. destruct (o_failed st).
    2:{ destruct HL as [Hid1 _ _]. congruence. }
    split; rewrite ?Hd, ?Hr.
    + rewrite <- Hr. apply (still_awaited _ st); try done; [congruence|..].
      * intros rid. unfold recorded. rewrite Hr, Hrq, Hfl. set_solver.
      * intros m rid -> Ha Hown. injection He as ->. destruct Hown as [_ <-]. unfold recorded. rewrite Hr, Hfl. set_solver.
    + rewrite Hfl. pose proof (rc_flushed _ _ _ HL). subst oe. cbn [brings] in K_brings. destruct (K_brings Hds) as [s Hrid].
      apply elem_of_dom_2 in Hrid. rewrite (co_servers _ _ _ _ _ K_ok), <- (co_wired _ _ _ _ _ K_ok) in Hrid. set_solver.
    + done.
    + by rewrite <- Hlen.
Qed.
End order.

(** ** A step of a replica or the client *)

Lemma server_round_inv rid e K K' :
  server_round client_id rid e K = Some K' ->
  exists ln w s out x, sy_links (cl_system K) !! rid = Some ln /\ cl_wires K !! rid = Some w /\
    Storage.handle e (ln_server ln) = Ok (s, out) /\ server_step client_id rid e (cl_system K) = Some x /\
    K' = Cluster (cl_order K) x (<[rid := Wire (wi_control w) (wi_replies w ++ replies out) (wi_byes w + length (farewells client_id out))]> (cl_wires K))
           (cl_to_client K) (cl_to_order K) (cl_introduced K).
Proof.
  intros E. unfold server_round in E. destruct (sy_links (cl_system K) !! rid) as [ln|] eqn:Hln; [|done]. cbn [mbind option_bind] in E.
  destruct (cl_wires K !! rid) as [w|] eqn:Hw; [|done]. cbn [mbind option_bind] in E.
  destruct (server_step _ _ _ _) as [x|] eqn:Es; [|done]. cbn [mbind option_bind] in E.
  destruct (Storage.handle e (ln_server ln)) as [[s out]|] eqn:Eh; [|done]. injection E as <-. by exists ln, w, s, out, x.
Qed.

(** A question that is handled is answered. *)
Lemma question_answered stale m s s' out c req :
  Storage.handle (EControl stale m) s = Ok (s', out) -> asks c req m -> exists m', m' ∈ replies out /\ replies_to c req m'.
Proof.
  assert (forall m', (Storage.ToOrder, m') ∈ out -> m' ∈ replies out) as Hin.
  { intros m' Hm. apply list_elem_of_omap. by exists (Storage.ToOrder, m'). }
  intros E Ha. destruct m; try done; destruct Ha as [-> <-].
  - apply freeze_answered in E as (cut & Hc & Ho). exists (MOrderClientCut cut). split; [by apply Hin|done].
  - apply request_answered in E as (data & Hc & Hg & Ho). exists (MOrderClientData data). split; [by apply Hin|done].
Qed.

Lemma live_server e K rid se K1 K' :
  server_event e K = Some (rid, se, K1) -> server_round client_id rid se K1 = Some K' ->
  live (cl_order K) (cl_wires K) -> live (cl_order K') (cl_wires K').
Proof.
  intros Ev Er HL. destruct (server_round_inv _ _ _ _ Er) as (ln & w1 & s & out & x & _ & Hw1 & Eh & _ & ->). cbn [cl_order cl_wires].
  assert (cl_order K1 = cl_order K /\ exists w, cl_wires K !! rid = Some w /\ wi_replies w1 = wi_replies w /\
    (forall r, r <> rid -> cl_wires K1 !! r = cl_wires K !! r) /\
    forall m, m ∈ wi_control w -> m ∈ wi_control w1 \/ exists stale, se = EControl stale m) as (-> & w & Hw & Hr & Hne & Hc).
  { destruct e as [| | | |r stale| |r e]; cbn [server_event] in Ev; try done.
    - destruct (cl_wires K !! r) as [w|] eqn:Hw; [|done]. cbn [mbind option_bind] in Ev.
      destruct (wi_control w) as [|m rest] eqn:Hc; [done|]. injection Ev as <- <- <-. cbn [cl_wires cl_order] in *.
      rewrite lookup_insert_eq in Hw1. injection Hw1 as <-. split; [done|]. exists w. split_and!; [done|done| |].
      + intros r' Hr'. by rewrite lookup_insert_ne.
      + rewrite Hc. intros m' [->|Hm']%elem_of_cons; [right; eauto|by left].
    - assert ((r, e, K) = (rid, se, K1)) as [= -> -> ->] by (destruct e as [? m| | | |]; [destruct (by_order m); [done|]|..]; by injection Ev as -> -> ->).
      split; [done|]. exists w1. split_and!; auto. }
  apply (live_wires _ _ _ HL).
  - apply set_eq. intros r. rewrite !elem_of_dom. destruct (decide (r = rid)) as [->|Hr'].
    + rewrite lookup_insert_eq, Hw. by split.
    + by rewrite lookup_insert_ne, Hne by done.
  - intros r w' [[<- <-]|[Hr' Hw']]%lookup_insert_Some.
    + exists w. split; [done|]. intros c req [(m & Hm & Ha)|(m & Hm & Ha)].
      * destruct (Hc _ Hm) as [Hm'|[stale ->]]; [left; by exists m|right]. destruct (question_answered _ _ _ _ _ _ _ Eh Ha) as (m' & Hm' & ?).
        exists m'. split; [|done]. cbn [wi_replies]. apply elem_of_app. by right.
      * right. exists m. split; [|done]. cbn [wi_replies]. apply elem_of_app. left. by rewrite Hr.
    + rewrite Hne in Hw' by done. by exists w'.
Qed.

Lemma take_messages_wires ms q q' rid w' :
  take_messages shard_id ms q = Some q' -> q'.2 !! rid = Some w' ->
  exists w, q.2 !! rid = Some w /\ wi_control w' = wi_control w /\ wi_replies w' = wi_replies w.
Proof.
  revert q. induction ms as [|m ms IH]; intros q E Hw'; cbn [take_messages] in E; [injection E as <-; by exists w'|].
  destruct (take_message shard_id m q) as [q1|] eqn:Eq; [|done]. destruct (IH _ E Hw') as (w1 & Hw1 & Hc & Hr). clear IH E Hw'.
  assert (exists w, q.2 !! rid = Some w /\ wi_control w1 = wi_control w /\ wi_replies w1 = wi_replies w) as (w & ? & ? & ?).
  2:{ exists w. split_and!; congruence. }
  destruct m; cbn [take_message] in Eq; try (injection Eq as <-; by exists w1);
    try (destruct q.1 as [|m' rest]; [done|]; case_decide; [|done]; injection Eq as <-; by exists w1).
  destruct (_ =? _); [|injection Eq as <-; by exists w1]. destruct (q.2 !! sf_replica_id m) as [w|] eqn:Hw; [|done]. cbn [mbind option_bind] in Eq.
  destruct (wi_byes w) as [|n]; [done|]. injection Eq as <-. cbn [snd] in Hw1.
  apply lookup_insert_Some in Hw1 as [[<- <-]|[_ Hw1]]; [by exists w|by exists w1].
Qed.

Lemma live_client e K K' :
  client_round client_id shard_id failures estimate connect e K = Some K' ->
  live (cl_order K) (cl_wires K) -> live (cl_order K') (cl_wires K').
Proof.
  intros E HL. unfold client_round in E. destruct (client_step _ _ _ _ _ _ _) as [x|]; [|done]. cbn [mbind option_bind] in E.
  destruct (take_messages _ _ _) as [q|] eqn:Et; [|done]. cbn [mbind option_bind] in E.
  destruct (step _ _ _ _ _ _ _) as [[c' out]|]; [|done]. injection E as <-. cbn [cl_order cl_wires].
  apply (live_wires _ _ _ HL); [by apply take_messages_dom in Et|]. intros rid w' Hw'.
  destruct (take_messages_wires _ _ _ _ _ Et Hw') as (w & Hw & Hc & Hr). exists w. split; [done|].
  intros c req. by apply awaited_weaken; intros m; [rewrite Hc|rewrite Hr].
Qed.

Lemma live_step e K K' :
  cluster_ok K -> dom (cl_wires K) <> ∅ -> cluster_step client_id shard_id failures estimate connect e K = Some K' ->
  live (cl_order K) (cl_wires K) -> live (cl_order K') (cl_wires K').
Proof.
  intros H Hne E HL.
  assert (('(e, K) ← order_event e K; order_round client_id shard_id e K) = Some K' -> live (cl_order K') (cl_wires K')) as Ho.
  { destruct (order_event e K) as [[oe K1]|] eqn:Eo; [|done]. cbn [mbind option_bind]. intros Er.
    destruct (order_event_ok _ _ _ _ _ _ _ _ H Eo) as (_ & Ho & Hsy & Hb & _). destruct (order_event_wires _ _ _ _ Eo) as [Hd Ht].
    unfold order_round in Er. rewrite Ho in Er. destruct (Order.handle oe (cl_order K)) as [[o out]|] eqn:Eh; [|done]. injection Er as <-.
    cbn [cl_order cl_wires]. by eapply live_order. }
  assert (('(rid, e, K) ← server_event e K; server_round client_id rid e K) = Some K' -> live (cl_order K') (cl_wires K')) as Hs.
  { destruct (server_event e K) as [[[rid se] K1]|] eqn:Ev; [|done]. cbn [mbind option_bind]. intros Er. by eapply live_server. }
  destruct e; cbn [cluster_step] in E; [by apply Ho..|by apply Hs|by eapply live_client|by apply Hs].
Qed.

Lemma live_run es K K' :
  cluster_ok K -> dom (cl_wires K) <> ∅ -> cluster_events_ok client_id shard_id failures estimate connect es K ->
  cluster_run client_id shard_id failures estimate connect es K = Some K' ->
  live (cl_order K) (cl_wires K) -> live (cl_order K') (cl_wires K').
Proof.
  revert K. induction es as [|e es IH]; intros K H Hne He E HL; cbn [cluster_run cluster_events_ok] in *; [by injection E as <-|].
  destruct He as [He Hes]. destruct (cluster_step _ _ _ _ _ e K) as [K1|] eqn:Es; [|done]. cbn [mbind option_bind] in E.
  assert (cluster_ok K1) as H1 by by eapply (cluster_step_ok client_id shard_id failures estimate connect failures_nonneg A client_threads).
  eapply (IH K1); [done| |done|done|by eapply (live_step e K)].
  by rewrite (co_wired _ _ _ _ _ H1), <- (co_wired _ _ _ _ _ H).
Qed.

(** While a client is suspected, the recovery is under way. *)
Lemma live_awaited K c st :
  cluster_ok K -> live (cl_order K) (cl_wires K) ->
  client_state_ (cl_order K) !! c = Some st -> o_shard_id st = shard_id -> o_failed st = true ->
  exists rid w, cl_wires K !! rid = Some w /\ awaited c (o_requested st) w.
Proof.
  intros H HL Hc Hs Hf. specialize (HL c st Hc Hs). rewrite Hf in HL.
  destruct (decide (map_Forall (fun rid w => ~ awaited c (o_requested st) w) (cl_wires K))) as [Hall|Hex].
  2:{ apply map_not_Forall in Hex as (rid & w & Hw & Hq); [|intros; apply _]. exists rid, w. split; [done|]. by apply dec_stable in Hq. }
  exfalso. destruct HL as [H1 H2 _ H4].
  assert (forall rid, rid ∈ dom (cl_wires K) -> recorded rid st) as Hrec.
  { intros rid [w Hw]%elem_of_dom. destruct (H1 _ _ Hw) as [|Hq]; [done|]. by destruct (Hall _ _ Hw Hq). }
  unfold recorded in Hrec. destruct (o_requested st).
  - apply H4. f_equal. apply set_eq. intros rid. split; [apply H2|apply Hrec].
  - apply H4. assert (NoDup (o_cuts st).*1) as Hnd.
    { apply smap_sorted_NoDup. by apply (ok_clients _ (co_order _ _ _ _ _ H)) in Hc as []. }
    rewrite <- length_fmap with (f := fst), <- (size_list_to_set (C := gset Z)) by done. f_equal. apply set_eq. intros rid.
    rewrite elem_of_list_to_set, list_elem_of_fmap. split; [|intros [g Hg]%Hrec; by exists (rid, g)].
    intros ([r g] & -> & Hg). destruct (proj1 (co_cuts _ _ _ _ _ H c st Hc Hs) _ _ Hg) as (s & Hr & _).
    apply elem_of_dom_2 in Hr. by rewrite (co_servers _ _ _ _ _ H), <- (co_wired _ _ _ _ _ H) in Hr.
Qed.
End live.
