(* ===== verification/ClusterSound.v ===== *)
(** * What the ordering server sends can be handled

    In every state of [Cluster] the epochs that a replica has taken and those on the way to it are
    consecutive up to the ordering server's next GSN, the messages on the way are for clients it
    can know and hold words, and the replica's log is well formed.  A replica therefore handles
    the next message, but for the two of [blocks]. *)
From S2P Require Import Prelude Consts Util Api StorageLog Interleave LogInv StorageLogSpec Storage StorageSpec Order OrderSpec EpochSpec RecoverySpec ControlSpec Client ClientSpec System SystemSpec Cluster ClusterInv ClusterSpec ClusterLive.

#[local] Opaque NUM_ENTRIES_PER_BLOCK NUM_SHARDS.

(** ** The epochs of a replica *)

(** The GSN after the epochs [ms], the first of which begins at [base]. *)
Definition epochs_end (base : Z) (ms : list storage_slots) : Z := base + zsum ((fun m => total_slots (ss_assignments m)) <$> ms).

Lemma epochs_end_cons base m ms : epochs_end base (m :: ms) = epochs_end (base + total_slots (ss_assignments m)) ms.
Proof. unfold epochs_end. rewrite zsum_fmap_cons. lia. Qed.

Lemma epochs_end_app base l1 l2 : epochs_end base (l1 ++ l2) = epochs_end (epochs_end base l1) l2.
Proof. unfold epochs_end. rewrite fmap_app, zsum_app. lia. Qed.

Lemma epochs_from_app base l1 l2 : epochs_from base l1 -> epochs_from (epochs_end base l1) l2 -> epochs_from base (l1 ++ l2).
Proof.
  revert base. induction l1 as [|m l1 IH]; intros base H1 H2; cbn [app epochs_from] in *.
  { by replace base with (epochs_end base []) by (unfold epochs_end; simpl; lia). }
  destruct H1 as (? & ? & ? & ? & ? & ? & ? & H1). split_and!; try done. apply IH; [done|].
  by rewrite epochs_end_cons in H2.
Qed.

Lemma epochs_end_ge base ms : epochs_from base ms -> base <= epochs_end base ms.
Proof.
  revert base. induction ms as [|m ms IH]; intros base H; [unfold epochs_end; simpl; lia|].
  destruct H as (_ & _ & ? & _ & _ & _ & _ & H). apply IH in H. rewrite epochs_end_cons. lia.
Qed.

(** What an event of the ordering server sends a replica of its epochs. *)
Lemma handle_epochs e o o' out sid rid :
  order_ok o -> OrderSpec.event_ok o e -> Order.handle e o = Ok (o', out) -> 0 <= sid < NUM_SHARDS -> rid ∈ replicas o sid ->
  epochs_from (gsn_base_ o) (slots_sent sid rid out) /\ epochs_end (gsn_base_ o) (slots_sent sid rid out) = gsn_base_ o'.
Proof.
  intros H Hok E Hsid Hr. destruct (starts_epoch e o) eqn:Hs.
  - destruct (handle_epoch _ _ _ _ H Hok E Hs) as (now & Ho & ? & ? & ->). rewrite slots_sent_epoch by done.
    destruct (epoch_message_ok o sid H) as (Hso & Hco & Hn & Htot & Hst). pose proof (ok_gsn _ H).
    destruct (handle_gsn _ _ _ _ H Hok E) as [Hg _]. rewrite Hs in Hg. cbn [epochs_from].
    rewrite epochs_end_cons, Htot. unfold epochs_end. cbn [fmap list_fmap zsum foldr]. split_and!; try done; lia.
  - destruct (handle_quiet _ _ _ _ H Hok E Hs) as [-> Hq]. rewrite slots_sent_none by done. split; [done|].
    unfold epochs_end. simpl. lia.
Qed.

(** The server's log holds the slots of consecutive epochs, those on the way continue them, and
    the last one ends at [g]. *)
Record in_step (g : Z) (s : storage) (ms : list storage_slots) (sl : list (Z * Z)) (base : Z) : Prop := {
  st_server : server_ok s sl;
  st_epochs : epochs_from base ms;
  st_base : 0 <= base;
  st_range : Forall (fun x => 0 <= x.2 < base) sl;
  st_length : Z.of_nat (length sl) <= base;
  st_end : epochs_end base ms = g }.

Definition steps_with (g : Z) (s : storage) (ms : list storage_slots) : Prop := exists sl base, in_step g s ms sl base.

Lemma in_step_event g s ms sl base e ms' :
  in_step g s ms sl base -> words_ok e -> (if epoch_of e is Some m then ms = m :: ms' else ms' = ms) -> StorageSpec.event_ok sl e.
Proof.
  intros [H1 H2 H3 H4 H5 H6] Hw He. apply (epochs_accepted_ok sl base ms [e]); try done.
  - cbn [omap list_omap]. destruct (epoch_of e) as [m|]; [|apply prefix_nil]. subst ms. by exists ms'.
  - by constructor.
  - eapply Forall_impl; [exact H4|]. simpl. lia.
Qed.

(** An event of the server, and more epochs of the ordering server. *)
Lemma in_step_handle g s ms sl base e s' out ms' :
  in_step g s ms sl base -> words_ok e -> (if epoch_of e is Some m then ms = m :: ms' else ms' = ms) ->
  Storage.handle e s = Ok (s', out) ->
  exists sl' base', in_step g s' ms' sl' base' /\ sl' ++ slots_of_epochs ms' = sl ++ slots_of_epochs ms.
Proof.
  intros H Hw He E. pose proof (in_step_event _ _ _ _ _ _ _ H Hw He) as Hok. destruct H as [H1 H2 H3 H4 H5 H6].
  pose proof (effect_ok _ _ _ _ H1 (handle_effect _ _ _ _ _ H1 Hok E)) as H1'. destruct (epoch_of e) as [m|] eqn:Hm.
  - assert (StorageSpec.new_slots e = StorageSpec.new_slots (epoch_event m)) as Hnew by (destruct e as [? []|? []| | |]; try done; by injection Hm as ->).
    subst ms. pose proof (new_slots_length base m ms' H2) as Hl. pose proof (new_slots_bounds base m ms') as Hb.
    pose proof H2 as (_ & _ & ? & _ & _ & _ & _ & H2'). rewrite Hnew in *.
    exists (sl ++ StorageSpec.new_slots (epoch_event m)), (base + total_slots (ss_assignments m)).
    split; [|by rewrite slots_of_epochs_cons, app_assoc].
    split; [done|done|lia| |rewrite length_app; lia|by rewrite epochs_end_cons in H6].
    apply Forall_app_2; [eapply Forall_impl; [exact H4|simpl; lia]|]. apply Forall_forall. intros x Hx.
    specialize (Hb x H2 Hx). lia.
  - rewrite (new_slots_none _ Hm), app_nil_r in H1'. subst ms'. by exists sl, base.
Qed.

Lemma in_step_more g s ms sl base new g' :
  in_step g s ms sl base -> epochs_from g new -> epochs_end g new = g' -> in_step g' s (ms ++ new) sl base.
Proof. intros [? ? ? ? ? <-] Hn Hg. split; try done; [by apply epochs_from_app|by rewrite epochs_end_app]. Qed.

(** ** What is on the way *)

(** A message to a replica names a client there is a place for, and a patch's GSN is a word; so is
    the GSN of data on the way back. *)
Definition readable (m : message) : Prop :=
  match m with
  | MStorageClientFreeze req => scf_client_id req < MAX_CLIENTS
  | MStorageClientCut req => scc_client_id req < MAX_CLIENTS
  | MStorageClientPatch p => scp_client_id p < MAX_CLIENTS /\ is_u64 (scp_gsn p)
  | MStorageClientFinalize req => scfin_client_id req < MAX_CLIENTS
  | _ => True
  end.

Definition word (m : message) : Prop := match m with MOrderClientData data => is_u64 (ocd_gsn data) | _ => True end.

Definition slots_of (m : message) : option storage_slots := match m with MStorageSlots slots => Some slots | _ => None end.

(** [g] is the ordering server's next GSN. *)
Record wire_sound (g : Z) (ln : link) (w : wire) : Prop := {
  ws_slots : omap slots_of (wi_control w) = ln_epochs ln;
  ws_control m : m ∈ wi_control w -> readable m;
  ws_replies m : m ∈ wi_replies w -> word m;
  ws_server : steps_with g (ln_server ln) (ln_epochs ln) }.

Lemma control_slots sid rid out : omap slots_of (control_sent sid rid out) = slots_sent sid rid out.
Proof.
  unfold control_sent, slots_sent. induction out as [|[d m] out IH]; [done|]. cbn [omap list_omap fst snd].
  destruct d as [s r| |]; [|exact IH..]. destruct (bool_decide (s = sid /\ r = rid)) eqn:Hd.
  - apply bool_decide_eq_true in Hd as [-> ->]. rewrite !bool_decide_true by done. cbn [andb omap list_omap]. destruct m; cbn; by rewrite IH.
  - rewrite <- bool_decide_and, Hd. by destruct m.
Qed.

(** A request for a client's data is answered: every message of the suffix carries the GSN of a
    slot. *)
Lemma request_sends req s sl :
  server_ok s sl -> scc_client_id req < MAX_CLIENTS ->
  exists s' msgs, on_storage_client_cut req s =
      Ok (s', msgs ++ [(Storage.ToOrder, MOrderClientData (OrderClientData (scc_client_id req) (st_shard_id_ s) (st_replica_id_ s) UINT64_MAX 0 []))]) /\
    Forall (fun x => exists k data, x = (Storage.ToOrder, MOrderClientData data) /\ sl !! k = Some (scc_client_id req, ocd_gsn data)) msgs.
Proof.
  intros H Hc. destruct (Z.eq_dec (s_latest_gsn (client_of s (scc_client_id req))) UINT64_MAX) as [Hm|Hm].
  - unfold on_storage_client_cut. destruct (get_client_state_ok _ s Hc) as (s1 & -> & Hs). cbn [mbind result_bind].
    rewrite Hm, Z.eqb_refl. cbn [mbind result_bind mfold]. destruct Hs as (_ & _ & -> & -> & _). by exists s1, [].
  - destruct (client_cut_sends req s sl H Hc Hm) as (s' & n & ks & msgs & E & _ & _ & _ & _ & HF). exists s', msgs. split; [done|].
    apply Forall_forall. intros x [i Hi]%list_elem_of_lookup_1. destruct (Forall2_lookup_r _ _ _ _ _ HF Hi) as (k & _ & g & data & Hk & _ & ->).
    by eexists _, _.
Qed.

(** The GSNs of the data that a server sends are those of its slots. *)
Lemma handle_words e s s' out sl m :
  server_ok s sl -> Forall (fun x => is_u64 x.2) sl -> Storage.handle e s = Ok (s', out) -> (Storage.ToOrder, m) ∈ out -> word m.
Proof.
  intros H Hu E Hin. destruct m; try done.
  assert (exists stale req, e = EControl stale (MStorageClientCut req)) as (stale & req & ->).
  { destruct e as [stale m0|stale m0|i|c'|sid n]; unfold Storage.handle in E.
    - destruct m0; cbn [control_recv] in E; try (inv_result; by apply elem_of_nil in Hin); [..|by eauto|].
      + unfold Storage.on_subscriber_finished in E. case_decide; inv_result; by apply elem_of_nil in Hin.
      + unfold on_storage_slots in E. destruct (_ <? _); inv_result; by apply elem_of_nil in Hin.
      + unfold on_storage_client_finalize in E. inv_result. by apply elem_of_nil in Hin.
      + unfold on_storage_client_freeze in E. inv_result. by apply list_elem_of_singleton in Hin as [=].
      + unfold on_storage_client_patch in E. inv_result. destruct (_ <? _); inv_result; by apply elem_of_nil in Hin.
    - destruct m0; cbn [Storage.client_recv] in E; try (inv_result; by apply elem_of_nil in Hin).
      + unfold Storage.on_client_finished in E. inv_result. destruct (s_disconnected _); inv_result; [by apply elem_of_nil in Hin|].
        by apply list_elem_of_singleton in Hin as [=].
      + unfold on_storage_insert in E. inv_result. destruct (s_disconnected _); inv_result; [by apply elem_of_nil in Hin|].
        by apply list_elem_of_singleton in Hin as [=].
    - unfold Storage.on_client_failure in E. inv_result. by apply list_elem_of_singleton in Hin as [=].
    - inv_result. by apply elem_of_nil in Hin.
    - inv_result. by apply elem_of_nil in Hin. }
  cbn [Storage.handle control_recv] in E.
  destruct (request_sends req s sl) as (s1 & msgs & E1 & Hm); [done| |].
  { unfold on_storage_client_cut in E. inv_result. by apply get_client_state_inv in E0 as (? & _). }
  rewrite E1 in E. injection E as <- <-. apply elem_of_app in Hin as [Hin|Hin].
  - rewrite Forall_forall in Hm. destruct (Hm _ Hin) as (k & d & [= ->] & Hk). cbn [word]. rewrite Forall_forall in Hu.
    apply (Hu (scc_client_id req, ocd_gsn d)). by eapply list_elem_of_lookup_2.
  - apply list_elem_of_singleton in Hin as [= ->]. done.
Qed.

Lemma take_event_epochs c e ln ln1 :
  take_event c e ln = Some ln1 -> if epoch_of e is Some m then ln_epochs ln = m :: ln_epochs ln1 else ln_epochs ln1 = ln_epochs ln.
Proof.
  intros E. destruct e as [? []|? []| | |]; cbn [take_event epoch_of] in *; try (by injection E as <-).
  - destruct (ln_epochs ln) as [|m' rest]; [done|]. case_decide; [|done]. injection E as <-. by subst.
  - destruct (_ =? _); [|by injection E as <-]. destruct (ln_requests ln); [done|]. case_decide; [|done]. by injection E as <-.
Qed.

Section sound.
Variables client_id shard_id failures : Z.
Variable estimate : option pid.
Variable connect : sockaddr_in -> option (message * Z).
Hypothesis failures_nonneg : 0 <= failures.
Hypothesis shard_known : 0 <= shard_id < NUM_SHARDS.
Variable A : gmap Z (gmap Z sockaddr_in).
Variable client_threads : Z.
Hypothesis A_connects : forall rid a, default ∅ (A !! shard_id) !! rid = Some a ->
  exists port, let intro := MStorageIntro (StorageIntro shard_id rid client_threads port) in
    connect a = Some (intro, message_length intro).

Abbreviation cluster_ok := (ClusterInv.cluster_ok client_id shard_id connect A).
Abbreviation order_event := (Cluster.order_event client_id shard_id).

Definition data_sound (o : order) : Prop :=
  forall c st g p, client_state_ o !! c = Some st -> o_shard_id st = shard_id -> (g, p) ∈ o_data st -> is_u64 g.

Record sound (K : cluster) : Prop := {
  sd_data : data_sound (cl_order K);
  sd_wires rid ln w : sy_links (cl_system K) !! rid = Some ln -> cl_wires K !! rid = Some w -> wire_sound (gsn_base_ (cl_order K)) ln w }.

(** ** A step of the ordering server *)

(** The data of the shard that the event brings. *)
Definition brings_word (e : Order.event) : Prop :=
  match e with ERecv (MOrderClientData data) => ocd_shard_id data = shard_id -> is_u64 (ocd_gsn data) | _ => True end.

Lemma data_sound_step e o o' out : Order.handle e o = Ok (o', out) -> brings_word e -> data_sound o -> data_sound o'.
Proof.
  intros E Hb H c st' g p Hc' Hs' Hin.
  assert (forall st, client_state_ o !! c = Some st -> o_shard_id st' = o_shard_id st -> stores e st st' -> is_u64 g) as Hst.
  { intros st Hc Hs Hsto. destruct (Hsto _ _ Hin) as [Hold|(data & -> & Hsh & <-)]; [|by apply Hb; congruence].
    by apply (H c st g p); [|congruence|]. }
  destruct (handle_advances _ _ _ _ E _ _ Hc') as [intro a _ _ _ _ _ _ _ Hd|st Hc [] Hsto _|st Hc _ _ Hs _ _ _ Hsto _|st cut Hc _ _ _ _ _ _ Hs _ _ Hsto _|st data Hc _ _ _ _ _ _ Hs _ _ Hsto _];
    [rewrite Hd in Hin; by apply elem_of_nil in Hin|by apply (Hst st)..].
Qed.

Lemma sent_readable e o x r m :
  order_ok o -> data_sound o -> justified e o x -> x = (Order.ToStorage shard_id r, m) -> readable m.
Proof.
  intros H Hd Hj ->. assert (forall c, is_Some (client_state_ o !! c) -> c < MAX_CLIENTS) as Hk.
  { intros c [st Hc]. by apply (ok_clients _ H) in Hc as [[_ ?] _ _ _ _ _]. }
  destruct m; try done; cbn [justified readable] in *.
  - destruct (Hj _ eq_refl) as (st & Hc & _). apply Hk. by eexists.
  - by apply Hk.
  - destruct (Hj _ eq_refl) as (st & Hc & _). apply Hk. by eexists.
  - destruct (Hj _ eq_refl) as (st & Hc & Hs & _ & _ & Hp). split; [apply Hk; by eexists|]. by apply (Hd _ _ _ _ Hc Hs Hp).
Qed.

Lemma order_event_sound e K oe K1 :
  sound K -> cluster_ok K -> order_event e K = Some (oe, K1) -> sound K1 /\ brings_word oe.
Proof.
  intros H Hok E. destruct e as [e|n a| |rid| | |]; cbn [Cluster.order_event] in E; try done.
  - destruct (outside _ _ e) eqn:Ho; [|done]. injection E as <- <-. split; [done|]. destruct e as [[]| | |]; try done.
    cbn [outside] in Ho. apply negb_true_iff, Z.eqb_neq in Ho. by intros ?.
  - destruct (cl_introduced K); [done|]. injection E as <- <-. by destruct H.
  - destruct (cl_to_order K) as [|m rest] eqn:Ht; [done|]. injection E as <- <-. split; [by destruct H|].
    pose proof (co_says _ _ _ _ _ Hok) as Hsay. rewrite Ht in Hsay. apply Forall_cons in Hsay as [Hm _]. by destruct m.
  - destruct (cl_wires K !! rid) as [w|] eqn:Hw; [|done]. cbn [mbind option_bind] in E.
    destruct (wi_replies w) as [|m rest] eqn:Hr; [done|]. injection E as <- <-. destruct H as [Hd Hws].
    assert (is_Some (sy_links (cl_system K) !! rid)) as [ln Hln].
    { apply elem_of_dom. rewrite <- (dom_fmap_L ln_server). change (rid ∈ dom (servers (cl_system K))).
      rewrite (co_servers _ _ _ _ _ Hok), <- (co_wired _ _ _ _ _ Hok). by apply elem_of_dom_2 in Hw. }
    destruct (Hws _ _ _ Hln Hw) as [H1 H2 H3 H4]. rewrite Hr in H3. split.
    + split; [done|]. cbn [cl_system cl_wires cl_order]. intros r ln' w' Hl [[<- <-]|[_ Hw']]%lookup_insert_Some; [|by eapply Hws].
      rewrite Hln in Hl. injection Hl as <-. split; try done. intros m' Hm'. apply H3. by constructor.
    + specialize (H3 m ltac:(constructor)). destruct m; try done. by intros _.
Qed.

Lemma order_round_sound e K K' :
  sound K -> cluster_ok K -> OrderSpec.event_ok (cl_order K) e -> brings_word e -> order_round client_id shard_id e K = Some K' -> sound K'.
Proof.
  intros [Hd Hws] H Hok Hb E. unfold order_round in E. destruct (Order.handle e (cl_order K)) as [[o out]|] eqn:Eh; [|done].
  injection E as <-. split; cbn [cl_order cl_system cl_wires]; [by eapply data_sound_step|].
  intros rid ln' w' Hln' Hw'. unfold post_epochs in Hln'. cbn [sy_links] in Hln'. unfold post_control in Hw'. rewrite map_lookup_imap in Hln'. rewrite map_lookup_imap in Hw'.
  destruct (sy_links (cl_system K) !! rid) as [ln|] eqn:Hln; [|done]. destruct (cl_wires K !! rid) as [w|] eqn:Hw; [|done].
  injection Hln' as <-. injection Hw' as <-. destruct (Hws _ _ _ Hln Hw) as [H1 H2 H3 (sl & base & H4)].
  split; cbn [wi_control wi_replies ln_epochs ln_server].
  - by rewrite omap_app, H1, control_slots.
  - intros m [Hm|Hm]%elem_of_app; [by apply H2|]. apply control_sent_elem in Hm.
    pose proof (handle_justified _ (co_order _ _ _ _ _ H) _ _ _ Hok Eh) as Hj. rewrite Forall_forall in Hj. apply Hj in Hm.
    eapply sent_readable; [apply H|done|exact Hm|done].
  - done.
  - assert (rid ∈ replicas (cl_order K) shard_id) as Hr.
    { apply (replicas_R client_id shard_id connect A K rid H). apply elem_of_dom_2 in Hw. by rewrite (co_wired _ _ _ _ _ H) in Hw. }
    destruct (handle_epochs _ _ _ _ _ _ (co_order _ _ _ _ _ H) Hok Eh shard_known Hr) as [Hf He].
    exists sl, base. by eapply in_step_more.
Qed.

(** ** A step of a replica *)

Lemma gsns_words g s ms sl base : in_step g s ms sl base -> g < W64 -> Forall (fun x => is_u64 x.2) sl.
Proof.
  intros [_ He _ Hr _ Hend] Hg. apply epochs_end_ge in He. eapply Forall_impl; [exact Hr|]. unfold is_u64. simpl. lia.
Qed.

(** The events that are left of an event's queue, and what the replica may handle. *)
Lemma server_event_sound e K rid se K1 :
  sound K -> cluster_ok K -> cluster_event_ok client_id shard_id e K -> (if e is ReplicaFromOrder _ _ then True else if e is ReplicaActs _ _ then True else False) ->
  server_event e K = Some (rid, se, K1) ->
  words_ok se /\ cl_order K1 = cl_order K /\ cl_system K1 = cl_system K /\
  (forall r, r <> rid -> cl_wires K1 !! r = cl_wires K !! r) /\
  forall w1, cl_wires K1 !! rid = Some w1 -> exists w, cl_wires K !! rid = Some w /\ wi_replies w1 = wi_replies w /\
    (forall m, m ∈ wi_control w1 -> m ∈ wi_control w) /\
    omap slots_of (wi_control w) = (if epoch_of se is Some m then [m] else []) ++ omap slots_of (wi_control w1).
Proof.
  intros H Hok He Hk Ev. destruct e as [| | | |r stale| |r e]; try done; cbn [cluster_event_ok] in He; rewrite Ev in He; cbn [server_event] in Ev.
  - destruct (cl_wires K !! r) as [w|] eqn:Hw; [|done]. cbn [mbind option_bind] in Ev.
    destruct (wi_control w) as [|m rest] eqn:Hc; [done|]. injection Ev as <- <- <-. cbn [cl_wires cl_order cl_system].
    split_and!; [done|done|done|intros; by rewrite lookup_insert_ne|]. intros w1 Hw1. rewrite lookup_insert_eq in Hw1. injection Hw1 as <-.
    exists w. split_and!; [done|done|intros m' Hm'; rewrite Hc; by constructor|]. rewrite Hc. by destruct m.
  - assert ((r, e, K) = (rid, se, K1) /\ epoch_of e = None) as [[= -> -> ->] Hn].
    { destruct e as [? m|? []| | |]; [destruct (by_order m) eqn:Hb; [done|]; injection Ev as <- <- <-; by destruct m|..]; by injection Ev as <- <- <-. }
    split_and!; try done. intros w1 Hw1. exists w1. split_and!; try done. by rewrite Hn.
Qed.

Lemma server_round_sound e K rid se K1 K' :
  sound K -> cluster_ok K -> cluster_event_ok client_id shard_id e K -> (if e is ReplicaFromOrder _ _ then True else if e is ReplicaActs _ _ then True else False) ->
  server_event e K = Some (rid, se, K1) -> server_round client_id rid se K1 = Some K' -> sound K'.
Proof.
  intros H Hok He Hk Ev Er. destruct (server_event_sound _ _ _ _ _ H Hok He Hk Ev) as (Hw & Ho & Hsy & Hne & Hwr). destruct H as [Hd Hws].
  destruct (server_round_inv _ _ _ _ _ Er) as (ln & w1 & s & out & x & Hln & Hw1 & Eh & Es & ->). rewrite Hsy in *.
  destruct (Hwr _ Hw1) as (w & Hw0 & Hrep & Hc & Hsl). destruct (Hws _ _ _ Hln Hw0) as [H1 H2 H3 H4].
  split; cbn [cl_order cl_system cl_wires]; rewrite Ho; [done|]. intros r ln' w' Hln' Hw'.
  unfold server_step in Es. rewrite Hln in Es. cbn [mbind option_bind] in Es.
  destruct (take_event client_id se ln) as [ln1|] eqn:Ht; [|done]. cbn [mbind option_bind] in Es.
  rewrite (take_event_server _ _ _ _ Ht), Eh in Es. injection Es as <-. cbn [sy_links] in Hln'.
  destruct (decide (r = rid)) as [->|Hr].
  2:{ rewrite lookup_insert_ne in Hln' by done. rewrite lookup_insert_ne in Hw' by done. rewrite Hne in Hw' by done. by eapply Hws. }
  rewrite lookup_insert_eq in Hln'. rewrite lookup_insert_eq in Hw'. injection Hln' as <-. injection Hw' as <-. pose proof (take_event_epochs _ _ _ _ Ht) as He'.
  split; cbn [wi_control wi_replies ln_epochs ln_server].
  - rewrite H1 in Hsl. destruct (epoch_of se) as [m|]; cbn [app] in Hsl; congruence.
  - intros m Hm. by apply H2, Hc.
  - intros m [Hm|Hm]%elem_of_app; [apply H3; by rewrite <- Hrep|]. destruct H4 as (sl & base & H4).
    unfold replies in Hm. apply list_elem_of_omap in Hm as ([d m'] & Hin & Hdm). cbn [fst snd] in Hdm. destruct d; try done. injection Hdm as ->.
    eapply handle_words; [apply H4|eapply gsns_words; [exact H4|]|exact Eh|exact Hin]. by destruct (ok_gsn _ (co_order _ _ _ _ _ Hok)).
  - destruct H4 as (sl & base & H4). destruct (in_step_handle _ _ _ _ _ _ _ _ _ H4 Hw He' Eh) as (sl' & base' & ? & _). by exists sl', base'.
Qed.

(** ** Every step *)

(** A client leaves the servers and their epochs alone. *)
Definition at_server (ln : link) : storage * list storage_slots := (ln_server ln, ln_epochs ln).

Lemma client_step_links e x x' :
  client_step client_id shard_id failures estimate connect e x = Some x' -> at_server <$> sy_links x' = at_server <$> sy_links x.
Proof.
  assert (forall ms L L', collect ms L = Some L' -> at_server <$> L' = at_server <$> L) as Hc.
  { intros ms. induction ms as [|m ms IH]; intros L L' E; [by injection E as <-|]. destruct m; cbn [collect] in E; try by apply IH.
    destruct (L !! ack_replica_id m) as [ln|] eqn:Hl; [|done]. cbn [mbind option_bind] in E.
    destruct (ln_answers ln) as [|a rest]; [done|]. destruct (_ && _); [|done]. rewrite (IH _ _ E), fmap_insert.
    apply insert_id. by rewrite lookup_fmap, Hl. }
  intros E. unfold client_step in E. destruct (step _ _ _ _ _ _ _) as [[c' out]|]; [|done].
  destruct (collect _ _) as [L|] eqn:El; [|done]. cbn [mbind option_bind] in E. injection E as <-. cbn [sy_links]. rewrite <- (Hc _ _ _ El).
  apply map_eq. intros rid. unfold post_all. rewrite !lookup_fmap, map_lookup_imap. by destruct (L !! rid).
Qed.

Lemma client_round_sound e K K' :
  sound K -> client_round client_id shard_id failures estimate connect e K = Some K' -> sound K'.
Proof.
  intros [Hd Hws] E. unfold client_round in E. destruct (client_step _ _ _ _ _ _ _) as [x|] eqn:Es; [|done]. cbn [mbind option_bind] in E.
  destruct (take_messages _ _ _) as [q|] eqn:Et; [|done]. cbn [mbind option_bind] in E.
  destruct (step _ _ _ _ _ _ _) as [[c' out]|]; [|done]. injection E as <-. split; cbn [cl_order cl_system cl_wires]; [done|].
  intros rid ln' w' Hln' Hw'. apply client_step_links in Es. destruct (take_messages_wires _ _ _ _ _ _ Et Hw') as (w & Hw & Hc & Hr).
  assert ((at_server <$> sy_links x) !! rid = Some (at_server ln')) as Ha by (by rewrite lookup_fmap, Hln').
  rewrite Es, lookup_fmap in Ha. destruct (sy_links (cl_system K) !! rid) as [ln|] eqn:Hln; [|done]. injection Ha as Ha1 Ha2.
  destruct (Hws _ _ _ Hln Hw) as [H1 H2 H3 H4]. by split; rewrite ?Hc, ?Hr, <- ?Ha1, <- ?Ha2.
Qed.

Lemma sound_step e K K' :
  sound K -> cluster_ok K -> cluster_event_ok client_id shard_id e K ->
  cluster_step client_id shard_id failures estimate connect e K = Some K' -> sound K'.
Proof.
  intros H Hok He E.
  assert (match order_event e K with Some (e, K) => OrderSpec.event_ok (cl_order K) e | None => True end ->
    ('(e, K) ← order_event e K; order_round client_id shard_id e K) = Some K' -> sound K') as Ho.
  { destruct (order_event e K) as [[oe K1]|] eqn:Eo; [|done]. cbn [mbind option_bind]. intros Hoe Er.
    destruct (order_event_sound _ _ _ _ H Hok Eo) as [H1 Hb]. destruct (order_event_ok _ _ _ _ _ _ _ _ Hok Eo) as (Hok1 & _).
    by apply (order_round_sound oe K1). }
  assert ((if e is ReplicaFromOrder _ _ then True else if e is ReplicaActs _ _ then True else False) ->
    ('(rid, e, K) ← server_event e K; server_round client_id rid e K) = Some K' -> sound K') as Hs.
  { intros Hk. destruct (server_event e K) as [[[rid se] K1]|] eqn:Ev; [|done]. cbn [mbind option_bind]. intros Er. by eapply server_round_sound. }
  destruct e; cbn [cluster_step cluster_event_ok] in *; [by apply Ho..|by apply Hs|by eapply client_round_sound|by apply Hs].
Qed.

Lemma sound_run es K K' :
  sound K -> cluster_ok K -> cluster_events_ok client_id shard_id failures estimate connect es K ->
  cluster_run client_id shard_id failures estimate connect es K = Some K' -> sound K'.
Proof.
  revert K. induction es as [|e es IH]; intros K H Hok He E; cbn [cluster_run cluster_events_ok] in *; [by injection E as <-|].
  destruct He as [He Hes]. destruct (cluster_step _ _ _ _ _ e K) as [K1|] eqn:Es; [|done]. cbn [mbind option_bind] in E.
  apply (IH K1); [by eapply sound_step|by eapply (cluster_step_ok client_id shard_id failures estimate connect failures_nonneg A client_threads)|done|done].
Qed.

Lemma sound_init u sv o :
  order_ok o -> client_state_ o = ∅ -> (forall rid s, sv !! rid = Some s -> exists ct st sd, storage_init shard_id rid ct st sd = Ok s) ->
  sound (cluster_init shard_id u sv o).
Proof.
  intros Ho Hc Hsv. unfold cluster_init. split; cbn [cl_order cl_system cl_wires].
  { intros c st g p Hst. by rewrite Hc, lookup_empty in Hst. }
  intros rid ln w Hln Hw. unfold sys_init in Hln. cbn [sy_links] in Hln. rewrite map_lookup_imap in Hln. rewrite map_lookup_imap in Hw.
  destruct (sv !! rid) as [s|] eqn:Hs; [|done]. injection Hln as <-. injection Hw as <-. destruct (Hsv _ _ Hs) as (ct & st & sd & Hi).
  split; cbn [wi_control wi_replies ln_epochs ln_server]; [done|by intros ? ?%elem_of_nil|by intros ? ?%elem_of_nil|].
  exists [], (gsn_base_ o). pose proof (ok_gsn _ Ho). split; [by eapply server_ok_init|done|lia|constructor|simpl; lia|unfold epochs_end; simpl; lia].
Qed.
End sound.

(** ** What a replica handles *)

(** A replica does not handle a FREEZE while the client has not reached it; a patch may end it. *)
Definition blocks (stale : list Byte.byte) (m : message) (s : storage) : Prop :=
  match m with
  | MStorageClientFreeze req => s_connected (client_of s (scf_client_id req)) = false
  | MStorageClientPatch _ => exists f, Storage.handle (EControl stale m) s = Err f
  | _ => False
  end.

Lemma control_handled g stale m s ms :
  steps_with g s ms -> readable m -> (forall slots, m = MStorageSlots slots -> exists rest, ms = slots :: rest) ->
  (exists s' out, Storage.handle (EControl stale m) s = Ok (s', out)) \/ blocks stale m s.
Proof.
  intros (sl & base & H) Hr Hsl. pose proof (st_server _ _ _ _ _ H) as Hs.
  destruct m; cbn [Storage.handle control_recv readable blocks] in *; try (left; by eexists _, _).
  - left. unfold Storage.on_subscriber_finished. case_decide; by eexists _, _.
  - left. unfold on_storage_slots. destruct (Z.ltb_spec 0 (ss_num_clients m)) as [Hn|]; [|by eexists _, _].
    destruct (Hsl m eq_refl) as [rest Hms]. pose proof (in_step_event _ _ _ _ _ (EControl stale (MStorageSlots m)) rest H I Hms Hn) as [H1 H2 H3 H4 H5 H6 H7].
    destruct (add_entries_ok m (st_log_ s) sl) as (l' & sched & _ & -> & _); [apply Hs|done..|lia|]. by eexists _, _.
  - left. unfold on_storage_client_finalize. destruct (get_client_state_ok _ s Hr) as (s1 & -> & Hl & _). cbn [mbind result_bind]. rewrite Hl.
    destruct (so_client _ _ Hs (scfin_client_id m)) as (n & Hn & _).
    destruct (close_ok _ _ _ _ _ (so_rep _ _ Hs) Hn) as (p' & l' & -> & _). by eexists _, _.
  - destruct (s_connected (client_of s (scf_client_id m))) eqn:Hc; [left|by right]. unfold on_storage_client_freeze.
    destruct (get_client_state_ok _ s Hr) as (s1 & -> & _). cbn [mbind result_bind]. unfold wait_connected. rewrite Hc. by eexists _, _.
  - left. destruct (request_sends m s sl Hs Hr) as (s' & msgs & -> & _). by eexists _, _.
  - destruct (on_storage_client_patch stale m s) as [[s' out]|f] eqn:E; [left; by eexists _, _|right; by exists f].
Qed.
