(* ===== verification/ClusterDrain.v ===== *)
(** * The recovery ends

    If only what is on the way between the ordering server and the replicas is delivered, in any
    order, then the deliveries come to an end, and at the end no client of the shard is suspected,
    unless a replica waits for a client it is to freeze or does not survive a patch. *)
From S2P Require Import Prelude Consts Util Api StorageLog Interleave LogInv StorageLogSpec Storage StorageSpec Order OrderSpec EpochSpec RecoverySpec ControlSpec Client ClientSpec System SystemSpec Cluster ClusterInv ClusterSpec ClusterLive ClusterSound.

#[local] Opaque NUM_ENTRIES_PER_BLOCK NUM_SHARDS.

(** ** Sums over maps *)

Definition msum {T} (f : T -> nat) (M : gmap Z T) : nat := sum_list_with (fun x => f x.2) (map_to_list M).

Lemma msum_delete {T} (f : T -> nat) M k a : M !! k = Some a -> msum f M = (f a + msum f (delete k M))%nat.
Proof. intros H. unfold msum. by rewrite <- (map_to_list_delete M k a H). Qed.

Lemma msum_insert {T} (f : T -> nat) M k a b : M !! k = Some a -> (msum f (<[k := b]> M) + f a = msum f M + f b)%nat.
Proof.
  intros H. rewrite (msum_delete f M k a H), (msum_delete f (<[k := b]> M) k b) by apply lookup_insert_eq.
  rewrite delete_insert_eq. lia.
Qed.

(** ** How far the recoveries have come *)

(** A client fails, its data is requested, it is finalized. *)
Definition stage (st : Order.client_state) : nat := if o_failed st then if o_requested st then 1 else 2 else 3.

Definition stages (o : order) : nat := msum stage (client_state_ o).

(** A step that sends something brings a client to its next stage. *)
Definition progresses (o o' : order) (out : Order.outputs) : Prop :=
  (stages o' < stages o)%nat \/ (stages o' = stages o /\ out = []).

Lemma progresses_refl o : progresses o o [].
Proof. by right. Qed.

Lemma stage_pos st : (0 < stage st)%nat.
Proof. unfold stage. destruct (o_failed st), (o_requested st); lia. Qed.

(** The state of a client changes but for its stage; it advances; it is removed. *)
Lemma progresses_kept o c st st' :
  client_state_ o !! c = Some st -> stage st' = stage st -> progresses o (with_clients (<[c := st']> (client_state_ o)) o) [].
Proof. intros Hc Hs. right. split; [|done]. unfold stages. cbn [client_state_ with_clients]. pose proof (msum_insert stage _ c st st' Hc). lia. Qed.

Lemma progresses_insert o c st st' o' out :
  client_state_ o !! c = Some st -> (stage st' < stage st)%nat -> client_state_ o' = <[c := st']> (client_state_ o) -> progresses o o' out.
Proof. intros Hc Hs Ho. left. unfold stages. rewrite Ho. pose proof (msum_insert stage _ c st st' Hc). lia. Qed.

Lemma progresses_delete o c st o' out :
  client_state_ o !! c = Some st -> client_state_ o' = delete c (client_state_ o) -> progresses o o' out.
Proof. intros Hc Ho. left. unfold stages. rewrite Ho, (msum_delete stage (client_state_ o) c st) by done. pose proof (stage_pos st). lia. Qed.

Lemma min_max_cuts_some r g cuts : exists mn mx, min_max_cuts (smap_insert r g cuts) = Ok (mn, mx).
Proof.
  assert (smap_insert r g cuts <> []) as Hne by (destruct cuts as [|[k a] cuts]; cbn; [done|]; by repeat case_decide || case_match).
  unfold min_max_cuts. destruct (smap_insert r g cuts) as [|x l] eqn:El; [done|]. cbn [head deref mbind result_bind].
  destruct (rev (x :: l)) as [|y rest] eqn:Er; [by apply (f_equal length) in Er; rewrite length_rev in Er|].
  cbn [head deref mbind result_bind]. destruct (_ && _); by eexists _, _.
Qed.

(** The answer of a replica is always handled. *)
Lemma reply_progresses shard_id rid s m o :
  reply_ok shard_id rid s m -> exists o' out, Order.handle (ERecv m) o = Ok (o', out) /\ progresses o o' out.
Proof.
  intros Hm. destruct m; try done; cbn [Order.handle order_recv].
  - unfold on_order_client_cut. destruct (client_state_ o !! cut_client_id m) as [st|] eqn:Hc; [|eexists _, _; split; [done|apply progresses_refl]].
    destruct (o_failed st) eqn:Hf; cbn [negb]; [|eexists _, _; split; [done|apply progresses_refl]].
    destruct (_ || _); [eexists _, _; split; [done|apply progresses_refl]|]. cbn [o_requested o_cuts o_shard_id].
    destruct (o_requested st) eqn:Hr; cbn [negb andb].
    { eexists _, _. split; [done|]. eapply progresses_kept; [exact Hc|]. unfold stage. cbn. by rewrite Hf, Hr. }
    case_bool_decide.
    2:{ eexists _, _. split; [done|]. eapply progresses_kept; [exact Hc|]. unfold stage. cbn. by rewrite Hf, Hr. }
    destruct (min_max_cuts_some (cut_replica_id m) (cut_latest_gsn m) (o_cuts st)) as (mn & mx & ->). cbn [mbind result_bind].
    eexists _, _. split; [apply f_equal, surjective_pairing|]. destruct (mn =? mx).
    + eapply progresses_delete; [exact Hc|]. cbn [finalized fst with_suspicious with_clients client_state_]. by rewrite delete_insert_eq.
    + eapply progresses_insert; [exact Hc| |cbn [requested fst with_clients client_state_]; by rewrite insert_insert_eq].
      unfold stage. cbn. rewrite Hf, Hr. lia.
  - eexists _, _. split; [apply f_equal, surjective_pairing|]. unfold on_order_client_data.
    destruct (client_state_ o !! ocd_client_id m) as [st|] eqn:Hc; [|apply progresses_refl].
    destruct (o_requested st) eqn:Hr; cbn [negb]; [|apply progresses_refl]. destruct (_ || _); [apply progresses_refl|].
    destruct (_ =? _).
    + destruct (bool_decide _).
      * eapply progresses_delete; [exact Hc|]. cbn [finalized fst with_suspicious with_clients client_state_]. by rewrite delete_insert_eq.
      * eapply progresses_kept; [exact Hc|]. unfold stage. cbn. by rewrite Hr.
    + destruct (smap_find _ _); [apply progresses_refl|]. eapply progresses_kept; [exact Hc|]. unfold stage. cbn. by rewrite Hr.
  - eexists _, _. split; [apply f_equal, surjective_pairing|]. unfold on_order_client_freeze.
    destruct (client_state_ o !! ocf_client_id m) as [st|] eqn:Hc; [|apply progresses_refl].
    destruct (o_failed st) eqn:Hf; [apply progresses_refl|]. eapply progresses_insert; [exact Hc| |done].
    unfold stage. cbn. rewrite Hf. destruct (o_requested st); lia.
Qed.

(** ** Deliveries *)

Definition delivery (e : cluster_event) : Prop :=
  match e with OrderFromReplica _ | ReplicaFromOrder _ _ => True | _ => False end.

Definition controls (K : cluster) : nat := msum (fun w => length (wi_control w)) (cl_wires K).
Definition unread (K : cluster) : nat := msum (fun w => length (wi_replies w)) (cl_wires K).

Section drain.
Variables client_id shard_id failures : Z.
Variable estimate : option pid.
Variable connect : sockaddr_in -> option (message * Z).
Hypothesis failures_nonneg : 0 <= failures.
Hypothesis shard_known : 0 <= shard_id < NUM_SHARDS.
Variable A : gmap Z (gmap Z sockaddr_in).
Variable client_threads : Z.
Hypothesis A_connects : forall rid a, default ∅ (A !! shard_id) !! rid = Some a ->
  exists port, let intro := MStorageIntro (StorageIntro shard_id rid client_threads port) in
    connect a = Some (intro, message_length intro).

Abbreviation cluster_ok := (ClusterInv.cluster_ok client_id shard_id connect A).
Abbreviation sound := (ClusterSound.sound shard_id).
Abbreviation live := (ClusterLive.live shard_id).
Abbreviation cluster_step := (Cluster.cluster_step client_id shard_id failures estimate connect).
Abbreviation cluster_run := (Cluster.cluster_run client_id shard_id failures estimate connect).
Abbreviation cluster_events_ok := (Cluster.cluster_events_ok client_id shard_id failures estimate connect).

Lemma post_nothing W : post_control shard_id [] W = W.
Proof.
  apply map_eq. intros rid. unfold post_control. rewrite map_lookup_imap. destruct (W !! rid) as [[c r b]|]; [|done].
  cbn. by rewrite app_nil_r.
Qed.

Lemma wire_link K rid w : cluster_ok K -> cl_wires K !! rid = Some w -> exists ln, sy_links (cl_system K) !! rid = Some ln.
Proof.
  intros H Hw. apply elem_of_dom. rewrite <- (dom_fmap_L ln_server). change (rid ∈ dom (servers (cl_system K))).
  rewrite (co_servers _ _ _ _ _ H), <- (co_wired _ _ _ _ _ H). by apply elem_of_dom_2 in Hw.
Qed.

Lemma deliver_reply K rid w m rest :
  cluster_ok K -> cl_wires K !! rid = Some w -> wi_replies w = m :: rest ->
  exists K', cluster_step (OrderFromReplica rid) K = Some K' /\ cluster_event_ok client_id shard_id (OrderFromReplica rid) K /\
    ((stages (cl_order K') < stages (cl_order K))%nat \/
     (stages (cl_order K') = stages (cl_order K) /\ controls K' = controls K /\ (unread K' < unread K)%nat)).
Proof.
  intros H Hw Hr. destruct (wire_link _ _ _ H Hw) as [ln Hln].
  assert (reply_ok shard_id rid (ln_server ln) m) as Hm.
  { eapply wo_replies; [|rewrite Hr; constructor]. eapply (co_wires _ _ _ _ _ H); [|exact Hw]. unfold servers. by rewrite lookup_fmap, Hln. }
  destruct (reply_progresses _ _ _ _ (cl_order K) Hm) as (o' & out & Eh & Hp).
  cbn [Cluster.cluster_step cluster_event_ok order_event]. rewrite Hw. cbn [mbind option_bind]. rewrite Hr. cbn [mbind option_bind].
  unfold order_round. cbn [cl_order]. rewrite Eh. eexists. split; [done|]. split; [by destruct m|]. cbn [cl_order].
  destruct Hp as [|[Hs ->]]; [by left|right]. split; [done|]. unfold controls, unread. cbn [cl_wires]. rewrite post_nothing.
  split.
  - pose proof (msum_insert (fun w => length (wi_control w)) _ rid w (Wire (wi_control w) rest (wi_byes w)) Hw). simpl in *. lia.
  - pose proof (msum_insert (fun w => length (wi_replies w)) _ rid w (Wire (wi_control w) rest (wi_byes w)) Hw) as Hi.
    cbn [wi_replies] in Hi. rewrite Hr in Hi. simpl in *. lia.
Qed.

Lemma deliver_control stale K rid ln w m rest s out :
  sound K -> cl_wires K !! rid = Some w -> sy_links (cl_system K) !! rid = Some ln -> wi_control w = m :: rest ->
  Storage.handle (EControl stale m) (ln_server ln) = Ok (s, out) ->
  exists K', cluster_step (ReplicaFromOrder rid stale) K = Some K' /\ cluster_event_ok client_id shard_id (ReplicaFromOrder rid stale) K /\
    cl_order K' = cl_order K /\ (controls K' < controls K)%nat.
Proof.
  intros H Hw Hln Hc Eh. destruct (sd_wires _ _ H _ _ _ Hln Hw) as [H1 H2 _ _]. rewrite Hc in H1.
  assert (exists ln1, take_event client_id (EControl stale m) ln = Some ln1) as [ln1 Ht].
  { destruct m; cbn [take_event]; try by eexists. cbn [omap list_omap slots_of] in H1. rewrite <- H1. rewrite decide_True by done. by eexists. }
  cbn [Cluster.cluster_step cluster_event_ok server_event]. rewrite Hw. cbn [mbind option_bind]. rewrite Hc. cbn [mbind option_bind].
  unfold server_round. cbn [cl_wires cl_system cl_order]. rewrite Hln, lookup_insert_eq. cbn [mbind option_bind].
  unfold server_step. rewrite Hln. cbn [mbind option_bind]. rewrite Ht. cbn [mbind option_bind].
  rewrite (take_event_server _ _ _ _ Ht), Eh. cbn [mbind option_bind]. eexists. split; [done|]. split; [|split; [done|]].
  - specialize (H2 m). rewrite Hc in H2. specialize (H2 ltac:(constructor)). destruct m; try done. apply H2.
  - unfold controls. cbn [cl_wires wi_control]. rewrite insert_insert_eq.
    match goal with |- context [<[rid := ?w']> _] => pose proof (msum_insert (fun w => length (wi_control w)) _ rid w w' Hw) as Hi end.
    cbn [wi_control] in Hi. rewrite Hc in Hi. simpl in *. lia.
Qed.

(** One delivery, of any message that is on the way, with any bytes beyond the message in the
    replica's buffer. *)
Definition delivers (K K' : cluster) : Prop := exists e, delivery e /\ cluster_step e K = Some K'.

(** A message is taken from its wire and handled. *)
Lemma replica_delivery stale K rid K' :
  cluster_step (ReplicaFromOrder rid stale) K = Some K' ->
  exists w m rest ln s out, cl_wires K !! rid = Some w /\ wi_control w = m :: rest /\ sy_links (cl_system K) !! rid = Some ln /\
    Storage.handle (EControl stale m) (ln_server ln) = Ok (s, out).
Proof.
  intros E. cbn [Cluster.cluster_step server_event] in E.
  destruct (cl_wires K !! rid) as [w|] eqn:Hw; [|done]. cbn [mbind option_bind] in E.
  destruct (wi_control w) as [|m rest] eqn:Hc; [done|]. cbn [mbind option_bind] in E.
  unfold server_round in E. cbn [cl_wires cl_system] in E. destruct (sy_links (cl_system K) !! rid) as [ln|] eqn:Hln; [|done].
  rewrite lookup_insert_eq in E. cbn [mbind option_bind] in E.
  destruct (server_step client_id rid (EControl stale m) (cl_system K)) as [[S out]|] eqn:Es; [|done]. clear E.
  unfold server_step in Es. rewrite Hln in Es. cbn [mbind option_bind] in Es.
  destruct (take_event client_id (EControl stale m) ln) as [ln1|] eqn:Ht; [|done]. cbn [mbind option_bind] in Es.
  rewrite (take_event_server _ _ _ _ Ht) in Es. destruct (Storage.handle (EControl stale m) (ln_server ln)) as [[s o]|] eqn:Eh; [|done].
  by exists w, m, rest, ln, s, o.
Qed.

(** Every delivery brings the end nearer: it leaves fewer stages, or fewer messages for the
    replicas, or fewer answers. *)
Lemma delivers_decreases K e K' :
  cluster_ok K -> sound K -> delivery e -> cluster_step e K = Some K' ->
  cluster_event_ok client_id shard_id e K /\
    ((stages (cl_order K') < stages (cl_order K))%nat \/
     (stages (cl_order K') = stages (cl_order K) /\ ((controls K' < controls K)%nat \/ (controls K' = controls K /\ (unread K' < unread K)%nat)))).
Proof.
  intros H Hs Hd E. destruct e as [| | |rid|rid stale| |]; try done.
  - destruct (cl_wires K !! rid) as [w|] eqn:Hw; [|by cbn [Cluster.cluster_step order_event] in E; rewrite Hw in E].
    destruct (wi_replies w) as [|m rest] eqn:Hm; [by cbn [Cluster.cluster_step order_event] in E; rewrite Hw in E; cbn [mbind option_bind] in E; rewrite Hm in E|].
    destruct (deliver_reply _ _ _ _ _ H Hw Hm) as (K1 & E1 & He & Hlt). rewrite E in E1. injection E1 as <-. tauto.
  - destruct (replica_delivery _ _ _ _ E) as (w & m & rest & ln & s & out & Hw & Hc & Hln & Eh).
    destruct (deliver_control _ _ _ _ _ _ _ _ _ Hs Hw Hln Hc Eh) as (K1 & E1 & He & Ho & Hlt). rewrite E in E1. injection E1 as <-.
    rewrite Ho. tauto.
Qed.

(** Where the deliveries lead. *)
Definition recovered (K : cluster) : Prop :=
  forall c st, client_state_ (cl_order K) !! c = Some st -> o_shard_id st = shard_id -> o_failed st = false.

Definition blocked (K : cluster) : Prop :=
  exists rid ln w m rest, sy_links (cl_system K) !! rid = Some ln /\ cl_wires K !! rid = Some w /\ wi_control w = m :: rest /\
    forall stale, blocks stale m (ln_server ln).

(** When nothing can be delivered any more, the end is reached. *)
Lemma delivered_all K :
  cluster_ok K -> sound K -> live (cl_order K) (cl_wires K) -> nf delivers K -> recovered K \/ blocked K.
Proof.
  intros H Hs HL Hnf.
  assert (map_Forall (fun _ w => wi_replies w = []) (cl_wires K)) as Hr.
  { intros rid w Hw. destruct (wi_replies w) as [|m rest] eqn:Hm; [done|]. exfalso.
    destruct (deliver_reply _ _ _ _ _ H Hw Hm) as (K' & E & _). apply Hnf. by exists K', (OrderFromReplica rid). }
  destruct (decide (map_Forall (fun _ w => wi_control w = []) (cl_wires K))) as [Hc|Hc].
  - left. intros c st Hst Hsh. destruct (o_failed st) eqn:Hf; [|done]. exfalso.
    destruct (live_awaited client_id shard_id connect A K c st H HL Hst Hsh Hf) as (rid & w & Hw & [(m & Hm & _)|(m & Hm & _)]).
    + rewrite (Hc _ _ Hw) in Hm. by apply elem_of_nil in Hm.
    + rewrite (Hr _ _ Hw) in Hm. by apply elem_of_nil in Hm.
  - right. apply map_not_Forall in Hc as (rid & w & Hw & Hc); [|intros; apply _]. destruct (wi_control w) as [|m rest] eqn:Hm; [done|].
    destruct (wire_link _ _ _ H Hw) as [ln Hln]. exists rid, ln, w, m, rest. split_and!; [done..|]. intros stale.
    destruct (sd_wires _ _ Hs _ _ _ Hln Hw) as [H1 H2 _ H4]. rewrite Hm in H1, H2.
    destruct (control_handled _ stale m _ _ H4 (H2 m ltac:(constructor))) as [(s & out & Eh)|Hb]; [|exfalso|done].
    + intros slots ->. rewrite <- H1. by eexists.
    + destruct (deliver_control _ _ _ _ _ _ _ _ _ Hs Hw Hln Hm Eh) as (K' & E & _). apply Hnf. by exists K', (ReplicaFromOrder rid stale).
Qed.

(** A run between two deliveries. *)
Record draining (K : cluster) : Prop := {
  dr_ok : cluster_ok K;
  dr_sound : sound K;
  dr_wires : dom (cl_wires K) <> ∅;
  dr_live : live (cl_order K) (cl_wires K) }.

Lemma draining_step K e K' : draining K -> delivery e -> cluster_step e K = Some K' -> draining K'.
Proof.
  intros [H Hs Hne HL] Hd E. destruct (delivers_decreases _ _ _ H Hs Hd E) as [He _].
  assert (cluster_ok K') as H1 by by eapply (cluster_step_ok client_id shard_id failures estimate connect failures_nonneg A client_threads A_connects e K).
  split; [done|exact (sound_step _ _ _ _ _ shard_known A e K K' Hs H He E)| |
    exact (live_step _ _ _ _ _ failures_nonneg A client_threads A_connects e K K' H Hne E HL)].
  by rewrite (co_wired _ _ _ _ _ H1), <- (co_wired _ _ _ _ _ H).
Qed.

Lemma draining_rtc K K' : draining K -> rtc delivers K K' -> draining K'.
Proof. intros H Hr. induction Hr as [|K K1 K' (e & Hd & E) _ IH]; [done|]. by eapply IH, draining_step. Qed.

(** The deliveries come to an end. *)
Lemma deliveries_end K : draining K -> sn delivers K.
Proof.
  remember (stages (cl_order K)) as a eqn:Ha. revert K Ha. induction (lt_wf a) as [a _ IHa].
  intros K. remember (controls K) as b eqn:Hb. revert K Hb. induction (lt_wf b) as [b _ IHb].
  intros K. remember (unread K) as n eqn:Hn. revert K Hn. induction (lt_wf n) as [n _ IHn].
  intros K -> -> -> H. constructor. intros K1 (e & Hd & E). pose proof (draining_step _ _ _ H Hd E) as H1.
  destruct (delivers_decreases _ _ _ (dr_ok _ H) (dr_sound _ H) Hd E) as [_ [Hlt|[Heq [Hlt|[Heq' Hlt]]]]]; [by eapply IHa|by eapply IHb|by eapply IHn].
Qed.
End drain.

(** ** The property *)

(** C5: the recovery ends.  In every run of a client, the storage servers of its shard and the
    ordering server, whatever fails, a client of the shard that is suspected is never given up:
    its FREEZE, the request for its data, or the answer of some replica to one of them is on the
    way.  And if from there on only messages between the ordering server and the replicas are
    delivered, in whatever order, then this ends after finitely many deliveries, and when none is
    possible any more no client of the shard is suspected, unless the next message at some replica
    is a FREEZE of a client that has not reached this replica, for which its control thread waits,
    or a patch that it does not survive. *)
Theorem recovery_ends client_id shard_id failures estimate connect client_threads u sv o es K :
  0 <= failures -> start_ok shard_id client_threads connect sv o -> dom sv <> ∅ ->
  let K0 := cluster_init shard_id u sv o in
  cluster_events_ok client_id shard_id failures estimate connect es K0 ->
  cluster_run client_id shard_id failures estimate connect es K0 = Some K ->
  (forall c st, client_state_ (cl_order K) !! c = Some st -> o_shard_id st = shard_id -> o_failed st = true ->
     exists rid w, cl_wires K !! rid = Some w /\ awaited c (o_requested st) w) /\
  let next := delivers client_id shard_id failures estimate connect in
  sn next K /\ forall K', rtc next K K' -> nf next K' -> recovered shard_id K' \/ blocked K'.
Proof.
  intros Hf Hst Hne K0 He E. pose proof (start_cluster_ok client_id _ _ _ _ _ u Hst) as H0. destruct Hst as [Ho Hsid Hc Hconn Hdom Hinit].
  assert (dom (cl_wires K0) <> ∅) as Hne0.
  { unfold K0. rewrite (co_wired _ _ _ _ _ H0), <- (co_servers _ _ _ _ _ H0). unfold cluster_init. cbn [cl_system]. by rewrite servers_init. }
  pose proof (cluster_run_ok client_id shard_id failures estimate connect Hf _ client_threads Hconn es K0 K H0 He E) as H.
  assert (draining client_id shard_id connect (storage_addresses_ o) K) as Hdr.
  { split; [done| | |].
    - refine (sound_run _ _ _ _ _ Hf Hsid _ client_threads Hconn es K0 K _ H0 He E). apply sound_init; [done|done|].
      intros rid s Hrid. destruct (Hinit _ _ Hrid) as (st & sd & ?). eauto.
    - by rewrite (co_wired _ _ _ _ _ H), <- (co_wired _ _ _ _ _ H0).
    - refine (live_run _ _ _ _ _ Hf _ client_threads Hconn es K0 K H0 Hne0 He E _). intros c st Hl. cbn [K0 cluster_init cl_order] in Hl.
      by rewrite Hc, lookup_empty in Hl. }
  split; [intros c st; apply (live_awaited client_id shard_id connect (storage_addresses_ o) K); [done|apply Hdr]|].
  intros next. split; [by apply (deliveries_end _ _ _ _ _ Hf Hsid _ client_threads Hconn)|].
  intros K' Hr Hnf. destruct (draining_rtc _ _ _ _ _ Hf Hsid _ client_threads Hconn _ _ Hdr Hr) as [H1 H2 _ H3].
  by apply (delivered_all client_id shard_id failures estimate connect (storage_addresses_ o)).
Qed.

(** Client 3 is suspected and one of two replicas has not been told to freeze it yet. *)
Lemma recovery_ends_witness :
  (exists st, client_state_ (cl_order example_middle) !! 3 = Some st /\ o_failed st = true) /\
  (forall c st, client_state_ (cl_order example_middle) !! c = Some st -> o_shard_id st = 0 -> o_failed st = true ->
     exists rid w, cl_wires example_middle !! rid = Some w /\ awaited c (o_requested st) w) /\
  let next := delivers 3 0 1 None example_reach in
  sn next example_middle /\ forall K', rtc next example_middle K' -> nf next K' -> recovered 0 K' \/ blocked K'.
Proof.
  split; [eexists; split; vm_compute; reflexivity|].
  apply (recovery_ends 3 0 1 None example_reach 1 0 example_servers example_connected example_begin example_middle).
  - discriminate.
  - exact example_start_ok.
  - intros Hd. apply (f_equal (fun X : gset Z => bool_decide (0 ∈ X))) in Hd. vm_compute in Hd. discriminate Hd.
  - refine (bool_decide_unpack _ _). vm_compute. exact I.
  - apply example_outcome_some. refine (bool_decide_unpack _ _). vm_compute. exact I.
Defined.
