(* ===== verification/ClusterServe.v ===== *)
(** * A replica serves the requests of the client

    The slots that the client has been told of are those it owns in the shard: what it has consumed,
    what it may still consume and what is on the way to it never exceed its slots in the log of a
    replica and in the epochs on the way there.  A replica that has taken all epochs on the way to it
    therefore has the slots that a request closes. *)
From S2P Require Import Prelude Consts Util Api StorageLog Interleave LogInv StorageLogSpec Storage StorageSpec Order OrderSpec EpochSpec RecoverySpec ControlSpec Client ClientSpec System SystemSpec Cluster ClusterInv ClusterSpec ClusterLive ClusterSound.

#[local] Opaque NUM_ENTRIES_PER_BLOCK NUM_SHARDS.

(** ** What a client consumes *)

Section client.
Variables client_id shard_id failures : Z.
Variable estimate : option pid.
Variable connect : sockaddr_in -> option (message * Z).
Hypothesis failures_nonneg : 0 <= failures.

(** The slots of the requests that were sent. *)
Definition used (sent : list (option Z * storage_insert)) : Z := zsum ((fun x => ins_num_slots x.2) <$> sent).

Definition uses (new : list (option Z * storage_insert)) (c c' : client) : Prop :=
  consumed (c_slots c') = consumed (c_slots c) + used new /\ Forall (fun x => 1 <= ins_num_slots x.2) new.

Lemma uses_nothing c c' : consumed (c_slots c') = consumed (c_slots c) -> uses [] c c'.
Proof. intros H. split; [unfold used; simpl; lia|constructor]. Qed.

Lemma sends_uses now l c l' c' out : sends failures now l c l' c' out -> uses (new_of c c' out) c c'.
Proof.
  intros [c1 _ Hs _ Ha _ _|l1 c1 response ins _ (_ & Hsz & Hn) _ _ _ Ha _ Hns]; unfold new_of; rewrite Ha.
  - rewrite drop_all. apply uses_nothing. by rewrite Hs.
  - cbn [outstandings fst snd] in *. rewrite drop_app_length. assert (queues (c_conn c) <> ∅) as Hne.
    { intros He. rewrite He, size_empty in Hsz. simpl in Hsz. lia. }
    destruct (requests_broadcast (c_conn c) ins Hne) as [rest ->]. simpl. unfold uses, used. simpl. rewrite Hns.
    destruct rest; (split; [simpl; lia|apply Forall_singleton; simpl; lia]).
Qed.

Lemma before_recv_uses t filled l stop now c c' out :
  client_ok t filled l c -> 0 <= t <= now -> now < I64 -> num_enqueued_ (requests_ c) < W64 ->
  before_recv client_id failures estimate stop now c = Ok (c', out) -> uses (new_of c c' out) c c'.
Proof.
  intros [Hs Hq Hr Hm Hfl] Ht Hn Hb. unfold before_recv. destruct (check_stop_requests client_id stop (c_conn c)) as [H1 _].
  destruct (check_stop client_id stop (c_conn c)) as [k out1]. cbn [fst snd] in *.
  pose proof (switch_epoch_ok client_id estimate t now (c_slots c) (c_rates c) Hs Ht) as Hsw. intros H. inv_result. rewrite E in Hsw.
  destruct Hsw as (Hs' & Hc & _ & _). cbn [fst snd] in *. apply switch_epoch_requests in E.
  destruct (send_requests_ok client_id failures now now filled l (Client k s r (c_acks c) (c_memory c) (requests_ c)))
    as (c1 & out3 & l' & E2 & _ & Hsend & _); [by split|lia|done|done|].
  rewrite E0 in E2. injection E2 as -> ->. apply sends_uses in Hsend. unfold uses, new_of in *. cbn [c_acks c_slots] in *.
  rewrite !requests_app, H1, E. cbn [app]. by rewrite <- Hc.
Qed.

Lemma recv_batch_consumed ms c out c' out' :
  mfold (fun m '(c, out) => '(c, o) ← Client.client_recv client_id shard_id failures connect m c; Ok (c, out ++ o)) ms (c, out) = Ok (c', out') ->
  consumed (c_slots c') = consumed (c_slots c).
Proof.
  revert c out. induction ms as [|m ms IH]; intros c out H; cbn [mfold] in H; [by injection H as <- _|].
  inv_result. rewrite (IH _ _ H). destruct m; cbn [Client.client_recv] in E0; try (by injection E0 as <- _).
  - destruct (on_storage_finished _ _ _ _) as [k o]. by injection E0 as <- _.
  - destruct (on_client_insert_ack _ _ _ _) as [a mem]. by injection E0 as <- _.
  - by inv_result.
Qed.

Hypothesis connect_threads : ClientSpec.connect_ok connect.

Lemma step_serves t filled l e es c c' out :
  0 <= t -> client_ok t filled l c -> ClientSpec.events_ok t filled (e :: es) ->
  assigned (c_slots c) + granted (received e c) < W64 -> num_enqueued_ (requests_ c) + 1 < W64 ->
  step client_id shard_id failures estimate connect e c = Ok (c', out) ->
  exists t' filled' l', 0 <= t' /\ client_ok t' filled' l' c' /\ ClientSpec.events_ok t' filled' es /\
    uses (new_sent client_id failures estimate e c) c c' /\
    assigned (c_slots c') <= assigned (c_slots c) + granted (received e c) /\
    num_enqueued_ (requests_ c') <= num_enqueued_ (requests_ c) + 1.
Proof.
  intros Ht Hok Hes Hg Hn E.
  assert (forall e, granted_by e = granted (received e c) ->
    events_ok t filled (e :: es) -> step client_id shard_id failures estimate connect e c = Ok (c', out) ->
    uses (new_sent client_id failures estimate e c) c c' -> assigned (c_slots c) + granted (received e c) < W64 ->
    exists t' filled' l', 0 <= t' /\ client_ok t' filled' l' c' /\ events_ok t' filled' es /\
      uses (new_sent client_id failures estimate e c) c c' /\
      assigned (c_slots c') <= assigned (c_slots c) + granted (received e c) /\
      num_enqueued_ (requests_ c') <= num_enqueued_ (requests_ c) + 1) as Hgen.
  { clear E Hes Hg e. intros e Hby Hes E Hu Hg. assert (0 <= inserted_by e <= 1) as Hi by (destruct e; simpl; lia).
    pose proof (step_ok client_id shard_id failures estimate connect t filled l e es c connect_threads Ht Hok Hes ltac:(lia) ltac:(lia)) as H.
    rewrite E in H. destruct H as (t' & filled' & l' & sent & ? & ? & ? & _ & _ & _ & ? & ?). exists t', filled', l'. cbn [fst snd] in *.
    split_and!; try done; lia. }
  destruct e as [request b|request response|stop now ms].
  - apply Hgen; try done. cbn [step] in E. injection E as <- _. by apply uses_nothing.
  - apply Hgen; try done. cbn [step] in E. unfold Client.insert in E. inv_result. by apply uses_nothing.
  - destruct (ended (c_conn c)) eqn:He.
    + destruct Hes as (Hnow & _ & Hes). cbn [step received new_sent] in *. rewrite He in *. injection E as <- _.
      exists now, filled, l. destruct Hok as [Hs ? ? ? ?].
      split_and!; [lia|split; [apply (slots_ok_mono t); [done|lia]|done..]|done|by apply uses_nothing|unfold granted; simpl; lia|lia].
    + apply Hgen; try done; [cbn [granted_by received]; by rewrite He|]. cbn [step new_sent] in *. rewrite He in *.
      unfold round, recv_batch in E. inv_result. destruct Hes as ([? ?] & _).
      pose proof (before_recv_uses t filled l stop now c c0 l0 Hok ltac:(lia) ltac:(lia) ltac:(lia) E0) as [Hu Hp].
      apply recv_batch_consumed in E1 as Hc. rewrite E0. split; [by rewrite Hc, Hu|done].
Qed.
End client.

(** ** What the client owns and what it is told of *)

(** The number of slots of client [c]. *)
Definition owned (c : Z) (sl : list (Z * Z)) : Z := Z.of_nat (length (filter (fun x => x.1 = c) sl)).

Lemma owned_app c l1 l2 : owned c (l1 ++ l2) = owned c l1 + owned c l2.
Proof. unfold owned. rewrite filter_app, length_app. lia. Qed.

Lemma owned_nonneg c sl : 0 <= owned c sl.
Proof. unfold owned. lia. Qed.

Lemma owned_length c sl : owned c sl <= Z.of_nat (length sl).
Proof. unfold owned. pose proof (length_filter (fun x : Z * Z => x.1 = c) sl). lia. Qed.

Lemma owned_positions c sl : owned c sl = Z.of_nat (length (positions c sl)).
Proof.
  induction sl as [|[c' g] sl IH] using rev_ind; [done|]. rewrite owned_app, IH, positions_snoc, length_app.
  unfold owned. rewrite filter_cons. simpl. destruct (decide (c' = c)); simpl; lia.
Qed.

(** The slots of consecutive epochs end below the next GSN. *)
Lemma slots_of_epochs_length base ms : epochs_from base ms -> Z.of_nat (length (slots_of_epochs ms)) <= epochs_end base ms - base.
Proof.
  revert base. induction ms as [|m ms IH]; intros base H; [unfold epochs_end; simpl; lia|].
  rewrite slots_of_epochs_cons, length_app, epochs_end_cons. pose proof (new_slots_length base m ms H).
  destruct H as (_ & _ & _ & _ & _ & _ & _ & H). apply IH in H. lia.
Qed.

Lemma in_step_total g s ms sl base c : in_step g s ms sl base -> owned c (sl ++ slots_of_epochs ms) <= g.
Proof.
  intros [_ He Hb _ Hl <-]. pose proof (owned_length c (sl ++ slots_of_epochs ms)) as Ho. rewrite length_app in Ho.
  pose proof (slots_of_epochs_length base ms He). lia.
Qed.

(** The log that a server's state stands for. *)
Lemma server_log_unique s sl sl' : server_ok s sl -> server_ok s sl' -> sl = sl'.
Proof.
  intros H H'. assert (length sl = length sl') as Hl by (pose proof (so_num _ _ H); pose proof (so_num _ _ H'); lia).
  apply list_eq. intros i. destruct (sl !! i) as [[c g]|] eqn:Hi.
  - destruct (lookup_lt_is_Some_2 sl' i) as [[c' g'] Hi']; [rewrite <- Hl; by eapply lookup_lt_Some|]. rewrite Hi'.
    destruct (rep_some _ _ (so_rep _ _ H) _ _ _ Hi) as (_ & <- & <-). by destruct (rep_some _ _ (so_rep _ _ H') _ _ _ Hi') as (_ & <- & <-).
  - symmetry. apply lookup_ge_None. rewrite <- Hl. by apply lookup_ge_None.
Qed.

Lemma granted_app l1 l2 : granted (l1 ++ l2) = granted l1 + granted l2.
Proof. unfold granted. by rewrite fmap_app, zsum_app. Qed.

Lemma granted_none ms : Forall (fun m => ClientSpec.new_slots m = 0) ms -> granted ms = 0.
Proof. unfold granted. induction 1 as [|m ms Hm _ IH]; [done|]. rewrite zsum_fmap_cons. lia. Qed.

(** What a client is told in an epoch round. *)
Lemma granted_epoch now o c :
  granted (told c (epoch_news now o ++ (seqZ 0 NUM_SHARDS ≫= fun sid => to_storage o sid (MStorageSlots (epoch_message o sid))))) =
  match client_state_ o !! c with Some st => if o_failed st then 0 else o_num_slots st | None => 0 end.
Proof.
  assert (forall o1 o2, told c (o1 ++ o2) = told c o1 ++ told c o2) as Happ by (intros; apply omap_app).
  rewrite Happ, granted_app. rewrite (granted_none (told c (_ ≫= _))).
  2:{ apply Forall_forall. intros m Hm. unfold told in Hm. apply list_elem_of_omap in Hm as ([d m'] & Hin & Hd).
      apply list_elem_of_bind in Hin as (sid & Hin & _). by apply list_elem_of_fmap in Hin as (r & [= -> ->] & _). }
  rewrite Z.add_0_r. unfold epoch_news. rewrite <- (list_to_map_to_list (client_state_ o)) at 2.
  pose proof (NoDup_fst_map_to_list (client_state_ o)) as Hnd. revert Hnd. generalize (map_to_list (client_state_ o)).
  intros l. induction l as [|[c0 st] l IH]; intros Hnd; [by rewrite list_to_map_nil, lookup_empty|].
  cbn [fmap list_fmap fst] in Hnd. apply NoDup_cons in Hnd as [Hc0 Hnd]. specialize (IH Hnd).
  rewrite bind_cons, Happ, granted_app, IH, list_to_map_cons. destruct (decide (c0 = c)) as [->|Hne].
  - rewrite lookup_insert_eq, (not_elem_of_list_to_map_1 l c Hc0).
    destruct (o_failed st); [done|]. cbn [told omap list_omap fst snd]. rewrite Z.eqb_refl. unfold granted. simpl. lia.
  - rewrite lookup_insert_ne by done. destruct (o_failed st); [unfold granted; simpl; lia|]. cbn [told omap list_omap fst snd].
    rewrite (proj2 (Z.eqb_neq _ _) Hne). unfold granted. simpl. lia.
Qed.

(** An event of the ordering server tells the client of no more slots than its replicas are sent. *)
Lemma order_grants e o o' out c sid rid :
  order_ok o -> OrderSpec.event_ok o e -> Order.handle e o = Ok (o', out) -> 0 <= sid < NUM_SHARDS -> rid ∈ replicas o sid ->
  (forall st, client_state_ o !! c = Some st -> o_shard_id st = sid) ->
  granted (told c out) <= owned c (slots_of_epochs (slots_sent sid rid out)).
Proof.
  intros H Hok E Hsid Hr Hc. destruct (starts_epoch e o) eqn:Hs.
  - destruct (handle_epoch _ _ _ _ H Hok E Hs) as (now & _ & _ & _ & ->). rewrite granted_epoch, slots_sent_epoch by done.
    rewrite slots_of_epochs_cons, owned_app. pose proof (owned_nonneg c (slots_of_epochs [])).
    pose proof (owned_nonneg c (StorageSpec.new_slots (epoch_event (epoch_message o sid)))).
    destruct (client_state_ o !! c) as [st|] eqn:Hst; [|lia]. destruct (o_failed st) eqn:Hf; [lia|].
    rewrite <- (Hc st eq_refl) in *. rewrite <- (epoch_client_slots o c st H Hst Hf). unfold owned in *. lia.
  - rewrite (granted_none (told c out)); [apply owned_nonneg|]. apply Forall_forall. intros m Hm.
    pose proof (handle_justified _ H _ _ _ Hok E) as Hj. rewrite Forall_forall in Hj. apply told_elem, Hj in Hm.
    destruct m; try done. cbn [justified] in Hm. congruence.
Qed.

Lemma told_nonneg e o o' out c :
  order_ok o -> OrderSpec.event_ok o e -> Order.handle e o = Ok (o', out) -> Forall (fun m => 0 <= ClientSpec.new_slots m) (told c out).
Proof.
  intros H Hok E. apply Forall_forall. intros m Hm. apply told_elem in Hm. destruct m; try done.
  pose proof (handle_justified _ H _ _ _ Hok E) as Hj. rewrite Forall_forall in Hj. pose proof (Hj _ Hm) as Hs. cbn [justified] in Hs.
  destruct (handle_epoch _ _ _ _ H Hok E Hs) as (now & _ & _ & _ & ->). apply elem_of_app in Hm as [Hm|Hm].
  - unfold epoch_news in Hm. apply list_elem_of_bind in Hm as ([c' st] & Hm & Hin). destruct (o_failed st); [by apply elem_of_nil in Hm|].
    apply list_elem_of_singleton in Hm as [= _ ->]. apply elem_of_map_to_list in Hin. cbn. by apply (ok_clients _ H) in Hin as [_ _ [? _] _ _ _].
  - apply list_elem_of_bind in Hm as (sid & Hm & _). by apply list_elem_of_fmap in Hm as (r & [=] & _).
Qed.

(** Taking messages from the queue takes the slots they tell of. *)
Lemma take_messages_granted sid ms q q' :
  take_messages sid ms q = Some q' -> granted q.1 = granted ms + granted q'.1 /\ forall m, m ∈ q'.1 -> m ∈ q.1.
Proof.
  revert q. induction ms as [|m ms IH]; intros q E; cbn [take_messages] in E; [injection E as <-; split; [unfold granted; simpl; lia|done]|].
  destruct (take_message sid m q) as [q1|] eqn:Eq; [|done]. destruct (IH _ E) as [Hg Hin]. clear E IH.
  change (granted (m :: ms)) with (ClientSpec.new_slots m + granted ms).
  enough (granted q.1 = ClientSpec.new_slots m + granted q1.1 /\ forall m, m ∈ q1.1 -> m ∈ q.1) as [Hq Hi] by (split; [lia|auto]).
  destruct m; cbn [take_message ClientSpec.new_slots] in *; try (injection Eq as <-; split; [lia|done]);
    try (destruct q.1 as [|m' rest]; [done|]; case_decide; [|done]; injection Eq as <-; subst; split; [done|intros m' Hm'; by constructor]).
  destruct (_ =? _); [|injection Eq as <-; split; [lia|done]]. destruct (q.2 !! _) as [w|]; [|done]. cbn [mbind option_bind] in Eq.
  destruct (wi_byes w); [done|]. injection Eq as <-. cbn [fst]. split; [lia|done].
Qed.

(** ** The invariant *)

Definition client_events (es : list cluster_event) : list Client.event :=
  omap (fun e => match e with ClientActs e => Some e | _ => None end) es.

Section serving.
Variables client_id shard_id failures : Z.
Variable estimate : option pid.
Variable connect : sockaddr_in -> option (message * Z).
Hypothesis failures_nonneg : 0 <= failures.
Hypothesis shard_known : 0 <= shard_id < NUM_SHARDS.
Hypothesis connect_threads : ClientSpec.connect_ok connect.
Variable A : gmap Z (gmap Z sockaddr_in).
Variable client_threads : Z.
Hypothesis A_connects : forall rid a, default ∅ (A !! shard_id) !! rid = Some a ->
  exists port, let intro := MStorageIntro (StorageIntro shard_id rid client_threads port) in
    connect a = Some (intro, message_length intro).

Abbreviation cluster_ok := (ClusterInv.cluster_ok client_id shard_id connect A).
Abbreviation order_event := (Cluster.order_event client_id shard_id).
Abbreviation sound := (ClusterSound.sound shard_id).

(** The slots that the client has been told of and is being told of are in the replica's log or
    on the way to it. *)
Definition covered (g due : Z) (ln : link) : Prop :=
  exists sl base, in_step g (ln_server ln) (ln_epochs ln) sl base /\ due <= owned client_id (sl ++ slots_of_epochs (ln_epochs ln)).

Definition due (K : cluster) : Z := assigned (c_slots (sy_client (cl_system K))) + granted (cl_to_client K).

Lemma due_same K K' : sy_client (cl_system K') = sy_client (cl_system K) -> cl_to_client K' = cl_to_client K -> due K' = due K.
Proof. unfold due. by intros -> ->. Qed.

Record accounted (K : cluster) : Prop := {
  ac_used : consumed (c_slots (sy_client (cl_system K))) = used (sy_sent (cl_system K));
  ac_positive : Forall (fun x => 1 <= ins_num_slots x.2) (sy_sent (cl_system K));
  ac_told : Forall (fun m => 0 <= ClientSpec.new_slots m) (cl_to_client K);
  ac_shard st : client_state_ (cl_order K) !! client_id = Some st -> o_shard_id st = shard_id;
  ac_covered rid ln : sy_links (cl_system K) !! rid = Some ln -> covered (gsn_base_ (cl_order K)) (due K) ln }.

Lemma accounted_order e K oe K1 K' :
  accounted K -> cluster_ok K -> order_event e K = Some (oe, K1) -> OrderSpec.event_ok (cl_order K1) oe ->
  order_round client_id shard_id oe K1 = Some K' ->
  accounted K' /\ sy_client (cl_system K') = sy_client (cl_system K).
Proof.
  intros [H1 H2 H2' H3 H4] H Eo Hok E. destruct (order_event_ok _ _ _ _ _ _ _ _ H Eo) as (HK1 & Ho & Hsy & _ & Hi).
  assert (cl_to_client K1 = cl_to_client K) as Hq.
  { destruct e as [e|n a| |rid| | |]; cbn [Cluster.order_event] in Eo; try done.
    - destruct (outside _ _ e); [|done]. by injection Eo as <- <-.
    - destruct (cl_introduced K); [done|]. by injection Eo as <- <-.
    - destruct (cl_to_order K); [done|]. by injection Eo as <- <-.
    - destruct (cl_wires K !! rid) as [w|]; [|done]. cbn [mbind option_bind] in Eo. destruct (wi_replies w); [done|]. by injection Eo as <- <-. }
  unfold order_round in E. destruct (Order.handle oe (cl_order K1)) as [[o out]|] eqn:Eh; [|done]. injection E as <-.
  rewrite Ho, Hsy, Hq in *. split; [|done]. split; cbn [cl_order cl_system cl_to_client post_epochs sy_client sy_sent sy_links]; [done|done|..].
  - apply Forall_app_2; [done|]. by eapply told_nonneg; [apply (co_order _ _ _ _ _ H)|..].
  - intros st' Hst'. destruct (handle_advances _ _ _ _ Eh _ _ Hst') as [intro a -> Hid <- _ _ _ _ _|st Hc [-> _ _ _ _] _ _|st Hc _ _ -> _ _ _ _ _|st cut Hc _ _ _ _ _ _ -> _ _ _ _|st data Hc _ _ _ _ _ _ -> _ _ _ _];
      [by apply Hi|by apply H3..].
  - intros rid ln' Hln'. rewrite map_lookup_imap in Hln'. destruct (sy_links (cl_system K) !! rid) as [ln|] eqn:Hln; [|done]. injection Hln' as <-.
    destruct (H4 _ _ Hln) as (sl & base & Hst & Hdue).
    assert (rid ∈ replicas (cl_order K) shard_id) as Hr.
    { apply (replicas_R client_id shard_id connect A K rid H). rewrite <- (co_servers _ _ _ _ _ H). unfold servers.
      apply elem_of_dom. rewrite lookup_fmap, Hln. by eexists. }
    destruct (handle_epochs _ _ _ _ _ _ (co_order _ _ _ _ _ H) Hok Eh shard_known Hr) as [Hf He].
    pose proof (order_grants _ _ _ _ client_id _ _ (co_order _ _ _ _ _ H) Hok Eh shard_known Hr H3) as Hgr.
    exists sl, base. cbn [ln_server ln_epochs]. split; [by eapply in_step_more|].
    unfold due in *. cbn [cl_system cl_to_client sy_client].
    assert (slots_of_epochs (ln_epochs ln ++ slots_sent shard_id rid out) = slots_of_epochs (ln_epochs ln) ++ slots_of_epochs (slots_sent shard_id rid out)) as ->
      by (unfold slots_of_epochs; by rewrite fmap_app, bind_app).
    rewrite granted_app, app_assoc, (owned_app _ (sl ++ _)). cbn [post_epochs sy_client]. lia.
Qed.

Lemma accounted_server e K rid se K1 K' :
  accounted K -> sound K -> cluster_ok K -> cluster_event_ok client_id shard_id e K ->
  (if e is ReplicaFromOrder _ _ then True else if e is ReplicaActs _ _ then True else False) ->
  server_event e K = Some (rid, se, K1) -> server_round client_id rid se K1 = Some K' ->
  accounted K' /\ sy_client (cl_system K') = sy_client (cl_system K).
Proof.
  intros [H1 H2 H2' H3 H4] Hs Hok He Hk Ev Er. destruct (server_event_sound _ _ _ _ _ _ _ _ _ Hs Hok He Hk Ev) as (Hw & Ho & Hsy & _).
  assert (cl_to_client K1 = cl_to_client K) as Hq.
  { destruct e as [| | | |r stale| |r e]; try done; cbn [server_event] in Ev.
    - destruct (cl_wires K !! r) as [w|]; [|done]. cbn [mbind option_bind] in Ev. destruct (wi_control w); [done|]. by injection Ev as _ _ <-.
    - destruct e as [? m| | | |]; [destruct (by_order m); [done|]|..]; by injection Ev as _ _ <-. }
  destruct (server_round_inv _ _ _ _ _ Er) as (ln & w1 & s & out & x & Hln & _ & Eh & Es & ->). rewrite Hsy in *.
  unfold server_step in Es. rewrite Hln in Es. cbn [mbind option_bind] in Es.
  destruct (take_event client_id se ln) as [ln1|] eqn:Ht; [|done]. cbn [mbind option_bind] in Es.
  rewrite (take_event_server _ _ _ _ Ht), Eh in Es. injection Es as <-. split; [|done].
  split; cbn [cl_order cl_system cl_to_client sy_client sy_sent sy_links]; rewrite ?Ho, ?Hq; [done..|].
  match goal with |- context [due ?K'] => assert (due K' = due K) as -> by (by apply due_same) end.
  intros r ln' [[<- <-]|[_ Hln']]%lookup_insert_Some; [|by eapply H4].
  destruct (H4 _ _ Hln) as (sl & base & Hst & Hdue).
  destruct (in_step_handle _ _ _ _ _ _ _ _ _ Hst Hw (take_event_epochs _ _ _ _ Ht) Eh) as (sl' & base' & Hst' & Heq).
  exists sl', base'. cbn [ln_server ln_epochs]. split; [done|]. by rewrite Heq.
Qed.

Lemma accounted_init u sv o :
  order_ok o -> client_state_ o = ∅ -> (forall rid s, sv !! rid = Some s -> exists ct st sd, storage_init shard_id rid ct st sd = Ok s) ->
  accounted (cluster_init shard_id u sv o).
Proof.
  intros Ho Hc Hsv. split; cbn [cluster_init cl_system cl_order cl_to_client sys_init sy_client sy_sent sy_links]; [done|constructor|constructor|..].
  - intros st Hst. by rewrite Hc, lookup_empty in Hst.
  - intros rid ln Hln. rewrite map_lookup_imap in Hln. destruct (sv !! rid) as [s|] eqn:Hs; [|done]. injection Hln as <-.
    destruct (Hsv _ _ Hs) as (ct & st & sd & Hi). exists [], (gsn_base_ o). pose proof (ok_gsn _ Ho).
    split; [|done]. split; [by eapply server_ok_init|done|lia|constructor|simpl; lia|unfold epochs_end; simpl; lia].
Qed.

Lemma granted_weak ms : Forall (fun m => 0 <= ClientSpec.new_slots m) ms -> 0 <= granted ms.
Proof. intros H. by apply zsum_nonneg, Forall_fmap. Qed.

Lemma accounted_client e es K K' t filled l :
  accounted K -> cluster_ok K -> R shard_id A <> ∅ -> 0 <= t -> client_ok t filled l (sy_client (cl_system K)) ->
  ClientSpec.events_ok t filled (e :: es) -> num_enqueued_ (requests_ (sy_client (cl_system K))) + 1 < W64 ->
  client_round client_id shard_id failures estimate connect e K = Some K' ->
  accounted K' /\ exists t' filled' l', 0 <= t' /\ client_ok t' filled' l' (sy_client (cl_system K')) /\ ClientSpec.events_ok t' filled' es /\
    num_enqueued_ (requests_ (sy_client (cl_system K'))) <= num_enqueued_ (requests_ (sy_client (cl_system K))) + 1.
Proof.
  intros [H1 H2 H2' H3 H4] H Hne Ht Hok Hes Hn E. unfold client_round in E.
  destruct (client_step _ _ _ _ _ _ _) as [x|] eqn:Ex; [|done]. cbn [mbind option_bind] in E.
  destruct (take_messages _ _ _) as [q|] eqn:Et; [|done]. cbn [mbind option_bind] in E.
  destruct (step _ _ _ _ _ _ _) as [[c' out]|] eqn:Es; [|done]. injection E as <-. pose proof (client_step_links _ _ _ _ _ _ _ _ Ex) as Hlinks.
  destruct (take_messages_granted _ _ _ _ Et) as [Hg Hin]. cbn [fst] in Hg, Hin.
  assert (Forall (fun m => 0 <= ClientSpec.new_slots m) q.1) as Hq by (rewrite Forall_forall in H2' |- *; eauto).
  apply granted_weak in Hq as Hq0.
  assert (due K < W64) as Hb.
  { apply set_choose_L in Hne as [rid Hrid]. rewrite <- (co_servers _ _ _ _ _ H) in Hrid. unfold servers in Hrid. rewrite dom_fmap_L in Hrid.
    apply elem_of_dom in Hrid as [ln Hln]. destruct (H4 _ _ Hln) as (sl & base & Hst & Hdue). apply (in_step_total _ _ _ _ _ client_id) in Hst.
    pose proof (ok_gsn _ (co_order _ _ _ _ _ H)). lia. }
  unfold due in Hb. destruct (step_serves client_id shard_id failures estimate connect failures_nonneg connect_threads t filled l e es _ _ _ Ht Hok Hes ltac:(lia) Hn Es)
    as (t' & filled' & l' & Ht' & Hok' & Hes' & [Hu Hp] & Ha & Hn').
  unfold client_step in Ex. rewrite Es in Ex. destruct (collect _ _) as [L|]; [|done]. cbn [mbind option_bind] in Ex. injection Ex as <-.
  split; [|by exists t', filled', l']. split; cbn [cl_order cl_system cl_to_client sy_client sy_sent].
  - rewrite Hu, H1. unfold used. by rewrite fmap_app, zsum_app.
  - by apply Forall_app_2.
  - done.
  - done.
  - intros rid ln' Hln'. cbn [sy_links] in Hlinks.
    assert ((at_server <$> post_all out L) !! rid = Some (at_server ln')) as Hat by (rewrite lookup_fmap; cbn [sy_links] in Hln'; by rewrite Hln').
    rewrite Hlinks, lookup_fmap in Hat. destruct (sy_links (cl_system K) !! rid) as [ln|] eqn:Hln; [|done]. injection Hat as Hs He.
    destruct (H4 _ _ Hln) as (sl & base & Hst & Hdue). exists sl, base. rewrite <- Hs, <- He. split; [done|].
    unfold due in *. cbn [cl_system cl_to_client sy_client]. lia.
Qed.

Definition enqueued (K : cluster) : Z := num_enqueued_ (requests_ (sy_client (cl_system K))).

(** One step of the cluster; what is left of the client's events is [client_events]. *)
Lemma accounted_step e es K K' t filled l :
  accounted K -> sound K -> cluster_ok K -> R shard_id A <> ∅ -> 0 <= t -> client_ok t filled l (sy_client (cl_system K)) ->
  ClientSpec.events_ok t filled (client_events (e :: es)) -> enqueued K + 1 < W64 -> cluster_event_ok client_id shard_id e K ->
  cluster_step client_id shard_id failures estimate connect e K = Some K' ->
  accounted K' /\ exists t' filled' l', 0 <= t' /\ client_ok t' filled' l' (sy_client (cl_system K')) /\
    ClientSpec.events_ok t' filled' (client_events es) /\ enqueued K' <= enqueued K + 1.
Proof.
  intros Ha Hs H Hne Ht Hok Hes Hn He E.
  assert (accounted K' /\ sy_client (cl_system K') = sy_client (cl_system K) -> client_events (e :: es) = client_events es ->
    accounted K' /\ exists t' filled' l', 0 <= t' /\ client_ok t' filled' l' (sy_client (cl_system K')) /\
    ClientSpec.events_ok t' filled' (client_events es) /\ enqueued K' <= enqueued K + 1) as Hother.
  { intros [? Hc] Hev. split; [done|]. exists t, filled, l. unfold enqueued. rewrite Hc, <- Hev. split_and!; [done|done|done|lia]. }
  assert (forall e', (if e' is ReplicaFromOrder _ _ then True else if e' is ReplicaActs _ _ then True else False) ->
    cluster_event_ok client_id shard_id e' K -> ('(rid, se, K1) ← server_event e' K; server_round client_id rid se K1) = Some K' ->
    accounted K' /\ sy_client (cl_system K') = sy_client (cl_system K)) as Hserver.
  { intros e' Hk He'. destruct (server_event e' K) as [[[r se] K1]|] eqn:Ev; [|done]. cbn [mbind option_bind]. intros Er. by apply (accounted_server e' K r se K1). }
  destruct e as [oe0|n a| |rid|rid stale|ce|rid se]; cbn [cluster_step] in E.
  1-4: cbn [cluster_event_ok] in He; apply Hother; [|done]; destruct (order_event _ K) as [[oe K1]|] eqn:Eo; [|done]; cbn [mbind option_bind] in E; by eapply accounted_order.
  2: by eapply accounted_client.
  - apply Hother; [|done]. by apply (Hserver (ReplicaFromOrder rid stale)).
  - apply Hother; [|done]. by apply (Hserver (ReplicaActs rid se)).
Qed.

Lemma accounted_run es K K' t filled l :
  accounted K -> sound K -> cluster_ok K -> R shard_id A <> ∅ -> 0 <= t -> client_ok t filled l (sy_client (cl_system K)) ->
  ClientSpec.events_ok t filled (client_events es) -> enqueued K + Z.of_nat (length es) < W64 ->
  cluster_events_ok client_id shard_id failures estimate connect es K ->
  cluster_run client_id shard_id failures estimate connect es K = Some K' ->
  accounted K' /\ exists t' filled' l', client_ok t' filled' l' (sy_client (cl_system K')).
Proof.
  revert K t filled l. induction es as [|e es IH]; intros K t filled l Ha Hs H Hne Ht Hok Hes Hn He E; cbn [cluster_run cluster_events_ok] in *.
  { injection E as <-. split; [done|]. by exists t, filled, l. }
  destruct He as [He Hrest]. destruct (cluster_step _ _ _ _ _ e K) as [K1|] eqn:Es; [|done]. cbn [mbind option_bind length] in *.
  destruct (accounted_step _ _ _ _ _ _ _ Ha Hs H Hne Ht Hok Hes ltac:(lia) He Es) as (Ha1 & t1 & filled1 & l1 & Ht1 & Hok1 & Hes1 & Hn1).
  assert (sound K1) as Hs1 by exact (sound_step _ _ _ _ _ shard_known A e K K1 Hs H He Es).
  assert (cluster_ok K1) as H1 by by eapply (cluster_step_ok client_id shard_id failures estimate connect failures_nonneg A client_threads A_connects e K).
  apply (IH K1 t1 filled1 l1); try done. lia.
Qed.
End serving.

(** ** The property *)

(** The request at place [h] ends within the slots that are used. *)
Lemma upto_used (H : list (option Z * storage_insert)) h x :
  Forall (fun x => 1 <= ins_num_slots x.2) H -> H !! h = Some x ->
  Z.of_nat (upto (ins_num_slots <$> take h H.*2)) + ins_num_slots x.2 <= used H.
Proof.
  intros HF. revert h. induction HF as [|y H Hy HF IH]; intros h Hx; [done|]. unfold used in *. rewrite zsum_fmap_cons.
  assert (0 <= zsum ((fun x => ins_num_slots x.2) <$> H)) as Hnn.
  { apply zsum_nonneg, Forall_fmap. eapply Forall_impl; [exact HF|]. simpl. lia. }
  destruct h as [|h]; [injection Hx as ->; simpl; lia|]. specialize (IH h Hx).
  cbn [fmap list_fmap take upto foldr] in *. fold (upto (ins_num_slots <$> take h H.*2)). lia.
Qed.

(** A server whose log has the slots that a request closes stores it. *)
Lemma insert_stores stale req s sl n :
  server_ok s sl -> ins_client_id req < MAX_CLIENTS -> s_connected (client_of s (ins_client_id req)) = true ->
  1 <= ins_num_slots req < W64 ->
  (s_disconnected (client_of s (ins_client_id req)) = false ->
     cursor (s_position (client_of s (ins_client_id req))) (ins_client_id req) sl n /\
     Z.of_nat n + ins_num_slots req <= owned (ins_client_id req) sl) ->
  exists s' out, Storage.handle (EClient stale (MStorageInsert req)) s = Ok (s', out) /\
    (s_disconnected (client_of s (ins_client_id req)) = false ->
     exists g, out = [(Storage.ToClient (ins_client_id req), MClientInsertAck (ClientInsertAck (st_replica_id_ s) g))]).
Proof.
  intros H Hc Hconn Hn Hcur. cbn [Storage.handle Storage.client_recv]. unfold on_storage_insert.
  destruct (get_client_state_ok _ s Hc) as (s1 & -> & Hs). cbn [mbind result_bind]. unfold wait_connected. rewrite Hconn. cbn [mbind result_bind].
  destruct (s_disconnected (client_of s (ins_client_id req))); [by eexists _, _|].
  destruct (Hcur eq_refl) as [Hcu Hle]. rewrite owned_positions in Hle.
  destruct (lookup_lt_is_Some_2 (positions (ins_client_id req) sl) (n + Z.to_nat (ins_num_slots req) - 1)) as [k Hk]; [lia|].
  destruct (positions_lookup _ _ _ _ Hk) as [g Hg]. rewrite (proj1 Hs).
  destruct (insert_ok (ins_data req ++ stale) (ins_data_length req) (ins_num_slots req) _ _ (st_log_ s) sl n k g (so_rep _ _ H) Hcu ltac:(lia) Hk Hg)
    as (l1 & -> & _). cbn [mbind result_bind]. eexists _, _. split; [done|]. intros _. exists g. destruct Hs as (_ & _ & _ & -> & _). done.
Qed.

(** C6: requests are served.  In every run of a client whose clock does not go back, the storage
    servers of its shard and the ordering server, whatever fails, a replica that has taken all the
    epochs on the way to it, and that the client has reached, does not fail on the client's next
    request: the log has the slots that the request closes, because the client is told of no more
    slots than it gets, uses no more than it is told of, and the replica handles its requests in
    order.  Unless it has disconnected the client, it acknowledges the request. *)
Theorem requests_served client_id shard_id failures estimate connect client_threads u sv o es K rid ln req rest stale :
  0 <= failures < UINT64_MAX -> start_ok shard_id client_threads connect sv o -> client_id < MAX_CLIENTS -> ClientSpec.connect_ok connect ->
  let K0 := cluster_init shard_id u sv o in
  Z.of_nat (length es) < W64 -> cluster_events_ok client_id shard_id failures estimate connect es K0 ->
  ClientSpec.events_ok 0 ∅ (client_events es) -> cluster_run client_id shard_id failures estimate connect es K0 = Some K ->
  sy_links (cl_system K) !! rid = Some ln -> ln_requests ln = req :: rest -> ln_epochs ln = [] ->
  s_connected (client_of (ln_server ln) client_id) = true ->
  exists s out, Storage.handle (EClient stale (MStorageInsert req)) (ln_server ln) = Ok (s, out) /\
    (s_disconnected (client_of (ln_server ln) client_id) = false ->
     exists g, out = [(Storage.ToClient client_id, MClientInsertAck (ClientInsertAck rid g))]).
Proof.
  intros Hf Hst Hid Hthr K0 Hlen He Hce E Hln Hreq Hep Hconn. pose proof (start_cluster_ok client_id _ _ _ _ _ u Hst) as H0.
  destruct (cluster_system_run _ _ _ _ _ _ _ _ _ _ _ (proj1 Hf) Hst He E) as (oes & out & ses & Ho & Hok & Hs & Hl & Hses & Hrun & Hsv).
  destruct Hst as [Hord Hsid Hc Haddr Hdom Hinit].
  assert (forall rid s, sv !! rid = Some s -> exists ct st sd, storage_init shard_id rid ct st sd = Ok s) as Hinit' by (intros r s Hr; by apply (Hsv r s)).
  pose proof (cluster_run_ok client_id shard_id failures estimate connect (proj1 Hf) _ client_threads Haddr es K0 K H0 He E) as H.
  assert (R shard_id (storage_addresses_ o) <> ∅) as Hne.
  { rewrite <- (co_servers _ _ _ _ _ H). apply (non_empty_inhabited_L rid), elem_of_dom. unfold servers. by rewrite lookup_fmap, Hln. }
  destruct (accounted_run client_id shard_id failures estimate connect (proj1 Hf) Hsid Hthr _ client_threads Haddr es K0 K 0 ∅ [])
    as [[Hu Hp Htold _ Hcov] (t & filled & l & Hcl)]; [by apply accounted_init|by apply sound_init|done|done|done|by apply ClientSpec.init_ok|done|exact Hlen|done|done|].
  destruct (sys_reached client_id shard_id failures estimate connect u oes o (cl_order K, out) sv ses (cl_system K)) as (q & l' & [_ _ _ Hlinks _ _ Hsent]); [done..|lia|done|done|].
  destruct (Hlinks _ _ Hln) as (sl & base & h & a & Hlink). destruct (Hcov _ _ Hln) as (sl' & base' & Hst' & Hdue). rewrite Hep in Hst', Hdue.
  pose proof (lg_server _ _ _ _ _ (lo_log _ _ _ _ _ _ _ _ _ _ _ _ Hlink)) as Hlog.
  assert (sl' = sl) as -> by (eapply server_log_unique; [apply Hst'|exact Hlog]). cbn [slots_of_epochs fmap list_fmap] in Hdue. rewrite app_nil_r in Hdue.
  assert ((sy_sent (cl_system K)).*2 !! h = Some req) as Hh.
  { pose proof (lo_prefix _ _ _ _ _ _ _ _ _ _ _ _ Hlink) as [k Hk]. rewrite Hreq in Hk.
    assert (drop h (sy_sent (cl_system K)).*2 !! 0%nat = Some req) as Hd by (by rewrite Hk). by rewrite lookup_drop, Nat.add_0_r in Hd. }
  rewrite list_lookup_fmap in Hh. destruct (sy_sent (cl_system K) !! h) as [x|] eqn:Hx; [|done]. injection Hh as Hh.
  pose proof (upto_used _ _ _ Hp Hx) as Hle. destruct (Forall_lookup_1 _ _ _ _ Hsent Hx) as (Hcid & _ & Hnum).
  pose proof (Forall_lookup_1 _ _ _ _ Hp Hx) as Hpos. cbn beta in Hpos. rewrite Hh in Hle, Hcid, Hnum, Hpos.
  pose proof (ClientSpec.co_slots _ _ _ _ Hcl) as [_ _ Hch Hcons _]. apply chain_le in Hch.
  apply granted_weak in Htold. unfold due in Hdue. clear Hcov Hlinks. subst client_id.
  destruct (insert_stores stale req (ln_server ln) sl (upto (ins_num_slots <$> take h (sy_sent (cl_system K)).*2)))
    as (s & out' & Eh & Hack); [done|done|done|unfold is_u64 in Hnum; lia| |].
  { intros Hdis. destruct (lo_connected _ _ _ _ _ _ _ _ _ _ _ _ Hlink Hdis) as [_ Hcur]. split; [done|]. lia. }
  exists s, out'. split; [done|]. intros Hdis. destruct (Hack Hdis) as [g ->]. exists g. by rewrite (lo_replica _ _ _ _ _ _ _ _ _ _ _ _ Hlink).
Qed.

(** Replica 1 of the example has the client's request before it, and the epoch. *)
Definition example_before : list cluster_event := take 11 example_begin.

Definition example_waiting : cluster := example_outcome (example_run example_before example_start).

Definition example_link : link :=
  default (Link (StorageSpec.example_server 1) [] [] [] 0) (sy_links (cl_system example_waiting) !! 1).

Lemma example_reach_threads : ClientSpec.connect_ok example_reach.
Proof. intros a intro n [= <- _]. discriminate. Qed.

Lemma example_before_ok : ClientSpec.events_ok 0 ∅ (client_events example_before).
Proof.
  cbn [client_events example_before example_begin take omap list_omap ClientSpec.events_ok]. unfold buffer_ok. change MAX_PAYLOAD with 1992.
  split_and!; try lia; try done; try set_solver; try by repeat constructor.
Qed.

Lemma requests_served_witness :
  ln_requests example_link = [example_request] /\
  exists s out, Storage.handle (EClient [] (MStorageInsert example_request)) (ln_server example_link) = Ok (s, out) /\
    (s_disconnected (client_of (ln_server example_link) 3) = false ->
     exists g, out = [(Storage.ToClient 3, MClientInsertAck (ClientInsertAck 1 g))]).
Proof.
  split; [vm_compute; reflexivity|].
  apply (requests_served 3 0 1 None example_reach 1 0 example_servers example_connected example_before example_waiting 1 example_link example_request []).
  - split; discriminate || reflexivity.
  - exact example_start_ok.
  - reflexivity.
  - exact example_reach_threads.
  - reflexivity.
  - refine (bool_decide_unpack _ _). vm_compute. exact I.
  - exact example_before_ok.
  - apply example_outcome_some. refine (bool_decide_unpack _ _). vm_compute. exact I.
  - vm_compute. reflexivity.
  - vm_compute. reflexivity.
  - vm_compute. reflexivity.
  - vm_compute. reflexivity.
Defined.

(** Without it: the same run, but that replica 1 has not taken the epoch yet.  The request ends
    the server by the assertion of [position::insert]. *)
Definition example_hasty : option cluster := example_run (take 6 example_before ++ drop 7 example_before) example_start.

Lemma request_outruns_epoch :
  exists K ln, example_hasty = Some K /\ sy_links (cl_system K) !! 1 = Some ln /\
    ln_requests ln = [example_request] /\ length (ln_epochs ln) = 1%nat /\
    Storage.handle (EClient [] (MStorageInsert example_request)) (ln_server ln) = Err AssertFailed.
Proof.
  exists (example_outcome example_hasty).
  exists (default (Link (StorageSpec.example_server 1) [] [] [] 0) (sy_links (cl_system (example_outcome example_hasty)) !! 1)).
  split; [apply example_outcome_some; refine (bool_decide_unpack _ _); vm_compute; exact I|].
  split; [vm_compute; reflexivity|]. split; [vm_compute; reflexivity|]. split; vm_compute; reflexivity.
Qed.
