(* ===== verification/Readers.v ===== *)
(** * The shard's subscribers

    The system of [System] together with the subscriber threads of its storage servers
    ([src/storage/storage.cpp]) and any number of subscribers ([src/subscriber/subscriber.cpp]): what the
    storage threads post is on the way until a polling thread receives it, the polling threads
    insert what a quorum has sent into their subscriber's log, and the application threads read
    it. *)
From S2P Require Import Prelude Consts Util Api StorageLog LogInv Storage StorageSpec Order EpochSpec.
From S2P Require Import SubscriberLog Subscriber Client System.

(** A subscriber: what is on the way to it, with the receive queue it will arrive in; its threads;
    and (a history variable) what each application thread has read. *)
Record reader := Reader {
  rd_posted : list (Z * subscriber_log_entry);
  rd_polls : list poll_state;
  rd_log : SubscriberLog.log;
  rd_iterators : list SubscriberLog.iterator;
  rd_read : list (list subscriber_log_entry) }.

(** [rd_threads] by replica and index, [rd_readers] by subscriber. *)
Record readers := Readers {
  rd_system : system;
  rd_threads : gmap (Z * Z) subscriber_thread;
  rd_readers : gmap Z reader }.

(** What happens at a subscriber: a storage server of another shard posts an entry; a polling
    thread receives the [n]-th message on the way; the control thread recycles a block; a round of
    an application thread. *)
Inductive subscriber_event :=
| Foreign (queue : Z) (e : subscriber_log_entry)
| Polls (j n : nat)
| Recycles
| Reads (k : nat).

(** A step of the servers or the client; a round of a storage thread; a step of a subscriber. *)
Inductive reader_event :=
| InSystem (e : sys_event)
| Posts (rid index : Z)
| AtSubscriber (sid : Z) (e : subscriber_event).

(** The entries posted to subscriber [sid]. *)
Definition posted (sid : Z) (out : Storage.outputs) : list (Z * subscriber_log_entry) :=
  omap (fun x => match x with
    | (Storage.ToSubscriber s queue, MSubscriberLogEntry e) => if s =? sid then Some (queue, e) else None
    | _ => None
    end) out.

Definition with_posted (es : list (Z * subscriber_log_entry)) (r : reader) : reader :=
  Reader es (rd_polls r) (rd_log r) (rd_iterators r) (rd_read r).

Definition post_readers (out : Storage.outputs) (R : gmap Z reader) : gmap Z reader :=
  map_imap (fun sid r => Some (with_posted (rd_posted r ++ posted sid out) r)) R.

Section readers.
Variables client_id shard_id failures : Z.
Variable estimate : option pid.
Variable connect : sockaddr_in -> option (message * Z).

(** The [j]-th polling thread has the receive queue [j + 1]; queue 0 is the control thread's. *)
Definition poll_round (j n : nat) (r : reader) : option reader :=
  p ← rd_polls r !! j;
  '(queue, e) ← rd_posted r !! n;
  if queue =? Z.of_nat j + 1 then
    match on_subscriber_log_entry failures e p (rd_log r) with
    | Ok (p, l) => Some (Reader (delete n (rd_posted r)) (<[j := p]> (rd_polls r)) l (rd_iterators r) (rd_read r))
    | Err _ => None
    end
  else None.

Definition recycle_round (r : reader) : option reader :=
  match recycle_blocks (rd_log r) with
  | Ok l => Some (Reader (rd_posted r) (rd_polls r) l (rd_iterators r) (rd_read r))
  | Err _ => None
  end.

Definition read_round (k : nat) (r : reader) : option reader :=
  it ← rd_iterators r !! k;
  read ← rd_read r !! k;
  match process_round it (rd_log r) with
  | Ok (freed, _, it, l) =>
    Some (Reader (rd_posted r) (rd_polls r) l (<[k := it]> (rd_iterators r)) (<[k := read ++ option_list freed]> (rd_read r)))
  | Err _ => None
  end.

Definition subscriber_step (e : subscriber_event) (r : reader) : option reader :=
  match e with
  | Foreign queue e => Some (with_posted (rd_posted r ++ [(queue, e)]) r)
  | Polls j n => poll_round j n r
  | Recycles => recycle_round r
  | Reads k => read_round k r
  end.

Definition post_round (rid index : Z) (r : readers) : option readers :=
  ln ← sy_links (rd_system r) !! rid;
  t ← rd_threads r !! (rid, index);
  match subscriber_round (ln_server ln) t with
  | Ok (t, out) => Some (Readers (rd_system r) (<[(rid, index) := t]> (rd_threads r)) (post_readers out (rd_readers r)))
  | Err _ => None
  end.

Definition reader_step (e : reader_event) (r : readers) : option readers :=
  match e with
  | InSystem e =>
    x ← sys_step client_id shard_id failures estimate connect e (rd_system r);
    Some (Readers x (rd_threads r) (rd_readers r))
  | Posts rid index => post_round rid index r
  | AtSubscriber sid e =>
    s ← rd_readers r !! sid;
    s ← subscriber_step e s;
    Some (Readers (rd_system r) (rd_threads r) (<[sid := s]> (rd_readers r)))
  end.

Fixpoint reader_run (es : list reader_event) (r : readers) : option readers :=
  match es with
  | [] => Some r
  | e :: es => r ← reader_step e r; reader_run es r
  end.

(** All replicas have disconnected the client, after [a] acknowledgements. *)
Definition frozen (a : nat) (x : system) : Prop :=
  map_Forall (fun _ ln => s_disconnected (client_of (ln_server ln) client_id) = true /\ ln_acked ln = a) (sy_links x).

(** The client's log is not patched, and a replica finalizes the client when all replicas have
    disconnected it, after the same number of acknowledgements. *)
Definition orderly (e : sys_event) (x : system) : Prop :=
  match e with
  | AtServer _ (EControl _ (MStorageClientPatch m)) => scp_client_id m <> client_id
  | AtServer rid (EControl _ (MStorageClientFinalize m)) =>
    scfin_client_id m = client_id -> match sy_links x !! rid with Some ln => frozen (ln_acked ln) x | None => True end
  | _ => True
  end.

(** A subscriber introduces itself with the number of its polling threads. *)
Definition introduces (e : sys_event) (r : readers) : Prop :=
  match e with
  | AtServer _ (EAddSubscriber sid n) => forall s, rd_readers r !! sid = Some s -> n = Z.of_nat (length (rd_polls s))
  | _ => True
  end.

Definition reader_event_ok (e : reader_event) (r : readers) : Prop :=
  match e with
  | InSystem e => sys_event_ok client_id e (rd_system r) /\ orderly e (rd_system r) /\ introduces e r
  | AtSubscriber _ (Foreign _ e) => sle_shard_id e <> shard_id /\ 0 <= sle_shard_id e
  | _ => True
  end.

Fixpoint reader_events_ok (es : list reader_event) (r : readers) : Prop :=
  match es with
  | [] => True
  | e :: es => reader_event_ok e r /\ match reader_step e r with Some r => reader_events_ok es r | None => True end
  end.
End readers.

#[export] Instance orderly_dec c e x : Decision (orderly c e x).
Proof.
  destruct e as [e|rid e]; [apply _|]. destruct e as [? []|? []| | |]; cbn [orderly]; try apply _.
  apply impl_dec; [apply _|]. destruct (sy_links x !! rid); unfold frozen; apply _.
Defined.

#[export] Instance introduces_dec e r : Decision (introduces e r).
Proof.
  destruct e as [|? []]; cbn [introduces]; try apply _. destruct (rd_readers r !! _) as [s|].
  - destruct (decide (num_queues = Z.of_nat (length (rd_polls s)))) as [H|H]; [left; by intros ? [= <-]|right; by auto].
  - left. done.
Defined.

#[export] Instance reader_event_ok_dec c sid e r : Decision (reader_event_ok c sid e r).
Proof. destruct e as [| |? []]; apply _. Defined.

#[export] Instance reader_events_ok_dec c shard_id failures estimate connect es r :
  Decision (reader_events_ok c shard_id failures estimate connect es r).
Proof.
  revert r. induction es as [|e es IH]; intros r; cbn [reader_events_ok]; [left; exact I|].
  apply and_dec; [apply _|]. destruct (reader_step _ _ _ _ _ e r); [apply IH|left; exact I].
Defined.

(** The start: [threads] subscriber threads at every server, and subscribers with their numbers of
    polling and application threads and their mode, as far as the constructor accepts them. *)
Definition reader_init (uninitialized : Z) (options : Z * Z * bool) : option reader :=
  let '(polling, application, sequential) := options in
  match subscriber_init uninitialized polling application sequential MOrderIntro (message_length MOrderIntro) with
  | Ok (l, polls, iterators, _) => Some (Reader [] polls l iterators (replicate (length iterators) []))
  | Err _ => None
  end.

Definition readers_init (x : system) (threads : nat) (uninitialized : Z) (subscribers : gmap Z (Z * Z * bool)) : readers :=
  Readers x
    (list_to_map (map_to_list (sy_links x) ≫= fun '(rid, ln) =>
       (fun i => ((rid, Z.of_nat i), subscriber_thread_init (Z.of_nat i) (ln_server ln))) <$> seq 0 threads))
    (omap (reader_init uninitialized) subscribers).
