(* ===== verification/ReadersSpec.v ===== *)
(** * What is read is what was written

    The end-to-end property of the readers: in the composed system, an entry of the client that an
    application thread of a subscriber reads is the payload of the request that has its GSN, the
    same GSN with which the request's response answers the client; the slots the client did
    not use are read as empty entries. *)
From S2P Require Import Prelude Consts Util Api StorageLog Interleave LogInv StorageLogSpec Storage StorageSpec Order OrderSpec EpochSpec.
From S2P Require Import SubscriberLog Subscriber Client ClientSpec ClientAckSpec System SystemSpec Readers.

#[local] Opaque NUM_ENTRIES_PER_BLOCK NUM_SHARDS.

(** ** Handlers that leave a client's slots alone *)

(** The event neither uses nor closes slots of [c]. *)
Definition idle (c : Z) (e : Storage.event) : Prop :=
  match e with
  | EControl _ (MStorageClientPatch m) => scp_client_id m <> c
  | EControl _ (MStorageClientFinalize m) => scfin_client_id m <> c
  | EClient _ (MStorageInsert req) => ins_client_id req <> c
  | _ => True
  end.

Lemma idle_insert c e : idle c e -> insert_of c e = None.
Proof. destruct e as [|stale []| | |]; cbn [idle insert_of]; try done. intros H%Z.eqb_neq; by rewrite H. Qed.

Lemma handle_still c e s s' out :
  Storage.handle e s = Ok (s', out) -> idle c e ->
  s_position (client_of s' c) = s_position (client_of s c).
Proof.
  intros E Hi.
  assert (undisturbed c e -> s_position (client_of s' c) = s_position (client_of s c)) as Hu.
  { intros Hu. by destruct (handle_untouched _ _ _ _ _ E Hu (idle_insert _ _ Hi)) as [[? _] _]. }
  assert (forall s1, same_server s s1 ->
    s_position (client_of (with_client c (disconnect (client_of s c)) s1) c) = s_position (client_of s c)) as Hd.
  { intros s1 _. rewrite client_of_with_client, decide_True by done. apply disconnect_position. }
  destruct e as [stale m|stale m|i|c'|sid n]; try (by apply Hu).
  - destruct m; try (by apply Hu). cbn [undisturbed] in Hu. unfold Storage.handle in E; cbn [Storage.control_recv] in E.
    destruct (decide (scf_client_id m = c)) as [<-|]; [|by apply Hu].
    unfold on_storage_client_freeze in E. inv_result. use_client Hs. by apply Hd.
  - destruct m; try (by apply Hu). cbn [undisturbed] in Hu. unfold Storage.handle in E; cbn [Storage.client_recv] in E.
    destruct (decide (cf_client_id m = c)) as [<-|]; [|by apply Hu].
    unfold Storage.on_client_finished in E. inv_result. use_client Hs.
    destruct (s_disconnected (client_of s (cf_client_id m))); inv_result; [by rewrite (proj1 (proj2 Hs))|by apply Hd].
  - cbn [undisturbed] in Hu. unfold Storage.handle in E. destruct (decide (ci_client_id i = c)) as [<-|]; [|by apply Hu].
    unfold Storage.on_client_failure in E. inv_result. use_client Hs. by apply Hd.
Qed.

Lemma handle_idle c e s sl s' out k :
  server_ok s sl -> StorageSpec.event_ok sl e -> Storage.handle e s = Ok (s', out) -> idle c e ->
  (forall g c', sl !! k = Some (c', g) -> c' = c) -> slot_state s' k = slot_state s k.
Proof.
  intros H Hok E Hi Hk. pose proof (handle_still _ _ _ _ _ E Hi) as Hp.
  destruct (handle_effect _ _ _ _ _ H Hok E) as [c0 n n' Hn Hn' Hmv _ _|new _ _ _ _ _ Hs].
  - unfold slot_state. rewrite (mv_frame _ _ _ _ _ _ Hmv); [done|]. intros j k' Hj Hk' <-%addr_inj.
    destruct (positions_lookup _ _ _ _ Hk') as [g Hg]. pose proof (Hk _ _ Hg). subst c0.
    rewrite Hp in Hn'. pose proof (cursor_fun _ _ _ _ _ Hn Hn'). lia.
  - unfold slot_state. by destruct (Hs (addr k)) as (-> & -> & ->).
Qed.

(** ** Handlers that use a client's slots *)

(** A handled insert of a connected client: its slots up to the last are closed as they are. *)
Lemma insert_slots stale req s sl s' out n :
  server_ok s sl -> is_u64 (ins_num_slots req) -> on_storage_insert stale req s = Ok (s', out) ->
  s_disconnected (client_of s (ins_client_id req)) = false ->
  cursor (s_position (client_of s (ins_client_id req))) (ins_client_id req) sl n ->
  forall i k, positions (ins_client_id req) sl !! i = Some k ->
    (i <> n + Z.to_nat (ins_num_slots req) - 1)%nat ->
    e_data_length (get_entry (st_log_ s') (addr k)) = e_data_length (get_entry (st_log_ s) (addr k)) /\
    ((n + Z.to_nat (ins_num_slots req) <= i)%nat ->
       e_set (get_entry (st_log_ s') (addr k)) = e_set (get_entry (st_log_ s) (addr k))).
Proof.
  intros H Hu E Hd Hn i k Hk Hne. pose proof E as Ei.
  destruct (on_storage_insert_inv _ _ _ _ _ _ H Hu Ei)
    as (_ & [(Hd' & _)|(n0 & g & k' & _ & Hn0 & _ & Hpos & _ & _ & _ & _ & _ & _ & Hk' & Hg & _)]); [congruence|].
  pose proof (cursor_fun _ _ _ _ _ Hn Hn0) as <-.
  unfold on_storage_insert in E. inv_result. use_client Hs. rewrite Hd in E. inv_result. rewrite (proj1 Hs) in E0.
  destruct (insert_frame (ins_data req ++ stale) (ins_data_length req) (ins_num_slots req) _ _ _ _ _ _ _ (so_rep _ _ H) Hn ltac:(unfold is_u64 in Hu; lia) Hk' Hg)
    as (p1 & l1 & Ep & _ & _ & _ & _ & _ & Hclosed & Hframe).
  rewrite Ep in E0. injection E0 as <- <- <-. cbn [st_log_ with_log].
  destruct (decide (n <= i < n + Z.to_nat (ins_num_slots req) - 1)%nat) as [Hi|Hi].
  - rewrite (Hclosed i k Hi Hk). split; [done|lia].
  - rewrite (Hframe (addr k)); [done|]. intros j k2 Hj Hk2 ->%addr_inj.
    pose proof (positions_inj _ _ _ _ _ Hk Hk2). lia.
Qed.

(** Finalizing closes slots as they are. *)
Lemma finalize_slots req s sl s' out k :
  server_ok s sl -> on_storage_client_finalize req s = Ok (s', out) ->
  e_data_length (get_entry (st_log_ s') (addr k)) = e_data_length (get_entry (st_log_ s) (addr k)).
Proof.
  intros H E. destruct (so_client _ _ H (scfin_client_id req)) as (n & Hn & _).
  destruct (close_ok _ _ _ _ _ (so_rep _ _ H) Hn) as (p' & l' & Ec & _ & _ & Hcd).
  unfold on_storage_client_finalize in E. inv_result. use_client Hs. rewrite (proj1 Hs), Ec in E1. injection E1 as <- <-.
  cbn [st_log_ with_log]. by destruct (Hcd (addr k)) as [[-> _]|[_ ->]].
Qed.

(** A log holds one list of slots. *)
Lemma rep_fun l sl sl' : rep l sl -> rep l sl' -> sl = sl'.
Proof.
  intros H H'. apply list_eq_same_length with (length sl); [by rewrite <- (rep_size _ _ H), <- (rep_size _ _ H')|done|].
  intros i [c g] [c' g'] _ Hi Hi'. destruct (rep_some _ _ H _ _ _ Hi) as (_ & <- & <-).
  by destruct (rep_some _ _ H' _ _ _ Hi') as (_ & <- & <-).
Qed.

(** ** The slots of the client *)

Section slots.
Variable c : Z.
Variable SL : list (Z * Z).
Hypothesis SL_increasing : gsns_increasing SL.
Variable final : list (option Z * storage_insert).

(** The number of requests the replicas have when they finalize the client. *)
Variable A : nat.

Abbreviation G := (gsns c SL final).
Abbreviation ks := (ins_num_slots <$> final.*2).

(** Every slot of the client that is not the last of an acknowledged request is empty, and set
    only if it comes before the next request, or if there will be none. *)
Record slots_content (s : storage) (sl : list (Z * Z)) (a : nat) : Prop := {
  sc_empty k g : sl !! k = Some (c, g) -> g ∉ take a G -> e_data_length (get_entry (st_log_ s) (addr k)) = 0;
  sc_set i k : positions c sl !! i = Some k -> e_set (get_entry (st_log_ s) (addr k)) = true ->
    (i < upto (take a ks))%nat \/ a = A }.

Lemma promised_index sl n j g l :
  promised c sl n l !! j = Some g ->
  exists k, l !! j = Some k /\ 0 < k /\ client_gsn c sl (n + upto (take j l) + Z.to_nat k - 1) = Some g.
Proof.
  revert n j. induction l as [|k l IH]; intros n j Hj; [done|]. cbn [promised] in Hj.
  destruct (Z.ltb_spec 0 k); [|done]. destruct (client_gsn c sl (n + Z.to_nat k - 1)) as [g0|] eqn:Hg; [|done].
  destruct j as [|j].
  - injection Hj as ->. exists k. split; [done|]. split; [done|]. cbn [take upto foldr]. by rewrite Nat.add_0_r.
  - destruct (IH _ _ Hj) as (k' & ? & ? & Hk'). exists k'. split; [done|]. split; [done|]. rewrite <- Hk'. f_equal. simpl. unfold upto. lia.
Qed.

Lemma upto_take_mono l j a : (a <= j)%nat -> (upto (take a l) <= upto (take j l))%nat.
Proof.
  revert j a. induction l as [|k l IH]; intros j a Ha; [by rewrite !take_nil|]. destruct a as [|a]; [simpl; lia|].
  destruct j as [|j]; [lia|]. simpl. specialize (IH j a ltac:(lia)). unfold upto in *. lia.
Qed.

(** A slot that is set and not the last of an acknowledged request never becomes one. *)
Lemma set_slot_final sl rest a s i k g :
  sl ++ rest = SL -> slots_content s sl a -> positions c sl !! i = Some k -> sl !! k = Some (c, g) ->
  e_set (get_entry (st_log_ s) (addr k)) = true -> g ∉ take a G -> g ∉ take A G.
Proof.
  intros HSL Hsc Hi Hk Hset Hn Hin. destruct (sc_set _ _ _ Hsc _ _ Hi Hset) as [Hlt| ->]; [|done].
  apply elem_of_take in Hin as (j & Hj & _).
  assert (a <= j)%nat as Haj.
  { destruct (decide (a <= j)%nat) as [|Hge]; [done|]. destruct Hn. apply list_elem_of_lookup. exists j.
    by rewrite lookup_take_lt by lia. }
  destruct (promised_index _ _ _ _ _ Hj) as (x & Hx & Hpos & Hgsn). simpl in Hgsn.
  pose proof (upto_take_mono ks j a Haj).
  assert (client_gsn c SL i = Some g) as Hig.
  { rewrite <- HSL. apply client_gsn_app, client_gsn_lookup. eauto. }
  pose proof (client_gsn_increasing c SL i (upto (take j ks) + Z.to_nat x - 1) g g SL_increasing ltac:(lia) Hig Hgsn). lia.
Qed.

Lemma content_idle e s sl s' out a :
  server_ok s sl -> StorageSpec.event_ok sl e -> Storage.handle e s = Ok (s', out) -> idle c e ->
  slots_content s sl a -> slots_content s' (sl ++ StorageSpec.new_slots e) a.
Proof.
  intros H Hok E Hi [He Hs].
  assert (forall k g, (sl ++ StorageSpec.new_slots e) !! k = Some (c, g) ->
    sl !! k = Some (c, g) /\ slot_state s' k = slot_state s k \/ slot_state s' k = (false, Word 0, 0)) as Hst.
  { intros k g [Hk|[Hge _]]%lookup_app_Some; [left|right].
    - split; [done|]. apply (handle_idle c e s sl s' out); [done..|]. intros ? ? ?. by simplify_eq.
    - rewrite (handle_idle c e s sl s' out k); [by eapply slot_fresh|done..|]. intros g' c' Hk'. apply lookup_lt_Some in Hk'. lia. }
  unfold slot_state in Hst. split.
  - intros k g Hk Hn. destruct (Hst _ _ Hk) as [[Hk' Heq]|Heq]; injection Heq as _ _ ->; [by apply (He k g)|done].
  - intros i k Hk Hset. destruct (positions_lookup _ _ _ _ Hk) as [g Hg].
    destruct (Hst _ _ Hg) as [[Hk' Heq]|Heq]; injection Heq as Eset _ _; [|congruence]. rewrite Eset in Hset.
    destruct (positions_complete _ _ _ _ Hk') as [i' Hi']. apply (Hs i k); [|done].
    assert (positions c (sl ++ StorageSpec.new_slots e) !! i' = Some k) as Hi2 by (rewrite positions_app_lookup; [done|by eapply lookup_lt_Some]).
    by rewrite (positions_inj _ _ _ _ _ Hk Hi2).
Qed.

Lemma content_finalize req s sl s' out a :
  server_ok s sl -> on_storage_client_finalize req s = Ok (s', out) -> a = A ->
  slots_content s sl a -> slots_content s' sl a.
Proof.
  intros H E Ha [He Hs]. split; [|by right]. intros k g Hk Hn.
  rewrite (finalize_slots _ _ _ _ _ _ H E). by apply (He k g).
Qed.

Lemma take_ks H h :
  H `prefix_of` final -> (h <= length H)%nat -> take h ks = ins_num_slots <$> take h H.*2.
Proof. intros [new ->] Hh. rewrite <- fmap_take, fmap_app, take_app_le; [done|]. by rewrite length_fmap. Qed.

(** The request that is acknowledged next. *)
Lemma content_insert H Q rid r ln sl base h stale req s out :
  link_ok c SL final H Q rid r ln sl base h h -> H `prefix_of` final -> H.*2 !! h = Some req ->
  ins_client_id req = c -> is_u64 (ins_num_slots req) -> s_disconnected (client_of (ln_server ln) c) = false ->
  on_storage_insert stale req (ln_server ln) = Ok (s, out) -> slots_content (ln_server ln) sl h -> (S h <= A)%nat ->
  slots_content s sl (S h).
Proof.
  intros Hl Hp HH Hid Hu Hd E [He Hs] HA. pose proof (lo_connected _ _ _ _ _ _ _ _ _ _ _ _ Hl Hd) as [_ Hn].
  pose proof (lo_log _ _ _ _ _ _ _ _ _ _ _ _ Hl) as Hlog. pose proof (lg_server _ _ _ _ _ Hlog) as Hok.
  pose proof (lookup_lt_Some _ _ _ HH) as Hlt. rewrite length_fmap in Hlt. pose proof (prefix_length _ _ Hp) as Hlf.
  set (n := upto (ins_num_slots <$> take h H.*2)) in *.
  assert (upto (take (S h) ks) = (n + Z.to_nat (ins_num_slots req))%nat) as Hup by (rewrite (take_ks H) by (done || lia); by apply upto_next).
  assert (upto (take h ks) = n) as Hup0 by by rewrite (take_ks H) by (done || lia).
  rewrite <- Hid in Hd, Hn. pose proof (insert_slots _ _ _ _ _ _ _ Hok Hu E Hd Hn) as Hsl. rewrite Hid in *.
  destruct (on_storage_insert_inv _ _ _ _ _ _ Hok Hu E)
    as (_ & [(Hd' & _)|(n0 & g & k & _ & Hn0 & _ & Hpos & _ & _ & _ & _ & _ & _ & Hk & Hkg & _)]); rewrite Hid in *; [congruence|].
  pose proof (cursor_fun _ _ _ _ _ Hn Hn0) as <-.
  assert (G !! h = Some g) as HG.
  { apply (gsns_next c SL final H h req); [done|done|apply (lo_handled _ _ _ _ _ _ _ _ _ _ _ _ Hl)|done|].
    rewrite <- (lg_total _ _ _ _ _ Hlog). apply client_gsn_app, client_gsn_lookup. eauto. }
  split.
  - intros k' g' Hk' Hn'. destruct (positions_complete _ _ _ _ Hk') as [i Hi].
    assert (i <> n + Z.to_nat (ins_num_slots req) - 1)%nat as Hne.
    { intros ->. rewrite Hk in Hi. injection Hi as <-. rewrite Hkg in Hk'. injection Hk' as <-. apply Hn'.
      rewrite (take_S_r _ _ _ HG). apply elem_of_app. right. by left. }
    rewrite (proj1 (Hsl i k' Hi Hne)).
    apply (He k' g' Hk'). intros Hin. apply Hn'. rewrite (take_S_r _ _ _ HG). apply elem_of_app. by left.
  - intros i k' Hi Hset. destruct (decide (i < n + Z.to_nat (ins_num_slots req))%nat) as [|Hge]; [left; lia|].
    rewrite (proj2 (Hsl i k' Hi ltac:(lia)) ltac:(lia)) in Hset. destruct (Hs i k' Hi Hset); lia.
Qed.

(** The event patches nothing of the client, and finalizes it only after [A] acknowledgements. *)
Definition ends_last (e : Storage.event) (ln : link) : Prop :=
  match e with
  | EControl _ (MStorageClientPatch m) => scp_client_id m <> c
  | EControl _ (MStorageClientFinalize m) => scfin_client_id m = c -> ln_acked ln = A
  | _ => True
  end.

Lemma link_content H Q rid r ln sl base h a e ln1 s out :
  link_ok c SL final H Q rid r ln sl base h a -> H `prefix_of` final -> words_ok e -> ends_last e ln ->
  recovers_last c e (ln_server ln) ->
  take_event c e ln = Some ln1 -> Storage.handle e (ln_server ln) = Ok (s, out) -> slots_content (ln_server ln) sl a ->
  (ln_acked ln1 + length (answers c out) <= A)%nat ->
  slots_content s (sl ++ StorageSpec.new_slots e) (ln_acked ln1 + length (answers c out)).
Proof.
  intros Hl Hp Hw Hlast Hrec Ht E Hc HA. pose proof (lo_log _ _ _ _ _ _ _ _ _ _ _ _ Hl) as Hlog.
  pose proof (lo_acked _ _ _ _ _ _ _ _ _ _ _ _ Hl) as Hak.
  destruct (take_event_ok _ _ _ _ _ _ _ Hlog Hw Ht) as (Hok & [_ Hak1] & _ & _). rewrite Hak1, Hak in HA |- *.
  pose proof (lg_server _ _ _ _ _ Hlog) as Hs. destruct (insert_of c e) as [req|] eqn:Hi.
  - destruct e as [|stale []| | |]; try discriminate Hi. cbn [insert_of] in Hi.
    destruct (Z.eqb_spec (ins_client_id m) c) as [Hid|]; [|done]. injection Hi as ->.
    destruct (take_insert _ _ _ _ _ Ht Hid) as (Hreq & _ & _). cbn [StorageSpec.new_slots]. rewrite app_nil_r.
    cbn [Storage.handle Storage.client_recv words_ok] in E, Hw.
    destruct (on_storage_insert_inv _ _ _ _ _ _ Hs Hw E)
      as (_ & [(_ & -> & Hsame)|(n & g & k & Hd & _ & _ & _ & _ & _ & _ & _ & _ & _ & _ & _ & _ & _ & _ & Hout)]); rewrite ?Hid in *.
    + cbn [answers omap list_omap length]. rewrite Nat.add_0_r. destruct Hc as [H1 H2]. by split; rewrite (proj1 Hsame).
    + destruct (lo_connected _ _ _ _ _ _ _ _ _ _ _ _ Hl Hd) as [-> _]. rewrite Hout, answers_of_insert, Nat.add_1_r in HA |- *.
      pose proof (lo_prefix _ _ _ _ _ _ _ _ _ _ _ _ Hl) as [rest Hpre]. rewrite Hreq in Hpre. cbn [app] in Hpre.
      destruct (drop_cons_lookup _ _ _ _ Hpre) as [HH _]. by apply (content_insert H Q rid r ln sl base h stale req s out).
  - destruct (handle_kept _ _ _ _ _ E Hi Hrec) as [_ Hn]. rewrite (answers_none _ _ Hn), Nat.add_0_r.
    assert (idle c e \/ exists stale m, e = EControl stale (MStorageClientFinalize m) /\ scfin_client_id m = c) as [?|(stale & m & -> & Hm)].
    { destruct e as [stale []|stale []| | |]; cbn [idle insert_of ends_last] in *; try (by left).
      - destruct (decide (scfin_client_id m = c)); [right; by exists stale, m|by left].
      - left. by destruct (Z.eqb_spec (ins_client_id m) c). }
    + by eapply content_idle.
    + cbn [StorageSpec.new_slots]. rewrite app_nil_r. apply (content_finalize m _ _ _ _ _ Hs E); [|done]. rewrite <- Hak. by apply Hlast.
Qed.
End slots.

(** ** What a replica posts *)

(** The memory of a log holds the slots and nothing else. *)
Lemma mem_slot l sl q : rep l sl -> is_Some (StorageLog.mem_ l !! q) -> exists k, (k < length sl)%nat /\ q = addr k.
Proof.
  intros H Hq.
  assert (list_to_set (addr <$> seq 0 (length sl)) = dom (StorageLog.mem_ l)) as Hd.
  { apply leibniz_equiv, set_subseteq_size_equiv.
    - intros p [k [-> Hk%elem_of_seq]]%elem_of_list_to_set%list_elem_of_fmap. apply elem_of_dom.
      destruct (lookup_lt_is_Some_2 sl k) as [[c g] Hg]; [lia|]. by destruct (rep_some _ _ H _ _ _ Hg).
    - rewrite size_dom, (rep_size _ _ H), size_list_to_set; [by rewrite length_fmap, length_seq|].
      apply NoDup_fmap_2; [intros ?? ?%addr_inj; done|apply NoDup_seq]. }
  apply elem_of_dom in Hq. rewrite <- Hd in Hq. apply elem_of_list_to_set, list_elem_of_fmap in Hq as (k & -> & Hk%elem_of_seq).
  exists k. split; [lia|done].
Qed.

Lemma set_slot l sl q : rep l sl -> e_set (get_entry l q) = true -> exists k c g, q = addr k /\ sl !! k = Some (c, g).
Proof.
  intros H Hs. unfold get_entry in Hs. destruct (StorageLog.mem_ l !! q) as [e|] eqn:Hq; [|done].
  destruct (mem_slot l sl q H ltac:(by eexists)) as (k & Hk & ->). destruct (lookup_lt_is_Some_2 sl k Hk) as [[c g] Hg]. eauto.
Qed.

(** The message posts the entry [x]. *)
Definition posts (x : entry) (e : subscriber_log_entry) : Prop :=
  sle_client_id e = e_client_id x /\ sle_gsn e = e_gsn x /\ sle_data_length e = e_data_length x /\
  (if 0 <? e_data_length x then entry_payload x else Ok []) = Ok (sle_data e).

Lemma posted_app sid o1 o2 : posted sid (o1 ++ o2) = posted sid o1 ++ posted sid o2.
Proof. apply omap_app. Qed.

Lemma post_entry_posted sid x s t out q :
  post_entry x s t = Ok out -> q ∈ posted sid out ->
  posts x q.2 /\ sle_shard_id q.2 = st_shard_id_ s /\ sle_thread_id q.2 = t_index t /\
  exists n, t_subscribers t !! sid = Some n /\ q.1 = wrap64 (1 + t_num_sent t mod n).
Proof.
  unfold post_entry. destruct (if 0 <? _ then _ else _) as [data|] eqn:Hd; [|done]. cbn [mbind result_bind].
  set (P := fun q : Z * subscriber_log_entry => posts x q.2 /\ sle_shard_id q.2 = st_shard_id_ s /\ sle_thread_id q.2 = t_index t /\
    exists n, t_subscribers t !! sid = Some n /\ q.1 = wrap64 (1 + t_num_sent t mod n)). change (?G = _ -> _ -> _) with (G = Ok out -> q ∈ posted sid out -> P q).
  assert (forall q, q ∈ posted sid [] -> P q) as H0 by (intros ? ?%elem_of_nil; done).
  assert (Forall (fun y => t_subscribers t !! y.1 = Some y.2) (map_to_list (t_subscribers t))) as Hts.
  { apply Forall_forall. intros [i n] Hy. by apply elem_of_map_to_list. }
  revert H0 Hts. generalize (map_to_list (t_subscribers t)). intros ts.
  match goal with |- _ -> _ -> mfold _ _ ?acc = _ -> _ => generalize acc at 1 3 end. induction ts as [|[i n] ts IH]; intros acc Hacc Hts E He; cbn [mfold] in E.
  { injection E as <-. by apply Hacc. }
  apply Forall_cons in Hts as [Hi Hts]. destruct (n =? 0); [done|]. cbn [mbind result_bind] in E. revert Hts E He. apply IH. intros e' He'.
  rewrite posted_app, elem_of_app in He'. destruct He' as [He'|He']; [by apply Hacc|]. revert He'. unfold posted. cbn [omap list_omap].
  destruct (Z.eqb_spec i sid) as [->|]; [|by intros ?%elem_of_nil]. intros ->%list_elem_of_singleton. split_and!; try done. by exists n.
Qed.

Lemma apply_change_posted sid c s t t' out : apply_change c s t = Ok (t', out) -> posted sid out = [].
Proof. destruct c; cbn [apply_change]; intros E; by inv_result. Qed.

Lemma next_entry_set it l q it' : iterator_next_entry it l = Ok (Some q, it') -> e_set (get_entry l q) = true.
Proof.
  unfold iterator_next_entry. intros E. destruct (it_entry_ it) as [q0|] eqn:Hq.
  - rewrite ?Hq in E. cbn [deref mbind result_bind] in E. destruct (e_set _) eqn:Hs; by simplify_eq.
  - destruct (_ && _); [by simplify_eq|]. destruct (negb _); [done|]. cbn [deref it_entry_ mbind result_bind] in E.
    destruct (e_set _) eqn:Hs; by simplify_eq.
Qed.

Lemma subscriber_round_posted sid s sl t t' out e :
  server_ok s sl -> subscriber_round s t = Ok (t', out) -> e ∈ posted sid out ->
  exists k c g, sl !! k = Some (c, g) /\ e_set (get_entry (st_log_ s) (addr k)) = true /\ posts (get_entry (st_log_ s) (addr k)) e.2.
Proof.
  intros H E He. unfold subscriber_round in E. destruct (bag_get _ _) as [[c changes]|]; [|done]. cbn [mbind result_bind] in E.
  destruct (match c with Some c => _ | None => _ end) as [[t1 out1]|] eqn:Ec; [|done]. cbn [mbind result_bind] in E.
  assert (posted sid out1 = []) as H1 by (destruct c; [by eapply apply_change_posted|by injection Ec as <- <-]).
  destruct (iterator_next_entry _ _) as [[[q|] it]|] eqn:Ei; [|by injection E as <- <-; rewrite H1 in He; apply elem_of_nil in He|done].
  cbn [mbind result_bind] in E. destruct (post_entry _ _ _) as [out2|] eqn:Ep; [|done]. injection E as <- <-.
  rewrite posted_app, H1 in He. pose proof (next_entry_set _ _ _ _ Ei) as Hs.
  destruct (set_slot _ _ _ (so_rep _ _ H) Hs) as (k & c0 & g & -> & Hk). exists k, c0, g. split; [done|]. split; [done|].
  by destruct (post_entry_posted _ _ _ _ _ _ Ep He).
Qed.

(** ** What a polling thread does *)

(** What holds of an entry as it arrives and does not mention the number of copies holds of the
    entries in flight and of the one that is inserted, and an insertion has a new GSN. *)
Lemma poll_entry_inv (P : Z -> subscriber_log_entry -> Prop) failures e p p' d :
  (forall g n y, P g y -> P g (with_num_acks n y)) -> P (sle_gsn e) e -> map_Forall P (current_requests p) ->
  poll_entry failures e p = Ok (p', d) ->
  let key := (sle_shard_id e, sle_thread_id e) in
  let x := default (UINT64_MAX, position_init) (shard_info p !! key) in
  map_Forall P (current_requests p') /\ sle_shard_id e < NUM_SHARDS /\
  match d with
  | None => shard_info p' = <[key := x]> (shard_info p)
  | Some y => P (sle_gsn e) y /\ (x.1 = UINT64_MAX \/ x.1 < sle_gsn e) /\ shard_info p' = <[key := (sle_gsn e, x.2)]> (shard_info p)
  end.
Proof.
  intros HP He Hp. unfold poll_entry. destruct (Z.ltb_spec (sle_shard_id e) NUM_SHARDS) as [Hs|]; [|done]. cbn [mbind result_bind].
  destruct (default _ _) as [gsn pos]. cbn [current_requests shard_info fst snd]. destruct (negb _ && _) eqn:Hg; [by intros [= <- <-]|].
  destruct (match current_requests p !! sle_gsn e with Some _ => _ | None => _ end) as [x|] eqn:Ex; [|by intros [= <- <-]].
  assert (P (sle_gsn e) x) as Hx.
  { destruct (current_requests p !! sle_gsn e) as [y|] eqn:Ey; [|injection Ex as <-; by apply HP].
    destruct (same_parameters y e); [|done]. injection Ex as <-. exact (Hp _ _ Ey). }
  destruct (_ <? _); intros [= <- <-]; cbn [current_requests shard_info].
  - split; [by apply map_Forall_delete|]. split; [done|]. split; [by apply HP|]. split; [|by rewrite insert_insert_eq].
    apply andb_false_iff in Hg as [Hg|Hg]; [left; apply negb_false_iff in Hg; lia|right; lia].
  - split; [apply map_Forall_insert_2; [by apply HP|done]|]. by split.
Qed.

(** ** The entries of the client *)

(** The entry is empty at a GSN that no request has, or it is the payload of the request that has
    its GSN; [G] are the GSNs of the requests [sent]. *)
Definition written (G : list Z) (sent : list (option Z * storage_insert)) (e : subscriber_log_entry) : Prop :=
  sle_data_length e = 0 /\ sle_gsn e ∉ G \/
  exists k response req, sent !! k = Some (response, req) /\ G !! k = Some (sle_gsn e) /\
    sle_data_length e = ins_data_length req /\ sle_data e = ins_data req.

Section good.
Variables client_id shard_id : Z.
Variable SL : list (Z * Z).
Hypothesis SL_increasing : gsns_increasing SL.
Variable final : list (option Z * storage_insert).
Variable A : nat.

Abbreviation G := (gsns client_id SL final).

Definition good (e : subscriber_log_entry) : Prop :=
  sle_shard_id e = shard_id -> sle_client_id e = client_id -> written (take A G) final e.

Lemma gsn_index sl i j x y : gsns_increasing sl -> sl !! i = Some (x : Z * Z) -> sl !! j = Some y -> x.2 = y.2 -> i = j.
Proof.
  intros H Hi Hj Hxy. destruct (decide (i = j)) as [|Hne]; [done|]. destruct (decide (i < j)%nat).
  - pose proof (H i j x y Hi Hj). lia.
  - pose proof (H j i y x Hj Hi). lia.
Qed.

Lemma increasing_prefix sl rest : gsns_increasing (sl ++ rest) -> gsns_increasing sl.
Proof. intros H i j x y Hi Hj. apply H; by apply lookup_app_l_Some. Qed.

(** What a replica of the client's shard posts is good. *)
Lemma posted_good H Q rid r ln sl base h a sid t t' out e :
  link_ok client_id SL final H Q rid r ln sl base h a -> H `prefix_of` final -> Forall (sent_ok client_id) H ->
  slots_content client_id SL final A (ln_server ln) sl a -> (a <= A)%nat -> subscriber_round (ln_server ln) t = Ok (t', out) ->
  e ∈ posted sid out -> good e.2.
Proof.
  intros Hl Hp Hsent Hc HA E He _ Hid. pose proof (lo_log _ _ _ _ _ _ _ _ _ _ _ _ Hl) as Hlog.
  pose proof (lg_server _ _ _ _ _ Hlog) as Hs. pose proof (lg_total _ _ _ _ _ Hlog) as Htot.
  destruct (subscriber_round_posted _ _ _ _ _ _ _ Hs E He) as (k & c & g & Hk & Hset & Hcl & Hg & Hlen & Hdata).
  destruct (rep_some _ _ (so_rep _ _ Hs) _ _ _ Hk) as (_ & Hc1 & Hg1). rewrite Hid, Hc1 in Hcl. subst c. rewrite Hg1 in Hg.
  unfold written. rewrite Hg. destruct (decide (g ∈ take a G)) as [Hin|Hout].
  - right. apply list_elem_of_lookup in Hin as [i Hi]. destruct (decide (i < a)%nat) as [Hlt|]; [|rewrite lookup_take_ge in Hi by lia; done].
    rewrite lookup_take_lt in Hi by done.
    destruct (lo_stored _ _ _ _ _ _ _ _ _ _ _ _ Hl i Hlt) as (response & req & g' & k' & stale & HH & Hg' & Hk' & _ & _ & Hd & Hln).
    rewrite Hi in Hg'. injection Hg' as <-. assert (k = k') as <-.
    { rewrite <- Htot in SL_increasing. by eapply (gsn_index sl); [by eapply increasing_prefix|exact Hk|exact Hk'|]. }
    exists i, response, req. split; [by eapply prefix_lookup_Some|]. split; [by rewrite lookup_take_lt by lia|]. split; [by rewrite Hlen|].
    pose proof (Forall_lookup_1 _ _ _ _ Hsent HH) as (_ & Hsz & _). unfold sized in Hsz. cbn [snd] in Hsz.
    rewrite Hln in Hdata. destruct (Z.ltb_spec 0 (ins_data_length req)) as [Hpos|Hz].
    + rewrite (entry_payload_copy _ (ins_data req) stale) in Hdata; [by injection Hdata as <-|by rewrite Hd, Hln|by rewrite Hln].
    + injection Hdata as <-. destruct (ins_data req); [done|]. simpl in Hsz. lia.
  - left. split; [rewrite Hlen; by apply (sc_empty _ _ _ _ _ _ _ Hc k g)|].
    destruct (positions_complete _ _ _ _ Hk) as [i Hi]. by eapply set_slot_final.
Qed.

(** Polling and reading pass entries on. *)
Lemma good_num_acks n e : good e -> good (with_num_acks n e).
Proof. done. Qed.

Definition log_good (l : SubscriberLog.log) : Prop := map_Forall (fun _ => map_Forall (fun _ => good)) (mem_ l).

Definition poll_good (p : poll_state) : Prop := map_Forall (fun _ => good) (current_requests p).

Lemma poll_entry_good failures e p p' d :
  poll_entry failures e p = Ok (p', d) -> good e -> poll_good p -> poll_good p' /\ forall e', d = Some e' -> good e'.
Proof.
  intros E He Hp. destruct (poll_entry_inv (fun _ => good) failures e p p' d) as (H & _ & Hd); try done.
  split; [done|]. intros y ->. apply Hd.
Qed.

Lemma store_good e pos l pos' l' : position_insert e pos l = Ok (pos', l') -> good e -> log_good l -> log_good l'.
Proof.
  unfold position_insert. intros E He Hl. inv_result. apply map_Forall_insert_2; [|done].
  apply map_Forall_insert_2; [done|]. by eapply Hl.
Qed.

Lemma polled_good failures e p l p' l' :
  on_subscriber_log_entry failures e p l = Ok (p', l') -> good e -> poll_good p -> log_good l -> poll_good p' /\ log_good l'.
Proof.
  unfold on_subscriber_log_entry. intros E He Hp Hl. destruct (poll_entry _ _ _) as [[p1 d]|] eqn:Ep; [|done]. cbn [mbind result_bind] in E.
  destruct (poll_entry_good _ _ _ _ _ Ep He Hp) as [Hp1 Hd]. destruct d as [x|]; [|by injection E as <- <-].
  inv_result. split; [done|]. eapply store_good; [done|by apply Hd|done].
Qed.

Lemma recycle_good l l' : recycle_blocks l = Ok l' -> log_good l -> log_good l'.
Proof.
  unfold recycle_blocks. intros E Hl. inv_result. destruct (_ =? _); [|by injection E as <-]. inv_result.
  by apply map_Forall_insert_2.
Qed.

Lemma find_entry_mem step it l it' l' : find_entry step it l = Ok (Some (it', l')) -> mem_ l' = mem_ l.
Proof.
  unfold find_entry. destruct (entry_ it); [by intros [= <- <-]|]. intros E. inv_result. destruct (_ <=? entry_index_ it / _); by inv_result.
Qed.

Lemma read_good it l e d it' l' :
  process_round it l = Ok (e, d, it', l') -> log_good l -> log_good l' /\ forall x, e = Some x -> good x.
Proof.
  unfold process_round, next_entry. intros E Hl. destruct (find_entry _ _ _) as [[[it1 l1]|]|] eqn:Ef; [|by simplify_eq/=|done].
  assert (log_good l1) as Hl1 by (unfold log_good; by rewrite (find_entry_mem _ _ _ _ _ Ef)).
  cbn [mbind result_bind] in E. unfold load_entry in E. destruct (entry_ it1) as [[q i]|]; [|done]. cbn [deref mbind result_bind] in E.
  destruct (mem_ l1 !! q) as [m|] eqn:Hm; [|done]. cbn [deref mbind result_bind] in E.
  destruct (m !! i) as [x|] eqn:Hx; injection E as <- <- <- <-; (split; [done|]); intros y [= <-]. exact (Hl1 _ _ Hm _ _ Hx).
Qed.
End good.

(** ** The invariant of the readers *)

Section readers.
Variables client_id shard_id failures : Z.
Variable estimate : option pid.
Variable connect : sockaddr_in -> option (message * Z).
Hypothesis failures_range : 0 <= failures < UINT64_MAX.
Variable SL : list (Z * Z).
Hypothesis SL_increasing : gsns_increasing SL.
Hypothesis SL_range : forall x, x ∈ SL -> 0 <= x.2 < UINT64_MAX.
Variable final : list (option Z * storage_insert).
Variable A : nat.

Abbreviation sys_ok := (SystemSpec.sys_ok client_id failures SL final).
Abbreviation good := (good client_id shard_id SL final A).
Abbreviation sys_step := (System.sys_step client_id shard_id failures estimate connect).
Abbreviation reader_step := (Readers.reader_step client_id shard_id failures estimate connect).
Abbreviation reader_run := (Readers.reader_run client_id shard_id failures estimate connect).
Abbreviation reader_events_ok := (Readers.reader_events_ok client_id shard_id failures estimate connect).

Definition acked_most (a : nat) (x : system) : Prop := map_Forall (fun _ ln => (ln_acked ln <= a)%nat) (sy_links x).

Definition contents (x : system) : Prop :=
  forall rid ln sl, sy_links x !! rid = Some ln -> server_ok (ln_server ln) sl ->
    slots_content client_id SL final A (ln_server ln) sl (ln_acked ln).

Lemma collect_server ms L L' rid ln' :
  collect ms L = Some L' -> L' !! rid = Some ln' ->
  exists ln, L !! rid = Some ln /\ ln_server ln = ln_server ln' /\ ln_acked ln = ln_acked ln'.
Proof.
  revert L. induction ms as [|m ms IH]; intros L E Hl; [injection E as <-; by exists ln'|].
  destruct m; cbn [collect] in E; try by apply IH.
  destruct (L !! _) as [ln|] eqn:Hln; [|done]. cbn [mbind option_bind] in E. destruct (ln_answers ln) as [|a rest]; [done|].
  destruct (_ && _); [|done]. destruct (IH _ E Hl) as (ln2 & H2 & Hs & Ha).
  destruct (decide (ack_replica_id m = rid)) as [<-|Hne]; [|rewrite lookup_insert_ne in H2 by done; eauto].
  rewrite lookup_insert_eq in H2. injection H2 as <-. by exists ln.
Qed.

Lemma client_contents e x x' : contents x -> sys_step (AtClient e) x = Some x' -> contents x'.
Proof.
  intros Hc E rid ln' sl Hl Hs. cbn [System.sys_step] in E. unfold client_step in E. destruct (step _ _ _ _ _ _ _) as [[c' out]|]; [|done].
  destruct (collect _ _) as [L|] eqn:Ec; [|done]. cbn [mbind option_bind] in E. injection E as <-. cbn [sy_links] in Hl.
  unfold post_all in Hl. rewrite map_lookup_imap in Hl. destruct (L !! rid) as [ln1|] eqn:Hln; [|done]. injection Hl as <-.
  cbn [post ln_server ln_acked] in *. destruct (collect_server _ _ _ _ _ Ec Hln) as (ln & Hln1 & Hsl & <-). rewrite <- Hsl in Hs |- *. by apply (Hc rid ln).
Qed.

Lemma server_contents rid e x q l x' :
  sys_ok x q l -> sy_sent x `prefix_of` final -> sys_event_ok client_id (AtServer rid e) x ->
  (forall ln, sy_links x !! rid = Some ln -> ends_last client_id A e ln) ->
  contents x -> sys_step (AtServer rid e) x = Some x' -> acked_most A x' -> contents x'.
Proof.
  intros H Hp [Hw Hrec] Hlast Hc E HA rid' ln' sl' Hl Hs. cbn [System.sys_step] in E. unfold server_step in E.
  destruct (sy_links x !! rid) as [ln|] eqn:Hln; [|done]. cbn [mbind option_bind] in E.
  destruct (take_event client_id e ln) as [ln1|] eqn:Ht; [|done]. cbn [mbind option_bind] in E.
  rewrite (take_event_server _ _ _ _ Ht) in E. destruct (Storage.handle e (ln_server ln)) as [[s out]|] eqn:Eh; [|done]. injection E as <-.
  specialize (HA _ _ Hl). cbn [sy_links] in Hl. destruct (decide (rid = rid')) as [<-|Hne]; [|rewrite lookup_insert_ne in Hl by done; by apply (Hc rid')].
  rewrite lookup_insert_eq in Hl. injection Hl as <-. cbn [ln_server ln_acked] in *.
  destruct (sk_links _ _ _ _ _ _ _ H _ _ Hln) as (sl & base & h & a & Hok).
  pose proof (lo_log _ _ _ _ _ _ _ _ _ _ _ _ Hok) as Hlog. pose proof (lg_server _ _ _ _ _ Hlog) as Hsv.
  destruct (take_event_ok _ _ _ _ _ _ _ Hlog Hw Ht) as (Hev & _).
  pose proof (effect_ok _ _ _ _ Hsv (handle_effect _ _ _ _ _ Hsv Hev Eh)) as Hsv'.
  rewrite (rep_fun _ _ _ (so_rep _ _ Hs) (so_rep _ _ Hsv')).
  eapply link_content; [exact Hok|done|done|by apply Hlast|by apply Hrec|done|done| |exact HA].
  rewrite <- (lo_acked _ _ _ _ _ _ _ _ _ _ _ _ Hok). by apply (Hc rid).
Qed.

Record reader_good (r : reader) : Prop := {
  rg_posted : Forall (fun x => good x.2) (rd_posted r);
  rg_polls : Forall (poll_good client_id shard_id SL final A) (rd_polls r);
  rg_log : log_good client_id shard_id SL final A (rd_log r);
  rg_read : Forall (Forall good) (rd_read r) }.

Record readers_ok (r : readers) : Prop := {
  ro_system : exists q l, sys_ok (rd_system r) q l;
  ro_contents : contents (rd_system r);
  ro_readers : map_Forall (fun _ => reader_good) (rd_readers r) }.

Abbreviation enqueued r := (num_enqueued_ (requests_ (sy_client (rd_system r)))).

(** The event finalizes the client only after [A] acknowledgements. *)
Definition finalizes_at (e : reader_event) (r : readers) : Prop :=
  match e with
  | InSystem (AtServer rid (EControl _ (MStorageClientFinalize m))) =>
    scfin_client_id m = client_id -> forall ln, sy_links (rd_system r) !! rid = Some ln -> ln_acked ln = A
  | _ => True
  end.

Lemma system_event_ok e r r' :
  readers_ok r -> enqueued r + 1 < W64 -> sy_sent (rd_system r) `prefix_of` final -> finalizes_at (InSystem e) r ->
  sys_event_ok client_id e (rd_system r) -> orderly client_id e (rd_system r) -> reader_step (InSystem e) r = Some r' ->
  acked_most A (rd_system r') -> readers_ok r' /\ enqueued r' <= enqueued r + 1.
Proof.
  intros [(q & l & H) Hc Hr] Hb Hp Hfin He Ho E HA. cbn [Readers.reader_step] in E.
  destruct (sys_step e (rd_system r)) as [x|] eqn:Es; [|done]. cbn [mbind option_bind] in E. injection E as <-. cbn [rd_system].
  destruct e as [e|rid e].
  - destruct (client_step_ok client_id shard_id failures estimate connect failures_range SL SL_increasing SL_range final _ _ _ _ _ H Hb He Es)
      as (q' & l' & H' & _ & Hn).
    split; [|done]. split; try done; cbn [rd_system]; [by exists q', l'|by eapply client_contents].
  - destruct (server_step_ok client_id shard_id failures estimate connect SL final _ _ _ _ _ _ H Hp He Es) as (H' & _ & Hcl). rewrite Hcl.
    split; [|lia]. split; try done; cbn [rd_system]; [by exists q, l|]. apply (server_contents rid e (rd_system r) q l x); try done.
    intros ln Hln. destruct e as [? []|? []| | |]; cbn [orderly ends_last finalizes_at] in *; try done. eauto.
Qed.

Lemma subscriber_step_ok e r r' :
  reader_good r -> match e with Foreign _ e => sle_shard_id e <> shard_id | _ => True end -> subscriber_step failures e r = Some r' ->
  reader_good r'.
Proof.
  intros [H1 H2 H3 H4] He E. destruct e as [queue e|j n| |k]; cbn [subscriber_step] in E.
  - injection E as <-. split; cbn [with_posted rd_posted rd_polls rd_log rd_read]; try done.
    apply Forall_app_2; [done|]. apply Forall_singleton. by intros ?.
  - unfold poll_round in E. destruct (rd_polls r !! j) as [p|] eqn:Hj; [|done]. cbn [mbind option_bind] in E.
    destruct (rd_posted r !! n) as [[queue x]|] eqn:Hx; [|done]. cbn [mbind option_bind] in E. destruct (queue =? _); [|done].
    destruct (on_subscriber_log_entry _ _ _ _) as [[p' l']|] eqn:Eo; [|done]. injection E as <-.
    destruct (polled_good _ _ _ _ _ _ _ _ _ _ _ Eo (Forall_lookup_1 _ _ _ _ H1 Hx) (Forall_lookup_1 _ _ _ _ H2 Hj) H3) as [Hp' Hl'].
    split; cbn [rd_posted rd_polls rd_log rd_read]; try done; [by apply Forall_delete|by apply Forall_insert].
  - unfold recycle_round in E. destruct (recycle_blocks _) as [l'|] eqn:Er; [|done]. injection E as <-.
    split; cbn [rd_posted rd_polls rd_log rd_read]; try done. by eapply recycle_good.
  - unfold read_round in E. destruct (rd_iterators r !! k) as [it|]; [|done]. cbn [mbind option_bind] in E.
    destruct (rd_read r !! k) as [read|] eqn:Hk; [|done]. cbn [mbind option_bind] in E.
    destruct (process_round _ _) as [[[[d c] it'] l']|] eqn:Er; [|done]. injection E as <-.
    destruct (read_good _ _ _ _ _ _ _ _ _ _ _ Er H3) as [Hl' Hd]. split; cbn [rd_posted rd_polls rd_log rd_read]; try done.
    apply Forall_insert; [done|]. apply Forall_app_2; [by eapply Forall_lookup_1|]. destruct d; [|constructor]. apply Forall_singleton. by apply Hd.
Qed.

Lemma reader_step_ok e r r' :
  readers_ok r -> enqueued r + 1 < W64 -> sy_sent (rd_system r) `prefix_of` final -> finalizes_at e r -> acked_most A (rd_system r) ->
  reader_event_ok client_id shard_id e r -> reader_step e r = Some r' -> acked_most A (rd_system r') ->
  readers_ok r' /\ enqueued r' <= enqueued r + 1.
Proof.
  intros H Hb Hp Hfin HA0 He E HA. destruct e as [e|rid i|sid e]; [destruct He as (? & ? & _); by eapply system_event_ok|..];
    destruct H as [H Hc Hr]; cbn [Readers.reader_step reader_event_ok] in *.
  - unfold post_round in E. destruct (sy_links (rd_system r) !! rid) as [ln|] eqn:Hln; [|done]. cbn [mbind option_bind] in E.
    destruct (rd_threads r !! _) as [t|]; [|done]. cbn [mbind option_bind] in E. destruct (subscriber_round _ _) as [[t' out]|] eqn:Er; [|done].
    injection E as <-. split; [|simpl; lia]. split; cbn [rd_system rd_readers]; try done.
    intros sid s' Hs. unfold post_readers in Hs. rewrite map_lookup_imap in Hs. destruct (rd_readers r !! sid) as [s|] eqn:Hsid; [|done].
    injection Hs as <-. destruct (Hr _ _ Hsid). split; cbn [with_posted rd_posted rd_polls rd_log rd_read]; try done.
    apply Forall_app_2; [done|]. apply Forall_forall. intros x Hx. destruct H as (q & l & H).
    destruct (sk_links _ _ _ _ _ _ _ H _ _ Hln) as (sl & base & h & a & Hok).
    eapply posted_good; [done|exact Hok|done|apply (sk_history _ _ _ _ _ _ _ H)|rewrite <- (lo_acked _ _ _ _ _ _ _ _ _ _ _ _ Hok)..|exact Er|exact Hx]; [|by apply (HA0 rid)].
    apply (Hc rid ln); [done|]. apply (lo_log _ _ _ _ _ _ _ _ _ _ _ _ Hok).
  - destruct (rd_readers r !! sid) as [s|] eqn:Hsid; [|done]. cbn [mbind option_bind] in E.
    destruct (subscriber_step failures e s) as [s'|] eqn:Es; [|done]. injection E as <-. split; [|simpl; lia].
    split; cbn [rd_system rd_readers]; try done. apply map_Forall_insert_2; [|done]. eapply subscriber_step_ok; [by eapply Hr| |exact Es].
    destruct e; try done. apply He.
Qed.

(** What is sent stays sent. *)
Lemma reader_step_system e r r' :
  reader_step e r = Some r' -> rd_system r' = rd_system r \/ exists e', e = InSystem e' /\ sys_step e' (rd_system r) = Some (rd_system r').
Proof.
  destruct e as [e|rid i|sid e]; cbn [Readers.reader_step]; intros E.
  - destruct (sys_step e (rd_system r)) as [x|] eqn:Es; [|done]. injection E as <-. right. eauto.
  - left. unfold post_round in E. destruct (sy_links _ !! rid); [|done]. cbn [mbind option_bind] in E. destruct (rd_threads r !! _); [|done].
    cbn [mbind option_bind] in E. destruct (subscriber_round _ _) as [[]|]; [|done]. by injection E as <-.
  - left. destruct (rd_readers r !! sid); [|done]. cbn [mbind option_bind] in E. destruct (subscriber_step _ _ _); [|done]. by injection E as <-.
Qed.

Lemma reader_run_sent es r r' : reader_run es r = Some r' -> sy_sent (rd_system r) `prefix_of` sy_sent (rd_system r').
Proof.
  revert r. induction es as [|e es IH]; intros r E; cbn [Readers.reader_run] in E; [by injection E as <-|].
  destruct (reader_step e r) as [r1|] eqn:Es; [|done]. cbn [mbind option_bind] in E. specialize (IH _ E).
  destruct (reader_step_system _ _ _ Es) as [Hr|(e' & -> & Hr)]; [by rewrite Hr in IH|].
  etrans; [by eapply sys_step_sent|done].
Qed.

(** In the whole run, no replica sends more than [A] acknowledgements, and the client is finalized
    only after as many. *)
Fixpoint bounded (es : list reader_event) (r : readers) : Prop :=
  acked_most A (rd_system r) /\
  match es with
  | [] => True
  | e :: es => finalizes_at e r /\ match reader_step e r with Some r => bounded es r | None => True end
  end.

Lemma bounded_start es r : bounded es r -> acked_most A (rd_system r).
Proof. destruct es; intros H; apply H. Qed.

Lemma reader_run_ok es r r' :
  readers_ok r -> enqueued r + Z.of_nat (length es) < W64 -> bounded es r -> reader_events_ok es r -> reader_run es r = Some r' ->
  final = sy_sent (rd_system r') -> readers_ok r' /\ acked_most A (rd_system r').
Proof.
  revert r. induction es as [|e es IH]; intros r H Hb Hbd He E Hf; cbn [Readers.reader_run Readers.reader_events_ok length bounded] in *.
  { injection E as <-. split; [done|apply Hbd]. }
  destruct He as [He Hes], Hbd as (HA0 & Hfin & Hbd). pose proof (reader_run_sent (e :: es) r r' E) as Hp. rewrite <- Hf in Hp.
  destruct (reader_step e r) as [r1|] eqn:Es; [|done]. cbn [mbind option_bind] in E.
  destruct (reader_step_ok e r r1 H ltac:(lia) Hp Hfin HA0 He Es (bounded_start _ _ Hbd)) as [H1 Hb1].
  eapply IH; [done|lia|done..].
Qed.
End readers.

(** ** The acknowledgements at the end *)

Section acked.
Variables client_id shard_id failures : Z.
Variable estimate : option pid.
Variable connect : sockaddr_in -> option (message * Z).

Abbreviation sys_step := (System.sys_step client_id shard_id failures estimate connect).
Abbreviation reader_step := (Readers.reader_step client_id shard_id failures estimate connect).
Abbreviation reader_run := (Readers.reader_run client_id shard_id failures estimate connect).
Abbreviation reader_events_ok := (Readers.reader_events_ok client_id shard_id failures estimate connect).

Lemma take_event_acked e ln ln1 : take_event client_id e ln = Some ln1 -> ln_acked ln1 = ln_acked ln.
Proof.
  intros Ht. destruct e as [? []|? []| | |]; cbn [take_event] in Ht; try (by injection Ht as <-).
  - destruct (ln_epochs ln); [done|]. case_decide; by simplify_eq.
  - destruct (_ =? _); [|by simplify_eq]. destruct (ln_requests ln); [done|]. case_decide; by simplify_eq.
Qed.

(** A server that has disconnected the client acknowledges nothing and stays so. *)
Lemma disconnected_silent e s s' out :
  Storage.handle e s = Ok (s', out) -> recovers_last client_id e s -> s_disconnected (client_of s client_id) = true ->
  s_disconnected (client_of s' client_id) = true /\ answers client_id out = [].
Proof.
  intros E Hr Hd. destruct (insert_of client_id e) as [req|] eqn:Hi.
  - destruct e as [|stale []| | |]; try discriminate Hi. cbn [insert_of] in Hi. destruct (Z.eqb_spec (ins_client_id m) client_id) as [Hid|]; [|done].
    cbn [Storage.handle Storage.client_recv] in E. unfold on_storage_insert in E. inv_result. use_client Hs. rewrite Hid, Hd in E. injection E as <- <-.
    split; [|done]. by rewrite (proj1 (proj2 Hs)).
  - destruct (handle_kept _ _ _ _ _ E Hi Hr) as [[Hk _] Hn]. split; [by apply Hk|by apply answers_none].
Qed.

(** The links after a step, with what the step has done to the acknowledgements. *)
Lemma sys_step_links e x x' rid ln' :
  sys_event_ok client_id e x -> sys_step e x = Some x' -> sy_links x' !! rid = Some ln' ->
  exists ln, sy_links x !! rid = Some ln /\ (ln_acked ln <= ln_acked ln')%nat /\
    (s_disconnected (client_of (ln_server ln) client_id) = true ->
     s_disconnected (client_of (ln_server ln') client_id) = true /\ ln_acked ln' = ln_acked ln).
Proof.
  intros He E Hl. destruct e as [e|rid' e]; cbn [System.sys_step] in E.
  - unfold client_step in E. destruct (step _ _ _ _ _ _ _) as [[c' out]|]; [|done].
    destruct (collect _ _) as [L|] eqn:Ec; [|done]. cbn [mbind option_bind] in E. injection E as <-. cbn [sy_links] in Hl.
    unfold post_all in Hl. rewrite map_lookup_imap in Hl. destruct (L !! rid) as [ln1|] eqn:Hln; [|done]. injection Hl as <-.
    cbn [post ln_server ln_acked] in *. destruct (collect_server _ _ _ _ _ Ec Hln) as (ln & ? & <- & <-). by exists ln.
  - unfold server_step in E. destruct (sy_links x !! rid') as [ln|] eqn:Hln; [|done]. cbn [mbind option_bind] in E.
    destruct (take_event client_id e ln) as [ln1|] eqn:Ht; [|done]. cbn [mbind option_bind] in E.
    rewrite (take_event_server _ _ _ _ Ht) in E. destruct (Storage.handle e (ln_server ln)) as [[s out]|] eqn:Eh; [|done]. injection E as <-.
    cbn [sy_links] in Hl. destruct (decide (rid' = rid)) as [->|Hne]; [|rewrite lookup_insert_ne in Hl by done; by exists ln'].
    rewrite lookup_insert_eq in Hl. injection Hl as <-. exists ln. split; [done|]. cbn [ln_server ln_acked].
    rewrite (take_event_acked _ _ _ Ht). split; [lia|]. intros Hd. destruct He as [_ Hrec].
    destruct (disconnected_silent _ _ _ _ Eh (Hrec _ Hln) Hd) as [? ->]. split; [done|]. simpl. lia.
Qed.

Lemma reader_step_links e r r' rid ln' :
  reader_event_ok client_id shard_id e r -> reader_step e r = Some r' -> sy_links (rd_system r') !! rid = Some ln' ->
  exists ln, sy_links (rd_system r) !! rid = Some ln /\ (ln_acked ln <= ln_acked ln')%nat /\
    (s_disconnected (client_of (ln_server ln) client_id) = true ->
     s_disconnected (client_of (ln_server ln') client_id) = true /\ ln_acked ln' = ln_acked ln).
Proof.
  intros He E Hl. destruct (reader_step_system _ _ _ _ _ _ _ _ E) as [Hr|(e' & -> & Hr)]; [rewrite Hr in Hl; by exists ln'|].
  by eapply sys_step_links; [apply He|..].
Qed.

Lemma frozen_bounded a es r : frozen client_id a (rd_system r) -> reader_events_ok es r -> bounded client_id shard_id failures estimate connect a es r.
Proof.
  revert r. induction es as [|e es IH]; intros r Hfr He; cbn [bounded Readers.reader_events_ok] in *.
  { split; [|done]. intros rid ln Hl. destruct (Hfr _ _ Hl) as [_ ->]. lia. }
  destruct He as [He Hes]. split; [intros rid ln Hl; destruct (Hfr _ _ Hl) as [_ ->]; lia|]. split.
  - destruct e as [[|rid [? []|? []| | |]]| |]; cbn [finalizes_at]; try done. intros _ ln Hl. by destruct (Hfr _ _ Hl).
  - destruct (reader_step e r) as [r1|] eqn:Es; [|done]. apply IH; [|done]. intros rid ln' Hl.
    destruct (reader_step_links _ _ _ _ _ He Es Hl) as (ln & Hln & _ & Hk). destruct (Hfr _ _ Hln) as [Hd Ha].
    destruct (Hk Hd) as [? ->]. by split.
Qed.

Lemma acked_most_exists (x : system) : exists a, acked_most a x.
Proof.
  unfold acked_most. induction (sy_links x) as [|rid ln L _ [a IH]] using map_ind; [by exists 0%nat|].
  exists (Nat.max (ln_acked ln) a). apply map_Forall_insert_2; [lia|]. intros rid' ln' Hl. specialize (IH _ _ Hl). simpl in *. lia.
Qed.

Lemma finalizes_frozen e r :
  reader_event_ok client_id shard_id e r -> (forall a, finalizes_at client_id a e r) \/ exists a, frozen client_id a (rd_system r).
Proof.
  intros He. destruct e as [[|rid [? []|? []| | |]]| |]; try (by left). destruct He as (_ & Ho & _). cbn [orderly finalizes_at] in *.
  destruct (decide (scfin_client_id m = client_id)) as [Hm|]; [|by left]. specialize (Ho Hm).
  destruct (sy_links (rd_system r) !! rid) as [ln|]; [right; eauto|by left].
Qed.

(** No replica disappears. *)
Lemma collect_some ms L L' rid : collect ms L = Some L' -> is_Some (L !! rid) -> is_Some (L' !! rid).
Proof.
  revert L. induction ms as [|m ms IH]; intros L E Hl; [by injection E as <-|].
  destruct m; cbn [collect] in E; try by eapply IH.
  destruct (L !! _) as [ln|]; [|done]. cbn [mbind option_bind] in E. destruct (ln_answers ln) as [|a rest]; [done|].
  destruct (_ && _); [|done]. apply (IH _ E). apply lookup_insert_is_Some'. by right.
Qed.

Lemma reader_step_some e r r' rid :
  reader_step e r = Some r' -> is_Some (sy_links (rd_system r) !! rid) -> is_Some (sy_links (rd_system r') !! rid).
Proof.
  intros E Hl. destruct (reader_step_system _ _ _ _ _ _ _ _ E) as [->|(e' & -> & Es)]; [done|]. clear E. destruct e' as [e|rid' e]; cbn [System.sys_step] in Es.
  - unfold client_step in Es. destruct (step _ _ _ _ _ _ _) as [[c' out]|]; [|done].
    destruct (collect _ _) as [L|] eqn:Ec; [|done]. cbn [mbind option_bind] in Es. injection Es as <-. cbn [sy_links].
    destruct (collect_some _ _ _ _ Ec Hl) as [ln Hln]. unfold post_all. rewrite map_lookup_imap, Hln. by eexists.
  - unfold server_step in Es. destruct (sy_links (rd_system r) !! rid') as [ln|]; [|done]. cbn [mbind option_bind] in Es.
    destruct (take_event client_id e ln) as [ln1|]; [|done]. cbn [mbind option_bind] in Es.
    destruct (Storage.handle e (ln_server ln1)) as [[s out]|]; [|done]. injection Es as <-. cbn [sy_links]. apply lookup_insert_is_Some'. by right.
Qed.

(** Every orderly run has such a bound. *)
Lemma orderly_bounded es r : reader_events_ok es r -> exists a, bounded client_id shard_id failures estimate connect a es r.
Proof.
  revert r. induction es as [|e es IH]; intros r He.
  { destruct (acked_most_exists (rd_system r)) as [a Ha]. by exists a. }
  destruct (finalizes_frozen e r (proj1 He)) as [Hfin|[a Ha]]; [|exists a; by apply frozen_bounded].
  cbn [bounded Readers.reader_events_ok] in *. destruct He as [He Hes]. destruct (reader_step e r) as [r1|] eqn:Es.
  - destruct (IH _ Hes) as [a Ha]. exists a. split; [|by split]. intros rid ln Hl.
    destruct (reader_step_some _ _ _ rid Es) as [ln' Hl']; [by eexists|].
    destruct (reader_step_links _ _ _ _ _ He Es Hl') as (ln2 & Hl2 & Hle & _). rewrite Hl in Hl2. injection Hl2 as <-.
    pose proof (bounded_start _ _ _ _ _ _ _ _ Ha rid ln' Hl'). simpl in *. lia.
  - destruct (acked_most_exists (rd_system r)) as [a Ha]. exists a. by split_and!.
Qed.
End acked.
(** ** The property *)

(** A response has been acknowledged by a replica. *)
Lemma sys_ok_acked client_id failures SL final x q l loc g :
  0 <= failures -> sys_ok client_id failures SL final x q l -> responses (c_memory (sy_client x)) !! loc = Some g -> g <> UINT64_MAX ->
  exists k req rid ln, sy_sent x !! k = Some (Some loc, req) /\ gsns client_id SL final !! k = Some g /\
    sy_links x !! rid = Some ln /\ (k < ln_acked ln)%nat.
Proof.
  intros Hf [(_ & Hm & _) Hs Ha HL Hak _ Hh] Hr Hg. rewrite Hm in Hr. destruct (Ha _ _ Hr) as [?|(k & Hk & HG & Hq)]; [done|].
  rewrite Hs, list_lookup_fmap in Hk. destruct (sy_sent x !! k) as [[response req]|] eqn:HH; [|done]. injection Hk as ->.
  destruct (decide (filter (fun x : Z * nat => (k < x.2)%nat) (q_acked q) = ∅)) as [He|[rid [n Hn]]%map_choose].
  { unfold ackers in Hq. rewrite He, map_size_empty in Hq. lia. }
  apply map_lookup_filter_Some in Hn as [Hn Hlt]. simpl in Hlt.
  destruct (Hak rid) as [ln Hln]; [by eexists|]. exists k, req, rid, ln. split; [done|]. split; [done|]. split; [done|].
  destruct (HL _ _ Hln) as (sl & base & h & a & Hok). rewrite Hn in Hok. rewrite (lo_acked _ _ _ _ _ _ _ _ _ _ _ _ Hok).
  pose proof (lo_handled _ _ _ _ _ _ _ _ _ _ _ _ Hok). simpl in *. lia.
Qed.

Lemma slots_content_init c SL final A shard_id rid ct st sd s sl :
  storage_init shard_id rid ct st sd = Ok s -> server_ok s sl -> slots_content c SL final A s sl 0.
Proof.
  intros Hi H. pose proof (rep_fun _ _ _ (so_rep _ _ H) (so_rep _ _ (server_ok_init _ _ _ _ _ _ Hi))) as ->. by split.
Qed.

Lemma reader_init_good client_id shard_id SL final A v options r : reader_init v options = Some r -> reader_good client_id shard_id SL final A r.
Proof.
  unfold reader_init. destruct options as [[polling application] sequential]. destruct (subscriber_init _ _ _ _ _ _) as [[[[l polls] its] ?]|] eqn:E; [|done].
  intros [= <-]. unfold subscriber_init in E. inv_result. split; cbn [rd_posted rd_polls rd_log rd_read].
  - constructor.
  - apply Forall_replicate. by apply map_Forall_empty.
  - unfold log_good. cbn [SubscriberLog.log_init mem_]. repeat apply map_Forall_insert_2; apply map_Forall_empty.
  - apply Forall_replicate. constructor.
Qed.

Lemma readers_init_ok client_id shard_id failures u v oes o r servers threads subscribers final A :
  0 <= failures -> order_ok o -> order_events_ok oes o -> order_exec oes o = Ok r ->
  Forall (fun e => ~ storage_intro_event e) oes -> 0 <= shard_id < NUM_SHARDS ->
  (forall rid s, servers !! rid = Some s ->
     rid ∈ replicas o shard_id /\ exists ct st sd, storage_init shard_id rid ct st sd = Ok s) ->
  readers_ok client_id shard_id failures (slots_of_epochs (EpochSpec.epochs shard_id oes o)) final A
    (readers_init (sys_init shard_id u servers r.2) threads v subscribers).
Proof.
  intros Hf H Hok E Hs Hsid Hsv. split; cbn [readers_init rd_system rd_readers].
  - exists (Quorum [] ∅ ∅), []. by apply sys_init_ok.
  - intros rid ln sl Hl Hln. cbn [sys_init sy_links] in Hl. rewrite map_lookup_imap in Hl. destruct (servers !! rid) as [s|] eqn:Hsr; [|done].
    injection Hl as <-. destruct (Hsv _ _ Hsr) as (_ & ct & st & sd & Hi). by eapply slots_content_init.
  - intros sid s Hrd. rewrite lookup_omap in Hrd. destruct (subscribers !! sid); [|done]. by eapply reader_init_good.
Qed.

(** An application thread of the subscriber has read the entry of the client. *)
Definition reads (client_id shard_id sid : Z) (e : subscriber_log_entry) (x : readers) : Prop :=
  sle_shard_id e = shard_id /\ sle_client_id e = client_id /\
  exists r read, rd_readers x !! sid = Some r /\ read ∈ rd_read r /\ e ∈ read.

Lemma read_is_good client_id shard_id SL final A sid e x :
  map_Forall (fun _ => reader_good client_id shard_id SL final A) (rd_readers x) -> reads client_id shard_id sid e x ->
  written (take A (gsns client_id SL final)) final e.
Proof.
  intros H (Hs & Hc & r & read & Hr & Hread & He). pose proof (rg_read _ _ _ _ _ _ (H _ _ Hr)) as Hg.
  rewrite Forall_forall in Hg. specialize (Hg read Hread). rewrite Forall_forall in Hg. by apply Hg.
Qed.

(** Entries at the same GSN agree. *)
Lemma written_agree (G : list Z) sent e e' :
  (forall i j a b, (i < j)%nat -> G !! i = Some a -> G !! j = Some b -> a < b) ->
  written G sent e -> written G sent e' -> sle_gsn e = sle_gsn e' ->
  sle_data_length e = sle_data_length e' /\ (0 < sle_data_length e -> sle_data e = sle_data e').
Proof.
  intros Hinc [[Hl Hg]|(k & response & req & Hk & Hg & Hl & Hd)] [[Hl' Hg']|(k' & response' & req' & Hk' & Hg' & Hl' & Hd')] Heq.
  - lia.
  - destruct Hg. rewrite Heq. by eapply list_elem_of_lookup_2.
  - destruct Hg'. rewrite <- Heq. by eapply list_elem_of_lookup_2.
  - assert (k = k') as <-.
    { destruct (Nat.lt_total k k') as [Hlt|[|Hlt]]; [exfalso|done|exfalso];
        pose proof (Hinc _ _ _ _ Hlt ltac:(eassumption) ltac:(eassumption)); lia. }
    rewrite Hk in Hk'. injection Hk' as <- <-. by rewrite Hl, Hd, Hl', Hd'.
Qed.

(** C2: subscribers read what clients wrote, and agree.  A client, the storage servers of its
    shard with their subscriber threads, and subscribers with any numbers of threads run in any
    interleaving, with messages that are delayed without bound and that a subscriber receives in
    any order; the environment is as for the durability of responses, and when the client ends,
    in order or by a failure, a replica finalizes it after all replicas have disconnected it with
    the same number of requests acknowledged (its log is not patched).  The GSNs of the
    requests increase, and every response is the GSN of its request; every entry of the client that
    an application thread of a subscriber reads is the payload of the request that has its GSN,
    or it is empty and no request has its GSN; and what two subscribers read at the same GSN is
    the same. *)
Theorem reads_match_responses client_id shard_id failures estimate connect u v oes o r servers threads subscribers es x :
  0 <= failures < UINT64_MAX -> order_ok o -> order_events_ok oes o -> order_exec oes o = Ok r ->
  Forall (fun e => ~ storage_intro_event e) oes -> 0 <= shard_id < NUM_SHARDS ->
  (forall rid s, servers !! rid = Some s ->
     rid ∈ replicas o shard_id /\ exists ct st sd, storage_init shard_id rid ct st sd = Ok s) ->
  let r0 := readers_init (sys_init shard_id u servers r.2) threads v subscribers in
  Z.of_nat (length es) < W64 -> reader_events_ok client_id shard_id failures estimate connect es r0 ->
  reader_run client_id shard_id failures estimate connect es r0 = Some x ->
  let sent := sy_sent (rd_system x) in
  exists G : list Z, (forall i j a b, (i < j)%nat -> G !! i = Some a -> G !! j = Some b -> a < b) /\
    (forall loc g, responses (c_memory (sy_client (rd_system x))) !! loc = Some g -> g <> UINT64_MAX ->
     exists k req, sent !! k = Some (Some loc, req) /\ G !! k = Some g) /\
    (forall sid e, reads client_id shard_id sid e x -> written G sent e) /\
    (forall sid sid' e e', reads client_id shard_id sid e x -> reads client_id shard_id sid' e' x ->
     sle_gsn e = sle_gsn e' -> sle_data_length e = sle_data_length e' /\ (0 < sle_data_length e -> sle_data e = sle_data e')).
Proof.
  intros Hf H Hok E Hs Hsid Hsv r0 Hlen He Hx sent.
  pose proof (epochs_consecutive oes o r shard_id H Hok E) as Hc. pose proof (ok_gsn _ H) as Hg.
  pose proof (slots_of_epochs_increasing _ _ Hc) as Hinc.
  assert (forall y, y ∈ slots_of_epochs (EpochSpec.epochs shard_id oes o) -> 0 <= y.2 < UINT64_MAX) as Hrange.
  { intros y Hy. apply (slots_of_epochs_bounds _ _ _ Hc) in Hy. lia. }
  destruct (orderly_bounded _ _ _ _ _ _ _ He) as [A Hbd].
  destruct (reader_run_ok client_id shard_id failures estimate connect Hf _ Hinc Hrange sent A es r0 x)
    as [[(q & l & Hend) _ Hread] HA]; [by apply readers_init_ok; [lia|..]|done..|].
  exists (take A (gsns client_id (slots_of_epochs (EpochSpec.epochs shard_id oes o)) sent)).
  assert (forall i j a b, (i < j)%nat -> take A (gsns client_id (slots_of_epochs (EpochSpec.epochs shard_id oes o)) sent) !! i = Some a ->
    take A (gsns client_id (slots_of_epochs (EpochSpec.epochs shard_id oes o)) sent) !! j = Some b -> a < b) as HG.
  { intros i j a b Hij [Ha _]%lookup_take_Some [Hb _]%lookup_take_Some. by eapply G_increasing. }
  split_and!; [done| | |].
  - intros loc g Hr Hg'. destruct (sys_ok_acked _ _ _ _ _ _ _ _ _ (proj1 Hf) Hend Hr Hg') as (k & req & rid & ln & ? & ? & Hl & Hk).
    exists k, req. split; [done|]. specialize (HA _ _ Hl). simpl in HA. by rewrite lookup_take_lt by lia.
  - intros sid e Hr. by eapply read_is_good.
  - intros sid sid' e e' Hr Hr' Hge. eapply (written_agree _ sent); [exact HG|by eapply read_is_good|by eapply read_is_good|done].
Qed.

(** The run of the system with two subscribers: the client stops after its request is answered,
    both replicas finalize it and the other client, and a subscriber reads the request's payload
    and the two empty entries after it, while the other one has read the first of them. *)
Definition example_finalize (c : Z) : Storage.event := EControl [] (MStorageClientFinalize (StorageClientFinalize c)).

Definition example_end : list sys_event := [
  AtClient (Round true 11000003 []);
  AtServer 0 (Storage.EFailure (ClientIntro 3 0 0)); AtServer 0 (example_finalize 3); AtServer 1 (example_finalize 3);
  AtServer 0 (EAddClient 5); AtServer 0 (Storage.EFailure (ClientIntro 5 0 0)); AtServer 1 (Storage.EFailure (ClientIntro 5 0 0));
  AtServer 0 (example_finalize 5); AtServer 1 (example_finalize 5)].

Definition example_reader_events : list reader_event :=
  (InSystem <$> [AtServer 0 (EAddSubscriber 9 1); AtServer 1 (EAddSubscriber 9 1); AtServer 0 (EAddSubscriber 8 1);
                 AtServer 1 (EAddSubscriber 8 1)]) ++
  [Posts 0 0; Posts 0 0; Posts 1 0; Posts 1 0] ++ (InSystem <$> example_system_events ++ example_end) ++
  [Posts 0 0; Posts 1 0; Posts 0 0; Posts 1 0; Posts 0 0; Posts 1 0] ++
  (AtSubscriber 9 <$> [Polls 0 1; Polls 0 1; Polls 0 0; Reads 0; Polls 0 0; Reads 0; Polls 0 0; Polls 0 0; Reads 0; Reads 0]) ++
  (AtSubscriber 8 <$> [Polls 0 0; Polls 0 0; Reads 0; Recycles]).

Definition example_readers_init : readers :=
  readers_init example_system_init 1 0 (<[9 := (1, 1, false)]> (<[8 := (1, 1, true)]> ∅)).

Abbreviation example_reader_run := (Readers.reader_run 3 0 1 None ClientSpec.example_server example_reader_events).

Lemma example_reader_events_ok :
  Readers.reader_events_ok 3 0 1 None ClientSpec.example_server example_reader_events example_readers_init.
Proof. refine (bool_decide_unpack _ _). vm_compute. exact I. Qed.

Definition example_readers : readers :=
  match example_reader_run example_readers_init with Some r => r | None => example_readers_init end.

Lemma example_readers_run : example_reader_run example_readers_init = Some example_readers.
Proof.
  assert (is_Some (example_reader_run example_readers_init)) as [x E].
  { refine (bool_decide_unpack _ _). vm_compute. exact I. }
  unfold example_readers. by rewrite E.
Qed.

(** What the application threads of a subscriber have read. *)
Definition example_read (sid : Z) : list (list (Z * Z * list Byte.byte)) :=
  match rd_readers example_readers !! sid with
  | Some r => map (map (fun e => (sle_client_id e, sle_gsn e, sle_data e))) (rd_read r)
  | None => []
  end.

Lemma reads_match_responses_witness :
  let x := example_readers in let sent := sy_sent (rd_system x) in
  example_read 9 = [[(3, 0, [Byte.x01; Byte.x02]); (5, 1, []); (3, 2, [])]] /\ example_read 8 = [[(3, 0, [Byte.x01; Byte.x02])]] /\
  exists G : list Z, (forall i j a b, (i < j)%nat -> G !! i = Some a -> G !! j = Some b -> a < b) /\
    (forall loc g, responses (c_memory (sy_client (rd_system x))) !! loc = Some g -> g <> UINT64_MAX ->
     exists k req, sent !! k = Some (Some loc, req) /\ G !! k = Some g) /\
    (forall sid e, reads 3 0 sid e x -> written G sent e) /\
    (forall sid sid' e e', reads 3 0 sid e x -> reads 3 0 sid' e' x ->
     sle_gsn e = sle_gsn e' -> sle_data_length e = sle_data_length e' /\ (0 < sle_data_length e -> sle_data e = sle_data e')).
Proof.
  intros x sent. split; [vm_compute; reflexivity|]. split; [vm_compute; reflexivity|].
  apply (reads_match_responses 3 0 1 None ClientSpec.example_server 0 0 example_rounds example_connected
           (example_order example_rounds example_connected) example_servers 1 (<[9 := (1, 1, false)]> (<[8 := (1, 1, true)]> ∅))
           example_reader_events).
  - split; discriminate || reflexivity.
  - exact example_connected_ok.
  - exact example_rounds_ok.
  - vm_compute; reflexivity.
  - exact no_intro_rounds.
  - split; discriminate || reflexivity.
  - exact example_servers_ok.
  - reflexivity.
  - exact example_reader_events_ok.
  - exact example_readers_run.
Defined.

(** A subscriber that is added after the storage threads have passed the first entries is never
    sent them: its reader waits at the first entry although all messages have arrived. *)
Definition late_events : list reader_event :=
  (InSystem <$> example_system_events ++ example_end) ++
  [Posts 0 0; Posts 1 0] ++ (InSystem <$> [AtServer 0 (EAddSubscriber 8 1); AtServer 1 (EAddSubscriber 8 1)]) ++
  [Posts 0 0; Posts 1 0; Posts 0 0; Posts 1 0] ++
  (AtSubscriber 8 <$> [Polls 0 0; Polls 0 0; Polls 0 0; Polls 0 0; Reads 0; Reads 0; Reads 0]).

Lemma late_subscriber_waits :
  match Readers.reader_run 3 0 1 None ClientSpec.example_server late_events (readers_init example_system_init 1 0 (<[8 := (1, 1, false)]> ∅)) with
  | Some x => (fun r => (rd_posted r, rd_read r, (fun m => sle_gsn <$> m) <$> mem_ (rd_log r) !! 0%nat)) <$> rd_readers x !! 8
  | None => None
  end = Some ([], [[]], Some (<[1 := 1]> (<[2 := 2]> ∅))).
Proof. vm_compute. reflexivity. Qed.
