(* ===== verification/ReadersOrder.v ===== *)
(** * Subscribers read in the total order

    The other end-to-end property of the readers: the storage threads distribute the slots of the
    shard over their subscribers' polling threads in a way that depends on nothing but the slot,
    so every subscriber inserts every slot once, and its application threads read the slots in
    the order of their GSNs, without a gap. *)
From S2P Require Import Prelude Consts Util Api StorageLog Interleave LogInv StorageLogSpec Storage StorageSpec Order OrderSpec EpochSpec.
From S2P Require Import SubscriberLog SubscriberLogSpec Subscriber Client ClientSpec ClientAckSpec System SystemSpec Readers ReadersSpec.

#[local] Opaque NUM_ENTRIES_PER_BLOCK.

(** ** Where the storage threads send a slot *)

Section posting.
Variables shard_id T : Z.
Hypothesis T_pos : 0 < T.
Variable SL : list (Z * Z).

(** The number of polling threads of every subscriber. *)
Variable N : gmap Z Z.

(** The message is that of a slot of the shard: it comes from the storage thread and goes to the
    receive queue that the place of the slot determines; [n] is the number of polling threads. *)
Definition routed (n : Z) (x : Z * subscriber_log_entry) : Prop :=
  exists i, SL !! i = Some (sle_client_id x.2, sle_gsn x.2) /\ sle_shard_id x.2 = shard_id /\
    sle_thread_id x.2 = Z.of_nat i mod T /\ x.1 = wrap64 (1 + Z.of_nat i mod n).

Definition agrees (sid n : Z) : Prop := forall m, N !! sid = Some m -> n = m.

Definition change_agrees (c : change) : Prop := match c with Added sid n => agrees sid n | Removed _ => True end.

(** A storage thread that has posted [k] slots. *)
Record thread_ok (sl : list (Z * Z)) (index : Z) (t : subscriber_thread) : Prop := {
  th_index : t_index t = index /\ 0 <= index < T;
  th_subscribers : map_Forall agrees (t_subscribers t);
  th_sent : exists k, t_num_sent t = index + Z.of_nat k * T /\ iterating (t_log t) sl index T k }.

Lemma thread_ok_app sl new index t : thread_ok sl index t -> thread_ok (sl ++ new) index t.
Proof. intros [H1 H2 (k & ? & ?)]. split; [done|done|]. exists k. split; [done|]. by apply iterating_app. Qed.

Lemma bag_get_agrees r b c r' : Forall change_agrees (bag_list_ b) -> bag_get r b = Ok (Some c, r') -> change_agrees c.
Proof. unfold bag_get. intros H E. destruct (_ <? _); [|done]. inv_result. by eapply Forall_lookup_1. Qed.

Lemma apply_change_ok c s t t' out :
  change_agrees c -> map_Forall agrees (t_subscribers t) -> apply_change c s t = Ok (t', out) ->
  map_Forall agrees (t_subscribers t') /\ t_index t' = t_index t /\ t_num_sent t' = t_num_sent t /\ t_log t' = t_log t.
Proof.
  intros Hc Ht E. destruct c as [sid n|sid]; cbn [apply_change] in E.
  - injection E as <- <-. split; [|done]. cbn [t_subscribers]. destruct (t_subscribers t !! sid); [done|]. by apply map_Forall_insert_2.
  - inv_result. split; [|done]. by apply map_Forall_delete.
Qed.

(** A round of a storage thread. *)
Lemma round_routed s sl rest index t t' out :
  server_ok s sl -> sl ++ rest = SL -> st_shard_id_ s = shard_id -> st_subscriber_threads_ s = T ->
  Z.of_nat (length sl) + T < W64 -> Forall change_agrees (bag_list_ (st_subscriber_changes_ s)) -> thread_ok sl index t ->
  subscriber_round s t = Ok (t', out) ->
  thread_ok sl index t' /\ forall sid n, N !! sid = Some n -> Forall (routed n) (posted sid out).
Proof.
  intros H HSL Hsh HT Hb Hbag [[Hi Hir] Hsub (k & Hk & Hit)] E. unfold subscriber_round in E.
  destruct (bag_get _ _) as [[c changes]|] eqn:Eb; [|done]. cbn [mbind result_bind] in E.
  destruct (match c with Some c => _ | None => _ end) as [[t1 out1]|] eqn:Ec; [|done]. cbn [mbind result_bind] in E.
  assert (map_Forall agrees (t_subscribers t1) /\ t_index t1 = index /\ t_num_sent t1 = index + Z.of_nat k * T /\ t_log t1 = t_log t /\
    forall sid, posted sid out1 = []) as (Hsub1 & Hi1 & Hk1 & Hl1 & Hp1).
  { destruct c as [c|]; [|by injection Ec as <- <-].
    pose proof (fun sid => apply_change_posted sid _ _ _ _ _ Ec) as Hp. apply apply_change_ok in Ec; [|by eapply bag_get_agrees|done].
    destruct Ec as (? & Hi1 & Hk1 & ?). cbn [t_index t_num_sent] in *. rewrite Hi1, Hk1. by split_and!. }
  rewrite Hl1 in E. pose proof H as [Hrep _ _ Hnum _ _].
  destruct (next_entry_ok (t_log t) (st_log_ s) sl index T k Hrep Hnum (proj1 Hir) T_pos Hit Hb) as (r & it & Ei & Hr). rewrite Ei in E.
  cbn [mbind result_bind] in E. destruct r as [q|].
  - destruct (decide (index + Z.of_nat k * T < Z.of_nat (length sl))) as [Hlt|]; [|by destruct Hr].
    destruct (e_set _) eqn:Hset; [|by destruct Hr]. destruct Hr as [[= ->] Hit'].
    destruct (post_entry _ s t1) as [out2|] eqn:Ep; [|done]. cbn [mbind result_bind] in E. injection E as <- <-. split.
    + split; cbn [t_index t_subscribers t_num_sent t_log]; [done|done|]. exists (S k). split; [|done].
      rewrite HT, Hk1, wrap64_small by nia. lia.
    + intros sid n Hn. rewrite posted_app, Hp1. cbn [app]. apply Forall_forall. intros x Hx.
      destruct (post_entry_posted _ _ _ _ _ _ Ep Hx) as ((Hc & Hg & _) & Hs & Ht & n' & Hn' & Hq).
      pose proof (Hsub1 _ _ Hn' _ Hn) as ->. set (i := Z.to_nat (index + Z.of_nat k * T)) in *.
      assert (Z.of_nat i = index + Z.of_nat k * T) as Hiz by (unfold i; nia).
      destruct (lookup_lt_is_Some_2 sl i) as [[c' g'] Hsl]; [lia|]. destruct (rep_some _ _ Hrep _ _ _ Hsl) as (_ & Hc' & Hg').
      exists i. rewrite Hc, Hg, Hc', Hg', Hs, Ht, Hq, Hi1, Hk1, Hiz. split_and!; [|done| |done].
      * rewrite <- HSL. by apply lookup_app_l_Some.
      * rewrite Z.mod_add by lia. by rewrite Z.mod_small.
  - injection E as <- <-. split; [|intros sid n _; rewrite Hp1; constructor].
    split; cbn [t_index t_subscribers t_num_sent t_log]; [done|done|]. exists k. split; [done|].
    destruct (decide _); [destruct (e_set _)|]; by destruct Hr.
Qed.

Lemma thread_init s sl index :
  0 <= index < T -> st_subscriber_threads_ s = T -> thread_ok sl index (subscriber_thread_init index s).
Proof.
  intros Hi HT. split; cbn [subscriber_thread_init t_index t_subscribers t_num_sent t_log]; [done|apply map_Forall_empty|].
  exists 0%nat. split; [lia|]. rewrite HT. apply iterating_init. lia.
Qed.
End posting.

(** ** What a subscriber does with it *)

Section reading.
Variables shard_id T : Z.
Variable SL : list (Z * Z).
Hypothesis SL_increasing : gsns_increasing SL.
Hypothesis SL_range : forall x, x ∈ SL -> 0 <= x.2 < GSN_BOUND.

(** The number of polling threads, and where the application threads start and how far they step. *)
Variable n : Z.
Variable ws : list (Z * Z).
Hypothesis ws_covering : covering ws.
Hypothesis ws_length : Z.of_nat (length ws) < MAX_STEP.

Abbreviation routed := (routed shard_id T SL n).

(** What the polling thread [j] counts or inserts. *)
Definition arrived (j : nat) (g : Z) (e : subscriber_log_entry) : Prop := sle_gsn e = g /\ routed (Z.of_nat j + 1, e).

(** The entry has been inserted at the position that its place determines. *)
Definition placed (lasts : list Z) (keys : list (nat * (Z * Z))) (g : Z) (e : subscriber_log_entry) : Prop :=
  exists i j idx last, SL !! i = Some (sle_client_id e, g) /\ wrap64 (1 + Z.of_nat i mod n) = Z.of_nat j + 1 /\
    keys !! idx = Some (j, (shard_id, Z.of_nat i mod T)) /\ lasts !! idx = Some last /\ g <= last.

(** The log with the positions of all polling threads, which are named by [keys]: the thread and
    the storage thread whose entries it counts.  [D] are the entries inserted so far. *)
Record delivers (D : gmap Z subscriber_log_entry) (lasts : list Z) (keys : list (nat * (Z * Z))) (positions : list SubscriberLog.position)
    (r : reader) : Prop := {
  dl_log : system_ok ws D lasts (SubscriberLogSpec.System (rd_log r) positions (rd_iterators r) (rd_read r));
  dl_keys : NoDup keys;
  dl_length : length keys = length positions;
  dl_key j p key gsn pos : rd_polls r !! j = Some p -> shard_info p !! key = Some (gsn, pos) ->
    exists idx, keys !! idx = Some (j, key) /\ positions !! idx = Some pos /\
      lasts !! idx = Some (if gsn =? UINT64_MAX then -1 else gsn);
  dl_known idx j key : keys !! idx = Some (j, key) -> exists p x, rd_polls r !! j = Some p /\ shard_info p !! key = Some x;
  dl_entries : map_Forall (placed lasts keys) D;
  dl_requests j p : rd_polls r !! j = Some p -> map_Forall (arrived j) (current_requests p);
  dl_posted : Forall (fun x => routed x \/ NUM_SHARDS <= sle_shard_id x.2) (rd_posted r) }.

Definition with_polls (ps : list poll_state) (r : reader) : reader :=
  Reader (rd_posted r) ps (rd_log r) (rd_iterators r) (rd_read r).

Lemma dl_lasts D lasts keys positions r : delivers D lasts keys positions r -> length lasts = length keys.
Proof. intros H. rewrite (dl_length _ _ _ _ _ H). exact (Forall2_length _ _ _ (sk_positions _ _ _ _ (dl_log _ _ _ _ _ H))). Qed.

(** Only the requests in flight have changed. *)
Lemma set_requests D lasts keys positions r j p p' :
  delivers D lasts keys positions r -> rd_polls r !! j = Some p -> shard_info p' = shard_info p -> map_Forall (arrived j) (current_requests p') ->
  delivers D lasts keys positions (with_polls (<[j := p']> (rd_polls r)) r).
Proof.
  intros [H1 H2 H3 H4 H5 H6 H7 H8] Hj Hs Hr. pose proof (lookup_lt_Some _ _ _ Hj) as Hlt. split; cbn [with_polls rd_log rd_polls rd_iterators rd_read rd_posted]; try done.
  - intros j' q key gsn pos Hq Hk. apply list_lookup_insert_Some in Hq as [(<- & <- & _)|[_ Hq]]; [rewrite Hs in Hk|]; by eapply H4.
  - intros idx j' key Hk. destruct (H5 _ _ _ Hk) as (q & x & Hq & Hx). destruct (decide (j = j')) as [<-|Hne].
    + exists p', x. rewrite list_lookup_insert_eq by done. split; [done|]. rewrite Hs. congruence.
    + exists q, x. by rewrite list_lookup_insert_ne.
  - intros j' q Hq. apply list_lookup_insert_Some in Hq as [(<- & <- & _)|[_ Hq]]; [done|by apply H7].
Qed.

(** The polling thread looks up its state for a storage thread, and begins with none. *)
Lemma begin_key D lasts keys positions r j p key :
  delivers D lasts keys positions r -> rd_polls r !! j = Some p ->
  exists lasts' keys' positions', delivers D lasts' keys' positions' (with_polls (<[j := PollState (current_requests p)
    (<[key := default (UINT64_MAX, position_init) (shard_info p !! key)]> (shard_info p))]> (rd_polls r)) r).
Proof.
  intros H Hj. destruct (shard_info p !! key) as [x|] eqn:Hx; cbn [default].
  { exists lasts, keys, positions. rewrite insert_id by done. by apply (set_requests _ _ _ _ _ _ p); [done|done|done|exact (dl_requests _ _ _ _ _ H _ _ Hj)]. }
  pose proof (dl_lasts _ _ _ _ _ H) as Hll. destruct H as [H1 H2 H3 H4 H5 H6 H7 H8]. pose proof (lookup_lt_Some _ _ _ Hj) as Hlt.
  assert ((j, key) ∉ keys) as Hnew.
  { intros [idx Hi]%list_elem_of_lookup. destruct (H5 _ _ _ Hi) as (q & y & Hq & Hy). congruence. }
  destruct (act_ok ws D lasts _ NewPosition (proj1 ws_covering) ltac:(done) ws_length H1 I) as [|(s & [= <-] & H1')]; [done|].
  exists (lasts ++ [-1]), (keys ++ [(j, key)]), (positions ++ [position_init]).
  split; cbn [with_polls rd_log rd_polls rd_iterators rd_read rd_posted]; try done.
  - apply NoDup_app. split; [done|]. split; [|apply NoDup_singleton]. intros y Hy ->%list_elem_of_singleton. done.
  - rewrite !length_app. simpl. lia.
  - intros j' q key' gsn pos Hq Hk. apply list_lookup_insert_Some in Hq as [(<- & <- & _)|[Hne Hq]].
    + cbn [shard_info] in Hk. apply lookup_insert_Some in Hk as [[<- [= <- <-]]|[Hne Hk]].
      * exists (length keys). rewrite Z.eqb_refl. split; [by rewrite lookup_app_r, Nat.sub_diag by done|]. rewrite H3 at 1. rewrite <- Hll.
        by rewrite !lookup_app_r, Hll, H3, Nat.sub_diag by lia.
      * destruct (H4 _ _ _ _ _ Hj Hk) as (idx & ? & ? & ?). exists idx. split_and!; by apply lookup_app_l_Some.
    + destruct (H4 _ _ _ _ _ Hq Hk) as (idx & ? & ? & ?). exists idx. split_and!; by apply lookup_app_l_Some.
  - intros idx j' key' Hk. apply lookup_app_Some in Hk as [Hk|[_ [_ [= <- <-]]%list_lookup_singleton_Some]].
    + destruct (H5 _ _ _ Hk) as (q & y & Hq & Hy). destruct (decide (j = j')) as [<-|Hne].
      * eexists _, y. rewrite list_lookup_insert_eq by done. split; [done|]. cbn [shard_info]. assert (q = p) as -> by congruence.
        rewrite lookup_insert_ne; [done|]. intros <-. congruence.
      * exists q, y. by rewrite list_lookup_insert_ne.
    + eexists _, _. rewrite list_lookup_insert_eq by done. split; [done|]. cbn [shard_info]. by rewrite lookup_insert_eq.
  - eapply map_Forall_impl; [exact H6|]. intros g e (i & j' & idx & last & ? & ? & ? & ? & ?). exists i, j', idx, last.
    split_and!; try done; by apply lookup_app_l_Some.
  - intros j' q Hq. apply list_lookup_insert_Some in Hq as [(<- & <- & _)|[_ Hq]]; [by apply (H7 j p)|by apply H7].
Qed.

Definition with_log (l : SubscriberLog.log) (r : reader) : reader :=
  Reader (rd_posted r) (rd_polls r) l (rd_iterators r) (rd_read r).

(** An entry that a quorum has sent is inserted once, after all earlier ones of its position. *)
Lemma deliver_entry D lasts keys positions r j p requests e y gsn pos pos' l' :
  delivers D lasts keys positions r -> rd_polls r !! j = Some p -> routed (Z.of_nat j + 1, e) -> arrived j (sle_gsn e) y ->
  shard_info p !! (sle_shard_id e, sle_thread_id e) = Some (gsn, pos) -> gsn = UINT64_MAX \/ gsn < sle_gsn e ->
  position_insert y pos (rd_log r) = Ok (pos', l') -> map_Forall (arrived j) requests ->
  exists D' lasts' positions', delivers D' lasts' keys positions' (with_log l' (with_polls
    (<[j := PollState requests (<[(sle_shard_id e, sle_thread_id e) := (sle_gsn e, pos')]> (shard_info p))]> (rd_polls r)) r)).
Proof.
  intros H Hj (i & Hi & Hsh & Hth & Hq) [Hyg (i2 & Hi2 & _)] Hx Hlt E Hreq. cbn [fst snd] in *. pose proof (lookup_lt_Some _ _ _ Hj) as Hjlt.
  rewrite Hyg in Hi2. assert (i2 = i) as -> by (by eapply (gsn_index SL)). rewrite Hsh, Hth in *.
  pose proof (dl_lasts _ _ _ _ _ H) as Hll. destruct H as [H1 H2 H3 H4 H5 H6 H7 H8].
  destruct (H4 _ _ _ _ _ Hj Hx) as (idx & Hk & Hpos & Hlast).
  assert (0 <= sle_gsn e < GSN_BOUND) as Hg by (apply (SL_range (sle_client_id e, sle_gsn e)); by eapply list_elem_of_lookup_2).
  set (last := if gsn =? UINT64_MAX then -1 else gsn) in *.
  assert (last < sle_gsn e) as Hl.
  { unfold last. destruct (Z.eqb_spec gsn UINT64_MAX) as [->|]; [lia|]. destruct Hlt as [->|]; [done|done]. }
  assert (D !! sle_gsn e = None) as Hfresh.
  { destruct (D !! sle_gsn e) as [e0|] eqn:He0; [|done]. destruct (H6 _ _ He0) as (i' & j' & idx' & last' & Hi' & Hj' & Hk' & Hl' & Hle).
    assert (i' = i) as -> by (by eapply (gsn_index SL)). assert (j' = j) as -> by lia.
    assert (idx' = idx) as -> by (by eapply NoDup_lookup). rewrite Hlast in Hl'. injection Hl' as <-. lia. }
  destruct (act_ok ws D lasts _ (SubscriberLogSpec.Insert idx y) (proj1 ws_covering) ltac:(done) ws_length H1) as [Ha|(s & Ha & H1')].
  { exists last. by rewrite Hyg. }
  { cbn [act sys_positions sys_log] in Ha. rewrite Hpos in Ha. cbn [deref mbind result_bind] in Ha. by rewrite E in Ha. }
  cbn [act sys_positions sys_log sys_walkers sys_read] in Ha. rewrite Hpos in Ha. cbn [deref mbind result_bind] in Ha. rewrite E in Ha. injection Ha as <-.
  cbn [next_entries next_lasts] in H1'. rewrite Hyg in H1'.
  exists (<[sle_gsn e := y]> D), (<[idx := sle_gsn e]> lasts), (<[idx := pos']> positions).
  pose proof (lookup_lt_Some _ _ _ Hk) as Hidx.
  split; cbn [with_log with_polls rd_log rd_polls rd_iterators rd_read rd_posted]; try done.
  - by rewrite length_insert.
  - intros j' q key gsn' pos0 Hq' Hkey.
    apply list_lookup_insert_Some in Hq' as [(<- & <- & _)|[Hne Hq']]; cbn [shard_info] in *.
    + apply lookup_insert_Some in Hkey as [[<- [= <- <-]]|[Hne Hkey]].
      * exists idx. rewrite !list_lookup_insert_eq by lia. split_and!; try done.
        destruct (Z.eqb_spec (sle_gsn e) UINT64_MAX) as [Hm|]; [|done]. change GSN_BOUND with 4611686018427387904 in Hg. unfold UINT64_MAX in Hm. lia.
      * destruct (H4 _ _ _ _ _ Hj Hkey) as (idx' & Hk' & ? & ?). exists idx'. assert (idx <> idx') as Hn by (intros ->; congruence).
        by rewrite !list_lookup_insert_ne.
    + destruct (H4 _ _ _ _ _ Hq' Hkey) as (idx' & Hk' & ? & ?). exists idx'. assert (idx <> idx') as Hn by (intros ->; congruence).
      by rewrite !list_lookup_insert_ne.
  - intros idx' j' key Hk'. destruct (H5 _ _ _ Hk') as (q & x & Hq' & Hx'). destruct (decide (j = j')) as [<-|Hne].
    + assert (q = p) as -> by congruence. rewrite list_lookup_insert_eq by done.
      destruct (decide ((shard_id, Z.of_nat i mod T) = key)) as [<-|Hne].
      * eexists _, _. split; [done|]. cbn [shard_info]. by rewrite lookup_insert_eq.
      * eexists _, x. split; [done|]. cbn [shard_info]. by rewrite lookup_insert_ne.
    + exists q, x. by rewrite list_lookup_insert_ne.
  - apply map_Forall_insert_2.
    + exists i, j, idx, (sle_gsn e). rewrite list_lookup_insert_eq by lia. split_and!; try done; lia.
    + eapply map_Forall_impl; [exact H6|]. intros g e' (i' & j' & idx' & last' & ? & ? & ? & Hl' & ?).
      destruct (decide (idx = idx')) as [<-|Hne].
      * exists i', j', idx, (sle_gsn e). rewrite list_lookup_insert_eq by lia. split_and!; try done. rewrite Hlast in Hl'. injection Hl' as <-. lia.
      * exists i', j', idx', last'. by rewrite list_lookup_insert_ne.
  - intros j' q Hq'. apply list_lookup_insert_Some in Hq' as [(<- & <- & _)|[_ Hq']]; [done|by apply H7].
Qed.

Lemma set_posted D lasts keys positions r es :
  delivers D lasts keys positions r -> Forall (fun x => routed x \/ NUM_SHARDS <= sle_shard_id x.2) es ->
  delivers D lasts keys positions (with_posted es r).
Proof. intros [H1 H2 H3 H4 H5 H6 H7 H8] He. by split. Qed.

Lemma polled_delivers D lasts keys positions r j p e failures p' l' :
  delivers D lasts keys positions r -> rd_polls r !! j = Some p -> routed (Z.of_nat j + 1, e) ->
  on_subscriber_log_entry failures e p (rd_log r) = Ok (p', l') ->
  exists D' lasts' keys' positions', delivers D' lasts' keys' positions' (with_log l' (with_polls (<[j := p']> (rd_polls r)) r)).
Proof.
  intros H Hj Hr E. unfold on_subscriber_log_entry in E. destruct (poll_entry failures e p) as [[p1 d]|] eqn:Ep; [|done]. cbn [mbind result_bind] in E.
  destruct (poll_entry_inv (arrived j) failures e p p1 d) as (Hreq & _ & Hd); [done|by split|exact (dl_requests _ _ _ _ _ H _ _ Hj)|done|].
  set (key := (sle_shard_id e, sle_thread_id e)) in *. set (x := default (UINT64_MAX, position_init) (shard_info p !! key)) in *.
  destruct (begin_key _ _ _ _ _ _ _ key H Hj) as (lasts1 & keys1 & positions1 & H1). fold x in H1.
  set (p0 := PollState (current_requests p) (<[key := x]> (shard_info p))) in *. pose proof (lookup_lt_Some _ _ _ Hj) as Hlt.
  assert (rd_polls (with_polls (<[j := p0]> (rd_polls r)) r) !! j = Some p0) as Hj1 by (cbn [with_polls rd_polls]; by rewrite list_lookup_insert_eq).
  destruct d as [y|].
  - destruct Hd as (Hy & Hg & Hi). rewrite Hi, lookup_insert_eq in E. cbn [deref mbind result_bind] in E.
    destruct (position_insert y x.2 (rd_log r)) as [[pos' l1]|] eqn:Ei; [|done]. cbn [mbind result_bind] in E. injection E as <- <-.
    destruct (deliver_entry _ _ _ _ _ _ _ (current_requests p1) e y x.1 x.2 pos' l1 H1 Hj1 Hr Hy) as (D' & lasts' & positions' & H2); [|done|done|done|].
    { cbn [p0 shard_info]. rewrite lookup_insert_eq. by destruct x. }
    exists D', lasts', keys1, positions'. revert H2. unfold with_log, with_polls. cbn [rd_polls rd_posted rd_log rd_iterators rd_read].
    rewrite list_insert_insert_eq. unfold p0. cbn [shard_info]. by rewrite !insert_insert_eq.
  - injection E as <- <-. exists D, lasts1, keys1, positions1.
    pose proof (set_requests _ _ _ _ _ _ _ p1 H1 Hj1 Hd Hreq) as H2. revert H2. unfold with_log, with_polls.
    cbn [rd_polls rd_posted rd_log rd_iterators rd_read]. by rewrite list_insert_insert_eq.
Qed.

(** A step of the subscriber. *)
Lemma subscriber_step_ordered failures D lasts keys positions r e r' :
  delivers D lasts keys positions r -> match e with Foreign _ e => NUM_SHARDS <= sle_shard_id e | _ => True end ->
  subscriber_step failures e r = Some r' -> exists D' lasts' keys' positions', delivers D' lasts' keys' positions' r'.
Proof.
  intros H He E. pose proof H as [H1 H2 H3 H4 H5 H6 H7 H8]. destruct e as [queue e|j m| |k]; cbn [subscriber_step] in E.
  - injection E as <-. exists D, lasts, keys, positions. apply set_posted; [done|]. apply Forall_app_2; [done|]. apply Forall_singleton. by right.
  - unfold poll_round in E. destruct (rd_polls r !! j) as [p|] eqn:Hj; [|done]. cbn [mbind option_bind] in E.
    destruct (rd_posted r !! m) as [[queue x]|] eqn:Hx; [|done]. cbn [mbind option_bind] in E. destruct (Z.eqb_spec queue (Z.of_nat j + 1)) as [->|]; [|done].
    destruct (on_subscriber_log_entry _ _ _ _) as [[p' l']|] eqn:Eo; [|done]. injection E as <-.
    destruct (Forall_lookup_1 _ _ _ _ H8 Hx) as [Hr|Hs].
    + destruct (polled_delivers _ _ _ _ _ _ _ _ _ _ _ H Hj Hr Eo) as (D' & lasts' & keys' & positions' & H'). exists D', lasts', keys', positions'.
      apply (set_posted _ _ _ _ _ (delete m (rd_posted r))) in H'; [exact H'|by apply Forall_delete].
    + unfold on_subscriber_log_entry, poll_entry in Eo. cbn [snd] in Hs. by rewrite (proj2 (Z.ltb_ge _ _) Hs) in Eo.
  - unfold recycle_round in E. destruct (recycle_blocks _) as [l'|] eqn:Er; [|done]. injection E as <-.
    destruct (act_ok ws D lasts _ SubscriberLogSpec.Recycle (proj1 ws_covering) (fun _ => ws_covering) ws_length H1 I) as [Ha|(s & Ha & H1')];
      cbn [act sys_log sys_positions sys_walkers sys_read] in Ha; rewrite Er in Ha; [done|]. injection Ha as <-.
    exists D, lasts, keys, positions. by split.
  - unfold read_round in E. destruct (rd_iterators r !! k) as [it|] eqn:Hit; [|done]. cbn [mbind option_bind] in E.
    destruct (rd_read r !! k) as [read|] eqn:Hk; [|done]. cbn [mbind option_bind] in E. unfold process_round in E.
    destruct (next_entry it (rd_log r)) as [[[d it'] l']|] eqn:En; [|done]. cbn [mbind result_bind] in E. injection E as <-.
    destruct (act_ok ws D lasts _ (SubscriberLogSpec.Next k) (proj1 ws_covering) ltac:(done) ws_length H1) as [Ha|(s & Ha & H1')].
    { cbn [action_ok]. rewrite <- (sk_walkers _ _ _ _ H1). by eapply lookup_lt_Some. }
    + cbn [act sys_log sys_positions sys_walkers sys_read] in Ha. rewrite Hit, Hk in Ha. cbn [deref mbind result_bind] in Ha. by rewrite En in Ha.
    + cbn [act sys_log sys_positions sys_walkers sys_read] in Ha. rewrite Hit, Hk in Ha. cbn [deref mbind result_bind] in Ha. rewrite En in Ha. injection Ha as <-.
      exists D, lasts, keys, positions. by split.
Qed.

Lemma subscriber_step_polls failures e r r' : subscriber_step failures e r = Some r' -> length (rd_polls r') = length (rd_polls r).
Proof.
  destruct e as [queue e|j m| |k]; cbn [subscriber_step]; intros E.
  - by injection E as <-.
  - unfold poll_round in E. destruct (rd_polls r !! j); [|done]. cbn [mbind option_bind] in E. destruct (rd_posted r !! m) as [[? ?]|]; [|done].
    cbn [mbind option_bind] in E. destruct (_ =? _); [|done]. destruct (on_subscriber_log_entry _ _ _ _) as [[]|]; [|done]. injection E as <-.
    cbn [rd_polls]. apply length_insert.
  - unfold recycle_round in E. destruct (recycle_blocks _); [|done]. by injection E as <-.
  - unfold read_round in E. destruct (rd_iterators r !! k); [|done]. cbn [mbind option_bind] in E. destruct (rd_read r !! k); [|done].
    cbn [mbind option_bind] in E. destruct (process_round _ _) as [[[[]]]|]; [|done]. by injection E as <-.
Qed.

(** What the application threads read. *)
Lemma delivers_read D lasts keys positions r k w read i e :
  delivers D lasts keys positions r -> ws !! k = Some w -> rd_read r !! k = Some read -> read !! i = Some e ->
  sle_gsn e = place w i /\ (sle_client_id e, sle_gsn e) ∈ SL.
Proof.
  intros H Hw Hrd Hi. pose proof (dl_log _ _ _ _ _ H) as Hs.
  destruct (lookup_lt_is_Some_2 (rd_iterators r) k) as [it Hit].
  { pose proof (sk_walkers _ _ _ _ Hs) as Hl. cbn [sys_walkers] in Hl. rewrite Hl. by eapply lookup_lt_Some. }
  destruct (sk_walker _ _ _ _ Hs _ _ _ _ Hw Hit Hrd) as [_ Hread]. specialize (Hread _ _ Hi).
  destruct (lo_entries _ _ (SubscriberLogSpec.sk_log _ _ _ _ Hs) _ _ Hread) as [Hg _]. split; [done|].
  destruct (dl_entries _ _ _ _ _ H _ _ Hread) as (i' & _ & _ & _ & Hi' & _). rewrite Hg. by eapply list_elem_of_lookup_2.
Qed.
End reading.

(** ** The whole system *)

Section ordered.
Variables client_id shard_id failures : Z.
Variable estimate : option pid.
Variable connect : sockaddr_in -> option (message * Z).
Hypothesis failures_range : 0 <= failures < UINT64_MAX.
Variable SL : list (Z * Z).
Hypothesis SL_increasing : gsns_increasing SL.
Hypothesis SL_range : forall x, x ∈ SL -> 0 <= x.2 < GSN_BOUND.
Variable final : list (option Z * storage_insert).

(** The number of storage threads of every server, and the walkers of the subscribers that read in
    parallel. *)
Variable T : Z.
Hypothesis T_range : 0 < T < MAX_STEP.
Variable W : gmap Z (list (Z * Z)).
Hypothesis W_ok : map_Forall (fun _ ws => covering ws /\ Z.of_nat (length ws) < MAX_STEP) W.

Abbreviation sys_ok := (SystemSpec.sys_ok client_id failures SL final).
Abbreviation sys_step := (System.sys_step client_id shard_id failures estimate connect).
Abbreviation reader_step := (Readers.reader_step client_id shard_id failures estimate connect).

(** The slots of a server, before a step and after it. *)
Lemma sys_step_host e x q l x' rid ln' :
  sys_ok x q l -> sys_event_ok client_id e x -> sys_step e x = Some x' -> sy_links x' !! rid = Some ln' ->
  exists ln, sy_links x !! rid = Some ln /\
    (forall sl', server_ok (ln_server ln') sl' -> exists sl new, server_ok (ln_server ln) sl /\ sl' = sl ++ new) /\
    (ln_server ln' = ln_server ln \/ exists e', e = AtServer rid e' /\ same_host e' (ln_server ln) (ln_server ln')).
Proof.
  intros H He E Hl.
  assert (forall s sl', server_ok s sl' -> exists sl new, server_ok s sl /\ sl' = sl ++ new) as Hrefl.
  { intros s sl' Hs. exists sl', []. by rewrite app_nil_r. }
  destruct e as [e|rid' e]; cbn [System.sys_step] in E.
  - unfold client_step in E. destruct (step _ _ _ _ _ _ _) as [[c' out]|]; [|done].
    destruct (collect _ _) as [L|] eqn:Ec; [|done]. cbn [mbind option_bind] in E. injection E as <-. cbn [sy_links] in Hl.
    unfold post_all in Hl. rewrite map_lookup_imap in Hl. destruct (L !! rid) as [ln1|] eqn:Hln; [|done]. injection Hl as <-.
    cbn [post ln_server] in *. destruct (collect_server _ _ _ _ _ Ec Hln) as (ln & ? & Hs & _). exists ln. split; [done|]. rewrite Hs. auto.
  - unfold server_step in E. destruct (sy_links x !! rid') as [ln|] eqn:Hln; [|done]. cbn [mbind option_bind] in E.
    destruct (take_event client_id e ln) as [ln1|] eqn:Ht; [|done]. cbn [mbind option_bind] in E.
    rewrite (take_event_server _ _ _ _ Ht) in E. destruct (Storage.handle e (ln_server ln)) as [[s out]|] eqn:Eh; [|done]. injection E as <-.
    cbn [sy_links] in Hl. destruct (decide (rid' = rid)) as [->|Hne]; [|rewrite lookup_insert_ne in Hl by done; exists ln'; auto].
    rewrite lookup_insert_eq in Hl. injection Hl as <-. exists ln. split; [done|]. cbn [ln_server]. destruct He as [Hw _].
    split; [|right; exists e; split; [done|by eapply handle_host]]. intros sl' Hs.
    destruct (sk_links _ _ _ _ _ _ _ H _ _ Hln) as (sl & base & h & a & Hok).
    pose proof (lo_log _ _ _ _ _ _ _ _ _ _ _ _ Hok) as Hlog. pose proof (lg_server _ _ _ _ _ Hlog) as Hsv.
    destruct (take_event_ok _ _ _ _ _ _ _ Hlog Hw Ht) as (Hev & _).
    pose proof (effect_ok _ _ _ _ Hsv (handle_effect _ _ _ _ _ Hsv Hev Eh)) as Hsv'.
    rewrite (rep_fun _ _ _ (so_rep _ _ Hs) (so_rep _ _ Hsv')). eauto.
Qed.

Lemma increasing_index sl i x : gsns_increasing sl -> (forall y, y ∈ sl -> 0 <= y.2) -> sl !! i = Some x -> Z.of_nat i <= x.2.
Proof.
  intros Hinc Hpos. revert x. induction i as [|i IH]; intros x Hx; [by eapply Hpos, list_elem_of_lookup_2|].
  destruct (lookup_lt_is_Some_2 sl i) as [y Hy]; [apply lookup_lt_Some in Hx; lia|].
  pose proof (IH _ Hy). pose proof (Hinc i (S i) y x Hy Hx). lia.
Qed.

Lemma slots_fit sl rest : sl ++ rest = SL -> Z.of_nat (length sl) <= GSN_BOUND.
Proof.
  intros Htot. destruct (length sl) as [|m] eqn:Hm; [done|].
  destruct (lookup_lt_is_Some_2 sl m) as [x Hx]; [lia|]. assert (SL !! m = Some x) as Hx' by (rewrite <- Htot; by apply lookup_app_l_Some).
  pose proof (increasing_index SL m x SL_increasing ltac:(intros y Hy; by apply SL_range) Hx').
  pose proof (SL_range x ltac:(by eapply list_elem_of_lookup_2)). lia.
Qed.

Section numbered.
(** The number of polling threads of every subscriber. *)
Variable N : gmap Z Z.

Record ordered (r : readers) : Prop := {
  od_hosts : map_Forall (fun _ ln => st_shard_id_ (ln_server ln) = shard_id /\ st_subscriber_threads_ (ln_server ln) = T /\
    Forall (change_agrees N) (bag_list_ (st_subscriber_changes_ (ln_server ln)))) (sy_links (rd_system r));
  od_threads rid index t ln sl : rd_threads r !! (rid, index) = Some t -> sy_links (rd_system r) !! rid = Some ln ->
    server_ok (ln_server ln) sl -> thread_ok T N sl index t;
  od_polls : (fun s => Z.of_nat (length (rd_polls s))) <$> rd_readers r = N;
  od_readers sid s ws : rd_readers r !! sid = Some s -> W !! sid = Some ws ->
    exists D lasts keys positions, delivers shard_id T SL (Z.of_nat (length (rd_polls s))) ws D lasts keys positions s }.

Lemma system_ordered e r q l x :
  ordered r -> sys_ok (rd_system r) q l -> sys_event_ok client_id e (rd_system r) -> introduces e r -> sys_step e (rd_system r) = Some x ->
  ordered (Readers x (rd_threads r) (rd_readers r)).
Proof.
  intros [H1 H2 H3 H4] H He Hi E. split; cbn [rd_system rd_threads rd_readers]; try done.
  - intros rid ln' Hl. destruct (sys_step_host _ _ _ _ _ _ _ H He E Hl) as (ln & Hln & _ & [->|(e' & -> & Hs & _ & Ht & Hb)]); [by apply (H1 rid)|].
    destruct (H1 _ _ Hln) as (Hs1 & Ht1 & Hb1). split; [congruence|]. split; [congruence|].
    destruct Hb as [->|(c & -> & Hc)]; [done|]. apply Forall_app_2; [done|]. apply Forall_singleton. destruct c as [sid n|sid]; [|done].
    subst e'. intros m Hm. rewrite <- H3, lookup_fmap in Hm. destruct (rd_readers r !! sid) as [s|] eqn:Hsid; [|done]. injection Hm as <-. by apply Hi.
  - intros rid index t ln' sl' Ht Hl Hs. destruct (sys_step_host _ _ _ _ _ _ _ H He E Hl) as (ln & Hln & Hsl & _).
    destruct (Hsl _ Hs) as (sl & new & Hs0 & ->). apply thread_ok_app. by eapply H2.
Qed.

Lemma round_ordered rid index r q l r' : ordered r -> sys_ok (rd_system r) q l -> post_round rid index r = Some r' -> ordered r'.
Proof.
  intros [H1 H2 H3 H4] H E. unfold post_round in E. destruct (sy_links (rd_system r) !! rid) as [ln|] eqn:Hln; [|done]. cbn [mbind option_bind] in E.
  destruct (rd_threads r !! _) as [t|] eqn:Ht; [|done]. cbn [mbind option_bind] in E. destruct (subscriber_round _ _) as [[t' out]|] eqn:Er; [|done].
  injection E as <-. destruct (sk_links _ _ _ _ _ _ _ H _ _ Hln) as (sl & base & h & a & Hok).
  pose proof (lo_log _ _ _ _ _ _ _ _ _ _ _ _ Hok) as Hlog. pose proof (lg_server _ _ _ _ _ Hlog) as Hs. pose proof (lg_total _ _ _ _ _ Hlog) as Htot.
  destruct (H1 _ _ Hln) as (Hsh & HT & Hbag). pose proof (slots_fit _ _ Htot) as Hfit.
  destruct (round_routed shard_id T (proj1 T_range) SL N _ _ _ index t t' out Hs Htot Hsh HT) as [Ht' Hr]; try done; [|by eapply H2|].
  { change GSN_BOUND with 4611686018427387904 in Hfit. change MAX_STEP with 4294967296 in T_range. lia. }
  split; cbn [rd_system rd_threads rd_readers]; try done.
  - intros rid' index' t0 ln' sl' Ht0 Hl Hsl. apply lookup_insert_Some in Ht0 as [[[= <- <-] <-]|[_ Ht0]]; [|by eapply H2].
    rewrite Hln in Hl. injection Hl as <-. by rewrite (rep_fun _ _ _ (so_rep _ _ Hsl) (so_rep _ _ Hs)).
  - rewrite <- H3. apply map_eq. intros sid. unfold post_readers. rewrite !lookup_fmap, map_lookup_imap. by destruct (rd_readers r !! sid).
  - intros sid s' ws Hsid Hw. unfold post_readers in Hsid. rewrite map_lookup_imap in Hsid. destruct (rd_readers r !! sid) as [s|] eqn:Hs0; [|done].
    injection Hsid as <-. destruct (H4 _ _ _ Hs0 Hw) as (D & lasts & keys & positions & Hd). exists D, lasts, keys, positions.
    apply set_posted; [done|]. apply Forall_app_2; [apply Hd|]. eapply Forall_impl; [apply (Hr sid)|by left].
    rewrite <- H3, lookup_fmap, Hs0. done.
Qed.

Lemma reader_ordered e r q l r' :
  NUM_SHARDS = 1 -> 0 <= shard_id < NUM_SHARDS -> ordered r -> sys_ok (rd_system r) q l -> reader_event_ok client_id shard_id e r -> reader_step e r = Some r' -> ordered r'.
Proof.
  intros Hns Hsid H Hs He E. destruct e as [e|rid index|sid e]; cbn [Readers.reader_step reader_event_ok] in *.
  - destruct (sys_step e (rd_system r)) as [x|] eqn:Es; [|done]. injection E as <-. destruct He as (He & _ & Hi). by eapply system_ordered.
  - by eapply round_ordered.
  - destruct (rd_readers r !! sid) as [s|] eqn:Hr; [|done]. cbn [mbind option_bind] in E.
    destruct (subscriber_step failures e s) as [s'|] eqn:Es; [|done]. injection E as <-. pose proof (subscriber_step_polls _ _ _ _ Es) as Hl.
    destruct H as [H1 H2 H3 H4]. split; cbn [rd_system rd_threads rd_readers]; try done.
    + rewrite fmap_insert, H3. apply insert_id. rewrite <- H3, lookup_fmap, Hr, Hl. done.
    + intros sid' s0 ws Hs0 Hw. apply lookup_insert_Some in Hs0 as [[<- <-]|[_ Hs0]]; [|by eapply H4].
      destruct (H4 _ _ _ Hr Hw) as (D & lasts & keys & positions & Hd). destruct (W_ok _ _ Hw) as [Hcov Hws]. rewrite Hl.
      eapply subscriber_step_ordered; [done..| |exact Es]. destruct e as [queue e| | |]; try done. lia.
Qed.

Lemma run_ordered es r r' A :
  NUM_SHARDS = 1 -> 0 <= shard_id < NUM_SHARDS -> ordered r -> readers_ok client_id shard_id failures SL final A r ->
  num_enqueued_ (requests_ (sy_client (rd_system r))) + Z.of_nat (length es) < W64 ->
  bounded client_id shard_id failures estimate connect A es r ->
  Readers.reader_events_ok client_id shard_id failures estimate connect es r ->
  Readers.reader_run client_id shard_id failures estimate connect es r = Some r' -> final = sy_sent (rd_system r') -> ordered r'.
Proof.
  intros Hns Hsid. revert r. induction es as [|e es IH]; intros r Ho H Hb Hbd He E Hf; cbn [Readers.reader_run Readers.reader_events_ok length bounded] in *.
  { by injection E as <-. }
  destruct He as [He Hes], Hbd as (HA0 & Hfin & Hbd). pose proof (reader_run_sent client_id shard_id failures estimate connect (e :: es) r r' E) as Hp.
  rewrite <- Hf in Hp. destruct (reader_step e r) as [r1|] eqn:Es; [|done]. cbn [mbind option_bind] in E.
  assert (forall y, y ∈ SL -> 0 <= y.2 < UINT64_MAX) as Hrange.
  { intros y Hy. specialize (SL_range y Hy). change GSN_BOUND with 4611686018427387904 in SL_range. unfold UINT64_MAX. lia. }
  destruct (reader_step_ok client_id shard_id failures estimate connect failures_range SL SL_increasing Hrange final A e r r1 H ltac:(lia) Hp Hfin HA0 He Es
    (bounded_start _ _ _ _ _ _ _ _ Hbd)) as [H1 Hb1].
  destruct (ro_system _ _ _ _ _ _ _ H) as (q & l & Hs). eapply IH; [by eapply reader_ordered|done|lia|done..].
Qed.
End numbered.
End ordered.

(** ** The property *)

(** The walkers of the subscribers that read in parallel. *)
Definition walkers (subscribers : gmap Z (Z * Z * bool)) : gmap Z (list (Z * Z)) :=
  omap (fun '(_, application, sequential) => if negb sequential && (0 <? application) then Some (parallel (Z.to_nat application)) else None) subscribers.

Lemma walkers_ok subscribers :
  map_Forall (fun _ (o : Z * Z * bool) => o.1.2 < MAX_STEP) subscribers ->
  map_Forall (fun _ ws => covering ws /\ Z.of_nat (length ws) < MAX_STEP) (walkers subscribers).
Proof.
  intros Ha sid ws Hw. unfold walkers in Hw. rewrite lookup_omap in Hw.
  destruct (subscribers !! sid) as [[[polling application] sequential]|] eqn:Ho; [|done]. cbn [mbind option_bind] in Hw.
  destruct (negb sequential && _) eqn:Hc; [|done]. apply andb_true_iff in Hc as [_ Hc]. injection Hw as <-.
  specialize (Ha _ _ Ho). cbn [fst snd] in Ha. rewrite length_parallel, Z2Nat.id by lia. split; [|done]. apply parallel_covering; lia.
Qed.

Lemma reader_init_delivers shard_id T SL n v polling application r :
  v <= 2 -> application < MAX_STEP -> reader_init v (polling, application, false) = Some r ->
  delivers shard_id T SL n (parallel (Z.to_nat application)) ∅ [] [] [] r.
Proof.
  intros Hv Ha. unfold reader_init. destruct (subscriber_init _ _ _ _ _ _) as [[[[l polls] its] ?]|] eqn:E; [|done]. intros [= <-].
  unfold subscriber_init in E. inv_result. assert (0 < application) as Hpos by lia. set (m := Z.to_nat application).
  assert (Z.of_nat m = application) as Hm by lia. pose proof (parallel_covering m ltac:(lia) ltac:(lia)) as [Hst _].
  assert ((fun index => process_iterator v index application false) <$> seqZ 0 application = (fun w => iterator_init v w.1 w.2) <$> parallel m) as Hits.
  { unfold parallel. rewrite <- list_fmap_compose, Hm. done. }
  pose proof (system_init_ok v (parallel m) Hv Hst ltac:(by rewrite length_parallel, Hm)) as Hsys.
  unfold system_init in Hsys. rewrite <- Hits, length_parallel, Hm in Hsys.
  split; cbn [rd_log rd_polls rd_iterators rd_read rd_posted]; try done.
  - by rewrite length_fmap, length_seqZ.
  - constructor.
  - intros j p key gsn pos Hj Hk. apply lookup_replicate in Hj as [-> _]. cbn [poll_init shard_info] in Hk. by rewrite lookup_empty in Hk.
  - intros j p Hj. apply lookup_replicate in Hj as [-> _]. apply map_Forall_empty.
Qed.

Lemma ordered_init shard_id T u v servers threads out subscribers SL :
  Z.of_nat threads = T -> v <= 2 -> map_Forall (fun _ (o : Z * Z * bool) => o.1.2 < MAX_STEP) subscribers ->
  (forall rid s, servers !! rid = Some s -> exists ct sd, storage_init shard_id rid ct T sd = Ok s) ->
  let r0 := readers_init (sys_init shard_id u servers out) threads v subscribers in
  ordered shard_id SL T (walkers subscribers) ((fun s => Z.of_nat (length (rd_polls s))) <$> rd_readers r0) r0.
Proof.
  intros HT Hv Ha Hsv r0. split; cbn [r0 readers_init rd_system rd_threads rd_readers].
  - intros rid ln Hl. cbn [sys_init sy_links] in Hl. rewrite map_lookup_imap in Hl. destruct (servers !! rid) as [s|] eqn:Hs; [|done].
    injection Hl as <-. cbn [ln_server]. destruct (Hsv _ _ Hs) as (ct & sd & Hi). unfold storage_init in Hi. inv_result. by split_and!.
  - intros rid index t ln sl Ht Hl _. apply elem_of_list_to_map_2, list_elem_of_bind in Ht as ([rid' ln'] & Ht & Hl').
    apply list_elem_of_fmap in Ht as (i & [= -> -> ->] & Hi). apply elem_of_seq in Hi. apply elem_of_map_to_list in Hl'.
    rewrite Hl in Hl'. injection Hl' as <-. cbn [sys_init sy_links] in Hl. rewrite map_lookup_imap in Hl.
    destruct (servers !! rid') as [s|] eqn:Hs; [|done]. injection Hl as <-. cbn [ln_server]. destruct (Hsv _ _ Hs) as (ct & sd & Hinit).
    apply thread_init; [lia|]. unfold storage_init in Hinit. by inv_result.
  - done.
  - intros sid s ws Hr Hw. unfold walkers in Hw. rewrite lookup_omap in Hr. rewrite lookup_omap in Hw.
    destruct (subscribers !! sid) as [[[polling application] sequential]|] eqn:Ho; [|done].
    cbn [mbind option_bind] in Hr, Hw. destruct sequential; [done|]. cbn [negb andb] in Hw. destruct (0 <? application); [|done]. injection Hw as <-.
    exists ∅, [], [], []. eapply reader_init_delivers; [done|exact (Ha _ _ Ho)|exact Hr].
Qed.

(** C3: subscribers deliver the total order.  In the same system, with the same number of
    subscriber threads at every storage server, less than 2^62 GSNs, and the single shard that
    the code is compiled for, and if the value [v] that is found in [current_blocks_], which the
    iterators of a subscriber's log leave uninitialized, is at most 2 (otherwise they may walk past
    the end of the list of blocks: [uninitialized_overruns]): for every subscriber whose
    application threads read in parallel, the [i]-th entry that the [k]-th of its [n] application threads reads has the GSN [k + n * i], and it is
    an entry of the client to which the ordering server's epochs give this GSN.  So the
    application threads of a subscriber read every GSN from 0 on, each once, in order and
    without a gap, whatever the order in which the messages arrive. *)
Theorem subscribers_deliver_in_order client_id shard_id failures estimate connect u v oes o r servers threads subscribers es x :
  0 <= failures < UINT64_MAX -> order_ok o -> order_events_ok oes o -> order_exec oes o = Ok r ->
  Forall (fun e => ~ storage_intro_event e) oes -> 0 <= shard_id < NUM_SHARDS -> gsn_base_ r.1 <= GSN_BOUND ->
  0 < Z.of_nat threads < MAX_STEP -> v <= 2 -> map_Forall (fun _ (o : Z * Z * bool) => o.1.2 < MAX_STEP) subscribers ->
  (forall rid s, servers !! rid = Some s ->
     rid ∈ replicas o shard_id /\ exists ct sd, storage_init shard_id rid ct (Z.of_nat threads) sd = Ok s) ->
  let r0 := readers_init (sys_init shard_id u servers r.2) threads v subscribers in
  Z.of_nat (length es) < W64 -> reader_events_ok client_id shard_id failures estimate connect es r0 ->
  reader_run client_id shard_id failures estimate connect es r0 = Some x ->
  forall sid polling n s k read i e, subscribers !! sid = Some (polling, n, false) -> rd_readers x !! sid = Some s ->
    rd_read s !! k = Some read -> read !! i = Some e ->
    sle_gsn e = Z.of_nat k + n * Z.of_nat i /\ (sle_client_id e, sle_gsn e) ∈ shard_log shard_id oes o.
Proof.
  pose proof (eq_refl : NUM_SHARDS = 1) as Hns. intros Hf H Hok E Hs Hsid Hgsn HT Hv Ha Hsv r0 Hlen He Hx sid polling n s k read i e Hsub Hr Hk Hi.
  pose proof (epochs_consecutive oes o r shard_id H Hok E) as Hc. pose proof (ok_gsn _ H) as Hg.
  pose proof (slots_of_epochs_increasing _ _ Hc) as Hinc. set (SL := slots_of_epochs (EpochSpec.epochs shard_id oes o)) in *.
  assert (forall y, y ∈ SL -> 0 <= y.2 < GSN_BOUND) as Hrange.
  { intros [c g] Hy. pose proof (shard_log_bounds oes o r shard_id c g H Hok E Hy). simpl. lia. }
  destruct (orderly_bounded _ _ _ _ _ _ _ He) as [A Hbd].
  pose proof (walkers_ok subscribers Ha) as HW.
  assert (ordered shard_id SL (Z.of_nat threads) (walkers subscribers) ((fun s => Z.of_nat (length (rd_polls s))) <$> rd_readers r0) x) as Hord.
  { apply (run_ordered client_id shard_id failures estimate connect Hf SL Hinc Hrange (sy_sent (rd_system x)) _ HT _ HW _ es r0 x A); try done.
    - apply ordered_init; [done..|]. intros rid s0 Hs0. by destruct (Hsv _ _ Hs0).
    - apply readers_init_ok; [lia|done..|]. intros rid s0 Hs0. destruct (Hsv _ _ Hs0) as (? & ct & sd & ?). eauto. }
  assert (0 < n) as Hn.
  { assert (is_Some (rd_readers r0 !! sid)) as [s0 Hs0].
    { pose proof (od_polls _ _ _ _ _ _ Hord) as Hp. apply (f_equal (fun m => m !! sid)) in Hp. rewrite !lookup_fmap, Hr in Hp.
      destruct (rd_readers r0 !! sid); [by eexists|done]. }
    cbn [r0 readers_init rd_readers] in Hs0. rewrite lookup_omap, Hsub in Hs0. cbn [mbind option_bind reader_init] in Hs0.
    destruct (subscriber_init _ _ _ _ _ _) as [[[[? ?] ?] ?]|] eqn:Ei; [|done]. unfold subscriber_init in Ei. inv_result. lia. }
  assert (walkers subscribers !! sid = Some (parallel (Z.to_nat n))) as Hw.
  { unfold walkers. rewrite lookup_omap, Hsub. cbn [mbind option_bind negb andb]. by rewrite (proj2 (Z.ltb_lt _ _)) by lia. }
  destruct (od_readers _ _ _ _ _ _ Hord _ _ _ Hr Hw) as (D & lasts & keys & positions & Hd).
  assert (k < Z.to_nat n)%nat as Hkn.
  { pose proof (sk_reads _ _ _ _ (dl_log _ _ _ _ _ _ _ _ _ _ Hd)) as Hl. cbn [sys_read] in Hl. rewrite length_parallel in Hl.
    rewrite <- Hl. by eapply lookup_lt_Some. }
  destruct (delivers_read _ _ _ _ _ _ _ _ _ _ _ _ _ _ _ Hd (parallel_lookup _ k Hkn) Hk Hi) as [Hge Hin].
  split; [|exact Hin]. rewrite Hge. unfold place. cbn [fst snd]. lia.
Qed.

(** The third entry that the application thread of subscriber 9 has read in the example run. *)
Lemma subscribers_deliver_in_order_witness :
  exists s read e, rd_readers example_readers !! 9 = Some s /\ rd_read s !! 0%nat = Some read /\ read !! 2%nat = Some e /\
    sle_gsn e = 0 + 1 * 2 /\ (sle_client_id e, sle_gsn e) ∈ shard_log 0 example_rounds example_connected.
Proof.
  assert (is_Some (rd_readers example_readers !! 9 ≫= fun s => rd_read s !! 0%nat ≫= fun read => read !! 2%nat)) as [e He].
  { refine (bool_decide_unpack _ _). vm_compute. exact I. }
  apply bind_Some in He as (s & Hs & He). apply bind_Some in He as (read & Hread & He).
  exists s, read, e. split; [exact Hs|]. split; [exact Hread|]. split; [exact He|].
  refine (subscribers_deliver_in_order 3 0 1 None ClientSpec.example_server 0 0 example_rounds example_connected
           (example_order example_rounds example_connected) example_servers 1 (<[9 := (1, 1, false)]> (<[8 := (1, 1, true)]> ∅))
           example_reader_events example_readers _ example_connected_ok example_rounds_ok _ no_intro_rounds _ _ _ _ _
           example_servers_threads _ example_reader_events_ok example_readers_run 9 1 1 s 0 read 2 e eq_refl Hs Hread He).
  - clear. split; discriminate || reflexivity.
  - vm_compute; reflexivity.
  - clear. split; discriminate || reflexivity.
  - clear. vm_compute; discriminate.
  - clear. split; reflexivity.
  - clear. discriminate.
  - apply map_Forall_insert_2; [reflexivity|]. apply map_Forall_insert_2; [reflexivity|]. apply map_Forall_empty.
  - reflexivity.
Defined.
