(* ===== verification/Main.v ===== *)
(** * The main programs ([src/storage/main.cpp], [src/client/main.cpp], [src/subscriber/main.cpp],
    [src/lock_service/main.cpp])

    What the programs do with the libraries: the accept loop of the storage server (the ordering
    server's is [Order.on_accept]), the load generator of the client, the statistics of the
    subscriber and the loop of a lock client.  The parsing of options is a library's, and the
    histograms are HdrHistogram's, of which only the number of recorded values is used: whether a
    value is recorded is a parameter. *)
From S2P Require Import Prelude Consts Util Api StorageLog Storage Client LockService.

(** ** The storage server *)

(** What [start_storage] does with the first message of a connection. *)
Definition storage_accept (shard_id : Z) (m : message) (s : storage) : result storage :=
  match m with
  | MClientIntro intro =>
    _ ← zip_assert (shard_id =? ci_shard_id intro);
    Storage.add_client (ci_client_id intro) s
  | MSubscriberIntro intro => Storage.add_subscriber (sbi_subscriber_id intro) (sbi_num_queues intro) s
  | _ => Ok s
  end.

(** ** The client *)

(** The local variables of [run_test]: the beginning of each request in flight, the number of
    those that were answered, the iterator over the buffers.  The response of the [i]-th element of
    [requests] is at address [i], and the [j]-th buffer at address [j]. *)
Record test := Test { begins : list Z; total_requests : Z; iterator : wraparound_iterator }.

Definition NUM_BUFFERS : Z := MAX_OUTSTANDING_REQUESTS + 1.

Definition test_init (burst : Z) : result test :=
  _ ← zip_assert ((0 <? burst) && (burst <=? MAX_OUTSTANDING_REQUESTS));
  Ok (Test (replicate (Z.to_nat burst) 0) 0 (wraparound_init (Z.to_nat NUM_BUFFERS))).

(** The payload: the time stamp, if it fits, in what the buffer held. *)
Definition payload (length now : Z) (old : list Byte.byte) : list Byte.byte :=
  take (Z.to_nat length) (if 8 <=? length then put (8%nat, wrap64 now) ++ drop 8 old else old).

(** The lambda [generate_and_send]; also the index of the buffer. *)
Definition generate_and_send (client_id size : Z) (request : nat) (now : Z) (t : test) (c : Client.client)
  : result (nat * test * Client.client) :=
  '(buffer, it) ← get_and_increment (iterator t);
  old ← deref (buffers (c_memory c) !! Z.of_nat buffer);
  let length := Z.min size MAX_PAYLOAD in
  let contents := StorageInsert (ins_client_id old) (ins_num_slots old) length (payload length now (ins_data old)) in
  c ← Client.insert client_id (Z.of_nat buffer) (Z.of_nat request) (fill (Z.of_nat buffer) contents c);
  Ok (buffer, Test (<[request := now]> (begins t)) (total_requests t) it, c).

(** One round of the loop, before the time is over: the next request in flight is replaced if it
    has been answered. *)
Definition test_round (client_id size burst now : Z) (t : test) (c : Client.client)
  : result (option nat * test * Client.client) :=
  let request := Z.to_nat (total_requests t `mod` burst) in
  response ← deref (responses (c_memory c) !! Z.of_nat request);
  if response =? UINT64_MAX then Ok (None, t, c) else
  '(buffer, t, c) ← generate_and_send client_id size request now t c;
  Ok (Some buffer, Test (begins t) (wrap64 (total_requests t + 1)) (iterator t), c).

(** [run_test] up to the end of the time, a step at a time: [i] counts the requests of the first
    burst; the buffer that was used, if any. *)
Definition test_step (client_id size burst now : Z) (i : nat) (t : test) (c : Client.client)
  : result (option nat * nat * test * Client.client) :=
  if Z.of_nat i <? burst then
    '(buffer, t, c) ← generate_and_send client_id size i now t c; Ok (Some buffer, S i, t, c)
  else
    '(buffer, t, c) ← test_round client_id size burst now t c; Ok (buffer, i, t, c).

(** The statistics at the end. *)
Definition test_throughput (total duration_us : Z) : result Z :=
  if wrap64 duration_us =? 0 then Err Undefined else Ok (wrap64 (total * 1000000) / wrap64 duration_us).

(** ** The subscriber *)

(** The elements of [start], [end], [num_entries] and [hist->total_count] of one thread. *)
Record stats := Stats { st_start : Z; st_end : Z; num_entries : Z; total_count : Z }.

Definition stats_init : stats := Stats 0 0 0 0.

Section subscriber.
(** [hdr_record_value] records the value. *)
Variable recorded : Z -> bool.

(** The lambda [callback]. *)
Definition stats_callback (now : Z) (entry : subscriber_log_entry) (s : stats) : result stats :=
  count ← (if 8 <=? sle_data_length entry then
             '(begin, _) ← get 8 (sle_data entry);
             Ok (if recorded (time_in_us (swrap64 (now - begin))) then total_count s + 1 else total_count s)
           else Ok (total_count s));
  Ok (Stats (if num_entries s =? 0 then now else st_start s) now (wrap64 (num_entries s + 1)) count).
End subscriber.

(** "calculate the throughput", for one thread. *)
Definition throughput (s : stats) : result Z :=
  if 1 <? num_entries s then
    _ ← zip_assert (total_count s =? swrap64 (num_entries s));
    let us := time_in_us (swrap64 (st_end s - st_start s)) in
    if us =? 0 then Err Undefined else Ok (wrap64 (num_entries s * 1000000) / us)
  else Ok 0.

(** ** The lock client *)

(** The key a worker uses: an [int] modulo a [size_t]. *)
Definition worker_key (cid num_keys : Z) : result Z :=
  if num_keys =? 0 then Err Undefined else Ok (wrap64 cid `mod` num_keys).

(** One round of [worker]; both calls keep their flag in the frame at [done]. *)
Definition worker_round (cid key done : Z) : list action := [Acquire cid key done; Release cid done].

(** [all_lats[i][int(f * leng)]] of the sorted latencies. *)
Definition percentile (f : double) (lats : list Z) : result Z :=
  n ← u64_of_double (dmul f (double_of_Z (Z.of_nat (length lats))));
  deref (lats !! Z.to_nat n).

(** ** Properties *)

(** A client that names another shard terminates the storage server. *)
Lemma storage_accept_shard shard_id intro s :
  ci_shard_id intro <> shard_id -> storage_accept shard_id (MClientIntro intro) s = Err AssertFailed.
Proof. intros Hne. unfold storage_accept. by rewrite (proj2 (Z.eqb_neq _ _)) by congruence. Qed.

(** The subscriber's statistics.  Entries without a time stamp are counted but not recorded in the
    histogram, which the assertion on the totals does not allow for. *)
Lemma small_payloads_fail recorded now1 now2 e1 e2 s1 s2 :
  sle_data_length e1 < 8 -> sle_data_length e2 < 8 ->
  stats_callback recorded now1 e1 stats_init = Ok s1 -> stats_callback recorded now2 e2 s1 = Ok s2 -> throughput s2 = Err AssertFailed.
Proof.
  intros H1 H2. unfold stats_callback. rewrite !(proj2 (Z.leb_gt _ _)) by done. intros [= <-] [= <-]. reflexivity.
Qed.

(** All entries within a microsecond: a division by zero. *)
Lemma throughput_divides_by_zero start num :
  1 < num < I64 -> throughput (Stats start start num num) = Err Undefined.
Proof.
  intros Hn. unfold throughput. cbn [num_entries total_count st_start st_end]. rewrite (proj2 (Z.ltb_lt _ _)) by lia.
  rewrite (swrap64_small num), Z.eqb_refl by lia. cbn [zip_assert mbind result_bind]. by rewrite Z.sub_diag.
Qed.

(** A lock client that is stopped before its first round has no latencies to report. *)
Lemma no_latencies : percentile (ddiv (double_of_Z 99) (double_of_Z 100)) [] = Err Undefined.
Proof. vm_compute. reflexivity. Qed.
