(* ===== verification/MainSpec.v ===== *)
(** * The load generator and the client's loop

    The two threads of [run_test] ([src/client/main.cpp]): the load generator, which fills buffers
    and calls [insert], and the loop of the client library, which sends the requests and writes
    their responses.  Every [Generate] is one iteration of the former, every [Loop] one of the
    latter; they interleave in any way. *)
From S2P Require Import Prelude Consts Util Api StorageLog Storage Client System SystemSpec Main.

(** ** The two threads *)

Record load := Load { ld_sent : nat; ld_test : test; ld_client : Client.client }.

Inductive load_event :=
| Generate (now : Z)
| Loop (stop : bool) (now : Z) (ms : list message).

(** The requests that the client library has not answered: where their responses will be written.
    They are in [outstandings] once they were sent, and in the queue before. *)
Definition unanswered (c : Client.client) : list Z :=
  omap o_response (outstandings (c_acks c)) ++ (waiting (requests_ c)).*2.

(** A request of the load generator: its buffer, the location of its response, and the requests
    that were not answered when the buffer was written. *)
Record sending := Sending { sd_buffer : nat; sd_response : Z; sd_unanswered : list Z }.

Section load.
Variables client_id shard_id failures : Z.
Variable estimate : option pid.
Variable connect : sockaddr_in -> option (message * Z).
Variables size burst : Z.

(** The element of [requests] that is used next. *)
Definition next_response (x : load) : Z :=
  if Z.of_nat (ld_sent x) <? burst then Z.of_nat (ld_sent x) else total_requests (ld_test x) `mod` burst.

Definition load_step (e : load_event) (x : load) : result (list sending * load) :=
  match e with
  | Generate now =>
    '(buffer, i, t, c) ← test_step client_id size burst now (ld_sent x) (ld_test x) (ld_client x);
    Ok ((fun b => Sending b (next_response x) (unanswered (ld_client x))) <$> option_list buffer, Load i t c)
  | Loop stop now ms =>
    '(c, _) ← step client_id shard_id failures estimate connect (Round stop now ms) (ld_client x);
    Ok ([], Load (ld_sent x) (ld_test x) c)
  end.

Fixpoint load_run (es : list load_event) (x : load) : result (list sending * load) :=
  match es with
  | [] => Ok ([], x)
  | e :: es => '(s1, x) ← load_step e x; '(s2, x) ← load_run es x; Ok (s1 ++ s2, x)
  end.

(** ** Responses *)

(** Requests that are not answered have different responses, all still [UINT64_MAX]. *)
Record pending_ok (c : Client.client) : Prop := {
  pk_queue : queue_rep (requests_ c) (waiting (requests_ c));
  pk_different : NoDup (unanswered c);
  pk_unset s : s ∈ unanswered c -> responses (c_memory c) !! s = Some UINT64_MAX }.

Lemma find_ack_inv gsn l before it after : find_ack gsn l = Some (before, it, after) -> l = before ++ it :: after.
Proof.
  revert before. induction l as [|x l IH]; intros before; cbn [find_ack]; [done|].
  destruct (_ || _); [by intros [= <- <- <-]|]. destruct (find_ack gsn l) as [[[b i] a]|]; [|done].
  cbn [mbind option_bind]. intros [= <- <- <-]. by rewrite (IH b).
Qed.

(** An acknowledgement answers at most one request, and writes the response of no other. *)
Lemma insert_ack_pending ack a m a' m' rest :
  on_client_insert_ack failures ack a m = (a', m') ->
  NoDup (omap o_response (outstandings a) ++ rest) ->
  (forall s, s ∈ omap o_response (outstandings a) ++ rest -> responses m !! s = Some UINT64_MAX) ->
  sublist (omap o_response (outstandings a') ++ rest) (omap o_response (outstandings a) ++ rest) /\
  (forall s, s ∈ omap o_response (outstandings a') ++ rest -> responses m' !! s = Some UINT64_MAX).
Proof.
  unfold on_client_insert_ack. intros E Hnd Hmax. destruct (_ && _); [by injection E as <- <-|].
  destruct (find_ack _ _) as [[[before it] after]|] eqn:Ef; [|by injection E as <- <-]. apply find_ack_inv in Ef.
  rewrite Ef in Hnd, Hmax |- *. rewrite omap_app in *. cbn [omap list_omap] in *.
  destruct (failures <? _); injection E as <- <-; cbn [outstandings].
  2:{ rewrite omap_app. cbn [omap list_omap o_response]. done. }
  rewrite omap_app. destruct (o_response it) as [r|]; [|done].
  rewrite <- !app_assoc in *. cbn [app] in *. split; [by apply sublist_app, sublist_cons|].
  intros s Hs. cbn [responses]. apply NoDup_app in Hnd as (_ & Hb & [Hr _]%NoDup_cons).
  rewrite lookup_insert_ne; [apply Hmax; set_solver|]. intros ->. apply elem_of_app in Hs as [Hs|Hs]; [|done].
  apply (Hb _ Hs). by left.
Qed.

(** The loop answers requests, and changes nothing for those that it does not. *)
Definition answers (c c' : Client.client) : Prop :=
  pending_ok c' /\ sublist (unanswered c') (unanswered c) /\ num_enqueued_ (requests_ c') = num_enqueued_ (requests_ c).

Lemma answers_same c c' :
  pending_ok c -> c_acks c' = c_acks c -> c_memory c' = c_memory c -> requests_ c' = requests_ c -> answers c c'.
Proof.
  intros [H1 H2 H3] Ha Hm Hr. unfold answers, unanswered. rewrite Ha, Hr. split; [|done].
  split; unfold unanswered; rewrite ?Ha, ?Hm, ?Hr; done.
Qed.

Lemma client_recv_answers m c c' out :
  pending_ok c -> client_recv client_id shard_id failures connect m c = Ok (c', out) -> answers c c'.
Proof.
  intros H E. destruct m; cbn [client_recv] in E; try (inv_result; by apply answers_same).
  - destruct (Client.on_storage_finished _ _ _ _). inv_result. by apply answers_same.
  - destruct (on_client_insert_ack _ _ _ _) as [a mem] eqn:Ea. inv_result. destruct H as [H1 H2 H3].
    destruct (insert_ack_pending _ _ _ _ _ _ Ea H2 H3) as [Hs Hmax]. split; [|done].
    split; [done|by eapply sublist_NoDup|done].
Qed.

Lemma answers_trans c1 c2 c3 : answers c1 c2 -> answers c2 c3 -> answers c1 c3.
Proof. intros (? & ? & ?) (? & ? & ?). split; [done|]. split; [by etrans|congruence]. Qed.

Lemma recv_batch_answers ms c out c' out' :
  pending_ok c ->
  mfold (fun m '(c, out) => '(c, o) ← client_recv client_id shard_id failures connect m c; Ok (c, out ++ o)) ms (c, out) = Ok (c', out') ->
  answers c c'.
Proof.
  revert c out. induction ms as [|m ms IH]; intros c out H E; cbn [mfold] in E; [injection E as -> ->; by apply answers_same|].
  inv_result. pose proof (client_recv_answers _ _ _ _ H E1) as H1. eapply answers_trans; [exact H1|]. by eapply IH; [apply H1|].
Qed.

Lemma before_recv_answers stop now c c' out :
  pending_ok c -> num_enqueued_ (requests_ c) < W64 -> before_recv client_id failures estimate stop now c = Ok (c', out) -> answers c c'.
Proof.
  intros [H1 H2 H3] Hb E. unfold before_recv in E. destruct (check_stop client_id stop (c_conn c)) as [k out1].
  apply bind_inv in E as ([[s r] out2] & _ & E). apply bind_inv in E as ([c1 out3] & E & [= <- _]).
  unfold send_requests in E. destruct (can_send _ _ _); [|injection E as <- _; by apply answers_same].
  destruct (dequeue_rep _ _ H1 Hb) as (q & Eq & Hq & Hn). cbn [requests_ c_acks c_conn c_memory] in E. rewrite Eq in E.
  cbn [mbind result_bind] in E. unfold answers, unanswered in *. pose proof (waiting_rep _ _ Hq) as Hw.
  destruct (waiting (requests_ c)) as [|[request response] l] eqn:El; cbn [head tail] in *.
  - destruct (decide _) as [Ho|Ho]; injection E as <- _; cbn [c_acks requests_ c_memory outstandings]; rewrite Hw.
    + rewrite Ho in *. split; [|done]. split; unfold unanswered; cbn [c_acks requests_ c_memory outstandings]; rewrite ?Hw; done.
    + split; [|done]. split; unfold unanswered; cbn [c_acks requests_ c_memory outstandings]; rewrite ?Hw; done.
  - apply bind_inv in E as (req & _ & E). apply bind_inv in E as (o & _ & [= <- _]). cbn [c_acks requests_ c_memory outstandings].
    assert (omap o_response (outstandings (c_acks c) ++ [Outstanding (Some response) UINT64_MAX 0]) ++ l.*2 =
      omap o_response (outstandings (c_acks c)) ++ ((request, response) :: l).*2) as Hu.
    { rewrite omap_app, <- app_assoc. done. }
    rewrite Hw, Hu. split; [|done].
    split; unfold unanswered; cbn [c_acks requests_ c_memory outstandings responses]; rewrite ?Hw, ?Hu; done.
Qed.

Lemma loop_answers stop now ms c c' out :
  pending_ok c -> num_enqueued_ (requests_ c) < W64 ->
  step client_id shard_id failures estimate connect (Round stop now ms) c = Ok (c', out) -> answers c c'.
Proof.
  intros H Hb E. cbn [step] in E. destruct (ended (c_conn c)); [injection E as <- _; by apply answers_same|].
  unfold round in E. apply bind_inv in E as ([c1 out1] & E1 & E). apply bind_inv in E as ([c2 out2] & E2 & [= <- _]).
  pose proof (before_recv_answers _ _ _ _ _ H Hb E1) as H1. eapply answers_trans; [exact H1|].
  unfold recv_batch in E2. eapply recv_batch_answers; [apply H1|exact E2].
Qed.

(** ** The load generator *)

(** After [k] requests: where the iterator stands, how many were sent in the first burst and how
    many after it, and which responses may be missing. *)
Record load_ok (k : nat) (x : load) : Prop := {
  lo_burst : 0 < burst <= 128;
  lo_cycle : at_cycle (iterator (ld_test x)) 129 k;
  lo_sent : Z.of_nat (ld_sent x) <= burst;
  lo_total : 0 <= total_requests (ld_test x);
  lo_count : Z.of_nat k = Z.of_nat (ld_sent x) + total_requests (ld_test x);
  lo_first : Z.of_nat (ld_sent x) < burst -> total_requests (ld_test x) = 0;
  lo_pending : pending_ok (ld_client x);
  lo_enqueued : num_enqueued_ (requests_ (ld_client x)) = Z.of_nat k;
  lo_used s : s ∈ unanswered (ld_client x) -> 0 <= s < Z.of_nat (ld_sent x) }.

Lemma insert_pending c request response c' :
  pending_ok c -> response ∉ unanswered c -> num_enqueued_ (requests_ c) + 1 < W64 ->
  Client.insert client_id request response c = Ok c' ->
  pending_ok c' /\ unanswered c' = unanswered c ++ [response] /\ num_enqueued_ (requests_ c') = num_enqueued_ (requests_ c) + 1.
Proof.
  intros [H1 H2 H3] Hn Hb E. unfold Client.insert in E. apply bind_inv in E as (req & _ & E). apply bind_inv in E as (? & _ & [= <-]).
  pose proof (enqueue_rep _ _ (request, response) H1 Hb) as Hq. pose proof (waiting_rep _ _ Hq) as Hw.
  assert (omap o_response (outstandings (c_acks c)) ++ (waiting (requests_ c) ++ [(request, response)]).*2 = unanswered c ++ [response]) as Hu.
  { unfold unanswered. by rewrite fmap_app, app_assoc. }
  assert (num_enqueued_ (enqueue (request, response) (requests_ c)) = num_enqueued_ (requests_ c) + 1) as Hnum.
  { pose proof (qr_polled _ _ H1). pose proof (qr_enqueued _ _ H1). cbn [enqueue num_enqueued_]. apply wrap64_small. lia. }
  split; [|split; [|done]].
  - split; unfold unanswered; cbn [c_acks requests_ c_memory responses]; rewrite ?Hw, ?Hu; [done| |].
    + apply NoDup_app. split; [done|]. split; [|apply NoDup_singleton]. intros s Hs ->%list_elem_of_singleton. done.
    + intros s [Hs| ->%list_elem_of_singleton]%elem_of_app; [|by rewrite lookup_insert_eq].
      rewrite lookup_insert_ne by (intros ->; done). by apply H3.
  - unfold unanswered at 1. cbn [c_acks requests_]. by rewrite Hw.
Qed.

Lemma fill_pending request contents c : pending_ok c -> pending_ok (fill request contents c).
Proof. intros [H1 H2 H3]. by split. Qed.

(** Sending a request whose response is not missing. *)
Lemma generate_and_send_ok k x request now buffer t c :
  load_ok k x -> Z.of_nat k + 1 < W64 -> Z.of_nat request ∉ unanswered (ld_client x) ->
  generate_and_send client_id size request now (ld_test x) (ld_client x) = Ok (buffer, t, c) ->
  buffer = (k `mod` 129)%nat /\ at_cycle (iterator t) 129 (S k) /\ total_requests t = total_requests (ld_test x) /\
  pending_ok c /\ unanswered c = unanswered (ld_client x) ++ [Z.of_nat request] /\ num_enqueued_ (requests_ c) = Z.of_nat (S k).
Proof.
  intros H Hk Hn E. unfold generate_and_send in E. destruct (get_and_increment_cycle _ _ _ (lo_cycle _ _ H)) as (w & Ew & Hw).
  rewrite Ew in E. cbn [mbind result_bind] in E. apply bind_inv in E as (old & _ & E). apply bind_inv in E as (c1 & E & [= <- <- <-]).
  apply insert_pending in E as (H1 & H2 & H3);
    [|apply fill_pending, H|exact Hn|cbn [fill requests_]; rewrite (lo_enqueued _ _ H); lia].
  split_and!; [done|done|done|done|exact H2|]. rewrite H3. cbn [fill requests_]. rewrite (lo_enqueued _ _ H). lia.
Qed.

(** What was sent in a step, and that its response was not missing. *)
Definition sends_ok (k : nat) (ss : list sending) : Prop :=
  forall i s, ss !! i = Some s ->
    sd_buffer s = ((k + i) `mod` 129)%nat /\ sd_response s = Z.of_nat (k + i) `mod` burst /\ sd_response s ∉ sd_unanswered s.

Lemma load_step_ok k e x ss x' :
  load_ok k x -> Z.of_nat k + 1 < W64 -> load_step e x = Ok (ss, x') ->
  load_ok (k + length ss) x' /\ sends_ok k ss /\ (length ss <= 1)%nat.
Proof.
  intros H Hk E. pose proof H as [L1 L2 L3 L4 L5 L6 L7 L8 L9]. destruct e as [now|stop now ms]; cbn [load_step] in E.
  2:{ apply bind_inv in E as ([c out] & E & [= <- <-]). cbn [length]. rewrite Nat.add_0_r.
      destruct (loop_answers _ _ _ _ _ _ L7 ltac:(lia) E) as (H1 & H2 & H3). split; [|by split; [intros i s ?|lia]].
      split; cbn [ld_test ld_sent ld_client]; try done; [by rewrite H3|]. intros s Hs. apply L9. by eapply elem_of_sublist. }
  apply bind_inv in E as ([[[b i] t] c] & E & [= <- <-]). unfold test_step, next_response in *.
  destruct (Z.ltb_spec (Z.of_nat (ld_sent x)) burst) as [Hlt|Hge].
  - apply bind_inv in E as ([[buffer t1] c1] & E & [= <- <- <- <-]).
    assert (Z.of_nat (ld_sent x) ∉ unanswered (ld_client x)) as Hn by (intros ?%L9; lia).
    specialize (L6 Hlt). destruct (generate_and_send_ok _ _ _ _ _ _ _ H Hk Hn E) as (-> & H1 & H2 & H3 & H4 & H5).
    cbn [option_list fmap list_fmap length]. rewrite Nat.add_1_r. split; [|split; [|done]].
    + split; cbn [ld_test ld_sent ld_client]; rewrite ?H2; try done; try lia. intros s. rewrite H4. intros [?%L9| ->%list_elem_of_singleton]%elem_of_app; lia.
    + intros [|i] s; [intros [= <-]|done]. cbn [sd_buffer sd_response sd_unanswered]. rewrite Nat.add_0_r.
      split; [done|]. split; [|done]. rewrite Z.mod_small; lia.
  - assert (Z.of_nat (ld_sent x) = burst) as Hs by lia. apply bind_inv in E as ([[b1 t1] c1] & E & [= <- <- <- <-]).
    unfold test_round in E. pose proof (Z.mod_pos_bound (total_requests (ld_test x)) burst ltac:(lia)) as Hm.
    rewrite Z2Nat.id in E by lia. apply bind_inv in E as (response & Er%deref_inv & E).
    destruct (Z.eqb_spec response UINT64_MAX) as [_|Hr].
    + injection E as <- <- <-. cbn [option_list fmap list_fmap length]. rewrite Nat.add_0_r. split; [by destruct x|]. split; [by intros i s ?|simpl; lia].
    + apply bind_inv in E as ([[buffer t2] c2] & E & [= <- <- <-]).
      assert (Z.of_nat (Z.to_nat (total_requests (ld_test x) `mod` burst)) ∉ unanswered (ld_client x)) as Hn.
      { rewrite Z2Nat.id by lia. intros Hin. apply (pk_unset _ L7) in Hin. congruence. }
      destruct (generate_and_send_ok _ _ _ _ _ _ _ H Hk Hn E) as (-> & H1 & H2 & H3 & H4 & H5). rewrite Z2Nat.id in Hn, H4 by lia.
      assert (wrap64 (total_requests t2 + 1) = total_requests (ld_test x) + 1) as Hw by (rewrite H2; apply wrap64_small; lia).
      cbn [option_list fmap list_fmap length]. rewrite Nat.add_1_r. split; [|split; [|done]].
      * split; cbn [ld_test ld_sent ld_client iterator total_requests]; rewrite ?Hw; try done; try lia.
        intros s. rewrite H4. intros [?%L9| ->%list_elem_of_singleton]%elem_of_app; lia.
      * intros [|i] s; [intros [= <-]|done]. cbn [sd_buffer sd_response sd_unanswered]. rewrite Nat.add_0_r.
        split; [done|]. split; [|done]. rewrite L5, Hs. replace (burst + total_requests (ld_test x)) with (total_requests (ld_test x) + 1 * burst) by lia. by rewrite Z.mod_add by lia.
Qed.

Lemma load_run_ok es k x ss x' :
  load_ok k x -> Z.of_nat k + Z.of_nat (length es) < W64 -> load_run es x = Ok (ss, x') -> sends_ok k ss.
Proof.
  revert k x ss. induction es as [|e es IH]; intros k x ss H Hk E; cbn [load_run] in E; [by injection E as <- _; intros i s ?|].
  apply bind_inv in E as ([s1 x1] & E1 & E). apply bind_inv in E as ([s2 x2] & E2 & [= <- ->]). cbn [length] in Hk.
  destruct (load_step_ok _ _ _ _ _ H ltac:(lia) E1) as (H1 & Hs1 & Hl).
  specialize (IH _ _ _ H1 ltac:(lia) E2). intros i s [Hi|[Hge Hi]]%lookup_app_Some; [by apply Hs1|].
  specialize (IH _ _ Hi). replace (k + length s1 + (i - length s1))%nat with (k + i)%nat in IH by lia. done.
Qed.
End load.

(** The start of [run_test], with a client that has done nothing. *)
Definition load_init (uninitialized : Z) (mem : memory) (t : test) : load := Load 0 t (loop_init uninitialized mem).

(** ** The property *)

(** C38: the load generator never overwrites the buffer of a request that has not been answered.
    The load generator and the loop of the client library run at the same time, whatever is
    received and however the clock behaves, for less than 2^64 steps.  The [n]-th request of the
    load generator has its response at [requests[n % burst]], and when its buffer is written there
    is no request with this response that the library has still to send or to answer.  And if it
    uses the same buffer as an earlier one, the [j]-th, then between them there is another one, the
    [m]-th, with the same response as the [j]-th, so that the [j]-th had been answered before. *)
Theorem buffers_reused_after_answer client_id shard_id failures estimate connect size burst u mem es t ss x :
  test_init burst = Ok t -> Z.of_nat (length es) < W64 ->
  load_run client_id shard_id failures estimate connect size burst es (load_init u mem t) = Ok (ss, x) ->
  (forall n s, ss !! n = Some s -> sd_response s = Z.of_nat n `mod` burst /\ sd_response s ∉ sd_unanswered s) /\
  (forall j n s1 s2, (j < n)%nat -> ss !! j = Some s1 -> ss !! n = Some s2 -> sd_buffer s1 = sd_buffer s2 ->
     exists m s, (j < m < n)%nat /\ ss !! m = Some s /\ sd_response s = sd_response s1 /\ sd_response s1 ∉ sd_unanswered s).
Proof.
  intros Ht Hl E. unfold test_init in Ht. apply bind_inv in Ht as (? & Hb%zip_assert_inv & [= <-]).
  change MAX_OUTSTANDING_REQUESTS with 128 in Hb. apply andb_true_iff in Hb as [Hb1%Z.ltb_lt Hb2%Z.leb_le].
  assert (sends_ok burst 0 ss) as Hs.
  { eapply (load_run_ok _ _ _ _ _ size burst es 0); [|exact Hl|exact E]. split; cbn; try lia; [by split_and!; cbn; try lia| |by intros s ?%elem_of_nil].
    split; [by split|apply NoDup_nil_2|by intros s ?%elem_of_nil]. }
  split; [intros n s Hn; by apply Hs in Hn as (_ & ? & ?)|]. intros j n s1 s2 Hjn Hj Hn Hbuf.
  destruct (Hs _ _ Hj) as (Hj1 & Hj2 & _), (Hs _ _ Hn) as (Hn1 & _). cbn [Nat.add] in *.
  assert (j + Z.to_nat burst < n)%nat as Hgap.
  { rewrite Hj1, Hn1 in Hbuf. pose proof (Nat.div_mod_eq j 129). pose proof (Nat.div_mod_eq n 129). lia. }
  destruct (lookup_lt_is_Some_2 ss (j + Z.to_nat burst)) as [s Hm]; [apply lookup_lt_Some in Hn; lia|].
  destruct (Hs _ _ Hm) as (_ & Hm2 & Hm3). cbn [Nat.add] in Hm2. exists (j + Z.to_nat burst)%nat, s.
  assert (sd_response s = sd_response s1) as Heq.
  { rewrite Hm2, Hj2. replace (Z.of_nat (j + Z.to_nat burst)) with (Z.of_nat j + 1 * burst) by lia. by rewrite Z.mod_add by lia. }
  split_and!; [lia|lia|done|done|]. by rewrite <- Heq.
Qed.

(** One request in flight, with one replica and no failures to tolerate: every 30 microseconds the
    replica acknowledges a request, and the next one is sent, until the buffers come around. *)
Definition example_load_server (a : sockaddr_in) : option (message * Z) :=
  let intro := MStorageIntro (StorageIntro 0 (sin_port a) 2 0) in Some (intro, message_length intro).
Definition example_load_info : message := MClientStorageInfo (ClientStorageInfo 1 [SockaddrIn 2 0 0 0]).
Definition example_load_memory : memory := Memory (list_to_map ((fun i => (i, StorageInsert 0 0 0 [])) <$> seqZ 0 129)) ∅.
Definition example_load_test : test := match test_init 1 with Ok t => t | Err _ => Test [] 0 (wraparound_init 0) end.
Definition example_load_events : list load_event := [
  Loop false 0 [example_load_info; MClientNewEpoch (ClientNewEpoch 10000000 500)]; Generate 10000000; Generate 10000000] ++
  (seqZ 1 130 ≫= fun i => [Loop false (10000000 + 30000 * i) [MClientInsertAck (ClientInsertAck 0 (40 + 3 * i))]; Generate (10000000 + 30000 * i)]).
Abbreviation example_load_run := (load_run 5 0 0 None example_load_server 8 1 example_load_events (load_init 0 example_load_memory example_load_test)).
Definition example_sendings : list sending := match example_load_run with Ok r => r.1 | Err _ => [] end.
Definition example_loaded : load := match example_load_run with Ok r => r.2 | Err _ => load_init 0 example_load_memory example_load_test end.

Example example_comes_around :
  length example_sendings = 131%nat /\ sd_buffer <$> example_sendings !! 0%nat = Some 0%nat /\ sd_buffer <$> example_sendings !! 129%nat = Some 0%nat /\
  unanswered (ld_client example_loaded) = [0].
Proof. split_and!; vm_compute; reflexivity. Qed.

Lemma buffers_reused_after_answer_witness :
  (forall n s, example_sendings !! n = Some s -> sd_response s = Z.of_nat n `mod` 1 /\ sd_response s ∉ sd_unanswered s) /\
  (forall j n s1 s2, (j < n)%nat -> example_sendings !! j = Some s1 -> example_sendings !! n = Some s2 -> sd_buffer s1 = sd_buffer s2 ->
     exists m s, (j < m < n)%nat /\ example_sendings !! m = Some s /\ sd_response s = sd_response s1 /\ sd_response s1 ∉ sd_unanswered s).
Proof.
  apply (buffers_reused_after_answer 5 0 0 None example_load_server 8 1 0 example_load_memory example_load_events example_load_test
           example_sendings example_loaded); [vm_compute; reflexivity|reflexivity|vm_compute; reflexivity].
Defined.
